(* ===== verification/_CoqProject ===== *)
-Q . S2P
Prelude.v
GoStrings.v
GoUrl.v
GoFloat.v
Base64.v
Json.v
JsonText.v
JsonTextSpec.v
GoFloatSpec.v
JsonTypes.v
JsonTypesSpec.v
Sha256.v
Adapters.v
Responses.v
Endpoint.v
Clients.v
Registry.v
RegistrySpec.v
Events.v
Interfaces.v
Jobs.v
System.v
Netip.v
Http.v
NZBGet.v
ODownloader.v
JDownloader.v
QBittorrent.v
Answers.v
Views.v
Auth.v
Issuer.v
Backends.v
Redaction.v
Requests.v
Traffic.v
Gateway.v
ApiRequests.v
ApiReplies.v
Programs.v
Threads.v
ThreadsSpec.v
Traces.v
Liveness.v
Lifecycle.v
