(* ===== verification/Prelude.v ===== *)
(** * download-gateway: the root of the development

    download-gateway puts one HTTP API before several download clients (NZBGet, qBittorrent,
    oDownloader).  It keeps a registry of clients, some configured by the environment and some pushed
    through a configuration API; it tracks the jobs it hands to them, polls them, and publishes what
    becomes of each job to Kafka.  This library models that program file by file and proves what each
    part promises.  This file holds what the others share: results, machine integers, automation,
    generic lemmas, and this guide.

    ** The parts, and where the source is

    - internal/adapters/adapters.go: Adapters.v (data, [payloadFileName]), Interfaces.v (the interfaces,
      as the class [AdapterOps] the gateway's theorems are proved against).
    - internal/adapters/clients.go: Clients.v (catalog, [PrepareSpec], [specHash], redaction), with the
      catalog's [build] functions in Backends.v.
    - internal/adapters/endpoint.go: Endpoint.v ([RefusedAddr], [sameOrigin], [guard]), Netip.v ([refuseDial], with the
      parsing of the dialled address).
    - internal/adapters/responses.go: Responses.v (errors, [PublicError], [truncate]), Http.v
      ([decodeCapped], requests and responses), Answers.v (the structs the adapters decode, on bytes), Views.v (what each
      [Describe] makes of those bytes).
    - internal/adapters/registry.go: Registry.v (every operation), RegistrySpec.v (what it promises).
    - internal/adapters/nzbget.go, odownloader.go, jdownloader.go, qbittorrent.go: NZBGet.v,
      ODownloader.v, JDownloader.v, QBittorrent.v; Backends.v makes them one type with its instance of
      [AdapterOps], and discharges the registry's [ClientFactory].
      Requests.v has what the escaped paths, queries and forms are read back as, Traffic.v the requests an adapter
      sends, Redaction.v what is shown of a client ([LogValue]).
    - internal/auth/oidc.go: Auth.v.  internal/auth/authtest/issuer.go: Issuer.v.
    - internal/events/events.go: Events.v, with the payloads' fields and tags.
    - cmd/server/main.go: Jobs.v (job table, derived values, poll loop), Gateway.v (budget, handlers,
      adoption, routes, environment clients), System.v (the registry's walk and the tracked jobs, interleaved),
      Programs.v (handlers, polls and adoption as programs of critical sections), Threads.v (a pool of goroutines
      that run them), ThreadsSpec.v (what the pool promises), Traces.v (what a goroutine has done before it writes), Liveness.v (that it
      comes to rest), Lifecycle.v ([main] around the pool, from connecting to the exit).
      ApiRequests.v has [decodeJSON] and the bodies of requests on bytes, ApiReplies.v [writeJSON] and the replies.
    - cmd/server/config.go: Gateway.v, Programs.v, ApiRequests.v, ApiReplies.v.
    - Go's own packages: GoStrings.v (strings, unicode/utf8, strconv), GoUrl.v (net/url), Netip.v (net, net/netip), Base64.v,
      Sha256.v, GoFloat.v (float64, and its decimal text), and encoding/json: Json.v (the text written of a value), JsonText.v
      (the scanner), JsonTextSpec.v (the scanner reads what is written), GoFloatSpec.v (every finite float64 reads back from the
      text written of it), JsonTypes.v (decoding into and encoding of values of
      declared types, [Decoder.Decode]), JsonTypesSpec.v (what is written of a value of a type is read back).

    ** How state and operations correspond

    A struct is a [Record], its methods functions on it; a mutex's critical section is one function
    from state to state, and System.v is the step relation of what runs between them.  A handler or an
    adapter's method returns the new state, its reply or error, the events it published, and the world
    after the requests it made: the world is a type variable that stands for everything outside the
    process.  [(T, error)] is [result error T], with one constructor of [error] per way the source
    builds one.  A struct that is sent or received is also a value of [goval] under its [gotype], the
    names and options of its tags: [X_type] is the type of the struct [X], [X_go] makes the value of a record, [of_X] the record of
    a value.  Integers are [Z] with [int64] and [int32] written where the source can wrap; strings
    and []byte are byte strings; a map is a [gmap], and where the source ranges over it the order is an
    argument.  Operations that need fresh pointers number them.

    Concurrency is modelled twice, at two grains.  Gateway.v gives each handler as one function, as if nothing ran
    beside it.  Programs.v gives the same handler as a [prog], a tree of actions of which each is one critical section
    (or one call of a client) and whose continuation holds the goroutine's local variables; Threads.v steps a pool
    of such goroutines in any order ([gstep], [pstep]), with the registry's lock held over a walk, the poll loop's
    semaphore and wait group, and new requests and ticks at any moment.  [requests_sequential] says that the two agree
    on a goroutine that runs alone, and [pool_refines] that the pool implements the abstract steps of System.v.  Lifecycle.v
    puts [main] beside the pool: what it does in which order ([phase]), and the signal, the requests and the deadline that come
    from outside ([pcstep]).

    ** What the theorems show

    - Registry: [registry_invariant], [Apply_outcome] (a push, client by client on every branch, and what it
      reports), [Apply_idempotent], [Reap_outcome] (what is dropped, and that a lease keeps a client),
      [registry_order_irrelevant].
    - Registry and jobs together: [tracked_client_present] (no interleaving leaves a tracked job without
      its client, and a poll that finds none drops no job), [walk_refines] (an interleaved push or reaping is one
      atomic call).
    - Goroutines: [pool_refines], [pool_limits] (the budget, and at most eight polls unfinished, under every
      interleaving), [writes_in_order] (what each goroutine has done before it writes the job table, publishes or answers),
      [pool_rests] (no deadlock, and the goroutines at work end); [process_order] (what the order of [main]
      guarantees, and what it does not wait for), [shutdown_ends] (a shutdown ends).
    - Jobs: [terminal_once] (with what each poll announces), [poll_grace], [derived_bounds].
    - Settings: [PrepareSpec_valid] (what is accepted, both ways, and its normal form), [fingerprints].
    - What callers see: [PublicError_public] (an error word for word), [secrets_not_shown].
    - Who gets in and where requests go: [Middleware_admits], [minted_tokens] (the tests' tokens, from their bytes), [config_api_guarded], [refuseDial_exact],
      [requests_stay], [authed_requests], [forms_read_back].
    - Handlers: [handleAdd_effects], [adopt_keeps_live].
    - On bytes: [add_bodies] (the body of an add), [replies_read_back] (the answers), [capped_answers] (what clients
      answer), [Describe_bytes] (what is known of a job), [emit_message] (the events).  They hold for every finite float64
      ([float_text_reads]), and the percentages the gateway computes are finite ([pct_finite]).
    - Adapters: [appendContent_streams], [foldODL_rule] (every field), [Adopt_live] (exactly what is adopted), [catalog_truthful],
      [payloadFileName_safe].
    - Events: [producerConfig_tls], [emit_message].

    ** Parameters

    Code that is not the program's own is an argument: [Quote] (strconv.Quote), [KafkaEnv] (sarama,
    crypto/tls, files), [HttpWorld] (http.Client.Do and the cookie jar), [JsonErrors] (the texts of
    encoding/json's errors, and how far its decoder read ahead when it refused a text), [Multipart] (the boundary and disposition
    mime/multipart writes), [Oidc] (go-oidc's discovery and signature checks; what it documents of a verifier is the record
    [verifies]), [Rsa] (crypto/rsa), [Process] (random tags, map order, buffer sizes), [FloatConv] (float to integer out of range), the case
    folding of [EqualFold], time.ParseDuration and the environment.  The adapters' theorems hold for any
    decoding, [Decodes]; Answers.v has the one of encoding/json, which the theorems on bytes are about.

    ** Fuel

    [runes_fuel] has one unit per byte, and each rune takes a byte at least.  [itoa_fuel] and
    [hex_fuel] write one digit per unit, and are given as many as the number can have.  [drain] reads
    the upload with one unit more than its base64 has bytes, enough when every buffer has room for a
    byte, as [appendContent_streams] supposes.  [blocks_of] has a unit per word of the padded message.
    The JSON scanner has two units for each byte and one more, as every value, member and element it reads takes a
    byte: [scan_fuel_enough] shows that more change nothing, for any text; the decimal digits of a float64 are searched up to 17, which
    tell any two apart ([shortest_reads]).  [big_bytes] has a unit for each bit, and writes a byte per unit.

    ** Not modelled

    The logging sink and metrics, which nothing reads back; contexts and the lengths of periods: a call that times out is an error
    of the world, a tick or a deadline comes at any moment; routing inside chi, the framing of HTTP and of multipart bodies, TLS and
    Kafka's protocol, which are libraries the source calls and whose results are parameters; Go's memory model; and the Dockerfiles, workflows and manifests, which hold no program logic. *)

From Stdlib Require Export ZArith Lia.
From stdpp Require Export base tactics gmap strings list sorting fin_maps.

(** The development writes Go integers as [Z] with their wrap-around explicit and Go strings as
    [string], whose characters are bytes; both scopes are delimited, never opened globally. *)
#[global] Open Scope stdpp_scope.

(** stdpp's solvers clear hypotheses they already consumed. *)
#[export] Set Warnings "-clear-no-such-hyp,-level-tolerance,-register-all".

(** ** Results of fallible Go functions: [(T, error)] *)

Inductive result (E A : Type) : Type :=
  | Ok (a : A)
  | Err (e : E).
Arguments Ok {E A} _.
Arguments Err {E A} _.

Declare Scope gw_scope.
Delimit Scope gw_scope with gw.

(** [if err != nil { return ..., err }]. *)
Notation "'let?' x ':=' c 'in' k" :=
  (match c with Ok x => k | Err e => Err e end)
  (at level 10, x pattern, c at level 100, k at level 200) : gw_scope.

Definition rmap {E A B} (f : A → B) (r : result E A) : result E B :=
  match r with Ok x => Ok (f x) | Err e => Err e end.

Definition is_ok {E A} (r : result E A) : bool :=
  match r with Ok _ => true | Err _ => false end.

#[export] Instance result_eq_dec {E A} `{EqDecision E, EqDecision A} : EqDecision (result E A).
Proof. solve_decision. Defined.

(** ** Machine integers *)

(** Two's complement wrap-around of a [w]-bit signed integer. *)
Definition wrapS (w : Z) (z : Z) : Z := ((z + 2 ^ (w - 1)) mod 2 ^ w - 2 ^ (w - 1))%Z.
Definition int64 : Z → Z := wrapS 64.
Definition int32 : Z → Z := wrapS 32.

Definition fits (w : Z) (z : Z) : Prop := (- 2 ^ (w - 1) ≤ z < 2 ^ (w - 1))%Z.
Abbreviation fits64 := (fits 64).
Abbreviation fits32 := (fits 32).

Lemma wrapS_fits w z : (0 < w)%Z → fits w (wrapS w z).
Proof.
  intros Hw. unfold fits, wrapS.
  assert (H2 : (2 ^ w = 2 * 2 ^ (w - 1))%Z).
  { rewrite <- Z.pow_succ_r by lia. f_equal. lia. }
  pose proof (Z.mod_pos_bound (z + 2 ^ (w - 1)) (2 ^ w) ltac:(lia)). lia.
Qed.

Lemma wrapS_id w z : (0 < w)%Z → fits w z → wrapS w z = z.
Proof.
  intros Hw [H1 H2]. unfold wrapS.
  assert (H3 : (2 ^ w = 2 * 2 ^ (w - 1))%Z).
  { rewrite <- Z.pow_succ_r by lia. f_equal. lia. }
  rewrite Z.mod_small by lia. lia.
Qed.

Lemma int64_id z : fits64 z → int64 z = z.
Proof. by apply wrapS_id. Qed.

Lemma int32_id z : fits32 z → int32 z = z.
Proof. by apply wrapS_id. Qed.

Lemma int64_fits z : fits64 (int64 z).
Proof. by apply wrapS_fits. Qed.

Lemma int32_fits z : fits32 (int32 z).
Proof. by apply wrapS_fits. Qed.

(** Wrapping a sum twice is wrapping it once. *)
Lemma int64_add_l x y : int64 (int64 x + y) = int64 (x + y).
Proof.
  unfold int64, wrapS.
  replace ((x + 2 ^ (64 - 1)) mod 2 ^ 64 - 2 ^ (64 - 1) + y + 2 ^ (64 - 1))%Z with
    ((x + 2 ^ (64 - 1)) mod 2 ^ 64 + y)%Z by lia.
  rewrite Zplus_mod_idemp_l. do 2 f_equal. lia.
Qed.

(** Bits put in below a shifted value. *)
Lemma lor_shiftl a b w : (0 ≤ w)%Z → (0 ≤ b < 2 ^ w)%Z → Z.lor (Z.shiftl a w) b = (a * 2 ^ w + b)%Z.
Proof.
  intros Hw Hb. assert (Hz : Z.land (Z.shiftl a w) b = 0%Z).
  { apply Z.bits_inj'. intros n Hn. rewrite Z.land_spec, Z.bits_0. destruct (Z.lt_ge_cases n w) as [Hlt|Hge].
    - by rewrite Z.shiftl_spec_low by done.
    - destruct (decide (b = 0%Z)) as [->|Hne]; [by rewrite Z.bits_0, andb_false_r|].
      rewrite (Z.bits_above_log2 b n), andb_false_r; [done|lia|]. destruct Hb as [Hb1 Hb2]. apply Z.log2_lt_pow2 in Hb2; lia. }
  rewrite <- Z.lxor_lor, <- Z.add_nocarry_lxor, Z.shiftl_mul_pow2 by done. done.
Qed.

(** Go's [/] truncates toward zero; its divisor is never zero where the program uses it. *)
Definition go_div (a b : Z) : Z := int64 (Z.quot a b).

(** ** Hint databases and tactics of the development *)

Create HintDb gw discriminated.
#[export] Hint Resolve int64_fits int32_fits : gw.

(** Case analysis on the discriminee of every [match] of the goal, with its equation kept. *)
Ltac split_match :=
  repeat match goal with
  | |- context [match ?x with _ => _ end] =>
      lazymatch x with
      | context [match _ with _ => _ end] => fail
      | _ => destruct x eqn:?
      end
  end.

(** The same in a hypothesis. *)
Ltac split_match_in H :=
  repeat match type of H with
  | context [match ?x with _ => _ end] =>
      lazymatch x with
      | context [match _ with _ => _ end] => fail
      | _ => destruct x eqn:?
      end
  end.

(** Boolean tests of the code to propositions. *)
Ltac bool_to_prop :=
  repeat match goal with
  | H : (_ && _)%bool = true |- _ => apply andb_true_iff in H as [? ?]
  | H : (_ || _)%bool = false |- _ => apply orb_false_iff in H as [? ?]
  | H : negb _ = true |- _ => apply negb_true_iff in H
  | H : negb _ = false |- _ => apply negb_false_iff in H
  | H : bool_decide _ = true |- _ => apply bool_decide_eq_true in H
  | H : bool_decide _ = false |- _ => apply bool_decide_eq_false in H
  | H : (_ <? _)%Z = true |- _ => apply Z.ltb_lt in H
  | H : (_ <? _)%Z = false |- _ => apply Z.ltb_ge in H
  | H : (_ <=? _)%Z = true |- _ => apply Z.leb_le in H
  | H : (_ <=? _)%Z = false |- _ => apply Z.leb_gt in H
  | H : (_ =? _)%Z = true |- _ => apply Z.eqb_eq in H
  | H : (_ =? _)%Z = false |- _ => apply Z.eqb_neq in H
  end.

(** ** Sorting: [sort.Strings] and [sort.Slice] by id *)

#[export] Instance string_le_total : Total String.le.
Proof. apply _. Qed.

Definition sort_strings (l : list string) : list string := merge_sort String.le l.

Lemma sort_strings_perm l : sort_strings l ≡ₚ l.
Proof. apply merge_sort_Permutation. Qed.

Lemma sort_strings_sorted l : StronglySorted String.le (sort_strings l).
Proof. apply (StronglySorted_merge_sort _). Qed.

(** Sorting erases the order in which the elements were collected. *)
Lemma sort_strings_unique l1 l2 : l1 ≡ₚ l2 → sort_strings l1 = sort_strings l2.
Proof.
  intros Hp. apply (StronglySorted_unique String.le).
  - apply sort_strings_sorted.
  - apply sort_strings_sorted.
  - by rewrite !sort_strings_perm.
Qed.

Lemma elem_of_sort_strings x l : x ∈ sort_strings l ↔ x ∈ l.
Proof. by rewrite sort_strings_perm. Qed.

Lemma sort_strings_nil : sort_strings [] = [].
Proof. reflexivity. Qed.

(** [sort.Slice(out, func(i, j int) bool { return out[i].ID < out[j].ID })] for a slice whose
    elements have an id: the order on elements is the order on their ids. *)
Definition by_id {A} (id : A → string) (a b : A) : Prop := String.le (id a) (id b).

#[export] Instance by_id_dec {A} (id : A → string) : RelDecision (by_id id).
Proof. intros a b. unfold by_id. apply _. Defined.

#[export] Instance by_id_total {A} (id : A → string) : Total (by_id id).
Proof. intros a b. unfold by_id. apply (total String.le). Qed.

#[export] Instance by_id_trans {A} (id : A → string) : Transitive (by_id id).
Proof. intros a b c. unfold by_id. apply (transitivity (R := String.le)). Qed.

Definition sort_by {A} (id : A → string) (l : list A) : list A := merge_sort (by_id id) l.

Lemma sort_by_perm {A} (id : A → string) l : sort_by id l ≡ₚ l.
Proof. apply merge_sort_Permutation. Qed.

Lemma sort_by_sorted {A} (id : A → string) l : StronglySorted (by_id id) (sort_by id l).
Proof. apply (StronglySorted_merge_sort _). Qed.

Lemma sort_by_ids_sorted {A} (id : A → string) l :
  StronglySorted String.le (id <$> sort_by id l).
Proof.
  pose proof (sort_by_sorted id l) as H. induction H as [|a l' Hs IH Hall]; csimpl; constructor; [done|].
  rewrite Forall_fmap. exact Hall.
Qed.

(** With distinct ids the sorted slice does not depend on the order of collection. *)
Lemma sort_by_unique {A} (id : A → string) l1 l2 :
  NoDup (id <$> l1) → l1 ≡ₚ l2 → sort_by id l1 = sort_by id l2.
Proof.
  intros Hnd Hp.
  apply (StronglySorted_unique_strong (by_id id)); [| apply sort_by_sorted | apply sort_by_sorted |].
  - intros a b Ha Hb Hab Hba.
    rewrite sort_by_perm in Ha. rewrite sort_by_perm in Hb. rewrite <- Hp in Hb.
    assert (Hid : id a = id b) by (apply (anti_symm String.le); done).
    apply list_elem_of_lookup in Ha as [i Hi]. apply list_elem_of_lookup in Hb as [j Hj].
    assert (i = j) as ->.
    { eapply NoDup_lookup; [exact Hnd| |]; rewrite list_lookup_fmap.
      - rewrite Hi. reflexivity.
      - rewrite Hj. simpl. by rewrite Hid. }
    congruence.
  - by rewrite !sort_by_perm.
Qed.
