(* ===== verification/GoStrings.v ===== *)
(** * Go strings

    The functions of Go's packages [strings], [unicode/utf8] and [strconv] that the program uses,
    on byte strings ([string], one [ascii] per byte).  [runes] is what [for _, r := range s]
    visits: each valid UTF-8 sequence is one rune, every other byte is one [RuneError].
    [TrimSpace] strips code points with [unicode.IsSpace], so it decodes UTF-8 as Go does.
    [to_lower] maps the ASCII letters only; the program compares its result with ASCII suffixes
    and schemes, and no other code point lowers to one of the letters those contain. *)

From S2P Require Import Prelude.
From Stdlib Require Import Ascii.
From Stdlib Require String.

(** ** Bytes *)

Abbreviation chars := String.list_ascii_of_string.
Abbreviation str := String.string_of_list_ascii.

Definition byte (c : ascii) : Z := Z.of_N (N_of_ascii c).

Definition len (s : string) : Z := Z.of_nat (String.length s).

Lemma chars_str l : chars (str l) = l.
Proof. apply String.list_ascii_of_string_of_list_ascii. Qed.

Lemma str_chars s : str (chars s) = s.
Proof. apply String.string_of_list_ascii_of_string. Qed.

Lemma chars_inj s1 s2 : chars s1 = chars s2 → s1 = s2.
Proof. intros H. by rewrite <- (str_chars s1), H, str_chars. Qed.

Lemma str_inj l1 l2 : str l1 = str l2 → l1 = l2.
Proof. intros H. by rewrite <- (chars_str l1), H, chars_str. Qed.

Lemma chars_app s1 s2 : chars (s1 +:+ s2) = chars s1 ++ chars s2.
Proof.
  induction s1 as [|c s1 IH]; [done|].
  change (chars (String c s1 +:+ s2)) with (c :: chars (s1 +:+ s2)). by rewrite IH.
Qed.

Lemma str_app l1 l2 : str (l1 ++ l2) = str l1 +:+ str l2.
Proof. apply chars_inj. by rewrite chars_app, !chars_str. Qed.

Lemma length_chars s : length (chars s) = String.length s.
Proof. induction s; simpl; congruence. Qed.

Lemma len_chars s : len s = Z.of_nat (length (chars s)).
Proof. unfold len. by rewrite length_chars. Qed.

Lemma len_app s1 s2 : len (s1 +:+ s2) = (len s1 + len s2)%Z.
Proof. rewrite !len_chars, chars_app, length_app. lia. Qed.

Lemma byte_range c : (0 ≤ byte c < 256)%Z.
Proof. unfold byte. pose proof (N_ascii_bounded c). lia. Qed.

(** ** UTF-8: [utf8.DecodeRuneInString] *)

Record rune := MkRune { rcode : Z; renc : list ascii }.

Definition RuneError : Z := 0xFFFD.

Definition is_cont (c : ascii) : bool := ((0x80 <=? byte c) && (byte c <=? 0xBF))%Z.

(** The range of second bytes that a first byte accepts (utf8's [acceptRanges]). *)
Definition accept2 (b0 b1 : ascii) : bool :=
  let lo := if (byte b0 =? 0xE0)%Z then 0xA0%Z else if (byte b0 =? 0xF0)%Z then 0x90%Z else 0x80%Z in
  let hi := if (byte b0 =? 0xED)%Z then 0x9F%Z else if (byte b0 =? 0xF4)%Z then 0x8F%Z else 0xBF%Z in
  ((lo <=? byte b1) && (byte b1 <=? hi))%Z.

Definition lead2 (c : ascii) : bool := ((0xC2 <=? byte c) && (byte c <=? 0xDF))%Z.
Definition lead3 (c : ascii) : bool := ((0xE0 <=? byte c) && (byte c <=? 0xEF))%Z.
Definition lead4 (c : ascii) : bool := ((0xF0 <=? byte c) && (byte c <=? 0xF4))%Z.

Definition low6 (c : ascii) : Z := Z.land (byte c) 0x3F.

Definition code2 (b0 b1 : ascii) : Z :=
  Z.lor (Z.shiftl (Z.land (byte b0) 0x1F) 6) (low6 b1).
Definition code3 (b0 b1 b2 : ascii) : Z :=
  Z.lor (Z.shiftl (Z.land (byte b0) 0x0F) 12) (Z.lor (Z.shiftl (low6 b1) 6) (low6 b2)).
Definition code4 (b0 b1 b2 b3 : ascii) : Z :=
  Z.lor (Z.shiftl (Z.land (byte b0) 0x07) 18)
    (Z.lor (Z.shiftl (low6 b1) 12) (Z.lor (Z.shiftl (low6 b2) 6) (low6 b3))).

Definition first_rune (l : list ascii) : option rune :=
  match l with
  | [] => None
  | b0 :: t =>
      let bad := Some (MkRune RuneError [b0]) in
      if (byte b0 <? 0x80)%Z then Some (MkRune (byte b0) [b0])
      else if lead2 b0 then
        match t with
        | b1 :: _ => if accept2 b0 b1 then Some (MkRune (code2 b0 b1) [b0; b1]) else bad
        | _ => bad
        end
      else if lead3 b0 then
        match t with
        | b1 :: b2 :: _ =>
            if accept2 b0 b1 && is_cont b2 then Some (MkRune (code3 b0 b1 b2) [b0; b1; b2]) else bad
        | _ => bad
        end
      else if lead4 b0 then
        match t with
        | b1 :: b2 :: b3 :: _ =>
            if accept2 b0 b1 && is_cont b2 && is_cont b3
            then Some (MkRune (code4 b0 b1 b2 b3) [b0; b1; b2; b3]) else bad
        | _ => bad
        end
      else bad
  end.

Fixpoint runes_fuel (n : nat) (l : list ascii) : list rune :=
  match n with
  | O => []
  | S n' =>
      match first_rune l with
      | None => []
      | Some r => r :: runes_fuel n' (drop (length (renc r)) l)
      end
  end.

(** The runes [for _, r := range s] visits, each with the bytes it was decoded from. *)
Definition runes (l : list ascii) : list rune := runes_fuel (length l) l.

Definition enc_of (rs : list rune) : list ascii := concat (renc <$> rs).

(** A [RuneError] of width one stands for an invalid byte. *)
Definition invalid (r : rune) : bool := (rcode r =? RuneError)%Z && (length (renc r) =? 1)%nat.

Definition valid_utf8 (s : string) : bool := forallb (λ r, negb (invalid r)) (runes (chars s)).

(** [utf8.RuneStart]. *)
Definition RuneStart (c : ascii) : bool := negb (Z.land (byte c) 0xC0 =? 0x80)%Z.

(** *** Facts about decoding *)

(** Splits [first_rune l] into its cases. *)
Ltac first_rune_cases H :=
  unfold first_rune in H;
  repeat match type of H with
  | context [match ?x with _ => _ end] =>
      lazymatch x with
      | context [match _ with _ => _ end] => fail
      | _ => let E := fresh "E" in destruct x eqn:E; try discriminate H
      end
  end.

Lemma first_rune_nil l : first_rune l = None ↔ l = [].
Proof.
  split; [|by intros ->]. destruct l as [|b t]; [done|]. intros H. first_rune_cases H.
Qed.

(** A rune consumes between one and four bytes, a prefix of the input. *)
Lemma first_rune_prefix l r :
  first_rune l = Some r → ∃ l', l = renc r ++ l' ∧ (1 ≤ length (renc r) ≤ 4)%nat.
Proof.
  intros H. first_rune_cases H; injection H as <-; simpl; eexists; (split; [reflexivity|lia]).
Qed.

(** Decoding only reads the bytes of the rune it returns, or finds the input too short. *)
Lemma first_rune_local l1 l2 r :
  first_rune (l1 ++ l2) = Some r → (length (renc r) ≤ length l1)%nat → l1 ≠ [] →
  first_rune l1 = Some r.
Proof.
  intros H Hlen Hne. destruct l1 as [|b0 l1]; [done|]. clear Hne.
  destruct l1 as [|b1 [|b2 [|b3 l1]]]; simpl in H, Hlen |- *;
    repeat (match type of H with
    | context [match ?x with _ => _ end] =>
        lazymatch x with
        | context [match _ with _ => _ end] => fail
        | _ => destruct x eqn:?
        end
    end; try discriminate H);
    injection H as <-; simpl in Hlen; try lia; try reflexivity.
Qed.

(** A valid sequence decodes to itself whatever follows it. *)
Lemma first_rune_app l1 l2 r :
  first_rune l1 = Some r → invalid r = false → first_rune (l1 ++ l2) = Some r.
Proof.
  intros H Hinv.
  destruct l1 as [|b0 [|b1 [|b2 [|b3 l1]]]]; simpl in H |- *; try discriminate H;
    repeat match type of H with
    | context [match ?x with _ => _ end] =>
        lazymatch x with
        | context [match _ with _ => _ end] => fail
        | _ => destruct x eqn:?
        end
    end; try exact H; injection H as <-; discriminate Hinv.
Qed.

Arguments first_rune : simpl never.

Lemma runes_fuel_enough n m l :
  (length l ≤ n)%nat → (length l ≤ m)%nat → runes_fuel n l = runes_fuel m l.
Proof.
  revert m l. induction n as [|n IH]; intros m l Hn Hm.
  { destruct l; [|simpl in Hn; lia]. by destruct m. }
  destruct m as [|m]; [destruct l; [done|simpl in Hm; lia]|]. simpl.
  destruct (first_rune l) as [r|] eqn:Hr; [|done]. f_equal.
  apply first_rune_prefix in Hr as (l' & Heq & Hlen).
  apply IH; rewrite length_drop; rewrite Heq in Hn, Hm |- *; rewrite length_app in *; lia.
Qed.

(** The fuel [length l] is always enough: the decoding loop unfolds without it. *)
Lemma runes_unfold l :
  runes l = match first_rune l with
            | None => []
            | Some r => r :: runes (drop (length (renc r)) l)
            end.
Proof.
  unfold runes. destruct l as [|b t]; [done|].
  simpl length. cbn [runes_fuel]. destruct (first_rune (b :: t)) as [r|] eqn:Hr; [|done].
  f_equal. apply first_rune_prefix in Hr as (l' & Heq & Hlen).
  apply runes_fuel_enough; rewrite length_drop; simpl; lia.
Qed.

Lemma runes_nil : runes [] = [].
Proof. done. Qed.

Lemma runes_cons l r : first_rune l = Some r → runes l = r :: runes (drop (length (renc r)) l).
Proof. intros H. by rewrite runes_unfold, H. Qed.

Lemma runes_app_first l1 l2 r :
  first_rune (l1 ++ l2) = Some r → length l1 = length (renc r) →
  l1 = renc r ∧ runes (l1 ++ l2) = r :: runes l2.
Proof.
  intros H Hlen. rewrite (runes_cons _ _ H). rewrite <- Hlen, drop_app_length.
  split; [|done]. apply first_rune_prefix in H as (l' & Heq & _).
  by apply app_inj_1 in Heq as [-> _].
Qed.

(** Decoding loses no byte. *)
Lemma enc_of_runes l : enc_of (runes l) = l.
Proof.
  remember (length l) as n eqn:Hn. revert l Hn.
  induction n as [n IH] using lt_wf_ind. intros l ->.
  rewrite runes_unfold. destruct (first_rune l) as [r|] eqn:Hr.
  - pose proof (first_rune_prefix _ _ Hr) as (l' & Heq & Hlen).
    unfold enc_of. csimpl. fold (enc_of (runes (drop (length (renc r)) l))).
    rewrite Heq at 1. rewrite Heq, drop_app_length.
    rewrite (IH (length l')); [done| |done].
    apply (f_equal length) in Heq. rewrite length_app in Heq. lia.
  - apply first_rune_nil in Hr. by subst.
Qed.

Lemma runes_inj l1 l2 : runes l1 = runes l2 → l1 = l2.
Proof. intros H. by rewrite <- (enc_of_runes l1), H, enc_of_runes. Qed.

(** Cutting a string at a rune boundary cuts its runes there: every part of a rune sequence
    decodes to itself. *)
Lemma runes_split l rs1 rs2 :
  runes l = rs1 ++ rs2 → runes (enc_of rs1) = rs1 ∧ runes (enc_of rs2) = rs2.
Proof.
  revert l. induction rs1 as [|r rs1 IH]; intros l H.
  - split; [done|]. simpl in H. rewrite <- H. by rewrite enc_of_runes.
  - rewrite runes_unfold in H. destruct (first_rune l) as [r'|] eqn:Hr; [|done].
    simpl in H. injection H as -> H. destruct (IH _ H) as [H1 H2]. split; [|done].
    pose proof (first_rune_prefix _ _ Hr) as (l' & Heq & Hlen).
    assert (Hl : l = (renc r ++ enc_of rs1) ++ enc_of rs2).
    { rewrite Heq at 1. rewrite Heq, drop_app_length in H. rewrite <- app_assoc. f_equal.
      rewrite <- (enc_of_runes l'), H. unfold enc_of. by rewrite fmap_app, concat_app. }
    unfold enc_of. csimpl. fold (enc_of rs1).
    assert (Hf : first_rune (renc r ++ enc_of rs1) = Some r).
    { apply (first_rune_local _ (enc_of rs2)); [by rewrite <- Hl| |].
      - rewrite length_app. lia.
      - intros Hnil. apply (f_equal length) in Hnil. rewrite length_app in Hnil. simpl in Hnil. lia. }
    destruct (runes_app_first _ _ _ Hf eq_refl) as [_ ->]. by rewrite H1.
Qed.

(** A rune as decoded from its own bytes, and valid. *)
Definition wf_rune (r : rune) : Prop := first_rune (renc r) = Some r ∧ invalid r = false.

Lemma runes_wf_app r l : wf_rune r → runes (renc r ++ l) = r :: runes l.
Proof.
  intros [H1 H2]. apply runes_app_first; [|done]. by apply first_rune_app.
Qed.

Lemma runes_wf rs l : Forall wf_rune rs → runes (enc_of rs ++ l) = rs ++ runes l.
Proof.
  induction 1 as [|r rs Hr _ IH]; [done|].
  unfold enc_of. csimpl. fold (enc_of rs). rewrite <- app_assoc, runes_wf_app by done.
  by rewrite IH.
Qed.

Lemma runes_wf_nil rs : Forall wf_rune rs → runes (enc_of rs) = rs.
Proof. intros H. pose proof (runes_wf rs [] H) as E. by rewrite !app_nil_r in E. Qed.

Lemma runes_decoded l : Forall (λ r, first_rune (renc r) = Some r) (runes l).
Proof.
  remember (length l) as n eqn:Hn. revert l Hn.
  induction n as [n IH] using lt_wf_ind. intros l ->.
  rewrite runes_unfold. destruct (first_rune l) as [r|] eqn:Hr; [|done].
  pose proof (first_rune_prefix _ _ Hr) as (l' & Heq & Hlen). constructor.
  - apply (first_rune_local _ l'); [by rewrite <- Heq|done|]. intros E. rewrite E in Hlen. simpl in Hlen. lia.
  - eapply IH; [|reflexivity]. rewrite length_drop, Heq, length_app. lia.
Qed.

Lemma runes_valid_wf s : valid_utf8 s = true → Forall wf_rune (runes (chars s)).
Proof.
  unfold valid_utf8. intros H. apply Forall_forall. intros r Hr. split.
  - pose proof (runes_decoded (chars s)) as Hd. rewrite Forall_forall in Hd. by apply Hd.
  - rewrite forallb_forall in H. apply negb_true_iff, H, list_elem_of_In, Hr.
Qed.

Lemma wf_valid_utf8 rs : Forall wf_rune rs → valid_utf8 (str (enc_of rs)) = true.
Proof.
  intros H. unfold valid_utf8. rewrite chars_str, runes_wf_nil by done.
  apply forallb_forall. intros r Hr%list_elem_of_In. rewrite Forall_forall in H.
  apply negb_true_iff, H, Hr.
Qed.

(** ** [strings.TrimSpace] *)

(** [unicode.IsSpace]. *)
Definition IsSpace (c : Z) : bool :=
  ((9 <=? c) && (c <=? 13) || (c =? 32) || (c =? 0x85) || (c =? 0xA0) || (c =? 0x1680)
   || (0x2000 <=? c) && (c <=? 0x200A) || (c =? 0x2028) || (c =? 0x2029) || (c =? 0x202F)
   || (c =? 0x205F) || (c =? 0x3000))%Z.

Section drop_while.
Context {A : Type} (f : A → bool).

Fixpoint drop_while (l : list A) : list A :=
  match l with
  | [] => []
  | x :: l' => if f x then drop_while l' else l
  end.

(** Drops the longest suffix whose elements satisfy [f]. *)
Definition drop_end (l : list A) : list A := reverse (drop_while (reverse l)).

Lemma drop_while_suffix l : ∃ l0, l = l0 ++ drop_while l ∧ forallb f l0 = true.
Proof.
  induction l as [|x l IH]; [by exists []|]. simpl. destruct (f x) eqn:Hx; [|by exists []].
  destruct IH as (l0 & Heq & Hf). exists (x :: l0). simpl. rewrite Hx, Hf. split; [by f_equal|done].
Qed.

Lemma drop_while_stop l x l' : drop_while l = x :: l' → f x = false.
Proof.
  induction l as [|y l IH]; [done|]. simpl. destruct (f y) eqn:Hy; [done|]. by intros [= -> ->].
Qed.

Lemma drop_while_idemp l : drop_while (drop_while l) = drop_while l.
Proof.
  destruct (drop_while l) as [|x l'] eqn:H; [done|]. simpl. by rewrite (drop_while_stop _ _ _ H).
Qed.

Lemma drop_end_prefix l : ∃ l0, l = drop_end l ++ l0 ∧ forallb f l0 = true.
Proof.
  destruct (drop_while_suffix (reverse l)) as (l0 & Heq & Hf). exists (reverse l0). split.
  - unfold drop_end. rewrite <- reverse_app, <- Heq. by rewrite reverse_involutive.
  - apply forallb_forall. intros x Hx%list_elem_of_In. rewrite elem_of_reverse in Hx.
    rewrite forallb_forall in Hf. by apply Hf, list_elem_of_In.
Qed.

Lemma drop_end_idemp l : drop_end (drop_end l) = drop_end l.
Proof. unfold drop_end. by rewrite reverse_involutive, drop_while_idemp. Qed.

Lemma drop_end_last l x : last (drop_end l) = Some x → f x = false.
Proof.
  unfold drop_end. rewrite last_reverse. intros H.
  destruct (drop_while (reverse l)) as [|y l'] eqn:E; [done|]. injection H as ->.
  by apply drop_while_stop in E.
Qed.

(** Trimming the end of a list whose head is kept keeps the head. *)
Lemma drop_while_drop_end l : drop_while (drop_end (drop_while l)) = drop_end (drop_while l).
Proof.
  destruct (drop_end_prefix (drop_while l)) as (l0 & Heq & _).
  destruct (drop_end (drop_while l)) as [|x l'] eqn:E; [done|]. simpl.
  rewrite (drop_while_stop l x (l' ++ l0)); [done|]. by rewrite Heq.
Qed.

Lemma drop_while_none l : (∀ x, x ∈ l → f x = false) → drop_while l = l.
Proof. destruct l as [|x l]; [done|]. intros H. simpl. rewrite H; [done|]. by left. Qed.

Lemma drop_end_none l : (∀ x, x ∈ l → f x = false) → drop_end l = l.
Proof.
  intros H. unfold drop_end. rewrite drop_while_none; [apply reverse_involutive|].
  intros x Hx. apply H. by rewrite elem_of_reverse in Hx.
Qed.
End drop_while.

Definition space_rune (r : rune) : bool := IsSpace (rcode r).

Definition TrimSpace (s : string) : string :=
  str (enc_of (drop_end space_rune (drop_while space_rune (runes (chars s))))).

(** The trimmed string decodes to the trimmed runes. *)
Lemma runes_TrimSpace s :
  runes (chars (TrimSpace s)) = drop_end space_rune (drop_while space_rune (runes (chars s))).
Proof.
  unfold TrimSpace. rewrite chars_str.
  destruct (drop_while_suffix space_rune (runes (chars s))) as (l0 & H0 & _).
  destruct (runes_split _ _ _ H0) as [_ H1].
  destruct (drop_end_prefix space_rune (drop_while space_rune (runes (chars s)))) as (l1 & H2 & _).
  rewrite H2 in H1 at 2.
  by destruct (runes_split _ _ _ H1) as [H3 _].
Qed.

Lemma TrimSpace_idemp s : TrimSpace (TrimSpace s) = TrimSpace s.
Proof.
  unfold TrimSpace at 1. rewrite runes_TrimSpace, drop_while_drop_end, drop_end_idemp. done.
Qed.

Lemma enc_of_app r1 r2 : enc_of (r1 ++ r2) = enc_of r1 ++ enc_of r2.
Proof. unfold enc_of. by rewrite fmap_app, concat_app. Qed.

(** What is trimmed is a prefix and a suffix. *)
Lemma TrimSpace_within s : ∃ a b, chars s = a ++ chars (TrimSpace s) ++ b.
Proof.
  destruct (drop_while_suffix space_rune (runes (chars s))) as (l0 & H0 & _).
  destruct (drop_end_prefix space_rune (drop_while space_rune (runes (chars s)))) as (l1 & H1 & _).
  exists (enc_of l0), (enc_of l1). unfold TrimSpace. rewrite chars_str, <- !enc_of_app, <- H1, <- H0.
  by rewrite enc_of_runes.
Qed.

Lemma TrimSpace_fixed s : (∀ r, r ∈ runes (chars s) → space_rune r = false) → TrimSpace s = s.
Proof.
  intros H. unfold TrimSpace. rewrite drop_while_none, drop_end_none by done.
  by rewrite enc_of_runes, str_chars.
Qed.

(** ASCII strings decode byte by byte. *)
Lemma runes_ascii l :
  Forall (λ c, (byte c < 0x80)%Z) l → runes l = (λ c, MkRune (byte c) [c]) <$> l.
Proof.
  induction 1 as [|c l Hc _ IH]; [done|].
  rewrite runes_unfold. unfold first_rune. rewrite (proj2 (Z.ltb_lt _ _) Hc). simpl. by rewrite drop_0, IH.
Qed.

(** ** Prefixes, suffixes, searching *)

Definition HasPrefix (s p : string) : bool := String.prefix p s.

Definition HasSuffix (s suf : string) : bool :=
  let l := chars s in
  let t := chars suf in
  ((length t <=? length l)%nat && bool_decide (drop (length l - length t) l = t)).

Definition TrimPrefix (s p : string) : string :=
  if HasPrefix s p then str (drop (String.length p) (chars s)) else s.

Lemma HasPrefix_spec s p : HasPrefix s p = true ↔ ∃ t, s = p +:+ t.
Proof.
  unfold HasPrefix. revert s. induction p as [|c p IH]; intros s.
  - split; [intros _; by exists s|]. intros _. by destruct s.
  - destruct s as [|c' s]; simpl.
    + split; [done|]. intros (t & Ht). discriminate Ht.
    + destruct (ascii_dec c c') as [->|Hne].
      * rewrite IH. split; intros (t & Ht); exists t.
        -- rewrite Ht. done.
        -- by injection Ht as ->.
      * split; [done|]. intros (t & Ht). injection Ht as -> _. done.
Qed.

Lemma HasPrefix_app p s : HasPrefix (p +:+ s) p = true.
Proof. apply HasPrefix_spec. by exists s. Qed.

Lemma TrimPrefix_app p s : TrimPrefix (p +:+ s) p = s.
Proof.
  unfold TrimPrefix. rewrite HasPrefix_app, chars_app, <- length_chars, drop_app_length.
  apply str_chars.
Qed.

Lemma HasSuffix_spec s suf : HasSuffix s suf = true ↔ ∃ t, s = t +:+ suf.
Proof.
  unfold HasSuffix. rewrite andb_true_iff, bool_decide_eq_true, Nat.leb_le. split.
  - intros [Hle Hd]. exists (str (take (length (chars s) - length (chars suf)) (chars s))).
    apply chars_inj. rewrite chars_app, chars_str. rewrite <- Hd at 2. by rewrite take_drop.
  - intros (t & ->). rewrite chars_app, length_app. split; [lia|].
    replace (length (chars t) + length (chars suf) - length (chars suf))%nat
      with (length (chars t)) by lia.
    apply drop_app_length.
Qed.

(** [strings.IndexByte] and [strings.Contains] of a one-byte needle. *)
Fixpoint index_byte (c : ascii) (l : list ascii) : option nat :=
  match l with
  | [] => None
  | x :: l' => if decide (x = c) then Some O else S <$> index_byte c l'
  end.

Definition contains_byte (s : string) (c : ascii) : bool := bool_decide (c ∈ chars s).

(** [strings.ContainsAny] of a set of ASCII characters. *)
Definition ContainsAny (s : string) (cs : string) : bool :=
  existsb (λ c, bool_decide (c ∈ chars cs)) (chars s).

(** [strings.ContainsFunc]: some rune of [s] satisfies [f]. *)
Definition ContainsFunc (s : string) (f : Z → bool) : bool :=
  existsb (λ r, f (rcode r)) (runes (chars s)).

(** [strings.Cut] at the first byte [c]. *)
Definition cut_byte (c : ascii) (s : string) : string * string * bool :=
  match index_byte c (chars s) with
  | None => (s, EmptyString, false)
  | Some i => (str (take i (chars s)), str (drop (S i) (chars s)), true)
  end.

(** The index after the last byte of [s] that [f] accepts ([strings.LastIndexAny] + 1), 0 when
    there is none. *)
Fixpoint after_last (f : ascii → bool) (l : list ascii) : nat :=
  match l with
  | [] => O
  | x :: l' =>
      match after_last f l' with
      | O => if f x then 1%nat else O
      | S n => S (S n)
      end
  end.

Lemma after_last_le f l : (after_last f l ≤ length l)%nat.
Proof. induction l as [|x l IH]; simpl; [done|]. destruct (after_last f l); [destruct (f x)|]; lia. Qed.

(** What follows the last such byte holds none. *)
Lemma after_last_none f l : forallb (λ c, negb (f c)) (drop (after_last f l) l) = true.
Proof.
  induction l as [|x l IH]; [done|]. simpl.
  destruct (after_last f l) eqn:E; [|exact IH].
  rewrite drop_0 in IH. destruct (f x) eqn:Hx; simpl; [by rewrite drop_0|]. by rewrite Hx.
Qed.

(** [strings.TrimRight(s, c)] for one ASCII character. *)
Definition TrimRightByte (s : string) (c : ascii) : string :=
  str (drop_end (λ x, bool_decide (x = c)) (chars s)).

Lemma TrimRightByte_idemp s c : TrimRightByte (TrimRightByte s c) c = TrimRightByte s c.
Proof. unfold TrimRightByte. by rewrite chars_str, drop_end_idemp. Qed.

Lemma TrimRightByte_prefix s c : ∃ t, s = TrimRightByte s c +:+ t ∧ Forall (λ x, x = c) (chars t).
Proof.
  destruct (drop_end_prefix (λ x, bool_decide (x = c)) (chars s)) as (l0 & Heq & Hf).
  exists (str l0). split.
  - apply chars_inj. unfold TrimRightByte. by rewrite chars_app, !chars_str.
  - rewrite chars_str. apply Forall_forall. intros x Hx%list_elem_of_In.
    rewrite forallb_forall in Hf. apply (bool_decide_eq_true (x = c)). by apply Hf.
Qed.

(** ** [strings.Split(s, sep)] and [strings.Join] for a one-byte separator *)

Fixpoint split_chars (c : ascii) (l : list ascii) : list (list ascii) :=
  match l with
  | [] => [[]]
  | x :: l' =>
      if decide (x = c) then [] :: split_chars c l'
      else match split_chars c l' with
           | [] => [[x]]
           | seg :: segs => (x :: seg) :: segs
           end
  end.

Definition Split (s : string) (c : ascii) : list string := str <$> split_chars c (chars s).

Fixpoint Join (l : list string) (sep : string) : string :=
  match l with
  | [] => EmptyString
  | [x] => x
  | x :: l' => x +:+ sep +:+ Join l' sep
  end.

Lemma split_chars_ne c l : split_chars c l ≠ [].
Proof.
  induction l as [|x l IH]; [done|]. simpl. destruct (decide (x = c)); [done|].
  by destruct (split_chars c l).
Qed.

Lemma split_chars_no_sep c l : c ∉ l → split_chars c l = [l].
Proof.
  induction l as [|x l IH]; [done|]. intros Hc. simpl.
  apply not_elem_of_cons in Hc as [Hx Hc]. by rewrite decide_False, IH by done.
Qed.

Lemma split_chars_app c l1 l2 : c ∉ l1 → split_chars c (l1 ++ c :: l2) = l1 :: split_chars c l2.
Proof.
  induction l1 as [|x l1 IH]; intros Hc; simpl.
  - by rewrite decide_True.
  - apply not_elem_of_cons in Hc as [Hx Hc]. by rewrite decide_False, IH by done.
Qed.

(** Splitting what was joined gives the parts back when no part holds the separator. *)
Lemma Split_Join l c :
  l ≠ [] → Forall (λ s, c ∉ chars s) l → Split (Join l (String c EmptyString)) c = l.
Proof.
  intros Hne Hl. unfold Split. induction Hl as [|s l Hs Hl IH]; [done|].
  destruct l as [|s' l].
  - simpl. rewrite split_chars_no_sep by done. csimpl. by rewrite str_chars.
  - change (Join (s :: s' :: l) (String c EmptyString))
      with (s +:+ String c EmptyString +:+ Join (s' :: l) (String c EmptyString)).
    rewrite !chars_app. change (chars (String c EmptyString)) with [c]. simpl app.
    rewrite split_chars_app by done. csimpl. rewrite str_chars. f_equal. by apply IH.
Qed.

(** ** [strings.Map] with a mapping that drops runes and changes none *)

(** The encoding of [RuneError], which replaces an invalid byte. *)
Definition rune_error_bytes : list ascii :=
  [ascii_of_nat 0xEF; ascii_of_nat 0xBF; ascii_of_nat 0xBD].

Definition valid_enc (r : rune) : rune :=
  if invalid r then MkRune RuneError rune_error_bytes else r.

Definition map_drop (f : Z → bool) (s : string) : string :=
  str (enc_of (valid_enc <$> filter (λ r, f (rcode r) = false) (runes (chars s)))).

Lemma valid_enc_wf l : Forall wf_rune (valid_enc <$> runes l).
Proof.
  rewrite Forall_fmap. eapply Forall_impl; [apply runes_decoded|]. intros r Hr.
  unfold compose, valid_enc. destruct (invalid r) eqn:E; split; done.
Qed.

Lemma runes_map_drop f s :
  runes (chars (map_drop f s)) = valid_enc <$> filter (λ r, f (rcode r) = false) (runes (chars s)).
Proof.
  unfold map_drop. rewrite chars_str. apply runes_wf_nil.
  pose proof (valid_enc_wf (chars s)) as H. rewrite Forall_fmap in H. rewrite Forall_fmap.
  rewrite Forall_forall in H |- *. intros r Hr. apply H. by apply list_elem_of_filter in Hr as [_ Hr].
Qed.

Lemma map_drop_valid f s : valid_utf8 (map_drop f s) = true.
Proof.
  unfold valid_utf8. rewrite runes_map_drop. apply forallb_forall.
  intros r Hr%list_elem_of_In. apply list_elem_of_fmap in Hr as (r' & -> & _).
  unfold valid_enc. destruct (invalid r') eqn:E; [done|]. by rewrite E.
Qed.

Lemma map_drop_free f s r : r ∈ runes (chars (map_drop f s)) → f (rcode r) = false.
Proof.
  rewrite runes_map_drop. intros Hr.
  apply list_elem_of_fmap in Hr as (r' & -> & Hr').
  apply list_elem_of_filter in Hr' as [Hf _]. unfold valid_enc, invalid.
  destruct (rcode r' =? RuneError)%Z eqn:E; simpl; [|done].
  apply Z.eqb_eq in E. destruct (length (renc r') =? 1)%nat; simpl; congruence.
Qed.

(** ** Case *)

Definition lower_byte (c : ascii) : ascii :=
  if ((0x41 <=? byte c) && (byte c <=? 0x5A))%Z then ascii_of_N (N_of_ascii c + 32) else c.

Definition to_lower (s : string) : string := str (lower_byte <$> chars s).

(** ** [strconv.Itoa] and [strconv.Atoi] *)

Definition digit (n : Z) : ascii := ascii_of_N (48 + Z.to_N n).

Fixpoint itoa_fuel (fuel : nat) (n : Z) (acc : list ascii) : list ascii :=
  match fuel with
  | O => acc
  | S f => let acc' := digit (n mod 10) :: acc in
           if (n <? 10)%Z then acc' else itoa_fuel f (n / 10) acc'
  end.

Definition utoa (n : Z) : list ascii := itoa_fuel (S (Z.to_nat (Z.log2 n))) n [].

Definition Itoa (n : Z) : string :=
  str (if (n <? 0)%Z then ascii_of_nat 45 :: utoa (- n) else utoa n).

Definition digit_val (c : ascii) : option Z :=
  if ((48 <=? byte c) && (byte c <=? 57))%Z then Some (byte c - 48)%Z else None.

Inductive num_error := ErrSyntax | ErrRange.

Definition max_int : Z := (2 ^ 63 - 1)%Z.
Definition min_int : Z := (- 2 ^ 63)%Z.

(** [strconv.ParseUint] in base 10 with 64 bits, which stops at the first digit that overflows. *)
Definition max_uint : Z := (2 ^ 64 - 1)%Z.

Fixpoint parse_uint (l : list ascii) (acc : Z) : Z + num_error :=
  match l with
  | [] => inl acc
  | c :: l' =>
      match digit_val c with
      | None => inr ErrSyntax
      | Some d =>
          let acc' := (acc * 10 + d)%Z in
          if (max_uint <? acc')%Z then inr ErrRange else parse_uint l' acc'
      end
  end.

(** [strconv.Atoi]: the value (0 on a syntax error, the nearest bound on a range error, as the
    function returns them beside the error) and the error. *)
Definition Atoi (s : string) : Z * option num_error :=
  let '(neg, ds) :=
    match chars s with
    | c :: t => if (byte c =? 45)%Z then (true, t)
                else if (byte c =? 43)%Z then (false, t) else (false, c :: t)
    | [] => (false, [])
    end in
  let range := (if neg then min_int else max_int, Some ErrRange) in
  match ds with
  | [] => (0%Z, Some ErrSyntax)
  | _ => match parse_uint ds 0 with
         | inr ErrSyntax => (0%Z, Some ErrSyntax)
         | inr ErrRange => range
         | inl v =>
             if neg then (if (2 ^ 63 <? v)%Z then range else ((- v)%Z, None))
             else if (2 ^ 63 <=? v)%Z then range else (v, None)
         end
  end.

(** A number printed by [Itoa] is read back by [Atoi]. *)

Lemma byte_digit n : (0 ≤ n < 10)%Z → byte (digit n) = (48 + n)%Z.
Proof.
  intros H. unfold byte, digit. rewrite N_ascii_embedding by lia. lia.
Qed.

Lemma digit_val_digit n : (0 ≤ n < 10)%Z → digit_val (digit n) = Some n.
Proof.
  intros H. unfold digit_val. rewrite byte_digit by done.
  rewrite (proj2 (Z.leb_le 48 (48 + n))), (proj2 (Z.leb_le (48 + n) 57)) by lia. simpl. f_equal. lia.
Qed.

Lemma parse_uint_itoa f n acc :
  (0 ≤ n ≤ max_uint)%Z → (n < 2 ^ Z.of_nat f)%Z → (0 < f)%nat →
  parse_uint (itoa_fuel f n acc) 0 = parse_uint acc n.
Proof.
  revert n acc. induction f as [|f IH]; intros n acc Hn Hf Hpos; [lia|].
  cbn [itoa_fuel]. destruct (n <? 10)%Z eqn:E; bool_to_prop.
  - cbn [parse_uint]. rewrite Z.mod_small, digit_val_digit by lia.
    replace (0 * 10 + n)%Z with n by lia. by rewrite (proj2 (Z.ltb_ge max_uint n)) by lia.
  - rewrite Nat2Z.inj_succ, Z.pow_succ_r in Hf by lia.
    pose proof (Z.div_mod n 10 ltac:(lia)) as Hdm.
    pose proof (Z.mod_pos_bound n 10 ltac:(lia)) as Hmod.
    rewrite IH; [| lia | | destruct f; [simpl in Hf; lia | lia]].
    + cbn [parse_uint]. rewrite digit_val_digit by lia.
      replace (n / 10 * 10 + n mod 10)%Z with n by lia. by rewrite (proj2 (Z.ltb_ge max_uint n)) by lia.
    + apply Z.div_lt_upper_bound; lia.
Qed.

Lemma parse_uint_utoa n : (0 ≤ n ≤ max_uint)%Z → parse_uint (utoa n) 0 = inl n.
Proof.
  intros H. unfold utoa. rewrite parse_uint_itoa; [done|done| |lia].
  rewrite Nat2Z.inj_succ, Z2Nat.id by apply Z.log2_nonneg.
  destruct (decide (n = 0)%Z) as [->|]; [done|]. apply Z.log2_spec. lia.
Qed.

(** The digits of a printed number: the first one is a digit character. *)
Lemma itoa_fuel_digits f n acc :
  (0 ≤ n)%Z → ∃ ds, itoa_fuel f n acc = ds ++ acc ∧
                   Forall (λ c, (48 ≤ byte c ≤ 57)%Z) ds ∧ ((0 < f)%nat → ds ≠ []).
Proof.
  revert n acc. induction f as [|f IH]; intros n acc Hn; cbn [itoa_fuel].
  { exists []. split_and!; [done|done|lia]. }
  assert (Hd : (48 ≤ byte (digit (n mod 10)) ≤ 57)%Z).
  { pose proof (Z.mod_pos_bound n 10 ltac:(lia)). rewrite byte_digit; lia. }
  destruct (n <? 10)%Z.
  - exists [digit (n mod 10)]. split_and!; [done| |done]. by constructor.
  - destruct (IH (n / 10)%Z (digit (n mod 10) :: acc)) as (ds & Heq & Hall & _).
    { apply Z.div_pos; lia. }
    exists (ds ++ [digit (n mod 10)]). rewrite Heq, <- app_assoc. split_and!; [done| |].
    + apply Forall_app. split; [done|]. by constructor.
    + intros _ Hnil. by apply app_eq_nil in Hnil as [_ ?].
Qed.

Lemma utoa_digits n : (0 ≤ n)%Z → Forall (λ c, (48 ≤ byte c ≤ 57)%Z) (utoa n) ∧ utoa n ≠ [].
Proof.
  intros H. unfold utoa.
  destruct (itoa_fuel_digits (S (Z.to_nat (Z.log2 n))) n [] H) as (ds & -> & Hall & Hne).
  rewrite app_nil_r. split; [done|]. apply Hne. lia.
Qed.

Lemma Atoi_Itoa n : (0 ≤ n ≤ max_int)%Z → Atoi (Itoa n) = (n, None).
Proof.
  intros H. assert (Hmm : (max_int = 2 ^ 63 - 1)%Z) by done.
  assert (Hmu : (max_int ≤ max_uint)%Z) by done.
  unfold Atoi, Itoa. rewrite (proj2 (Z.ltb_ge n 0)), chars_str by lia.
  pose proof (parse_uint_utoa n ltac:(lia)) as Hp.
  destruct (utoa_digits n) as [Hall Hne]; [lia|].
  destruct (utoa n) as [|c t] eqn:E; [done|].
  apply Forall_cons in Hall as [Hc _].
  rewrite (proj2 (Z.eqb_neq (byte c) 45)), (proj2 (Z.eqb_neq (byte c) 43)) by lia.
  rewrite Hp. by rewrite (proj2 (Z.leb_gt _ _)) by lia.
Qed.
