(* ===== verification/GoFloat.v ===== *)
(** * [float64]: Stdlib's [spec_float] with 53 bits of precision

    Rounding a ratio of integers to nearest even, and with it the conversion from an integer, the three operations
    the program uses, and the decimal spellings of [strconv]; GoFloatSpec.v has their theorems.  Converting a [float64] to [int64] is Go's where the value fits and, where it does not,
    the class [FloatConv]'s, which the language leaves to the platform. *)

From S2P Require Import Prelude GoStrings.
From Stdlib Require Import Ascii SpecFloat.

Definition prec : Z := 53.
Definition emax : Z := 1024.

(** ** Rounding *)

(** [2 ^ k <= num / den]. *)
Definition at_least (num den k : Z) : bool := (den * 2 ^ Z.max k 0 <=? num * 2 ^ Z.max (- k) 0)%Z.

(** The binade of [num / den]: [2 ^ k <= num / den < 2 ^ (k + 1)]. *)
Definition binade (num den : Z) : Z :=
  let k := (Z.log2 num - Z.log2 den)%Z in if at_least num den k then k else (k - 1)%Z.

(** The nearest integer, ties to even. *)
Definition nearest (num den : Z) : Z :=
  let q := (num / den)%Z in
  let twice := (2 * (num mod den))%Z in
  if (den <? twice)%Z || ((den =? twice)%Z && Z.odd q) then (q + 1)%Z else q.

(** The [float64] nearest to [num / den], ties to even. *)
Definition round_ratio (neg : bool) (num den : Z) : spec_float :=
  let e := Z.max (binade num den - (prec - 1)) (3 - emax - prec) in
  let m := nearest (num * 2 ^ Z.max (- e) 0) (den * 2 ^ Z.max e 0) in
  let '(m, e) := if (m =? 2 ^ prec)%Z then (2 ^ (prec - 1), e + 1)%Z else (m, e) in
  match m with
  | Z.pos p => if (emax - prec <? e)%Z then S754_infinity neg else S754_finite neg p e
  | _ => S754_zero neg
  end.

(** [float64(n)] of an integer. *)
Definition float64 (n : Z) : spec_float :=
  match n with Z0 => S754_zero false | Z.pos _ => round_ratio false n 1 | Z.neg _ => round_ratio true (- n) 1 end.

(** The operations: Stdlib's where an operand is a zero, an infinity or NaN, and else the exact result, rounded. *)
Definition fdiv (x y : spec_float) : spec_float :=
  match x, y with
  | S754_finite sx mx ex, S754_finite sy my ey =>
      round_ratio (xorb sx sy) (Z.pos mx * 2 ^ Z.max (ex - ey) 0) (Z.pos my * 2 ^ Z.max (ey - ex) 0)
  | _, _ => SFdiv prec emax x y
  end.
Definition fmul (x y : spec_float) : spec_float :=
  match x, y with
  | S754_finite sx mx ex, S754_finite sy my ey =>
      round_ratio (xorb sx sy) (Z.pos mx * Z.pos my * 2 ^ Z.max (ex + ey) 0) (2 ^ Z.max (- (ex + ey)) 0)
  | _, _ => SFmul prec emax x y
  end.
Definition fadd (x y : spec_float) : spec_float :=
  match x, y with
  | S754_finite sx mx ex, S754_finite sy my ey =>
      let e := Z.min ex ey in
      let sum := (cond_Zopp sx (Z.pos mx * 2 ^ (ex - e)) + cond_Zopp sy (Z.pos my * 2 ^ (ey - e)))%Z in
      if (sum =? 0)%Z then S754_zero (sx && sy)
      else round_ratio (sum <? 0)%Z (Z.abs sum * 2 ^ Z.max e 0) (2 ^ Z.max (- e) 0)
  | _, _ => SFadd prec emax x y
  end.

(** Rounding a ratio is what Stdlib's operations do. *)
Definition sample_ints : list Z :=
  [1; -1; 3; 7; -10; 1000; 1000003; 4503599627370497; -9007199254740991; 9007199254740993; 9223372036854775807; - 2 ^ 63]%Z.
Definition sample_floats : list spec_float :=
  (float64 <$> sample_ints) ++ [S754_finite false 1 (-1074); S754_finite true 3 (-1074); S754_finite false 9007199254740991 971;
    S754_finite false 6004799503160661 (-54); S754_finite true 4503599627370496 (-1074); S754_zero true; S754_infinity false].
Definition same_float (x y : spec_float) : bool :=
  match x, y with
  | S754_zero s, S754_zero s' | S754_infinity s, S754_infinity s' => Bool.eqb s s'
  | S754_nan, S754_nan => true
  | S754_finite s m e, S754_finite s' m' e' => Bool.eqb s s' && (m =? m')%positive && (e =? e')%Z
  | _, _ => false
  end.

Example operations_agree :
  forallb (λ n, same_float (float64 n) (binary_normalize prec emax n 0 false)) (0%Z :: sample_ints) = true ∧
  forallb (λ x, forallb (λ y, same_float (fdiv x y) (SFdiv prec emax x y) && same_float (fmul x y) (SFmul prec emax x y) &&
    same_float (fadd x y) (SFadd prec emax x y)) sample_floats) sample_floats = true.
Proof. vm_compute. split; reflexivity. Qed.

Example round_ratio_edges :
  round_ratio false 1 (2 ^ 1075) = S754_zero false ∧ round_ratio true 3 (2 ^ 1075) = S754_finite true 2 (-1074) ∧
  round_ratio false (2 ^ 1024 - 2 ^ 970) 1 = S754_infinity false ∧
  round_ratio false (2 ^ 1024 - 2 ^ 970 - 1) 1 = S754_finite false (2 ^ 53 - 1) 971 ∧
  round_ratio false (2 ^ 53 + 1) 1 = S754_finite false (2 ^ 52) 1.
Proof. vm_compute. split_and!; reflexivity. Qed.

(** A value a [float64] can have, but for the infinities and NaN. *)
Definition float_finite (f : spec_float) : bool :=
  match f with S754_zero _ => true | S754_finite _ m e => bounded prec emax m e | _ => false end.

(** What [int64(f)] gives for a value no [int64] holds. *)
Class FloatConv := float_out_of_range : spec_float → Z.

Definition ftrunc (f : spec_float) : option Z :=
  match f with
  | S754_zero _ => Some 0%Z
  | S754_finite s m e =>
      let n := if (0 <=? e)%Z then (Z.pos m * 2 ^ e)%Z else (Z.pos m / 2 ^ (- e))%Z in
      Some (if s then - n else n)%Z
  | _ => None
  end.

Definition float_to_int64 `{FloatConv} (f : spec_float) : Z :=
  match ftrunc f with
  | Some n => if (- 2 ^ 63 <=? n)%Z && (n <? 2 ^ 63)%Z then n else float_out_of_range f
  | None => float_out_of_range f
  end.

(** ** [strconv.ParseFloat] and the shortest spelling *)

(** [m * 10 ^ e], rounded to nearest even. *)
Definition decimal (neg : bool) (m e : Z) : spec_float :=
  match m with
  | Z.pos p => round_ratio neg (m * 10 ^ Z.max e 0) (10 ^ Z.max (- e) 0)
  | _ => S754_zero neg
  end.

(** The digits of [l] appended to [m], and how many there are, up to the first other byte. *)
Fixpoint read_digits (l : list ascii) (m n : Z) : Z * Z * list ascii :=
  match l with
  | c :: t => match digit_val c with Some d => read_digits t (m * 10 + d) (n + 1) | None => (m, n, l) end
  | [] => (m, n, [])
  end.

(** A number as JSON spells it; [None] when no [float64] is large enough. *)
Definition ParseFloat (lit : list ascii) : option spec_float :=
  let (neg, l) := match lit with "-"%char :: t => (true, t) | l => (false, l) end in
  let '(m, _, l) := read_digits l 0 0 in
  let '(m, frac, l) := match l with "."%char :: t => read_digits t m 0 | l => (m, 0%Z, l) end in
  let e10 :=
    match l with
    | _ :: "-"%char :: t => (- (read_digits t 0 0).1.1)%Z
    | _ :: "+"%char :: t => (read_digits t 0 0).1.1
    | _ :: t => (read_digits t 0 0).1.1
    | [] => 0%Z
    end in
  match decimal neg m (e10 - frac) with S754_infinity _ | S754_nan => None | f => Some f end.

(** [num / den < 10 ^ k]. *)
Definition below_pow10 (num den k : Z) : bool :=
  (num * 10 ^ Z.max (- k) 0 <? 10 ^ Z.max k 0 * den)%Z.

(** The position of the decimal point: [10 ^ (k - 1) <= num / den < 10 ^ k]. *)
Definition decimal_point (num den : Z) : Z :=
  let k := ((Z.log2 num - Z.log2 den - 1) * 30103 / 100000)%Z in
  if below_pow10 num den k then k else if below_pow10 num den (k + 1) then (k + 1)%Z
  else if below_pow10 num den (k + 2) then (k + 2)%Z else (k + 3)%Z.

(** The decimal of the fewest digits, at least [n] and then the nearest, that reads back as [f]. *)
Fixpoint shortest_from (fuel : nat) (n num den dp : Z) (f : spec_float) : Z * Z :=
  let k := (n - dp)%Z in
  let num' := (num * 10 ^ Z.max k 0)%Z in
  let den' := (den * 10 ^ Z.max (- k) 0)%Z in
  let lo := (num' / den')%Z in
  let twice := (2 * (num' mod den'))%Z in
  let up := (den' <? twice)%Z || ((den' =? twice)%Z && Z.odd lo) in
  let reads m := SFeqb (decimal false m (- k)) f in
  match fuel with
  | O => (lo, (- k)%Z)
  | S fuel =>
      match reads lo, reads (lo + 1)%Z with
      | true, true => (if up then lo + 1 else lo, - k)%Z
      | true, false => (lo, - k)%Z
      | false, true => (lo + 1, - k)%Z
      | false, false => shortest_from fuel (n + 1) num den dp f
      end
  end.

Fixpoint strip_zeros (fuel : nat) (m e : Z) : Z * Z :=
  match fuel with
  | O => (m, e)
  | S fuel => if (m mod 10 =? 0)%Z then strip_zeros fuel (m / 10) (e + 1) else (m, e)
  end.

(** The digits of a positive [float64], and the position of the decimal point. *)
Definition shortest (m : positive) (e : Z) : list ascii * Z :=
  let num := (Z.pos m * 2 ^ Z.max e 0)%Z in
  let den := (2 ^ Z.max (- e) 0)%Z in
  let dp := decimal_point num den in
  let '(d, e10) := shortest_from 17 1 num den dp (S754_finite false m e) in
  let '(d, e10) := strip_zeros 17 d e10 in
  let ds := utoa d in (ds, (Z.of_nat (length ds) + e10)%Z).

Definition zeros (n : Z) : list ascii := replicate (Z.to_nat n) "0"%char.

(** Format [f] and format [e], with as many digits as it takes. *)
Definition format_f (ds : list ascii) (dp : Z) : list ascii :=
  if (0 <? dp)%Z then
    let n := Z.to_nat dp in
    take n ds ++ zeros (dp - Z.of_nat (length ds)) ++ match drop n ds with [] => [] | frac => "."%char :: frac end
  else ["0"; "."]%char ++ zeros (- dp) ++ ds.

Definition format_e (ds : list ascii) (dp : Z) : list ascii :=
  let x := (dp - 1)%Z in
  take 1 ds ++ match drop 1 ds with [] => [] | frac => "."%char :: frac end ++
  ["e"%char; if (x <? 0)%Z then "-"%char else "+"%char] ++ utoa (Z.abs x).

(** [floatEncoder] of encoding/json: format [e] below [1e-6] and from [1e21] on, format [f] between; [None] for what
    JSON has no number for. *)
Definition float_text (f : spec_float) : option (list ascii) :=
  match f with
  | S754_zero s => Some (if s then ["-"; "0"]%char else ["0"]%char)
  | S754_finite s m e =>
      let '(ds, dp) := shortest m e in
      Some ((if s then ["-"%char] else []) ++
            if (dp <? -5)%Z || (21 <? dp)%Z then format_e ds dp else format_f ds dp)
  | _ => None
  end.

Example float_texts :
  (λ f, str <$> float_text f) <$>
    [float64 0; float64 100; fdiv (float64 1) (float64 3); fdiv (float64 1) (float64 10); fmul (float64 12345) (float64 100000000);
     float64 (10 ^ 21); fdiv (float64 1) (float64 (10 ^ 7)); S754_finite false 1 (-1074)] =
  Some <$> ["0"; "100"; "0.3333333333333333"; "0.1"; "1234500000000"; "1e+21"; "1e-7"; "5e-324"].
Proof. vm_compute. reflexivity. Qed.

Example ParseFloat_reads :
  ParseFloat (chars "-12.5e-1") = Some (fdiv (float64 (-125)) (float64 100)) ∧ ParseFloat (chars "1e400") = None ∧
  ParseFloat (chars "0.1") = Some (fdiv (float64 1) (float64 10)).
Proof. vm_compute. split_and!; reflexivity. Qed.
