(* ===== verification/Base64.v ===== *)
(** * encoding/base64: the standard encoding, whole and in chunks

    [base64.StdEncoding] as the program uses it: [EncodeToString] for basic authentication,
    [AppendEncode] and [EncodedLen] for an uploaded NZB; and [base64.RawURLEncoding], which the tokens of
    Issuer.v are written in.  Three bytes become four characters; the
    last group is padded, so that an encoding can be cut only after a multiple of three bytes. *)

From S2P Require Import Prelude GoStrings.
From Stdlib Require Import Ascii.

Definition b64_char (n : Z) : ascii :=
  if (n <? 26)%Z then ascii_of_N (Z.to_N (n + 65))
  else if (n <? 52)%Z then ascii_of_N (Z.to_N (n + 71))
  else if (n <? 62)%Z then ascii_of_N (Z.to_N (n - 4))
  else if (n =? 62)%Z then "+"%char else "/"%char.

Definition b64_pad : ascii := "="%char.

Definition sextet (v : Z) (i : Z) : ascii := b64_char (Z.land (Z.shiftr v (6 * i)) 63).

Fixpoint b64 (l : list ascii) : list ascii :=
  match l with
  | [] => []
  | [a] => let v := Z.shiftl (byte a) 16 in [sextet v 3; sextet v 2; b64_pad; b64_pad]
  | [a; b] =>
      let v := Z.lor (Z.shiftl (byte a) 16) (Z.shiftl (byte b) 8) in
      [sextet v 3; sextet v 2; sextet v 1; b64_pad]
  | a :: b :: c :: l' =>
      let v := Z.lor (Z.lor (Z.shiftl (byte a) 16) (Z.shiftl (byte b) 8)) (byte c) in
      sextet v 3 :: sextet v 2 :: sextet v 1 :: sextet v 0 :: b64 l'
  end.

Definition EncodeToString (s : string) : string := str (b64 (chars s)).

(** [StdEncoding.EncodedLen]. *)
Definition EncodedLen (n : Z) : Z := ((n + 2) / 3 * 4)%Z.

(** The value of a character of the alphabet. *)
Definition b64_val (c : ascii) : option Z :=
  if ((0x41 <=? byte c) && (byte c <=? 0x5A))%Z then Some (byte c - 65)%Z
  else if ((0x61 <=? byte c) && (byte c <=? 0x7A))%Z then Some (byte c - 71)%Z
  else if ((0x30 <=? byte c) && (byte c <=? 0x39))%Z then Some (byte c + 4)%Z
  else if (byte c =? 0x2B)%Z then Some 62%Z else if (byte c =? 0x2F)%Z then Some 63%Z else None.

Definition b64_byte (n : Z) : ascii := ascii_of_N (Z.to_N (Z.land n 255)).

(** The quanta of [StdEncoding.Decode], which is not strict about the bits its last character leaves over. *)
Fixpoint b64_quanta (l : list ascii) : option (list ascii) :=
  match l with
  | [] => Some []
  | a :: b :: c :: d :: l' =>
      match b64_val a, b64_val b, b64_val c, b64_val d with
      | Some a, Some b, Some c, Some d =>
          let v := Z.lor (Z.lor (Z.shiftl a 18) (Z.shiftl b 12)) (Z.lor (Z.shiftl c 6) d) in
          (λ t, b64_byte (Z.shiftr v 16) :: b64_byte (Z.shiftr v 8) :: b64_byte v :: t) <$> b64_quanta l'
      | Some a, Some b, Some c, None =>
          if bool_decide (d = b64_pad) && bool_decide (l' = []) then
            let v := Z.lor (Z.lor (Z.shiftl a 18) (Z.shiftl b 12)) (Z.shiftl c 6) in
            Some [b64_byte (Z.shiftr v 16); b64_byte (Z.shiftr v 8)]
          else None
      | Some a, Some b, None, _ =>
          if bool_decide (c = b64_pad) && bool_decide (d = b64_pad) && bool_decide (l' = [])
          then Some [b64_byte (Z.shiftr (Z.lor (Z.shiftl a 18) (Z.shiftl b 12)) 16)]
          else None
      | _, _, _, _ => None
      end
  | _ => None
  end.

(** [StdEncoding.Decode]: line breaks are skipped. *)
Definition b64_decode (l : list ascii) : option (list ascii) :=
  b64_quanta (List.filter (λ c, negb ((byte c =? 13) || (byte c =? 10))%Z) l).

Example b64_vectors :
  EncodeToString EmptyString = EmptyString ∧ EncodeToString "f" = "Zg==" ∧ EncodeToString "fo" = "Zm8=" ∧
  EncodeToString "foo" = "Zm9v" ∧ EncodeToString "foob" = "Zm9vYg==" ∧ EncodeToString "fooba" = "Zm9vYmE=" ∧
  EncodeToString "foobar" = "Zm9vYmFy".
Proof. vm_compute. split_and!; reflexivity. Qed.

(** Induction three bytes at a time. *)
Lemma list_ind3 {A} (P : list A → Prop) :
  P [] → (∀ a, P [a]) → (∀ a b, P [a; b]) → (∀ a b c l, P l → P (a :: b :: c :: l)) → ∀ l, P l.
Proof.
  intros H0 H1 H2 H3. assert (H : ∀ n l, (length l ≤ n)%nat → P l); [|intros l; by apply (H (length l))].
  induction n as [|n IH]; intros l Hl; [destruct l; [done|simpl in Hl; lia]|].
  destruct l as [|a [|b [|c l]]]; [done|done|done|]. apply H3, IH. simpl in Hl. lia.
Qed.

Lemma b64_length l : Z.of_nat (length (b64 l)) = EncodedLen (Z.of_nat (length l)).
Proof.
  induction l as [|a|a b|a b c l IH] using list_ind3; try reflexivity.
  change (b64 (a :: b :: c :: l)) with
    (let v := Z.lor (Z.lor (Z.shiftl (byte a) 16) (Z.shiftl (byte b) 8)) (byte c) in
     sextet v 3 :: sextet v 2 :: sextet v 1 :: sextet v 0 :: b64 l).
  cbn [length]. rewrite !Nat2Z.inj_succ, IH. unfold EncodedLen.
  replace (Z.succ (Z.succ (Z.succ (Z.of_nat (length l)))) + 2)%Z with (Z.of_nat (length l) + 2 + 1 * 3)%Z by lia.
  rewrite Z.div_add by lia. lia.
Qed.

(** Cutting after a multiple of three bytes cuts the encoding. *)
Lemma b64_app l1 l2 : (length l1 mod 3 = 0)%nat → b64 (l1 ++ l2) = b64 l1 ++ b64 l2.
Proof.
  induction l1 as [|a|a b|a b c l1 IH] using list_ind3; intros Hm; [done|done|done|].
  change (b64 ((a :: b :: c :: l1) ++ l2)) with
    (let v := Z.lor (Z.lor (Z.shiftl (byte a) 16) (Z.shiftl (byte b) 8)) (byte c) in
     sextet v 3 :: sextet v 2 :: sextet v 1 :: sextet v 0 :: b64 (l1 ++ l2)).
  change (b64 (a :: b :: c :: l1)) with
    (let v := Z.lor (Z.lor (Z.shiftl (byte a) 16) (Z.shiftl (byte b) 8)) (byte c) in
     sextet v 3 :: sextet v 2 :: sextet v 1 :: sextet v 0 :: b64 l1).
  rewrite IH; [done|]. cbn [length] in Hm. replace (S (S (S (length l1)))) with (length l1 + 1 * 3)%nat in Hm by lia.
  by rewrite Nat.Div0.mod_add in Hm.
Qed.

(** The characters of an encoding. *)
Definition b64_alphabet (c : ascii) : bool :=
  (((0x41 <=? byte c) && (byte c <=? 0x5A)) || ((0x61 <=? byte c) && (byte c <=? 0x7A)) ||
   ((0x30 <=? byte c) && (byte c <=? 0x39)) || (byte c =? 0x2B) || (byte c =? 0x2F) || (byte c =? 0x3D))%Z.

Lemma sextet_alphabet v i : b64_alphabet (sextet v i) = true.
Proof.
  unfold sextet. assert (Hr : (0 ≤ Z.land (Z.shiftr v (6 * i)) 63 < 64)%Z).
  { change 63%Z with (Z.ones 6). rewrite Z.land_ones by lia. apply Z.mod_pos_bound. lia. }
  set (n := Z.land _ 63) in *. clearbody n.
  assert (Hall : forallb (λ k, b64_alphabet (b64_char (Z.of_nat k))) (seq 0 64) = true) by (vm_compute; reflexivity).
  rewrite forallb_forall in Hall. rewrite <- (Z2Nat.id n) by lia. apply Hall, in_seq. lia.
Qed.

Lemma b64_all_alphabet l : Forall (λ c, b64_alphabet c = true) (b64 l).
Proof.
  induction l as [|a|a b|a b c l IH] using list_ind3; [apply List.Forall_nil| | |];
    repeat apply List.Forall_cons; try apply sextet_alphabet; try reflexivity; try apply List.Forall_nil.
  exact IH.
Qed.

(** ** Decoding what was encoded *)

Lemma b64_val_char n : (0 ≤ n < 64)%Z → b64_val (b64_char n) = Some n.
Proof.
  intros Hn. assert (Hall : forallb (λ k, bool_decide (b64_val (b64_char (Z.of_nat k)) = Some (Z.of_nat k))) (seq 0 64) = true)
    by (vm_compute; reflexivity).
  rewrite forallb_forall in Hall. specialize (Hall (Z.to_nat n)). rewrite Z2Nat.id in Hall by lia.
  eapply bool_decide_eq_true_1, Hall, in_seq. lia.
Qed.

Lemma sextet_range v i : (0 ≤ Z.land (Z.shiftr v (6 * i)) 63 < 64)%Z.
Proof. change 63%Z with (Z.ones 6). rewrite Z.land_ones by lia. apply Z.mod_pos_bound. lia. Qed.

Lemma b64_val_sextet v i : b64_val (sextet v i) = Some (Z.land (Z.shiftr v (6 * i)) 63).
Proof. apply b64_val_char, sextet_range. Qed.

Lemma b64_byte_eq n c : (n mod 256 = byte c)%Z → b64_byte n = c.
Proof.
  intros H. unfold b64_byte. change 255%Z with (Z.ones 8). rewrite Z.land_ones by lia. change (2 ^ 8)%Z with 256%Z.
  rewrite H. unfold byte. by rewrite N2Z.id, ascii_N_embedding.
Qed.

Lemma sextet_val v i : (0 ≤ i)%Z → Z.land (Z.shiftr v (6 * i)) 63 = (v / 2 ^ (6 * i) mod 64)%Z.
Proof.
  intros Hi. change 63%Z with (Z.ones 6). rewrite Z.land_ones by lia. by rewrite Z.shiftr_div_pow2 by lia.
Qed.

(** The 24 bits of a group, put together from their bytes, and from their sextets. *)
Lemma group_bytes a b c : (Z.lor (Z.lor (Z.shiftl (byte a) 16) (Z.shiftl (byte b) 8)) (byte c) = byte a * 65536 + byte b * 256 + byte c)%Z.
Proof.
  pose proof (byte_range a). pose proof (byte_range b). pose proof (byte_range c).
  rewrite (lor_shiftl (byte a)); [|lia|rewrite Z.shiftl_mul_pow2 by lia; change (2 ^ 8)%Z with 256%Z; change (2 ^ 16)%Z with 65536%Z; lia].
  rewrite Z.shiftl_mul_pow2 by lia. change (2 ^ 8)%Z with 256%Z. change (2 ^ 16)%Z with 65536%Z.
  replace (byte a * 65536 + byte b * 256)%Z with (Z.shiftl (byte a * 256 + byte b) 8)
    by (rewrite Z.shiftl_mul_pow2 by lia; change (2 ^ 8)%Z with 256%Z; lia).
  rewrite lor_shiftl by (change (2 ^ 8)%Z with 256%Z; lia). rewrite Z.shiftl_mul_pow2 by lia. change (2 ^ 8)%Z with 256%Z. lia.
Qed.

Lemma group_sextets a b c d :
  (0 ≤ a < 64)%Z → (0 ≤ b < 64)%Z → (0 ≤ c < 64)%Z → (0 ≤ d < 64)%Z →
  (Z.lor (Z.lor (Z.shiftl a 18) (Z.shiftl b 12)) (Z.lor (Z.shiftl c 6) d) = a * 262144 + b * 4096 + c * 64 + d)%Z.
Proof.
  intros Ha Hb Hc Hd. rewrite (lor_shiftl c d 6) by (change (2 ^ 6)%Z with 64%Z; lia).
  rewrite (lor_shiftl a); [|lia|rewrite Z.shiftl_mul_pow2 by lia; change (2 ^ 12)%Z with 4096%Z; change (2 ^ 18)%Z with 262144%Z; lia].
  rewrite Z.shiftl_mul_pow2 by lia. change (2 ^ 12)%Z with 4096%Z. change (2 ^ 18)%Z with 262144%Z. change (2 ^ 6)%Z with 64%Z.
  replace (a * 262144 + b * 4096)%Z with (Z.shiftl (a * 64 + b) 12)
    by (rewrite Z.shiftl_mul_pow2 by lia; change (2 ^ 12)%Z with 4096%Z; lia).
  rewrite lor_shiftl by (change (2 ^ 12)%Z with 4096%Z; lia). rewrite Z.shiftl_mul_pow2 by lia. change (2 ^ 12)%Z with 4096%Z. lia.
Qed.

Lemma b64_quanta_b64 l : b64_quanta (b64 l) = Some l.
Proof.
  assert (H8 : (2 ^ 8)%Z = 256%Z) by done. assert (H16 : (2 ^ 16)%Z = 65536%Z) by done.
  assert (E0 : (2 ^ (6 * 0))%Z = 1%Z) by done. assert (E1 : (2 ^ (6 * 1))%Z = 64%Z) by done.
  assert (E2 : (2 ^ (6 * 2))%Z = 4096%Z) by done. assert (E3 : (2 ^ (6 * 3))%Z = 262144%Z) by done.
  assert (Hp : b64_val b64_pad = None) by done. assert (Z0 : (0 ≤ 0 < 64)%Z) by lia.
  assert (Hsx : ∀ v i, (0 ≤ Z.land (Z.shiftr v (6 * i)) 63 < 64)%Z) by apply sextet_range.
  induction l as [|a|a b|a b c l IH] using list_ind3; [done| | |].
  - pose proof (byte_range a). cbn [b64]. cbv zeta. cbn [b64_quanta]. rewrite !b64_val_sextet, Hp.
    rewrite !bool_decide_true by done. cbn [andb].
    match goal with |- context [Z.lor (Z.shiftl ?x 18) (Z.shiftl ?y 12)] =>
      pose proof (group_sextets x y 0 0 (Hsx _ _) (Hsx _ _) Z0 Z0) as G end.
    change (Z.lor (Z.shiftl 0 6) 0) with 0%Z in G. rewrite Z.lor_0_r in G. rewrite G. do 2 f_equal.
    apply b64_byte_eq. rewrite Z.shiftr_div_pow2, !sextet_val, Z.shiftl_mul_pow2, H16, E2, E3 by lia.
    Z.to_euclidean_division_equations; lia.
  - pose proof (byte_range a). pose proof (byte_range b). cbn [b64]. cbv zeta. cbn [b64_quanta]. rewrite !b64_val_sextet, Hp.
    rewrite !bool_decide_true by done. cbn [andb].
    match goal with |- context [Z.lor (Z.lor (Z.shiftl ?x 18) (Z.shiftl ?y 12)) (Z.shiftl ?z 6)] =>
      pose proof (group_sextets x y z 0 (Hsx _ _) (Hsx _ _) (Hsx _ _) Z0) as G end.
    rewrite Z.lor_0_r in G. rewrite G. pose proof (group_bytes a b "000") as Gb. change (byte "000") with 0%Z in Gb. rewrite Z.lor_0_r in Gb.
    rewrite Gb, !sextet_val, E1, E2, E3 by lia. do 2 f_equal; [|f_equal]; apply b64_byte_eq; rewrite Z.shiftr_div_pow2, ?H8, ?H16 by lia;
      Z.to_euclidean_division_equations; lia.
  - pose proof (byte_range a). pose proof (byte_range b). pose proof (byte_range c).
    change (b64 (a :: b :: c :: l)) with
      (let v := Z.lor (Z.lor (Z.shiftl (byte a) 16) (Z.shiftl (byte b) 8)) (byte c) in
       sextet v 3 :: sextet v 2 :: sextet v 1 :: sextet v 0 :: b64 l).
    cbv zeta. cbn [b64_quanta]. rewrite !b64_val_sextet, IH. cbn [fmap option_fmap option_map].
    rewrite group_sextets by apply Hsx. rewrite group_bytes, !sextet_val, E0, E1, E2, E3 by lia. rewrite Z.div_1_r.
    match goal with |- context [b64_byte (Z.shiftr ?v 16)] =>
      replace v with (byte a * 65536 + byte b * 256 + byte c)%Z by (Z.to_euclidean_division_equations; lia) end.
    f_equal. repeat apply (f_equal2 cons); [| | |done]; apply b64_byte_eq; rewrite ?Z.shiftr_div_pow2, ?H8, ?H16 by lia;
      Z.to_euclidean_division_equations; lia.
Qed.

Lemma b64_decode_b64 l : b64_decode (b64 l) = Some l.
Proof.
  unfold b64_decode. replace (List.filter _ (b64 l)) with (b64 l); [apply b64_quanta_b64|]. symmetry.
  pose proof (b64_all_alphabet l) as Ha. induction Ha as [|c l' Hc _ IH]; [done|]. cbn [List.filter].
  assert (Hb : ((byte c =? 13) || (byte c =? 10))%Z = false) by (unfold b64_alphabet in Hc; lia). rewrite Hb. cbn [negb]. by rewrite IH.
Qed.

(** ** [base64.RawURLEncoding] *)

(** Its alphabet has - and _ for + and /, and it writes no padding. *)
Definition url_char (c : ascii) : ascii :=
  if bool_decide (c = "+"%char) then "-"%char else if bool_decide (c = "/"%char) then "_"%char else c.

Definition b64url (l : list ascii) : list ascii := url_char <$> filter (λ c, c ≠ b64_pad) (b64 l).

Definition RawURL_EncodeToString (s : string) : string := str (b64url (chars s)).

Definition std_char (c : ascii) : option ascii :=
  if bool_decide (c ∈ ["+"; "/"; b64_pad]%char) then None
  else Some (if bool_decide (c = "-"%char) then "+"%char else if bool_decide (c = "_"%char) then "/"%char else c).

(** The padding the last group lacks. *)
Definition missing_pad (n : nat) : nat := match (n mod 4)%nat with 2%nat => 2 | 3%nat => 1 | _ => 0 end%nat.

(** [RawURLEncoding.DecodeString]: line breaks are skipped. *)
Definition RawURL_DecodeString (s : string) : option string :=
  let l := List.filter (λ c, negb ((byte c =? 13) || (byte c =? 10))%Z) (chars s) in
  match mapM std_char l with
  | Some l => str <$> b64_decode (l ++ replicate (missing_pad (length l)) b64_pad)
  | None => None
  end.

Example RawURL_vectors :
  RawURL_EncodeToString (str ["255"; "239"; "190"; "102"]%char) = "_---Zg" ∧
  RawURL_DecodeString "_---Zg" = Some (str ["255"; "239"; "190"; "102"]%char) ∧
  RawURL_DecodeString "Zg==" = None ∧ RawURL_DecodeString "Z" = None.
Proof. vm_compute. split_and!; reflexivity. Qed.

Lemma b64_char_pad n : (0 ≤ n < 64)%Z → b64_char n ≠ b64_pad.
Proof. intros Hn E. pose proof (b64_val_char n Hn) as H. rewrite E in H. by vm_compute in H. Qed.

Lemma sextet_pad v i : sextet v i ≠ b64_pad.
Proof. apply b64_char_pad, sextet_range. Qed.

(** An encoding is its characters, and the padding their number calls for. *)
Lemma b64_padded l :
  b64 l = filter (λ c, c ≠ b64_pad) (b64 l) ++ replicate (missing_pad (length (filter (λ c, c ≠ b64_pad) (b64 l)))) b64_pad.
Proof.
  pose proof sextet_pad as Hs.
  induction l as [|a|a b|a b c l IH] using list_ind3; [done|..].
  - cbn [b64]. cbv zeta. by rewrite !filter_cons_True, !filter_cons_False by (apply Hs || (by intros ?)).
  - cbn [b64]. cbv zeta. by rewrite !filter_cons_True, !filter_cons_False by (apply Hs || (by intros ?)).
  - change (b64 (a :: b :: c :: l)) with
      (let v := Z.lor (Z.lor (Z.shiftl (byte a) 16) (Z.shiftl (byte b) 8)) (byte c) in
       [sextet v 3; sextet v 2; sextet v 1; sextet v 0] ++ b64 l).
    cbv zeta. set (v := Z.lor _ _). rewrite filter_app. set (g := [_; _; _; _]).
    assert (Hg : filter (λ c, c ≠ b64_pad) g = g) by (unfold g; by rewrite !filter_cons_True by apply Hs).
    rewrite Hg, <- app_assoc. f_equal. rewrite IH at 1. f_equal. f_equal. unfold missing_pad. rewrite length_app.
    change (length g) with (1 * 4)%nat. by rewrite Nat.add_comm, Nat.Div0.mod_add.
Qed.

Lemma std_char_url c : b64_alphabet c = true → c ≠ b64_pad → std_char (url_char c) = Some c.
Proof.
  intros Ha Hp. unfold url_char. destruct (decide (c = "+"%char)) as [->|H1]; [done|]. rewrite (bool_decide_eq_false_2 _ H1).
  destruct (decide (c = "/"%char)) as [->|H2]; [done|]. rewrite (bool_decide_eq_false_2 _ H2). unfold std_char.
  rewrite bool_decide_eq_false_2 by set_solver. rewrite !bool_decide_eq_false_2; [done| |]; intros ->; by vm_compute in Ha.
Qed.

(** What no encoding holds: line breaks, and the dot that joins the parts of a token. *)
Lemma b64url_plain l c : c ∈ b64url l → byte c ≠ 13%Z ∧ byte c ≠ 10%Z ∧ c ≠ "."%char.
Proof.
  unfold b64url. intros (d & -> & Hd)%list_elem_of_fmap. apply list_elem_of_filter in Hd as [_ Hd].
  pose proof (b64_all_alphabet l) as Ha. rewrite Forall_forall in Ha. specialize (Ha d Hd). unfold url_char, b64_alphabet in *.
  case_bool_decide; [by vm_compute|]. case_bool_decide; [by vm_compute|].
  split_and!; [lia|lia|]. intros ->. by vm_compute in Ha.
Qed.

Lemma RawURL_round s : RawURL_DecodeString (RawURL_EncodeToString s) = Some s.
Proof.
  unfold RawURL_DecodeString, RawURL_EncodeToString. rewrite chars_str.
  assert (Hf : List.filter (λ c, negb ((byte c =? 13) || (byte c =? 10))%Z) (b64url (chars s)) = b64url (chars s)).
  { pose proof (b64url_plain (chars s)) as Hp. induction (b64url (chars s)) as [|c l IH]; [done|]. cbn [List.filter].
    destruct (Hp c ltac:(left)) as (H1 & H2 & _). assert (E : ((byte c =? 13) || (byte c =? 10))%Z = false) by lia. rewrite E. cbn [negb].
    f_equal. apply IH. intros d Hd. apply Hp. by right. }
  rewrite Hf. clear Hf.
  assert (Hm : mapM std_char (b64url (chars s)) = Some (filter (λ c, c ≠ b64_pad) (b64 (chars s)))).
  { unfold b64url. pose proof (b64_all_alphabet (chars s)) as Ha. induction (b64 (chars s)) as [|c l IH]; [done|].
    apply Forall_cons in Ha as [Hc Ha]. destruct (decide (c = b64_pad)) as [->|Hp]; [by apply IH|].
    rewrite filter_cons_True by done. rewrite fmap_cons. simpl. rewrite (std_char_url c Hc Hp). simpl. by rewrite (IH Ha). }
  rewrite Hm, <- b64_padded, b64_decode_b64. simpl. by rewrite str_chars.
Qed.
