(* ===== verification/Json.v ===== *)
(** * encoding/json: the request bodies the program marshals

    [Marshal] of the values the adapters send: strings escaped the way [json.Marshal] does (HTML
    characters included), integers, other numbers as they are spelled, booleans, arrays, and objects
    whose fields come in the order given (a struct's, or a map's sorted keys).  JsonText.v reads
    texts. *)

From S2P Require Import Prelude GoStrings Base64.
From Stdlib Require Import Ascii.

Definition quote_char : ascii := "034"%char.

Definition hex_digit (n : Z) : ascii :=
  ascii_of_N (Z.to_N (if (n <? 10)%Z then n + 48 else n + 87)).

(** [htmlSafeSet]: the ASCII bytes copied as they are. *)
Definition html_safe (b : Z) : bool :=
  ((0x20 <=? b) && (b <? 0x80) && negb ((b =? 0x22) || (b =? 0x5C) || (b =? 0x3C) || (b =? 0x3E) || (b =? 0x26)))%Z.

Definition json_rune (r : rune) : list ascii :=
  match renc r with
  | [c] =>
      let b := byte c in
      if (b <? 0x80)%Z then
        if html_safe b then [c]
        else if (b =? 0x5C)%Z || (b =? 0x22)%Z then ["\"%char; c]
        else if (b =? 0x08)%Z then ["\"; "b"]%char
        else if (b =? 0x0C)%Z then ["\"; "f"]%char
        else if (b =? 0x0A)%Z then ["\"; "n"]%char
        else if (b =? 0x0D)%Z then ["\"; "r"]%char
        else if (b =? 0x09)%Z then ["\"; "t"]%char
        else ["\"; "u"; "0"; "0"]%char ++ [hex_digit (Z.shiftr b 4); hex_digit (Z.land b 15)]
      else ["\"; "u"; "f"; "f"; "f"; "d"]%char
  | enc =>
      if (rcode r =? 0x2028)%Z || (rcode r =? 0x2029)%Z
      then ["\"; "u"; "2"; "0"; "2"]%char ++ [hex_digit (Z.land (rcode r) 15)]
      else enc
  end.

Definition json_string (s : string) : string :=
  str (quote_char :: concat (json_rune <$> runes (chars s)) ++ [quote_char]).

Inductive json :=
  | JNull
  | JStr (s : string)
  | JInt (n : Z)
  | JNum (lit : string)
  | JBool (b : bool)
  | JArr (l : list json)
  | JObj (fields : list (string * json)).

Fixpoint json_text (v : json) : string :=
  match v with
  | JNull => "null"
  | JStr s => json_string s
  | JInt n => Itoa n
  | JNum lit => lit
  | JBool b => if b then "true" else "false"
  | JArr l => "[" +:+ Join (json_text <$> l) "," +:+ "]"
  | JObj fields => "{" +:+ Join ((λ kv, json_string kv.1 +:+ ":" +:+ json_text kv.2) <$> fields) "," +:+ "}"
  end.

Example json_string_escapes :
  json_string (str ["a"; quote_char; "\"; "<"; "010"; "001"]%char) =
  str [quote_char; "a"; "\"; quote_char; "\"; "\"; "\"; "u"; "0"; "0"; "3"; "c"; "\"; "n"; "\"; "u"; "0"; "0"; "0"; "1"; quote_char]%char.
Proof. vm_compute. reflexivity. Qed.

Example json_value :
  json_text (JArr [JInt (-7); JBool true; JNull; JArr []]) = "[-7,true,null,[]]".
Proof. vm_compute. reflexivity. Qed.

(** ** Strings that need no escaping *)

Definition plain (c : ascii) : bool := html_safe (byte c).

Lemma plain_rune c : plain c = true → json_rune (MkRune (byte c) [c]) = [c].
Proof.
  unfold plain. intros Hp. unfold json_rune. cbn [renc].
  assert (Hlt : (byte c <? 0x80)%Z = true) by (unfold html_safe in Hp; lia). by rewrite Hlt, Hp.
Qed.

Lemma json_string_plain s :
  Forall (λ c, plain c = true) (chars s) → chars (json_string s) = quote_char :: chars s ++ [quote_char].
Proof.
  intros Hp. unfold json_string. rewrite chars_str. f_equal. f_equal.
  rewrite runes_ascii.
  2:{ eapply Forall_impl; [exact Hp|]. intros c. unfold plain, html_safe. lia. }
  induction (chars s) as [|c l IH]; [done|]. apply Forall_cons in Hp as [Hc Hp].
  csimpl. rewrite (plain_rune c Hc). simpl. f_equal. by apply IH.
Qed.

(** Base64 text is one of them. *)
Lemma b64_alphabet_plain c : b64_alphabet c = true → plain c = true.
Proof. unfold b64_alphabet, plain, html_safe. lia. Qed.

Lemma json_string_b64 s :
  chars (json_string (EncodeToString s)) = quote_char :: b64 (chars s) ++ [quote_char].
Proof.
  rewrite json_string_plain; unfold EncodeToString; rewrite chars_str; [done|].
  eapply Forall_impl; [apply b64_all_alphabet|exact b64_alphabet_plain].
Qed.
