(* ===== verification/JsonText.v ===== *)
(** * encoding/json: reading a text

    The scanner of [encoding/json], one byte at a time as it is written there: a value is found
    ([SDone], with what follows it), the text is no JSON value whatever follows ([SBad]), or it ends
    before the value does ([SMore]).  The tree it builds keeps the text of every member and element,
    which [json.RawMessage] hands on, and numbers as they are spelled. *)

From S2P Require Import Prelude GoStrings Base64 Json.
From Stdlib Require Import Ascii.

Inductive scanned (A : Type) : Type :=
  | SDone (x : A) (rest : list ascii)
  | SMore
  | SBad.
Arguments SDone {A} _ _.
Arguments SMore {A}.
Arguments SBad {A}.

Definition sbind {A B} (s : scanned A) (k : A → list ascii → scanned B) : scanned B :=
  match s with SDone x rest => k x rest | SMore => SMore | SBad => SBad end.

(** The byte [c] before what [s] finds. *)
Definition spush (c : ascii) (s : scanned (list ascii)) : scanned (list ascii) :=
  sbind s (λ l rest, SDone (c :: l) rest).

Inductive jval :=
  | VNull
  | VBool (b : bool)
  | VNum (lit : list ascii)
  | VStr (s : list ascii)
  | VArr (l : list (list ascii * jval))
  | VObj (l : list (list ascii * (list ascii * jval))).

(** ** Strings *)

Definition backslash : ascii := "\"%char.
Definition is_byte (n : Z) (c : ascii) : bool := (byte c =? n)%Z.
Definition hex_val (c : ascii) : option Z :=
  if ((0x30 <=? byte c) && (byte c <=? 0x39))%Z then Some (byte c - 0x30)%Z
  else if ((0x61 <=? byte c) && (byte c <=? 0x66))%Z then Some (byte c - 0x57)%Z
  else if ((0x41 <=? byte c) && (byte c <=? 0x46))%Z then Some (byte c - 0x37)%Z
  else None.
Definition is_hex (c : ascii) : bool := match hex_val c with Some _ => true | None => false end.
(** The bytes that may follow a backslash, other than [u]. *)
Definition is_escape (c : ascii) : bool :=
  bool_decide (c ∈ [backslash; quote_char; "/"; "b"; "f"; "n"; "r"; "t"]%char).

Inductive string_state := InString | InEsc | InHex (more : nat).

Fixpoint scan_string (s : string_state) (l : list ascii) : scanned (list ascii) :=
  match l with
  | [] => SMore
  | c :: l =>
      match s with
      | InString =>
          if is_byte 0x22 c then SDone [] l
          else if is_byte 0x5C c then spush c (scan_string InEsc l)
          else if (byte c <? 0x20)%Z then SBad
          else spush c (scan_string InString l)
      | InEsc =>
          if is_escape c then spush c (scan_string InString l)
          else if is_byte 0x75 c then spush c (scan_string (InHex 3) l)
          else SBad
      | InHex n =>
          if is_hex c
          then spush c (scan_string (match n with O => InString | S n => InHex n end) l)
          else SBad
      end
  end.

(** [utf8.AppendRune]. *)
Definition surrogate (r : Z) : bool := ((0xD800 <=? r) && (r <? 0xE000))%Z.
Definition of_byte (n : Z) : ascii := ascii_of_N (Z.to_N n).
Definition encode_rune (r : Z) : list ascii :=
  (if (r <? 0) || (0x10FFFF <? r) || surrogate r then rune_error_bytes
   else if r <? 0x80 then [of_byte r]
   else if r <? 0x800 then [of_byte (0xC0 + r / 64); of_byte (0x80 + r mod 64)]
   else if r <? 0x10000 then [of_byte (0xE0 + r / 4096); of_byte (0x80 + r / 64 mod 64); of_byte (0x80 + r mod 64)]
   else [of_byte (0xF0 + r / 262144); of_byte (0x80 + r / 4096 mod 64); of_byte (0x80 + r / 64 mod 64);
         of_byte (0x80 + r mod 64)])%Z.

(** [getu4] on the four digits after [\u]. *)
Definition hex4 (a b c d : ascii) : option Z :=
  match hex_val a, hex_val b, hex_val c, hex_val d with
  | Some a, Some b, Some c, Some d => Some (((a * 16 + b) * 16 + c) * 16 + d)%Z
  | _, _, _, _ => None
  end.
(** [getu4] at the start of a text. *)
Definition getu4 (l : list ascii) : option Z :=
  match l with
  | e :: u :: t =>
      if is_byte 0x5C e && is_byte 0x75 u then match t with a :: b :: c :: d :: _ => hex4 a b c d | _ => None end
      else None
  | _ => None
  end.
(** [utf16.DecodeRune], [None] for [unicode.ReplacementChar]. *)
Definition DecodeRune (r1 r2 : Z) : option Z :=
  if ((0xD800 <=? r1) && (r1 <? 0xDC00) && (0xDC00 <=? r2) && (r2 <? 0xE000))%Z
  then Some ((r1 - 0xD800) * 1024 + (r2 - 0xDC00) + 0x10000)%Z else None.

Definition unescape (c : ascii) : ascii :=
  if is_byte 0x62 c then "008"%char else if is_byte 0x66 c then "012"%char else if is_byte 0x6E c then "010"%char
  else if is_byte 0x72 c then "013"%char else if is_byte 0x74 c then "009"%char else c.

(** [unquoteBytes] on what a string's quotes enclose. *)
Fixpoint unquote_fuel (n : nat) (l : list ascii) : list ascii :=
  match n, l with
  | O, _ | _, [] => []
  | S n, c :: t =>
      if is_byte 0x5C c then
        match getu4 l with
        | Some rr =>
            let t := drop 6 l in
            if surrogate rr then
              match (let? rr1 := from_option Ok (Err tt) (getu4 t) in from_option Ok (Err tt) (DecodeRune rr rr1))%gw with
              | Ok dec => encode_rune dec ++ unquote_fuel n (drop 6 t)
              | Err _ => rune_error_bytes ++ unquote_fuel n t
              end
            else encode_rune rr ++ unquote_fuel n t
        | None =>
            match t with
            | [] => []
            | e :: t => unescape e :: unquote_fuel n t
            end
        end
      else
        match first_rune l with
        | Some r => renc (valid_enc r) ++ unquote_fuel n (drop (length (renc r)) l)
        | None => []
        end
  end.
Definition unquote (l : list ascii) : list ascii := unquote_fuel (length l) l.

(** ** Numbers *)

Inductive number_state := NStart | NNeg | NZero | NInt | NDot | NFrac | NExp | NSign | NExpInt.

Definition number_end (s : number_state) : bool :=
  match s with NZero | NInt | NFrac | NExpInt => true | _ => false end.

Definition number_step (s : number_state) (c : ascii) : option number_state :=
  let digit := ((0x30 <=? byte c) && (byte c <=? 0x39))%Z in
  let after_int :=
    if is_byte 0x2E c then Some NDot else if is_byte 0x65 c || is_byte 0x45 c then Some NExp else None in
  match s with
  | NStart => if is_byte 0x2D c then Some NNeg else if is_byte 0x30 c then Some NZero else if digit then Some NInt else None
  | NNeg => if is_byte 0x30 c then Some NZero else if digit then Some NInt else None
  | NZero => after_int
  | NInt => if digit then Some NInt else after_int
  | NDot => if digit then Some NFrac else None
  | NFrac => if digit then Some NFrac else if is_byte 0x65 c || is_byte 0x45 c then Some NExp else None
  | NExp => if is_byte 0x2B c || is_byte 0x2D c then Some NSign else if digit then Some NExpInt else None
  | NSign | NExpInt => if digit then Some NExpInt else None
  end.

Fixpoint scan_number (s : number_state) (l : list ascii) : scanned (list ascii) :=
  match l with
  | [] => if number_end s then SDone [] [] else SMore
  | c :: l' =>
      match number_step s c with
      | Some s' => spush c (scan_number s' l')
      | None => if number_end s then SDone [] l else SBad
      end
  end.

(** ** Values *)

Fixpoint expect (p l : list ascii) : scanned unit :=
  match p, l with
  | [], _ => SDone tt l
  | _, [] => SMore
  | a :: p, c :: l => if bool_decide (a = c) then expect p l else SBad
  end.

Definition json_space (c : ascii) : bool := is_byte 0x20 c || is_byte 0x09 c || is_byte 0x0D c || is_byte 0x0A c.
Definition skip_space (l : list ascii) : list ascii := drop_while json_space l.

(** The bytes of [l] before its suffix [rest]. *)
Definition before (l rest : list ascii) : list ascii := take (length l - length rest) l.

(** [maxNestingDepth]. *)
Definition maxNestingDepth : Z := 10000.

(** One value, at [depth] open arrays and objects; the elements of an array, after its bracket or a comma; and the
    members of an object.  Every call but that of [scan_value] for an element consumes a byte. *)
Fixpoint scan_value (fuel : nat) (depth : Z) (l : list ascii) : scanned jval :=
  match fuel, l with
  | O, _ => SBad
  | _, [] => SMore
  | S fuel, c :: t =>
      if is_byte 0x7B c then
        if (maxNestingDepth <=? depth)%Z then SBad
        else match skip_space t with
             | [] => SMore
             | c' :: t' => if is_byte 0x7D c' then SDone (VObj []) t'
                           else sbind (scan_members fuel (depth + 1) (c' :: t')) (λ ms, SDone (VObj ms))
             end
      else if is_byte 0x5B c then
        if (maxNestingDepth <=? depth)%Z then SBad
        else match skip_space t with
             | [] => SMore
             | c' :: t' => if is_byte 0x5D c' then SDone (VArr []) t'
                           else sbind (scan_elements fuel (depth + 1) (c' :: t')) (λ vs, SDone (VArr vs))
             end
      else if is_byte 0x22 c then sbind (scan_string InString t) (λ body, SDone (VStr (unquote body)))
      else if is_byte 0x74 c then sbind (expect (chars "rue") t) (λ _, SDone (VBool true))
      else if is_byte 0x66 c then sbind (expect (chars "alse") t) (λ _, SDone (VBool false))
      else if is_byte 0x6E c then sbind (expect (chars "ull") t) (λ _, SDone VNull)
      else match number_step NStart c with
           | Some s => sbind (spush c (scan_number s t)) (λ lit, SDone (VNum lit))
           | None => SBad
           end
  end
with scan_elements (fuel : nat) (depth : Z) (l : list ascii) : scanned (list (list ascii * jval)) :=
  match fuel with
  | O => SBad
  | S fuel =>
      let l := skip_space l in
      sbind (scan_value fuel depth l) (λ v rest,
      match skip_space rest with
      | [] => SMore
      | c :: t =>
          if is_byte 0x2C c then sbind (scan_elements fuel depth t) (λ vs, SDone ((before l rest, v) :: vs))
          else if is_byte 0x5D c then SDone [(before l rest, v)] t
          else SBad
      end)
  end
with scan_members (fuel : nat) (depth : Z) (l : list ascii) : scanned (list (list ascii * (list ascii * jval))) :=
  match fuel with
  | O => SBad
  | S fuel =>
      match skip_space l with
      | [] => SMore
      | c :: t =>
          if is_byte 0x22 c then
            sbind (scan_string InString t) (λ key t,
            match skip_space t with
            | [] => SMore
            | c :: t =>
                if is_byte 0x3A c then
                  let l := skip_space t in
                  sbind (scan_value fuel depth l) (λ v rest,
                  let m := (unquote key, (before l rest, v)) in
                  match skip_space rest with
                  | [] => SMore
                  | c :: t =>
                      if is_byte 0x2C c then sbind (scan_members fuel depth t) (λ ms, SDone (m :: ms))
                      else if is_byte 0x7D c then SDone [m] t
                      else SBad
                  end)
                else SBad
            end)
          else SBad
      end
  end.

Definition scan_fuel (l : list ascii) : nat := S (2 * length l).

(** The value a text begins with, after blanks: its text and its tree. *)
Definition scan (l : list ascii) : scanned (list ascii * jval) :=
  let l := skip_space l in
  sbind (scan_value (scan_fuel l) 0 l) (λ v rest, SDone (before l rest, v) rest).

(** A value that is over only at the byte after it. *)
Definition needs_next (v : jval) : bool := match v with VArr _ | VObj _ => false | _ => true end.
