(* ===== verification/JsonTextSpec.v ===== *)
(** * What the scanner reads

    Strings: what [json_string] writes is scanned whole and unquoted to the string, each invalid byte
    replaced by U+FFFD ([sanitize]).  Values: what [json_text] writes is scanned to the tree of the
    value ([scan_json]).  Texts: what is found at the start of a text does not depend on what follows
    ([scan_extend]), so that the cap on a body decides only when the value is not over. *)

From S2P Require Import Prelude GoStrings Base64 Json JsonText.
From Stdlib Require Import Ascii.

(** ** Runes and their encodings *)

Lemma of_byte_byte c : of_byte (byte c) = c.
Proof. unfold of_byte, byte. by rewrite N2Z.id, ascii_N_embedding. Qed.

Lemma of_byte_eq n c : n = byte c → of_byte n = c.
Proof. intros ->. apply of_byte_byte. Qed.

Lemma low6_eq c : (0x80 ≤ byte c ≤ 0xBF)%Z → low6 c = (byte c - 0x80)%Z.
Proof.
  intros H. unfold low6. change 0x3F%Z with (Z.ones 6). rewrite Z.land_ones by lia.
  change (2 ^ 6)%Z with 64%Z. Z.to_euclidean_division_equations; lia.
Qed.

Lemma code2_eq b0 b1 :
  (0xC0 ≤ byte b0 ≤ 0xDF)%Z → (0x80 ≤ byte b1 ≤ 0xBF)%Z → code2 b0 b1 = ((byte b0 - 0xC0) * 64 + (byte b1 - 0x80))%Z.
Proof.
  intros H0 H1. unfold code2. rewrite low6_eq by done. change 0x1F%Z with (Z.ones 5). rewrite Z.land_ones by lia.
  rewrite lor_shiftl by (change (2 ^ 6)%Z with 64%Z; lia). change (2 ^ 5)%Z with 32%Z. change (2 ^ 6)%Z with 64%Z.
  Z.to_euclidean_division_equations; lia.
Qed.

Lemma code3_eq b0 b1 b2 :
  (0xE0 ≤ byte b0 ≤ 0xEF)%Z → (0x80 ≤ byte b1 ≤ 0xBF)%Z → (0x80 ≤ byte b2 ≤ 0xBF)%Z →
  code3 b0 b1 b2 = ((byte b0 - 0xE0) * 4096 + (byte b1 - 0x80) * 64 + (byte b2 - 0x80))%Z.
Proof.
  intros H0 H1 H2. unfold code3. rewrite !low6_eq by done. change 0x0F%Z with (Z.ones 4). rewrite Z.land_ones by lia.
  rewrite (lor_shiftl (byte b1 - 0x80)) by (change (2 ^ 6)%Z with 64%Z; lia).
  rewrite lor_shiftl by (change (2 ^ 12)%Z with 4096%Z; change (2 ^ 6)%Z with 64%Z; lia).
  change (2 ^ 4)%Z with 16%Z. change (2 ^ 6)%Z with 64%Z. change (2 ^ 12)%Z with 4096%Z.
  Z.to_euclidean_division_equations; lia.
Qed.

Lemma code4_eq b0 b1 b2 b3 :
  (0xF0 ≤ byte b0 ≤ 0xF4)%Z → (0x80 ≤ byte b1 ≤ 0xBF)%Z → (0x80 ≤ byte b2 ≤ 0xBF)%Z → (0x80 ≤ byte b3 ≤ 0xBF)%Z →
  code4 b0 b1 b2 b3 =
  ((byte b0 - 0xF0) * 262144 + (byte b1 - 0x80) * 4096 + (byte b2 - 0x80) * 64 + (byte b3 - 0x80))%Z.
Proof.
  intros H0 H1 H2 H3. unfold code4. rewrite !low6_eq by done. change 0x07%Z with (Z.ones 3). rewrite Z.land_ones by lia.
  rewrite (lor_shiftl (byte b2 - 0x80)) by (change (2 ^ 6)%Z with 64%Z; lia).
  rewrite (lor_shiftl (byte b1 - 0x80)) by (change (2 ^ 12)%Z with 4096%Z; change (2 ^ 6)%Z with 64%Z; lia).
  rewrite lor_shiftl by (change (2 ^ 18)%Z with 262144%Z; change (2 ^ 12)%Z with 4096%Z; change (2 ^ 6)%Z with 64%Z; lia).
  change (2 ^ 3)%Z with 8%Z. change (2 ^ 6)%Z with 64%Z. change (2 ^ 12)%Z with 4096%Z. change (2 ^ 18)%Z with 262144%Z.
  Z.to_euclidean_division_equations; lia.
Qed.

(** The tests of [encode_rune] decided by arithmetic. *)
Ltac decide_tests :=
  repeat match goal with
  | |- context [(?a <? ?b)%Z] => first [rewrite (proj2 (Z.ltb_lt a b)) by lia | rewrite (proj2 (Z.ltb_ge a b)) by lia]
  | |- context [(?a <=? ?b)%Z] => first [rewrite (proj2 (Z.leb_le a b)) by lia | rewrite (proj2 (Z.leb_gt a b)) by lia]
  end; cbn [orb andb].

Lemma encode2 b0 b1 :
  (0xC2 ≤ byte b0 ≤ 0xDF)%Z → (0x80 ≤ byte b1 ≤ 0xBF)%Z →
  encode_rune ((byte b0 - 0xC0) * 64 + (byte b1 - 0x80)) = [b0; b1].
Proof.
  intros H0 H1. unfold encode_rune, surrogate. decide_tests.
  repeat apply (f_equal2 cons); [apply of_byte_eq; Z.to_euclidean_division_equations; lia..|done].
Qed.

Lemma encode3 b0 b1 b2 :
  (0xE0 ≤ byte b0 ≤ 0xEF)%Z → (0x80 ≤ byte b1 ≤ 0xBF)%Z → (0x80 ≤ byte b2 ≤ 0xBF)%Z →
  (byte b0 = 0xE0 → 0xA0 ≤ byte b1)%Z → (byte b0 = 0xED → byte b1 ≤ 0x9F)%Z →
  encode_rune ((byte b0 - 0xE0) * 4096 + (byte b1 - 0x80) * 64 + (byte b2 - 0x80)) = [b0; b1; b2].
Proof.
  intros H0 H1 H2 Ha Hb. unfold encode_rune, surrogate.
  set (n := ((byte b0 - 0xE0) * 4096 + (byte b1 - 0x80) * 64 + (byte b2 - 0x80))%Z).
  assert (Hn : (0x800 ≤ n < 0x10000 ∧ ¬ (0xD800 ≤ n < 0xE000))%Z).
  { unfold n. destruct (decide (byte b0 = 0xE0)%Z) as [E|E]; [specialize (Ha E); lia|].
    destruct (decide (byte b0 = 0xED)%Z) as [E'|E']; [specialize (Hb E'); lia|lia]. }
  replace ((0xD800 <=? n) && (n <? 0xE000))%Z with false by lia. decide_tests. unfold n in *. clear n.
  repeat apply (f_equal2 cons); [apply of_byte_eq; Z.to_euclidean_division_equations; lia..|done].
Qed.

Lemma encode4 b0 b1 b2 b3 :
  (0xF0 ≤ byte b0 ≤ 0xF4)%Z → (0x80 ≤ byte b1 ≤ 0xBF)%Z → (0x80 ≤ byte b2 ≤ 0xBF)%Z → (0x80 ≤ byte b3 ≤ 0xBF)%Z →
  (byte b0 = 0xF0 → 0x90 ≤ byte b1)%Z → (byte b0 = 0xF4 → byte b1 ≤ 0x8F)%Z →
  encode_rune ((byte b0 - 0xF0) * 262144 + (byte b1 - 0x80) * 4096 + (byte b2 - 0x80) * 64 + (byte b3 - 0x80)) =
  [b0; b1; b2; b3].
Proof.
  intros H0 H1 H2 H3 Ha Hb. unfold encode_rune, surrogate.
  set (n := ((byte b0 - 0xF0) * 262144 + (byte b1 - 0x80) * 4096 + (byte b2 - 0x80) * 64 + (byte b3 - 0x80))%Z).
  assert (Hn : (0x10000 ≤ n ≤ 0x10FFFF)%Z).
  { unfold n. destruct (decide (byte b0 = 0xF0)%Z) as [E|E]; [specialize (Ha E); lia|].
    destruct (decide (byte b0 = 0xF4)%Z) as [E'|E']; [specialize (Hb E'); lia|lia]. }
  replace ((0xD800 <=? n) && (n <? 0xE000))%Z with false by lia. decide_tests. unfold n in *. clear n.
  repeat apply (f_equal2 cons); [apply of_byte_eq; Z.to_euclidean_division_equations; lia..|done].
Qed.

(** Encoding a decoded rune gives its bytes back. *)
Lemma encode_rune_code l r : first_rune l = Some r → invalid r = false → encode_rune (rcode r) = renc r.
Proof.
  intros H Hv. destruct l as [|b0 t]; [done|]. pose proof (byte_range b0) as R0.
  unfold first_rune, lead2, lead3, lead4, accept2, is_cont in H.
  first_rune_cases H; injection H as <-; cbn [rcode renc] in *; try discriminate Hv; bool_to_prop.
  { unfold encode_rune, surrogate. decide_tests. by rewrite of_byte_byte. }
  all: rewrite ?code2_eq, ?code3_eq, ?code4_eq by lia.
  all: first [apply encode2|apply encode3|apply encode4]; lia.
Qed.

(** ** Strings *)

(** The three kinds of decoded runes: an ASCII byte, an invalid byte, a sequence of several bytes. *)
Lemma rune_kinds r :
  first_rune (renc r) = Some r →
  (∃ c, r = MkRune (byte c) [c] ∧ (byte c < 0x80)%Z) ∨ (∃ c, r = MkRune RuneError [c] ∧ (0x80 ≤ byte c)%Z) ∨
  (invalid r = false ∧ (2 ≤ length (renc r))%nat ∧ Forall (λ c, (0x80 ≤ byte c)%Z) (renc r)).
Proof.
  intros H. destruct (renc r) as [|b0 t] eqn:E; [done|].
  unfold first_rune, lead2, lead3, lead4, accept2, is_cont in H.
  first_rune_cases H; injection H as <-; cbn [renc rcode length] in *; simplify_eq; bool_to_prop;
    try (left; exists b0; by split); try (right; left; exists b0; split; [done|lia]);
    right; right; (split; [unfold invalid; cbn [length renc Nat.eqb]; apply andb_false_r|]); (split; [lia|]); repeat (apply Forall_cons; split; [lia|]); apply Forall_nil; done.
Qed.

(** A code below 0x80 is decoded from the one byte of that value. *)
Lemma low_code_byte r :
  first_rune (renc r) = Some r → (rcode r < 0x80)%Z → ∃ c, r = MkRune (byte c) [c] ∧ (byte c < 0x80)%Z.
Proof.
  intros H Hc. destruct (rune_kinds r H) as [Hr|[(c & -> & _)|(Hi & Hl & _)]]; [exact Hr|discriminate Hc|exfalso].
  pose proof (encode_rune_code _ _ H Hi) as E. unfold encode_rune in E.
  destruct ((rcode r <? 0) || (0x10FFFF <? rcode r) || surrogate (rcode r))%Z.
  - rewrite <- E in H. vm_compute in H. injection H as <-. vm_compute in Hc. discriminate Hc.
  - rewrite (proj2 (Z.ltb_lt _ _) Hc) in E. rewrite <- E in Hl. simpl in Hl. lia.
Qed.

(** The escape of a rune, scanned. *)
Lemma scan_json_rune r l :
  first_rune (renc r) = Some r → scan_string InString (json_rune r ++ l) = foldr spush (scan_string InString l) (json_rune r).
Proof.
  intros Hr. destruct (rune_kinds r Hr) as [(c & -> & Hc)|[(c & -> & Hc)|(Hv & Hlen & Hall)]].
  - clear Hr. destruct c as [[] [] [] [] [] [] [] []]; try (vm_compute in Hc; discriminate Hc); reflexivity.
  - unfold json_rune. cbn [renc]. rewrite (proj2 (Z.ltb_ge (byte c) 0x80)) by done. reflexivity.
  - unfold json_rune. destruct (renc r) as [|b0 [|b1 t]] eqn:E; [simpl in Hlen; lia..|].
    destruct ((rcode r =? 0x2028)%Z || (rcode r =? 0x2029)%Z) eqn:E2.
    + apply orb_true_iff in E2 as [E2|E2]; apply Z.eqb_eq in E2; rewrite E2; reflexivity.
    + clear E Hlen E2 Hr. induction Hall as [|c l' Hc _ IH]; [done|]. cbn [app scan_string foldr].
      unfold is_byte. rewrite (proj2 (Z.eqb_neq (byte c) 0x22)), (proj2 (Z.eqb_neq (byte c) 0x5C)), (proj2 (Z.ltb_ge (byte c) 0x20)) by lia.
      by rewrite IH.
Qed.

Lemma foldr_spush p l rest : foldr spush (SDone l rest) p = SDone (p ++ l) rest.
Proof. induction p as [|c p IH]; [done|]. cbn [foldr]. rewrite IH. done. Qed.

Lemma scan_json_runes rs rest :
  Forall (λ r, first_rune (renc r) = Some r) rs →
  scan_string InString (concat (json_rune <$> rs) ++ quote_char :: rest) = SDone (concat (json_rune <$> rs)) rest.
Proof.
  induction 1 as [|r rs Hr _ IH]; [done|]. csimpl. rewrite <- app_assoc, scan_json_rune by done.
  by rewrite IH, foldr_spush.
Qed.

(** One rune, unquoted. *)
Lemma unquote_step n c t : is_byte 0x5C c = false →
  unquote_fuel (S n) (c :: t) =
  match first_rune (c :: t) with
  | Some r => renc (valid_enc r) ++ unquote_fuel n (drop (length (renc r)) (c :: t))
  | None => []
  end.
Proof. intros H. cbn [unquote_fuel]. by rewrite H. Qed.

Lemma unquote_json_rune n r l :
  first_rune (renc r) = Some r → unquote_fuel (S n) (json_rune r ++ l) = renc (valid_enc r) ++ unquote_fuel n l.
Proof.
  intros Hr. destruct (rune_kinds r Hr) as [(c & -> & Hc)|[(c & -> & Hc)|(Hv & Hlen & Hall)]].
  - clear Hr. destruct c as [[] [] [] [] [] [] [] []]; try (vm_compute in Hc; discriminate Hc);
      first [reflexivity|rewrite unquote_step by reflexivity; reflexivity].
  - unfold json_rune, valid_enc. cbn [renc]. rewrite (proj2 (Z.ltb_ge (byte c) 0x80)) by done. reflexivity.
  - unfold valid_enc. rewrite Hv. unfold json_rune.
    pose proof (encode_rune_code _ _ Hr Hv) as Henc.
    destruct (renc r) as [|b0 [|b1 t]] eqn:E; [simpl in Hlen; lia..|].
    destruct ((rcode r =? 0x2028)%Z || (rcode r =? 0x2029)%Z) eqn:E2.
    + apply orb_true_iff in E2 as [E2|E2]; apply Z.eqb_eq in E2; rewrite E2 in *; rewrite <- Henc; reflexivity.
    + apply Forall_cons in Hall as [H0 _]. change ((b0 :: b1 :: t) ++ l) with (b0 :: (b1 :: t ++ l)).
      rewrite unquote_step by (unfold is_byte; apply Z.eqb_neq; lia).
      assert (Ha := first_rune_app _ l _ Hr Hv). cbn [app] in Ha. rewrite Ha, E. unfold valid_enc. rewrite Hv, E.
      change (b0 :: b1 :: t ++ l) with ((b0 :: b1 :: t) ++ l). by rewrite drop_app_length.
Qed.

(** A string, with each of its invalid bytes replaced by U+FFFD: what json.Marshal writes of it. *)
Definition sanitize (s : string) : string := str (enc_of (valid_enc <$> runes (chars s))).

Lemma sanitize_valid s : valid_utf8 s = true → sanitize s = s.
Proof.
  intros Hv. unfold sanitize. replace (valid_enc <$> runes (chars s)) with (runes (chars s)).
  - by rewrite enc_of_runes, str_chars.
  - symmetry. transitivity (id <$> runes (chars s)); [|by rewrite list_fmap_id]. apply list_fmap_ext.
    intros i r Hi. apply list_elem_of_lookup_2, list_elem_of_In in Hi. unfold valid_utf8 in Hv. rewrite forallb_forall in Hv.
    specialize (Hv r Hi). unfold valid_enc. by destruct (invalid r).
Qed.

Lemma sanitize_idemp s : sanitize (sanitize s) = sanitize s.
Proof.
  apply sanitize_valid. unfold sanitize. apply wf_valid_utf8, valid_enc_wf.
Qed.

Lemma unquote_json_runes n rs :
  Forall (λ r, first_rune (renc r) = Some r) rs → (length rs ≤ n)%nat →
  unquote_fuel n (concat (json_rune <$> rs)) = enc_of (valid_enc <$> rs).
Proof.
  intros Hall. revert n. induction Hall as [|r rs Hr _ IH]; intros n Hn; [by destruct n|].
  destruct n as [|n]; [simpl in Hn; lia|].
  change (concat (json_rune <$> r :: rs)) with (json_rune r ++ concat (json_rune <$> rs)). rewrite unquote_json_rune by done.
  unfold enc_of. csimpl. f_equal. apply IH. simpl in Hn. lia.
Qed.

Lemma json_rune_ne r : first_rune (renc r) = Some r → json_rune r ≠ [].
Proof.
  intros Hr E. pose proof (scan_json_rune r [quote_char] Hr) as Hs. pose proof (unquote_json_rune 0 r [] Hr) as Hu.
  rewrite E in Hu. change (unquote_fuel 1 ([] ++ [])) with (@nil ascii) in Hu. symmetry in Hu.
  apply app_eq_nil in Hu as [Hu _]. unfold valid_enc in Hu. destruct (invalid r); [discriminate Hu|].
  rewrite Hu in Hr. discriminate Hr.
Qed.

Lemma json_runes_length rs :
  Forall (λ r, first_rune (renc r) = Some r) rs → (length rs ≤ length (concat (json_rune <$> rs)))%nat.
Proof.
  induction 1 as [|r rs Hr _ IH]; [done|]. csimpl. rewrite length_app. apply json_rune_ne in Hr.
  destruct (json_rune r); [done|]. simpl. lia.
Qed.

(** What [json_string] writes is scanned and unquoted. *)
Definition json_body (s : string) : list ascii := concat (json_rune <$> runes (chars s)).

Lemma json_string_chars s : chars (json_string s) = quote_char :: json_body s ++ [quote_char].
Proof. unfold json_string. by rewrite chars_str. Qed.

Lemma scan_json_string s rest : scan_string InString (json_body s ++ quote_char :: rest) = SDone (json_body s) rest.
Proof. apply scan_json_runes, runes_decoded. Qed.

Lemma unquote_json_string s : unquote (json_body s) = chars (sanitize s).
Proof.
  unfold unquote, json_body, sanitize. rewrite chars_str. apply unquote_json_runes; [apply runes_decoded|].
  apply json_runes_length, runes_decoded.
Qed.

(** ** Numbers *)

(** No byte of [rest] continues a number. *)
Definition number_stop (rest : list ascii) : Prop :=
  ∀ s c t, number_end s = true → rest = c :: t → number_step s c = None.

Lemma number_stop_nil : number_stop [].
Proof. done. Qed.

Lemma number_stop_cons c t : c ∈ [","; "]"; "}"; "010"; " "]%char → number_stop (c :: t).
Proof.
  intros Hc s c' t' Hs [= <- <-]. rewrite !elem_of_cons, elem_of_nil in Hc.
  destruct Hc as [->|[->|[->|[->|[->|[]]]]]]; by destruct s.
Qed.

(** The spelling of a number. *)
Definition number_lit (lit : list ascii) : Prop := scan_number NStart lit = SDone lit [].

Lemma scan_number_app s lit rest :
  scan_number s lit = SDone lit [] → number_stop rest → scan_number s (lit ++ rest) = SDone lit rest.
Proof.
  revert s. induction lit as [|c lit IH]; intros s H Hr.
  - cbn [scan_number] in H. destruct (number_end s) eqn:He; [|done]. destruct rest as [|c t]; cbn [app scan_number]; [by rewrite He|].
    by rewrite (Hr s c t He eq_refl), He.
  - cbn [app scan_number] in H |- *. destruct (number_step s c) as [s'|]; [|by destruct (number_end s)].
    unfold spush in *. destruct (scan_number s' lit) as [l r| |] eqn:E; try done. cbn in H. injection H as -> ->.
    by rewrite (IH s' E Hr).
Qed.

(** The first byte of a value. *)
Definition value_start (c : ascii) : bool :=
  bool_decide (c ∈ ["{"; "["; quote_char; "t"; "f"; "n"]%char) ||
  match number_step NStart c with Some _ => true | None => false end.

Lemma value_start_plain c : value_start c = true → json_space c = false ∧ is_byte 0x5D c = false ∧ is_byte 0x7D c = false.
Proof. destruct c as [[] [] [] [] [] [] [] []]; vm_compute; intros H; try discriminate H; split_and!; reflexivity. Qed.

Lemma number_start_plain c s :
  number_step NStart c = Some s →
  is_byte 0x7B c = false ∧ is_byte 0x5B c = false ∧ is_byte 0x22 c = false ∧ is_byte 0x74 c = false ∧
  is_byte 0x66 c = false ∧ is_byte 0x6E c = false.
Proof.
  intros H. assert (Hn : number_step NStart c ≠ None) by (by rewrite H). clear H.
  destruct c as [[] [] [] [] [] [] [] []]; try (exfalso; apply Hn; reflexivity); split_and!; reflexivity.
Qed.

Lemma number_lit_cons lit : number_lit lit → ∃ c t s, lit = c :: t ∧ number_step NStart c = Some s ∧ scan_number s t = SDone t [].
Proof.
  unfold number_lit. destruct lit as [|c t]; [done|]. cbn [scan_number].
  destruct (number_step NStart c) as [s|] eqn:Hs; [|done]. intros H. exists c, t, s. split_and!; [done..|].
  unfold spush in H. destruct (scan_number s t) as [l r| |]; try done. cbn in H. by injection H as -> ->.
Qed.

Lemma scan_number_value fuel d lit rest :
  number_lit lit → number_stop rest → scan_value (S fuel) d (lit ++ rest) = SDone (VNum lit) rest.
Proof.
  intros Hl Hr. destruct (number_lit_cons _ Hl) as (c & t & s & -> & Hs & Ht). cbn [app scan_value].
  destruct (number_start_plain _ _ Hs) as (-> & -> & -> & -> & -> & ->). rewrite Hs.
  by rewrite (scan_number_app _ _ _ Ht Hr).
Qed.

(** Digits continue a number. *)
Lemma digit_steps l s rest :
  Forall (λ c, (48 ≤ byte c ≤ 57)%Z) l → s = NInt → scan_number s (l ++ rest) = foldr spush (scan_number NInt rest) l.
Proof.
  intros Hl ->. induction Hl as [|c l Hc _ IH]; [done|]. cbn [app scan_number foldr number_step].
  rewrite (proj2 (Z.leb_le 0x30 (byte c))), (proj2 (Z.leb_le (byte c) 0x39)) by lia. cbn [andb]. by rewrite IH.
Qed.

Lemma itoa_fuel_head f n acc :
  (0 < n)%Z → (n < 2 ^ Z.of_nat f)%Z →
  ∃ d ds, itoa_fuel f n acc = d :: ds ++ acc ∧ (49 ≤ byte d ≤ 57)%Z ∧ Forall (λ c, (48 ≤ byte c ≤ 57)%Z) ds.
Proof.
  revert n acc. induction f as [|f IH]; intros n acc Hn Hf; [simpl in Hf; lia|]. cbn [itoa_fuel].
  destruct (Z.ltb_spec n 10) as [Hlt|Hge].
  - exists (digit (n mod 10)), []. split; [done|]. rewrite Z.mod_small by lia. rewrite byte_digit by lia. split; [lia|constructor].
  - destruct (IH (n / 10)%Z (digit (n mod 10) :: acc)) as (d & ds & E & Hd & Hds).
    + apply Z.div_str_pos. lia.
    + apply Z.div_lt_upper_bound; [lia|]. rewrite Nat2Z.inj_succ, Z.pow_succ_r in Hf by lia. lia.
    + exists d, (ds ++ [digit (n mod 10)]). rewrite <- app_assoc. split_and!; [done|lia|lia|].
      apply Forall_app. split; [done|]. apply Forall_cons. split; [|constructor].
      rewrite byte_digit; [|apply Z.mod_pos_bound; lia]. pose proof (Z.mod_pos_bound n 10 ltac:(lia)). lia.
Qed.

Lemma digits_lit s d ds :
  number_step s d = Some NInt → Forall (λ c, (48 ≤ byte c ≤ 57)%Z) ds → scan_number s (d :: ds) = SDone (d :: ds) [].
Proof.
  intros Hs Hds. cbn [scan_number]. rewrite Hs. rewrite <- (app_nil_r ds) at 1. rewrite (digit_steps ds NInt) by done.
  cbn [scan_number number_end]. by rewrite foldr_spush, app_nil_r.
Qed.

Lemma number_lit_Itoa n : number_lit (chars (Itoa n)).
Proof.
  assert (Hpos : ∀ m, (0 < m)%Z → ∃ d ds, utoa m = d :: ds ∧ (49 ≤ byte d ≤ 57)%Z ∧ Forall (λ c, (48 ≤ byte c ≤ 57)%Z) ds).
  { intros m Hm. unfold utoa. destruct (itoa_fuel_head (S (Z.to_nat (Z.log2 m))) m [] Hm) as (d & ds & E & Hd & Hds).
    - rewrite Nat2Z.inj_succ, Z2Nat.id by apply Z.log2_nonneg. by apply Z.log2_spec.
    - exists d, ds. by rewrite app_nil_r in E. }
  unfold number_lit, Itoa. rewrite chars_str. destruct (Z.ltb_spec n 0) as [Hn|Hn].
  - destruct (Hpos (- n)%Z ltac:(lia)) as (d & ds & -> & Hd & Hds).
    change (scan_number NStart (ascii_of_nat 45 :: d :: ds)) with (spush (ascii_of_nat 45) (scan_number NNeg (d :: ds))).
    rewrite (digits_lit NNeg d ds); [done| |done]. unfold number_step, is_byte. rewrite (proj2 (Z.eqb_neq (byte d) 0x30)) by lia.
    by rewrite (proj2 (Z.leb_le 0x30 (byte d))), (proj2 (Z.leb_le (byte d) 0x39)) by lia.
  - destruct (decide (n = 0%Z)) as [->|Hz]; [reflexivity|].
    destruct (Hpos n ltac:(lia)) as (d & ds & -> & Hd & Hds). apply digits_lit; [|done]. unfold number_step, is_byte.
    rewrite (proj2 (Z.eqb_neq (byte d) 0x2D)), (proj2 (Z.eqb_neq (byte d) 0x30)) by lia.
    by rewrite (proj2 (Z.leb_le 0x30 (byte d))), (proj2 (Z.leb_le (byte d) 0x39)) by lia.
Qed.

(** ** Values *)

Section json_ind.
Variable P : json → Prop.
Hypothesis (Hnull : P JNull) (Hstr : ∀ s, P (JStr s)) (Hint : ∀ n, P (JInt n)) (Hnum : ∀ lit, P (JNum lit))
  (Hbool : ∀ b, P (JBool b)) (Harr : ∀ l, Forall P l → P (JArr l)) (Hobj : ∀ l, Forall (λ kv, P kv.2) l → P (JObj l)).

(** Induction through the lists of elements and members. *)
Fixpoint json_nested_ind (j : json) : P j :=
  match j with
  | JNull => Hnull
  | JStr s => Hstr s
  | JInt n => Hint n
  | JNum lit => Hnum lit
  | JBool b => Hbool b
  | JArr l =>
      Harr l ((fix elems (l : list json) : Forall P l :=
                 match l with
                 | [] => List.Forall_nil _
                 | j :: l => List.Forall_cons _ _ _ (json_nested_ind j) (elems l)
                 end) l)
  | JObj l =>
      Hobj l ((fix members (l : list (string * json)) : Forall (λ kv, P kv.2) l :=
                 match l with
                 | [] => List.Forall_nil _
                 | kv :: l => List.Forall_cons _ _ _ (json_nested_ind kv.2) (members l)
                 end) l)
  end.
End json_ind.

Definition jtext (j : json) : list ascii := chars (json_text j).

(** The tree a written value is read as. *)
Fixpoint jtree (j : json) : jval :=
  match j with
  | JNull => VNull
  | JStr s => VStr (chars (sanitize s))
  | JInt n => VNum (chars (Itoa n))
  | JNum lit => VNum (chars lit)
  | JBool b => VBool b
  | JArr l => VArr ((λ j, (jtext j, jtree j)) <$> l)
  | JObj l => VObj ((λ kv, (chars (sanitize kv.1), (jtext kv.2, jtree kv.2))) <$> l)
  end.

(** Numbers are numbers, and no more than [d] arrays and objects are open at once. *)
Fixpoint json_ok (d : nat) (j : json) {struct j} : Prop :=
  match j with
  | JNum lit => number_lit (chars lit)
  | JArr l => match d with O => False | S d => foldr (λ j P, json_ok d j ∧ P) True l end
  | JObj l => match d with O => False | S d => foldr (λ kv P, json_ok d kv.2 ∧ P) True l end
  | _ => True
  end.

Lemma foldr_Forall {A} (Q : A → Prop) l : foldr (λ x P, Q x ∧ P) True l → Forall Q l.
Proof. induction l as [|x l IH]; [constructor|]. intros [Hx Hl]. constructor; [done|by apply IH]. Qed.

Lemma jtext_head d j : json_ok d j → ∃ c t, jtext j = c :: t ∧ value_start c = true.
Proof.
  unfold jtext. destruct j as [|s|n|lit|b|l|l]; cbn [json_ok json_text]; intros H.
  - by exists "n"%char, (chars "ull").
  - rewrite json_string_chars. by eexists _, _.
  - destruct (number_lit_cons _ (number_lit_Itoa n)) as (c & t & s & -> & Hs & _). exists c, t. split; [done|].
    unfold value_start. by rewrite Hs, orb_true_r.
  - destruct (number_lit_cons _ H) as (c & t & s & -> & Hs & _). exists c, t. split; [done|].
    unfold value_start. by rewrite Hs, orb_true_r.
  - destruct b; [by exists "t"%char, (chars "rue")|by exists "f"%char, (chars "alse")].
  - rewrite !chars_app. by eexists _, _.
  - rewrite !chars_app. by eexists _, _.
Qed.

Lemma skip_space_plain c t : json_space c = false → skip_space (c :: t) = c :: t.
Proof. intros H. unfold skip_space. cbn [drop_while]. by rewrite H. Qed.

Lemma before_app l rest : before (l ++ rest) rest = l.
Proof. unfold before. rewrite length_app, Nat.add_sub. apply take_app_length. Qed.

(** What may follow a value: after a number, no byte of a number. *)
Definition may_follow (j : json) (rest : list ascii) : Prop :=
  match j with JInt _ | JNum _ => number_stop rest | _ => True end.

Lemma number_stop_follows j rest : number_stop rest → may_follow j rest.
Proof. by destruct j. Qed.

(** What reading one value gives: [P] of the induction below. *)
Definition reads (j : json) : Prop :=
  ∀ d fuel depth rest, json_ok d j → (depth + Z.of_nat d ≤ maxNestingDepth)%Z → may_follow j rest →
    (2 * length (jtext j) < fuel)%nat → scan_value fuel depth (jtext j ++ rest) = SDone (jtree j) rest.

Definition elements_text (l : list json) : list ascii := chars (Join (json_text <$> l) ",").

Lemma elements_text_cons j l :
  elements_text (j :: l) = match l with [] => jtext j | _ => jtext j ++ ","%char :: elements_text l end.
Proof.
  unfold elements_text, jtext. destruct l as [|j' l]; csimpl; [done|]. by rewrite !chars_app.
Qed.

Lemma scan_elements_reads l d fuel depth rest :
  Forall reads l → l ≠ [] → Forall (json_ok d) l → (depth + Z.of_nat d ≤ maxNestingDepth)%Z →
  (2 * length (elements_text l) + 1 < fuel)%nat →
  scan_elements fuel depth (elements_text l ++ "]"%char :: rest) = SDone ((λ j, (jtext j, jtree j)) <$> l) rest.
Proof.
  intros Hr. revert fuel. induction Hr as [|j l Hj Hr IH]; [done|]. intros fuel _ Hok Hd Hf.
  apply Forall_cons in Hok as [Hokj Hok]. rewrite elements_text_cons in Hf |- *. destruct fuel as [|fuel]; [lia|].
  destruct (jtext_head d j Hokj) as (c & t & Ec & Hc). apply value_start_plain in Hc as (Hsp & _ & _).
  destruct l as [|j' l].
  - cbn [scan_elements]. rewrite Ec. cbn [app]. rewrite (skip_space_plain c) by done.
    change (c :: t ++ "]"%char :: rest) with ((c :: t) ++ "]"%char :: rest). rewrite <- Ec, (Hj d); [|done|done| |lia].
    2:{ apply number_stop_follows, number_stop_cons. set_solver. }
    cbn [sbind]. rewrite skip_space_plain, before_app by done. done.
  - rewrite <- app_assoc. cbn [scan_elements]. rewrite length_app in Hf. cbn [length] in Hf. set (tl := elements_text (j' :: l)) in *.
    cbn [app]. rewrite Ec. cbn [app]. rewrite (skip_space_plain c) by done.
    change (c :: t ++ ","%char :: tl ++ "]"%char :: rest) with ((c :: t) ++ ","%char :: tl ++ "]"%char :: rest).
    rewrite <- Ec, (Hj d); [|done|done| |lia].
    2:{ apply number_stop_follows, number_stop_cons. set_solver. }
    cbn [sbind]. rewrite skip_space_plain, before_app by done. cbn [is_byte].
    change (is_byte 0x2C ",") with true. cbn iota. rewrite (IH fuel); [done|done|done|done|lia].
Qed.

Definition member_text (kv : string * json) : list ascii := chars (json_string kv.1) ++ ":"%char :: jtext kv.2.
Definition members_text (l : list (string * json)) : list ascii :=
  chars (Join ((λ kv, json_string kv.1 +:+ ":" +:+ json_text kv.2) <$> l) ",").

Lemma members_text_cons kv l :
  members_text (kv :: l) = match l with [] => member_text kv | _ => member_text kv ++ ","%char :: members_text l end.
Proof.
  unfold members_text, member_text, jtext. destruct l as [|kv' l]; csimpl; [by rewrite !chars_app|].
  rewrite !chars_app. by rewrite <- !app_assoc.
Qed.

(** One member and the byte after it. *)
Lemma scan_member_reads kv d fuel depth c rest :
  reads kv.2 → json_ok d kv.2 → (depth + Z.of_nat d ≤ maxNestingDepth)%Z → c ∈ [","; "}"]%char →
  (2 * length (jtext kv.2) < fuel)%nat →
  scan_members (S fuel) depth (member_text kv ++ c :: rest) =
  let m := (chars (sanitize kv.1), (jtext kv.2, jtree kv.2)) in
  if is_byte 0x2C c then sbind (scan_members fuel depth rest) (λ ms, SDone (m :: ms)) else SDone [m] rest.
Proof.
  intros Hr Hok Hd Hc Hf. unfold member_text. rewrite json_string_chars. rewrite <- app_assoc. cbn [app].
  destruct (jtext_head d kv.2 Hok) as (c0 & t & Ec & Hc0). apply value_start_plain in Hc0 as (Hsp & _ & _).
  cbn [scan_members]. rewrite skip_space_plain by done. change (is_byte 0x22 quote_char) with true. cbn iota.
  rewrite <- app_assoc. cbn [app]. rewrite scan_json_string. cbn [sbind]. rewrite skip_space_plain by done.
  change (is_byte 0x3A ":") with true. cbn iota. rewrite Ec. cbn [app]. rewrite (skip_space_plain c0) by done.
  change (c0 :: t ++ c :: rest) with ((c0 :: t) ++ c :: rest). rewrite <- Ec, (Hr d); [|done|done| |done].
  2:{ apply number_stop_follows, number_stop_cons. set_solver. }
  cbn [sbind]. rewrite before_app, unquote_json_string. apply elem_of_cons in Hc as [->|Hc]; [done|].
  apply list_elem_of_singleton in Hc as ->. done.
Qed.

Lemma scan_members_reads l d fuel depth rest :
  Forall (λ kv, reads kv.2) l → l ≠ [] → Forall (λ kv, json_ok d kv.2) l → (depth + Z.of_nat d ≤ maxNestingDepth)%Z →
  (2 * length (members_text l) + 1 < fuel)%nat →
  scan_members fuel depth (members_text l ++ "}"%char :: rest) =
  SDone ((λ kv, (chars (sanitize kv.1), (jtext kv.2, jtree kv.2))) <$> l) rest.
Proof.
  intros Hr. revert fuel. induction Hr as [|kv l Hj Hr IH]; [done|]. intros fuel _ Hok Hd Hf.
  apply Forall_cons in Hok as [Hokj Hok]. rewrite members_text_cons in Hf |- *. destruct fuel as [|fuel]; [lia|].
  assert (Hl : (length (jtext kv.2) < length (member_text kv))%nat).
  { unfold member_text. rewrite length_app. cbn [length]. lia. }
  destruct l as [|kv' l].
  - rewrite (scan_member_reads kv d); [done|done|done|done|set_solver|lia].
  - rewrite length_app in Hf. cbn [length] in Hf. rewrite <- app_assoc. cbn [app].
    rewrite (scan_member_reads kv d); [|done|done|done|set_solver|lia]. change (is_byte 0x2C ",") with true. cbv zeta iota.
    rewrite IH; [done|done|done|done|lia].
Qed.

Lemma scan_json_value j : reads j.
Proof.
  induction j as [|s|n|lit|b|l IH|l IH] using json_nested_ind; intros d fuel depth rest Hok Hd Hs Hf;
    (destruct fuel as [|fuel]; [lia|]); unfold jtext in *; cbn [json_text jtree] in *.
  - reflexivity.
  - rewrite json_string_chars. cbn [app scan_value]. change (is_byte 0x7B quote_char) with false.
    change (is_byte 0x5B quote_char) with false. change (is_byte 0x22 quote_char) with true. cbn iota.
    rewrite <- app_assoc. cbn [app]. by rewrite scan_json_string, <- unquote_json_string.
  - apply scan_number_value; [apply number_lit_Itoa|done].
  - by apply scan_number_value.
  - destruct b; reflexivity.
  - destruct d as [|d]; [done|]. rewrite !chars_app in *. apply (foldr_Forall (json_ok d)) in Hok.
    change (chars "[") with ["["%char] in *. change (chars "]") with ["]"%char] in *. cbn [app scan_value] in *.
    change (is_byte 0x7B "[") with false. change (is_byte 0x5B "[") with true. cbn iota.
    rewrite (proj2 (Z.leb_gt maxNestingDepth depth)) by lia. fold (elements_text l) in *. rewrite <- app_assoc. cbn [app].
    destruct l as [|j l]; [done|].
    assert (Hh : ∃ c t, elements_text (j :: l) = c :: t ∧ value_start c = true).
    { apply Forall_cons in Hok as [Hj _]. destruct (jtext_head d j Hj) as (c & t & E & Hc). rewrite elements_text_cons, E.
      destruct l; by eexists _, _. }
    destruct Hh as (c & t & E & Hc). pose proof (value_start_plain c Hc) as (Hsp & H5 & _).
    pose proof (scan_elements_reads (j :: l) d fuel (depth + 1) rest IH ltac:(done) Hok ltac:(lia)) as Hse.
    cbn [length] in Hf. rewrite length_app in Hf. cbn [length] in Hf. rewrite E in *. cbn [app] in *. rewrite skip_space_plain, H5 by done.
    rewrite Hse; [done|]. cbn [length] in *. lia.
  - destruct d as [|d]; [done|]. rewrite !chars_app in *. apply (foldr_Forall (λ kv, json_ok d kv.2)) in Hok.
    change (chars "{") with ["{"%char] in *. change (chars "}") with ["}"%char] in *. cbn [app scan_value] in *.
    change (is_byte 0x7B "{") with true. cbn iota.
    rewrite (proj2 (Z.leb_gt maxNestingDepth depth)) by lia. fold (members_text l) in *. rewrite <- app_assoc. cbn [app].
    destruct l as [|kv l]; [done|].
    assert (Hh : ∃ t, members_text (kv :: l) = quote_char :: t).
    { rewrite members_text_cons. unfold member_text. rewrite json_string_chars. destruct l; by eexists. }
    destruct Hh as (t & E).
    pose proof (scan_members_reads (kv :: l) d fuel (depth + 1) rest IH ltac:(done) Hok ltac:(lia)) as Hse.
    cbn [length] in Hf. rewrite length_app in Hf. cbn [length] in Hf. rewrite E in *. cbn [app] in *. rewrite skip_space_plain by done.
    change (is_byte 0x7D quote_char) with false. cbn iota.
    rewrite Hse; [done|]. cbn [length] in *. lia.
Qed.

(** A written value is read back, with its text, whatever follows it that continues no number. *)
Lemma scan_json j d rest :
  json_ok d j → (Z.of_nat d ≤ maxNestingDepth)%Z → may_follow j rest → scan (jtext j ++ rest) = SDone (jtext j, jtree j) rest.
Proof.
  intros Hok Hd Hs. unfold scan. destruct (jtext_head d j Hok) as (c & t & E & Hc).
  apply value_start_plain in Hc as (Hsp & _ & _).
  assert (Hsk : skip_space (jtext j ++ rest) = jtext j ++ rest) by (rewrite E; by apply skip_space_plain).
  rewrite Hsk, (scan_json_value j d); [|done|lia|done|unfold scan_fuel; rewrite length_app; lia].
  cbn [sbind]. by rewrite before_app.
Qed.

(** ** What follows a value does not matter *)

Lemma skip_space_length l : (length (skip_space l) ≤ length l)%nat.
Proof. unfold skip_space. induction l as [|c l IH]; [done|]. cbn [drop_while]. destruct (json_space c); cbn [length]; lia. Qed.

Lemma skip_space_app l e : skip_space l ≠ [] → skip_space (l ++ e) = skip_space l ++ e.
Proof.
  unfold skip_space. induction l as [|c l IH]; [done|]. cbn [app drop_while]. destruct (json_space c); [|done]. exact IH.
Qed.

Lemma expect_length p l x rest : expect p l = SDone x rest → (length rest ≤ length l)%nat.
Proof.
  revert l. induction p as [|a p IH]; intros [|c l]; cbn [expect]; try (by intros [= <- <-]).
  case_bool_decide; [|done]. intros Hr%IH. cbn [length]. lia.
Qed.

Lemma scan_string_length s l x rest : scan_string s l = SDone x rest → (length rest < length l)%nat.
Proof.
  revert s x. induction l as [|c l IH]; intros s x; [done|]. cbn [scan_string length].
  assert (Hp : ∀ s', spush c (scan_string s' l) = SDone x rest → (length rest < S (length l))%nat).
  { intros s'. unfold spush. destruct (scan_string s' l) as [y r| |] eqn:E; try done. cbn. intros [= _ <-]. apply IH in E. lia. }
  destruct s; split_match; try done; try apply Hp. intros [= _ <-]. lia.
Qed.

Lemma scan_number_length s l x rest : scan_number s l = SDone x rest → (length rest ≤ length l)%nat.
Proof.
  revert s x. induction l as [|c l IH]; intros s x; cbn [scan_number].
  - destruct (number_end s); [|done]. by intros [= _ <-].
  - destruct (number_step s c) as [s'|].
    + unfold spush. destruct (scan_number s' l) as [y r| |] eqn:E; try done. cbn. intros [= _ <-]. apply IH in E. lia.
    + destruct (number_end s); [|done]. by intros [= _ <-].
Qed.

(** A scan that consumes. *)
Definition shorter {A} (l : list ascii) (s : scanned A) : Prop :=
  match s with SDone _ rest => (length rest < length l)%nat | _ => True end.

Lemma sbind_shorter {A B} l (s : scanned A) (k : A → list ascii → scanned B) :
  shorter l s → (∀ x rest, (length rest < length l)%nat → shorter l (k x rest)) → shorter l (sbind s k).
Proof. destruct s as [x rest| |]; cbn; auto. Qed.

Lemma shorter_le {A} l l' (s : scanned A) : shorter l s → (length l ≤ length l')%nat → shorter l' s.
Proof. destruct s; cbn; [lia|done..]. Qed.

Lemma scan_shorter fuel :
  (∀ d l, shorter l (scan_value fuel d l)) ∧ (∀ d l, shorter l (scan_elements fuel d l)) ∧ (∀ d l, shorter l (scan_members fuel d l)).
Proof.
  induction fuel as [|fuel (IHv & IHe & IHm)]; [done|]. split_and!; intros d l; cbn [scan_value scan_elements scan_members].
  - destruct l as [|c t]; [done|].
    assert (Hsp : ∀ B (x : B) c' t', skip_space t = c' :: t' → shorter (c :: t) (SDone x t')).
    { intros B x c' t' E. pose proof (skip_space_length t) as Hl. rewrite E in Hl. cbn in *. lia. }
    assert (Hex : ∀ p (x : jval), shorter (c :: t) (sbind (expect p t) (λ _, SDone x))).
    { intros p x. destruct (expect p t) as [y r| |] eqn:E; cbn; [|done..]. apply expect_length in E. lia. }
    assert (Hstep : ∀ A (s : scanned A) (k : A → jval) c' t', skip_space t = c' :: t' → shorter (c' :: t') s →
              shorter (c :: t) (sbind s (λ x, SDone (k x)))).
    { intros B s k c' t' E Hs. pose proof (skip_space_length t) as Hl. rewrite E in Hl. destruct s; cbn in *; [lia|done..]. }
    destruct (is_byte 0x7B c); [destruct (_ <=? _)%Z; [done|]; destruct (skip_space t) as [|c' t'] eqn:E; [done|];
      destruct (is_byte 0x7D c'); [by eapply Hsp|by eapply Hstep; [|apply IHm]]|].
    destruct (is_byte 0x5B c); [destruct (_ <=? _)%Z; [done|]; destruct (skip_space t) as [|c' t'] eqn:E; [done|];
      destruct (is_byte 0x5D c'); [by eapply Hsp|by eapply Hstep; [|apply IHe]]|].
    destruct (is_byte 0x22 c).
    { destruct (scan_string InString t) as [y r| |] eqn:E; cbn; [|done..]. apply scan_string_length in E. lia. }
    destruct (is_byte 0x74 c); [apply Hex|]. destruct (is_byte 0x66 c); [apply Hex|]. destruct (is_byte 0x6E c); [apply Hex|].
    destruct (number_step NStart c) as [s|]; [|done]. unfold spush.
    destruct (scan_number s t) as [y r| |] eqn:E; cbn; [|done..]. apply scan_number_length in E. lia.
  - eapply shorter_le; [|apply (skip_space_length l)]. apply sbind_shorter; [apply IHv|]. intros v rest Hr.
    destruct (skip_space rest) as [|c t] eqn:E; [done|]. pose proof (skip_space_length rest) as Hl. rewrite E in Hl. cbn [length] in Hl.
    destruct (is_byte 0x2C c); [|destruct (is_byte 0x5D c); cbn; [lia|done]].
    apply sbind_shorter; [eapply shorter_le; [apply IHe|lia]|]. intros vs r Hvs. done.
  - eapply shorter_le; [|apply (skip_space_length l)]. destruct (skip_space l) as [|c t]; [done|]. destruct (is_byte 0x22 c); [|done].
    destruct (scan_string InString t) as [key t1| |] eqn:Ek; cbn [sbind]; [|done..]. apply scan_string_length in Ek.
    destruct (skip_space t1) as [|c1 t2] eqn:E; [done|]. pose proof (skip_space_length t1) as Hl. rewrite E in Hl. cbn [length] in *.
    destruct (is_byte 0x3A c1); [|done]. pose proof (skip_space_length t2) as Hl2.
    apply sbind_shorter; [eapply shorter_le; [apply IHv|cbn; lia]|]. intros v rest Hr.
    destruct (skip_space rest) as [|c' t'] eqn:E'; [done|]. pose proof (skip_space_length rest) as Hl'. rewrite E' in Hl'. cbn [length] in Hl'.
    destruct (is_byte 0x2C c'); [|destruct (is_byte 0x7D c'); cbn in *; [lia|done]].
    apply sbind_shorter; [eapply shorter_le; [apply IHm|cbn in *; lia]|]. intros vs r Hvs. done.
Qed.

Lemma scan_value_length fuel d l v rest : scan_value fuel d l = SDone v rest → (length rest < length l)%nat.
Proof. intros H. pose proof (proj1 (scan_shorter fuel) d l) as Hs. by rewrite H in Hs. Qed.

(** *** The fuel does not matter once it is enough *)

Lemma sbind_ext {A B} (s : scanned A) (k k' : A → list ascii → scanned B) :
  (∀ x rest, s = SDone x rest → k x rest = k' x rest) → sbind s k = sbind s k'.
Proof. intros Hk. destruct s; cbn; auto. Qed.

(** Of two scans of the rest after blanks. *)
Lemma next_byte_ext {B} rest (k k' : ascii → list ascii → scanned B) :
  (∀ c t, (length t < length rest)%nat → k c t = k' c t) →
  match skip_space rest with [] => SMore | c :: t => k c t end = match skip_space rest with [] => SMore | c :: t => k' c t end.
Proof. intros Hk. pose proof (skip_space_length rest) as Hl. destruct (skip_space rest); [done|]. apply Hk. cbn in Hl. lia. Qed.

Lemma scan_enough_aux fuel :
  (∀ d l fuel', (2 * length l < fuel)%nat → (2 * length l < fuel')%nat → scan_value fuel d l = scan_value fuel' d l) ∧
  (∀ d l fuel', (2 * length l + 1 < fuel)%nat → (2 * length l + 1 < fuel')%nat → scan_elements fuel d l = scan_elements fuel' d l) ∧
  (∀ d l fuel', (2 * length l + 1 < fuel)%nat → (2 * length l + 1 < fuel')%nat → scan_members fuel d l = scan_members fuel' d l).
Proof.
  induction fuel as [|fuel (IHv & IHe & IHm)]; [split_and!; intros; lia|].
  split_and!; intros d l fuel' Hf Hf'; (destruct fuel' as [|fuel']; [lia|]); cbn [scan_value scan_elements scan_members].
  - destruct l as [|c t]; [done|]. cbn [length] in *.
    destruct (is_byte 0x7B c); [|destruct (is_byte 0x5B c); [|done]]; (destruct (_ <=? _)%Z; [done|]);
      apply next_byte_ext; intros c' t' Hl; [destruct (is_byte 0x7D c')|destruct (is_byte 0x5D c')]; try done;
      [rewrite (IHm _ _ fuel') by (cbn; lia)|rewrite (IHe _ _ fuel') by (cbn; lia)]; done.
  - pose proof (skip_space_length l) as Hl0. rewrite (IHv _ _ fuel') by lia. apply sbind_ext. intros v rest Hv%scan_value_length.
    apply next_byte_ext. intros c t Hl. by rewrite (IHe _ _ fuel') by lia.
  - apply next_byte_ext. intros c t Hl0. destruct (is_byte 0x22 c); [|done]. apply sbind_ext. intros key t1 Hk%scan_string_length.
    apply next_byte_ext. intros c1 t2 Hl1. destruct (is_byte 0x3A c1); [|done]. pose proof (skip_space_length t2) as Hl2.
    rewrite (IHv _ _ fuel') by lia. apply sbind_ext. intros v rest Hv%scan_value_length.
    apply next_byte_ext. intros c' t' Hl. by rewrite (IHm _ _ fuel') by lia.
Qed.

(** [scan] is given enough, whatever the text. *)
Lemma scan_fuel_enough d l fuel : (scan_fuel l ≤ fuel)%nat → scan_value fuel d l = scan_value (scan_fuel l) d l.
Proof. intros Hf. apply scan_enough_aux; unfold scan_fuel in *; lia. Qed.

(** [s'] is what [s] becomes when the bytes [e] follow the text: the same, unless [s] is not over; what is found at the
    very end of the text may go on, except what [over] holds of. *)
Definition extended {A} (over : A → bool) (e : list ascii) (s s' : scanned A) : Prop :=
  match s with
  | SDone x rest => rest ≠ [] ∨ over x = true → s' = SDone x (rest ++ e)
  | SMore => True
  | SBad => s' = SBad
  end.

Definition never {A} (_ : A) : bool := false.
Definition always {A} (_ : A) : bool := true.

Lemma spush_extended c e s s' : extended never e s s' → extended never e (spush c s) (spush c s').
Proof. destruct s; cbn; [intros H Hr; by rewrite H|done|by intros ->]. Qed.

Lemma expect_extended p l e : extended always e (expect p l) (expect p (l ++ e)).
Proof. revert l. induction p as [|a p IH]; intros [|c l]; cbn; try done. by case_bool_decide. Qed.

Lemma scan_string_extended s l e : extended never e (scan_string s l) (scan_string s (l ++ e)).
Proof.
  revert s. induction l as [|c l IH]; intros s; [done|]. cbn [app scan_string].
  destruct s; split_match; try done; by apply spush_extended.
Qed.

Lemma scan_number_extended s l e : extended never e (scan_number s l) (scan_number s (l ++ e)).
Proof.
  revert s. induction l as [|c l IH]; intros s; cbn [app scan_number]; [destruct (number_end s); [by intros [[]|]|done]|].
  destruct (number_step s c) as [s'|]; [by apply spush_extended|]. by destruct (number_end s).
Qed.

Lemma before_extended l rest e : (length rest ≤ length l)%nat → before (l ++ e) (rest ++ e) = before l rest.
Proof.
  intros Hl. unfold before. rewrite !length_app. replace (length l + length e - (length rest + length e))%nat with (length l - length rest)%nat by lia.
  apply take_app_le. lia.
Qed.

(** A scan and a continuation that looks at the next byte. *)
Lemma sbind_extended {A B} over over' e (s s' : scanned A) (k k' : A → list ascii → scanned B) :
  extended over e s s' → (∀ x, k x [] = SMore) →
  (∀ x rest, rest ≠ [] → s = SDone x rest → extended over' e (k x rest) (k' x (rest ++ e))) →
  extended over' e (sbind s k) (sbind s' k').
Proof.
  intros Hs Hn Hk. destruct s as [x rest| |]; cbn in *; [|done|by rewrite Hs].
  destruct (decide (rest = [])) as [->|Hne]; [by rewrite Hn|]. rewrite (Hs (or_introl Hne)). cbn. by apply Hk.
Qed.

(** One whose continuation only builds the result. *)
Lemma sbind_map_extended {A B} over over' e (s s' : scanned A) (f : A → B) :
  extended over e s s' → (∀ x, over' (f x) = true → over x = true) →
  extended over' e (sbind s (λ x, SDone (f x))) (sbind s' (λ x, SDone (f x))).
Proof.
  intros Hs Hf. destruct s as [x rest| |]; cbn in *; [|done|by rewrite Hs].
  intros Hr. rewrite Hs; [done|]. destruct Hr as [Hr|Hr]; [by left|right; by apply Hf].
Qed.

(** The continuations of the three scans at the byte after blanks. *)
Lemma next_byte_extended {B} over e rest (k k' : ascii → list ascii → scanned B) :
  (∀ c t, skip_space rest = c :: t → extended over e (k c t) (k' c (t ++ e))) →
  extended over e (match skip_space rest with [] => SMore | c :: t => k c t end)
             (match skip_space (rest ++ e) with [] => SMore | c :: t => k' c t end).
Proof.
  intros Hk. destruct (skip_space rest) as [|c t] eqn:E; [done|]. rewrite skip_space_app by (by rewrite E). rewrite E. cbn [app]. by apply Hk.
Qed.

(** A value that is over where it ends. *)
Definition closed_value (v : jval) : bool := negb (needs_next v).

Lemma scan_extended_aux e fuel :
  (∀ d l fuel', (2 * length l < fuel)%nat → (2 * length (l ++ e) < fuel')%nat →
     extended closed_value e (scan_value fuel d l) (scan_value fuel' d (l ++ e))) ∧
  (∀ d l fuel', (2 * length l + 1 < fuel)%nat → (2 * length (l ++ e) + 1 < fuel')%nat →
     extended always e (scan_elements fuel d l) (scan_elements fuel' d (l ++ e))) ∧
  (∀ d l fuel', (2 * length l + 1 < fuel)%nat → (2 * length (l ++ e) + 1 < fuel')%nat →
     extended always e (scan_members fuel d l) (scan_members fuel' d (l ++ e))).
Proof.
  induction fuel as [|fuel (IHv & IHe & IHm)]; [split_and!; intros; lia|].
  split_and!; intros d l fuel' Hf Hf'; (destruct fuel' as [|fuel']; [lia|]); rewrite length_app in Hf'.
  - destruct l as [|c t]; [done|]. cbn [app scan_value length] in *.
    destruct (is_byte 0x7B c); [destruct (_ <=? _)%Z; [done|]; apply next_byte_extended; intros c' t' E; destruct (is_byte 0x7D c'); [done|];
      apply (sbind_map_extended always); [|done]; apply (IHm _ (c' :: t')); pose proof (skip_space_length t) as Hl; rewrite E in Hl;
      cbn [length app] in *; rewrite ?length_app; lia|].
    destruct (is_byte 0x5B c); [destruct (_ <=? _)%Z; [done|]; apply next_byte_extended; intros c' t' E; destruct (is_byte 0x5D c'); [done|];
      apply (sbind_map_extended always); [|done]; apply (IHe _ (c' :: t')); pose proof (skip_space_length t) as Hl; rewrite E in Hl;
      cbn [length app] in *; rewrite ?length_app; lia|].
    destruct (is_byte 0x22 c); [apply (sbind_map_extended never); [apply scan_string_extended|done]|].
    do 3 (match goal with |- context [if ?b then _ else _] =>
            destruct b; [apply (sbind_map_extended always _ e); [apply expect_extended|done]|] end).
    destruct (number_step NStart c); [|done]. apply (sbind_map_extended never); [apply spush_extended, scan_number_extended|done].
  - cbn [scan_elements]. destruct (skip_space l) as [|c0 t0] eqn:E0; [destruct fuel; [lia|done]|].
    rewrite skip_space_app by (by rewrite E0). rewrite E0. rewrite <- E0. pose proof (skip_space_length l) as Hl0.
    apply (sbind_extended closed_value); [apply IHv; rewrite ?length_app; lia|done|]. intros v rest Hne Hv. apply scan_value_length in Hv.
    apply next_byte_extended. intros c t E. pose proof (skip_space_length rest) as Hl. rewrite E in Hl. cbn [length] in Hl.
    rewrite before_extended by lia. destruct (is_byte 0x2C c); [|by destruct (is_byte 0x5D c)].
    apply (sbind_map_extended always); [apply IHe; rewrite ?length_app; lia|done].
  - cbn [scan_members]. apply next_byte_extended. intros c t E0. pose proof (skip_space_length l) as Hl0. rewrite E0 in Hl0. cbn [length] in Hl0.
    destruct (is_byte 0x22 c); [|done]. apply (sbind_extended never); [apply scan_string_extended|done|].
    intros key t1 _ Hk. apply scan_string_length in Hk.
    apply next_byte_extended. intros c1 t2 E1. pose proof (skip_space_length t1) as Hl1. rewrite E1 in Hl1. cbn [length] in Hl1.
    destruct (is_byte 0x3A c1); [|done]. destruct (skip_space t2) as [|c2 t3] eqn:E2; [destruct fuel; [lia|done]|].
    rewrite skip_space_app by (by rewrite E2). rewrite E2. rewrite <- E2. pose proof (skip_space_length t2) as Hl2.
    apply (sbind_extended closed_value); [apply IHv; rewrite ?length_app; lia|done|]. intros v rest Hne Hv. apply scan_value_length in Hv.
    apply next_byte_extended. intros c' t' E. pose proof (skip_space_length rest) as Hl. rewrite E in Hl. cbn [length] in Hl.
    rewrite before_extended by lia. destruct (is_byte 0x2C c'); [|by destruct (is_byte 0x7D c')].
    apply (sbind_map_extended always); [apply IHm; rewrite ?length_app; lia|done].
Qed.

(** What a text begins with is decided by the bytes up to its end: what follows changes nothing. *)
Lemma scan_extend l e : extended (λ rv, closed_value rv.2) e (scan l) (scan (l ++ e)).
Proof.
  unfold scan. destruct (skip_space l) as [|c t] eqn:E; [done|]. rewrite skip_space_app by (by rewrite E). rewrite E. rewrite <- E.
  pose proof (proj1 (scan_extended_aux e (scan_fuel (skip_space l))) 0%Z (skip_space l) (scan_fuel (skip_space l ++ e))
    ltac:(unfold scan_fuel; lia) ltac:(unfold scan_fuel; lia)) as Hv.
  destruct (scan_value _ _ (skip_space l)) as [v rest| |] eqn:Ev; unfold extended in Hv; cbn [sbind extended]; [|done|by rewrite Hv].
  intros Hne. apply scan_value_length in Ev. rewrite (Hv Hne). cbn [sbind]. by rewrite before_extended by lia.
Qed.
