(* ===== verification/GoFloatSpec.v ===== *)
(** * [float64]: every finite value reads back from its spelling

    [round_ratio] gives a float64 from every ratio close to it ([round_ratio_near]); seventeen decimal digits are
    close enough ([shortest_reads]); and the two formats spell the digits [ParseFloat] reads ([float_text_reads]). *)

From S2P Require Import Prelude GoStrings GoFloat Json JsonText JsonTextSpec.
From Stdlib Require Import Ascii SpecFloat.

(** ** Ratios *)

Lemma pow_pos b a : (0 < b → 0 < b ^ Z.max a 0)%Z.
Proof. intros Hb. apply Z.pow_pos_nonneg; lia. Qed.

(** Powers with an exponent written as a difference. *)
Lemma pow_cross b p q k :
  (0 < b → 0 ≤ p → 0 ≤ q → p - q = k → b ^ p * b ^ Z.max (- k) 0 = b ^ q * b ^ Z.max k 0)%Z.
Proof.
  intros Hb Hp Hq <-. rewrite <- !Z.pow_add_r by lia. f_equal. lia.
Qed.

(** Comparing [x / y] and [n / d] does not depend on how the two are written. *)
Lemma cross_le x y n d c c' :
  (0 < c → 0 < c' → x * c = n * c' → y * c = d * c' → (x ≤ y ↔ n ≤ d))%Z.
Proof. intros Hc Hc' Hx Hy. nia. Qed.

Lemma at_least_iff num den p q :
  (0 ≤ p → 0 ≤ q → at_least num den (p - q) = true ↔ den * 2 ^ p ≤ num * 2 ^ q)%Z.
Proof.
  intros Hp Hq. unfold at_least. rewrite Z.leb_le.
  pose proof (pow_cross 2 p q (p - q) ltac:(lia) Hp Hq eq_refl) as Hx.
  pose proof (pow_pos 2 (p - q) ltac:(lia)). pose proof (pow_pos 2 (- (p - q)) ltac:(lia)).
  pose proof (Z.pow_pos_nonneg 2 p ltac:(lia) Hp). pose proof (Z.pow_pos_nonneg 2 q ltac:(lia) Hq).
  set (u := (2 ^ Z.max (p - q) 0)%Z) in *. set (v := (2 ^ Z.max (- (p - q)) 0)%Z) in *. set (P := (2 ^ p)%Z) in *. set (Q := (2 ^ q)%Z) in *.
  clearbody u v P Q. apply (cross_le _ _ _ _ Q v); [done|done|rewrite <- !Z.mul_assoc, (Z.mul_comm u), <- Hx; ring|ring].
Qed.

Lemma at_least_mono num den k j : (0 < num → 0 < den → k ≤ j → at_least num den j = true → at_least num den k = true)%Z.
Proof.
  intros Hn Hd Hk. assert (Hj : (j = Z.max j 0 + (j - k) - (Z.max (- j) 0 + (j - k)))%Z) by lia.
  assert (Hk' : (k = Z.max j 0 - (Z.max (- j) 0 + (j - k)))%Z) by lia.
  intros H. rewrite Hj, at_least_iff in H by lia. rewrite Hk', at_least_iff by lia.
  eapply Z.le_trans; [|exact H]. apply Z.mul_le_mono_nonneg_l; [lia|]. apply Z.pow_le_mono_r; lia.
Qed.

(** What the lengths of its parts say of a ratio. *)
Lemma log2_ratio num den :
  (0 < num → 0 < den → let k := Z.log2 num - Z.log2 den in
   at_least num den (k - 1) = true ∧ at_least num den (k + 1) = false)%Z.
Proof.
  intros Hn Hd. cbn zeta. pose proof (Z.log2_spec num Hn) as [N1 N2]. pose proof (Z.log2_spec den Hd) as [D1 D2].
  pose proof (Z.log2_nonneg num). pose proof (Z.log2_nonneg den). set (a := Z.log2 num) in *. set (b := Z.log2 den) in *. split.
  - replace (a - b - 1)%Z with (a - (b + 1))%Z by lia. apply at_least_iff; [lia|lia|]. rewrite Z.pow_succ_r in D2 by lia.
    rewrite Z.pow_add_r by lia. change (2 ^ 1)%Z with 2%Z. assert (den * 2 ^ a ≤ 2 * 2 ^ b * 2 ^ a)%Z by nia. nia.
  - apply not_true_iff_false. replace (a - b + 1)%Z with (a + 1 - b)%Z by lia. rewrite at_least_iff by lia. rewrite Z.pow_succ_r in N2 by lia.
    rewrite Z.pow_add_r by lia. change (2 ^ 1)%Z with 2%Z. assert (num * 2 ^ b < 2 * 2 ^ a * 2 ^ b)%Z by nia. nia.
Qed.

(** The binade is the exponent, and the only one. *)
Lemma binade_spec num den :
  (0 < num → 0 < den → at_least num den (binade num den) = true ∧ at_least num den (binade num den + 1) = false)%Z.
Proof.
  intros Hn Hd. unfold binade. destruct (log2_ratio num den Hn Hd) as [Hlo Hhi]. set (k := (Z.log2 num - Z.log2 den)%Z) in *.
  destruct (at_least num den k) eqn:E; [done|]. split; [done|]. by rewrite Z.sub_add.
Qed.

Lemma binade_unique num den k :
  (0 < num → 0 < den → at_least num den k = true → at_least num den (k + 1) = false → binade num den = k)%Z.
Proof.
  intros Hn Hd H1 H2. destruct (binade_spec num den Hn Hd) as [B1 B2]. set (b := binade num den) in *.
  destruct (Z.lt_trichotomy b k) as [Hlt|[->|Hlt]]; [|done|].
  - rewrite (at_least_mono num den (b + 1) k) in B2 by (done || lia). done.
  - rewrite (at_least_mono num den (k + 1) b) in H2 by (done || lia). done.
Qed.

(** A ratio in any units: [num / den = N / D * 2 ^ (p - q)]. *)
Lemma binade_scaled num den p q l :
  (0 < num → 0 < den → 0 ≤ p → 0 ≤ q → 0 ≤ l →
   den * 2 ^ p * 2 ^ l ≤ num * 2 ^ q < den * 2 ^ p * 2 ^ (l + 1) → binade num den = l + (p - q))%Z.
Proof.
  intros Hn Hd Hp Hq Hl [H1 H2]. apply binade_unique; [done|done| |].
  - replace (l + (p - q))%Z with (p + l - q)%Z by lia. apply at_least_iff; [lia|lia|]. rewrite Z.pow_add_r by lia. nia.
  - apply not_true_iff_false. replace (l + (p - q) + 1)%Z with (p + (l + 1) - q)%Z by lia. rewrite at_least_iff by lia.
    rewrite Z.pow_add_r by lia. nia.
Qed.

Lemma binade_scale num den c : (0 < num → 0 < den → 0 < c → binade (num * c) (den * c) = binade num den)%Z.
Proof.
  intros Hn Hd Hc. assert (Hs : ∀ k, at_least (num * c) (den * c) k = at_least num den k).
  { intros k. unfold at_least. apply eq_bool_prop_intro. rewrite !Is_true_true, !Z.leb_le. apply (cross_le _ _ _ _ 1 c); [lia|lia|ring|ring]. }
  destruct (binade_spec num den Hn Hd) as [B1 B2]. apply binade_unique; [nia|nia|by rewrite Hs|by rewrite Hs].
Qed.

Lemma nearest_scale N D c : (0 < D → 0 < c → nearest (N * c) (D * c) = nearest N D)%Z.
Proof.
  intros HD Hc. unfold nearest. rewrite Z.div_mul_cancel_r, Z.mul_mod_distr_r by lia.
  replace (2 * (N mod D * c))%Z with (2 * (N mod D) * c)%Z by ring. set (t := (2 * (N mod D))%Z).
  assert (H1 : (D * c <? t * c)%Z = (D <? t)%Z).
  { apply eq_bool_prop_intro. rewrite !Is_true_true, !Z.ltb_lt. nia. }
  assert (H2 : (D * c =? t * c)%Z = (D =? t)%Z).
  { apply eq_bool_prop_intro. rewrite !Is_true_true, !Z.eqb_eq. nia. }
  by rewrite H1, H2.
Qed.

Lemma round_ratio_scale neg num den c :
  (0 < num → 0 < den → 0 < c → round_ratio neg (num * c) (den * c) = round_ratio neg num den)%Z.
Proof.
  intros Hn Hd Hc. unfold round_ratio. cbv zeta. rewrite binade_scale by done. set (e := Z.max (binade num den - _) _).
  replace (num * c * 2 ^ Z.max (- e) 0)%Z with (num * 2 ^ Z.max (- e) 0 * c)%Z by ring.
  replace (den * c * 2 ^ Z.max e 0)%Z with (den * 2 ^ Z.max e 0 * c)%Z by ring.
  rewrite nearest_scale; [done| |done]. pose proof (pow_pos 2 e ltac:(lia)). nia.
Qed.

Lemma nearest_spec N D m : (0 < D → (2 * m - 1) * D < 2 * N < (2 * m + 1) * D → nearest N D = m)%Z.
Proof.
  intros HD [H1 H2]. unfold nearest. pose proof (Z.div_mod N D ltac:(lia)) as E. pose proof (Z.mod_pos_bound N D HD) as Hr.
  set (q := (N / D)%Z) in *. set (r := (N mod D)%Z) in *. clearbody q r. subst N.
  assert (Hq : ((q = m ∧ 2 * r < D) ∨ (q = m - 1 ∧ D < 2 * r))%Z).
  { assert ((2 * m - 1) * D < 2 * q * D + 2 * D)%Z by lia. assert (2 * q * D < (2 * m + 1) * D)%Z by lia.
    assert (2 * m - 1 < 2 * q + 2)%Z by nia. assert (2 * q < 2 * m + 1)%Z by nia. destruct (decide (q = m)) as [->|Hne]; [left; lia|right]. assert (q = m - 1)%Z as -> by lia. lia. }
  destruct Hq as [[-> Hr']|[-> Hr']].
  - rewrite (proj2 (Z.ltb_ge _ _)), (proj2 (Z.eqb_neq _ _)) by lia. done.
  - rewrite (proj2 (Z.ltb_lt _ _)) by lia. cbn. lia.
Qed.

Lemma digits2_pos_spec p : (2 ^ (Z.pos (digits2_pos p) - 1) ≤ Z.pos p < 2 ^ Z.pos (digits2_pos p))%Z.
Proof.
  assert (Hs : ∀ x : positive, (2 ^ (Z.pos (Pos.succ x) - 1) = 2 * 2 ^ (Z.pos x - 1) ∧ 2 ^ Z.pos (Pos.succ x) = 2 * 2 ^ Z.pos x)%Z).
  { intros x. rewrite Pos2Z.inj_succ. split; [|by rewrite Z.pow_succ_r by lia].
    replace (Z.succ (Z.pos x) - 1)%Z with (Z.succ (Z.pos x - 1)) by lia. by rewrite Z.pow_succ_r by lia. }
  induction p as [p IH|p IH|]; cbn [digits2_pos]; [| |done]; destruct (Hs (digits2_pos p)) as [-> ->]; lia.
Qed.

(** A finite [float64]: 53 bits, or fewer at the least exponent. *)
Lemma bounded_spec m e :
  bounded prec emax m e = true →
  (-1074 ≤ e ≤ 971 ∧ Z.pos m < 2 ^ 53 ∧ (2 ^ 52 ≤ Z.pos m ∨ e = -1074))%Z.
Proof.
  unfold bounded, canonical_mantissa, fexp, emin, prec, emax. rewrite andb_true_iff, Z.eqb_eq, Z.leb_le. intros [Hc He].
  pose proof (digits2_pos_spec m) as [H1 H2]. set (d := Z.pos (digits2_pos m)) in *.
  assert (Hd : (d ≤ 53)%Z) by lia. split; [lia|]. split.
  - eapply Z.lt_le_trans; [exact H2|]. apply Z.pow_le_mono_r; lia.
  - destruct (decide (e = -1074)%Z); [by right|left]. assert (d = 53)%Z as -> by lia. exact H1.
Qed.

(** What [round_ratio] makes of its exponent and mantissa. *)
Definition pack (neg : bool) (m e : Z) : spec_float :=
  let '(m, e) := if (m =? 2 ^ prec)%Z then (2 ^ (prec - 1), e + 1)%Z else (m, e) in
  match m with
  | Z.pos p => if (emax - prec <? e)%Z then S754_infinity neg else S754_finite neg p e
  | _ => S754_zero neg
  end.

Lemma round_ratio_at neg num den e m :
  (Z.max (binade num den - 52) (-1074) = e)%Z → nearest (num * 2 ^ Z.max (- e) 0) (den * 2 ^ Z.max e 0) = m →
  round_ratio neg num den = pack neg m e.
Proof. intros He <-. unfold round_ratio. cbv zeta. change (3 - emax - prec)%Z with (-1074)%Z. change (binade num den - (prec - 1))%Z with (binade num den - 52)%Z. by rewrite He. Qed.

Lemma pack_finite neg m e : (e ≤ 971)%Z → (Z.pos m < 2 ^ 53)%Z → pack neg (Z.pos m) e = S754_finite neg m e.
Proof.
  intros He Hm. unfold pack, prec, emax. rewrite (proj2 (Z.eqb_neq (Z.pos m) (2 ^ 53))) by lia. by rewrite (proj2 (Z.ltb_ge _ _)) by lia.
Qed.

(** The ratio is less than half a unit from [m * 2 ^ e]; a quarter, below a power of two. *)
Definition near (num den : Z) (m e : Z) : Prop :=
  let N := (num * 2 ^ Z.max (- e) 0)%Z in
  let D := (den * 2 ^ Z.max e 0)%Z in
  ((2 * m - 1) * D < 2 * N < (2 * m + 1) * D ∧ (m = 2 ^ 52 → (4 * m - 1) * D < 4 * N))%Z.

Lemma round_ratio_near neg num den m e :
  (0 < num)%Z → (0 < den)%Z → bounded prec emax m e = true → near num den (Z.pos m) e →
  round_ratio neg num den = S754_finite neg m e.
Proof.
  intros Hn Hd Hb [[H1 H2] H3]. destruct (bounded_spec m e Hb) as (He & Hm & Hs).
  assert (Hpq : (e = Z.max e 0 - Z.max (- e) 0)%Z) by lia.
  pose proof (pow_pos 2 e ltac:(lia)) as Hpe. set (N := (num * 2 ^ Z.max (- e) 0)%Z) in *. set (D := (den * 2 ^ Z.max e 0)%Z) in *.
  assert (HD : (0 < D)%Z) by (unfold D; nia). change (2 ^ 53)%Z with 9007199254740992%Z in Hm. change (2 ^ 52)%Z with 4503599627370496%Z in Hs, H3.
  destruct (decide (D * 2 ^ 52 ≤ N)%Z) as [Hge|Hlt].
  - rewrite (round_ratio_at neg num den e (Z.pos m)); [apply pack_finite; lia| |by apply nearest_spec].
    rewrite (binade_scaled num den (Z.max e 0) (Z.max (- e) 0) 52); [lia|lia|lia|lia|lia|lia|].
    fold N D. split; [done|]. change (2 ^ (52 + 1))%Z with 9007199254740992%Z. nia.
  - destruct (decide (e = -1074)%Z) as [Ee|Hne].
    + rewrite (round_ratio_at neg num den e (Z.pos m)); [apply pack_finite; lia| |by apply nearest_spec].
      destruct (binade_spec num den Hn Hd) as [B _]. destruct (decide (binade num den ≤ 51 + e)%Z); [lia|]. destruct Hlt.
      apply (at_least_mono num den (Z.max e 0 + 52 - Z.max (- e) 0)) in B; [|lia|lia|lia]. apply at_least_iff in B; [|lia|lia].
      fold N in B. rewrite Z.pow_add_r in B by lia. unfold D. nia.
    + destruct Hs as [Hs|]; [|done]. change (2 ^ 52)%Z with 4503599627370496%Z in Hlt.
      assert (Em : Z.pos m = 4503599627370496%Z) by nia. specialize (H3 Em). rewrite Em in *.
      rewrite (round_ratio_at neg num den (e - 1) (2 ^ 53)).
      * unfold pack, prec, emax. change (2 ^ 53 =? 2 ^ 53)%Z with true. cbv iota beta. rewrite Z.sub_add. change (2 ^ (53 - 1))%Z with 4503599627370496%Z.
        rewrite <- Em. by rewrite (proj2 (Z.ltb_ge _ _)) by lia.
      * rewrite (binade_scaled num den (Z.max e 0) (Z.max (- e) 0) 51); [lia|lia|lia|lia|lia|lia|].
        fold N D. change (2 ^ 51)%Z with 2251799813685248%Z. change (2 ^ (51 + 1))%Z with 4503599627370496%Z. lia.
      * set (N' := (num * 2 ^ Z.max (- (e - 1)) 0)%Z). set (D' := (den * 2 ^ Z.max (e - 1) 0)%Z).
        assert (Hx : (N' * D = 2 * N * D')%Z).
        { unfold N', D, N, D'. pose proof (pow_cross 2 (Z.max e 0) (Z.max (- e) 0 + 1) (e - 1)) as Hx. rewrite Z.pow_add_r in Hx by lia.
          specialize (Hx ltac:(lia) ltac:(lia) ltac:(lia) ltac:(lia)). change (2 ^ 1)%Z with 2%Z in Hx. nia. }
        assert (HD' : (0 < D')%Z) by (unfold D'; pose proof (pow_pos 2 (e - 1) ltac:(lia)); nia).
        apply nearest_spec; [done|]. change (2 ^ 53)%Z with 9007199254740992%Z. split; nia.
Qed.

(** ** The decimal point *)

Lemma below_pow10_iff num den p q :
  (0 ≤ p → 0 ≤ q → below_pow10 num den (p - q) = true ↔ num * 10 ^ q < 10 ^ p * den)%Z.
Proof.
  intros Hp Hq. unfold below_pow10. rewrite Z.ltb_lt.
  pose proof (pow_cross 10 p q (p - q) ltac:(lia) Hp Hq eq_refl) as Hx.
  pose proof (pow_pos 10 (p - q) ltac:(lia)). pose proof (pow_pos 10 (- (p - q)) ltac:(lia)).
  pose proof (Z.pow_pos_nonneg 10 p ltac:(lia) Hp). pose proof (Z.pow_pos_nonneg 10 q ltac:(lia) Hq).
  set (u := (10 ^ Z.max (p - q) 0)%Z) in *. set (v := (10 ^ Z.max (- (p - q)) 0)%Z) in *. set (P := (10 ^ p)%Z) in *. set (Q := (10 ^ q)%Z) in *.
  clearbody u v P Q. rewrite !Z.lt_nge. apply not_iff_compat. apply (cross_le _ _ _ _ Q v); [done|done| |ring].
  rewrite <- !Z.mul_assoc, (Z.mul_comm den), (Z.mul_comm den), !Z.mul_assoc, (Z.mul_comm u), <- Hx. ring.
Qed.

(** How well the estimate of [decimal_point] does, for the exponents a float64 has. *)
Definition estimate (l : Z) : Z := (l * 30103 / 100000)%Z.
Definition estimate_ok (l : Z) : bool :=
  let k := estimate l in
  ((10 ^ Z.max (k - 1) 0 * 2 ^ Z.max (- l) 0 <=? 2 ^ Z.max l 0 * 10 ^ Z.max (- (k - 1)) 0) &&
   (2 ^ Z.max (l + 2) 0 * 10 ^ Z.max (- (k + 3)) 0 <=? 10 ^ Z.max (k + 3) 0 * 2 ^ Z.max (- (l + 2)) 0))%Z.

Lemma estimate_all : forallb (λ n, estimate_ok (Z.of_nat n - 1100)) (seq 0 2200) = true.
Proof. vm_compute. reflexivity. Qed.

Lemma estimate_good l : (-1100 ≤ l < 1100)%Z → estimate_ok l = true.
Proof.
  intros Hl. pose proof estimate_all as H. rewrite forallb_forall in H. specialize (H (Z.to_nat (l + 1100))).
  rewrite Z2Nat.id, Z.add_simpl_r in H by lia. apply H, in_seq. lia.
Qed.

Lemma decimal_point_spec num den :
  (0 < num → 0 < den → -1100 ≤ Z.log2 num - Z.log2 den - 1 < 1100 →
   let dp := decimal_point num den in below_pow10 num den dp = true ∧ below_pow10 num den (dp - 1) = false)%Z.
Proof.
  intros Hn Hd Hl. destruct (log2_ratio num den Hn Hd) as [Hlo Hhi]. unfold decimal_point. cbn zeta in *.
  set (l := (Z.log2 num - Z.log2 den - 1)%Z) in *. replace (Z.log2 num - Z.log2 den + 1)%Z with (l + 2)%Z in Hhi by lia.
  pose proof (estimate_good l Hl) as Hg. unfold estimate_ok in Hg. fold (estimate l). set (k := estimate l) in *.
  apply andb_true_iff in Hg as [H1 H2]. apply Z.leb_le in H1, H2.
  assert (Hk1 : below_pow10 num den (k - 1) = false).
  { unfold below_pow10. apply Z.ltb_ge. unfold at_least in Hlo. apply Z.leb_le in Hlo.
    pose proof (pow_pos 2 l ltac:(lia)). pose proof (pow_pos 2 (- l) ltac:(lia)).
    pose proof (pow_pos 10 (k - 1) ltac:(lia)). pose proof (pow_pos 10 (- (k - 1)) ltac:(lia)).
    set (A := (10 ^ Z.max (k - 1) 0)%Z) in *. set (B := (10 ^ Z.max (- (k - 1)) 0)%Z) in *. set (P := (2 ^ Z.max l 0)%Z) in *. set (Q := (2 ^ Z.max (- l) 0)%Z) in *.
    clearbody A B P Q. assert (A * Q * (den * P) ≤ P * B * (num * Q))%Z by (apply Z.mul_le_mono_nonneg; nia). nia. }
  assert (Hk3 : below_pow10 num den (k + 3) = true).
  { unfold below_pow10. apply Z.ltb_lt. unfold at_least in Hhi. apply Z.leb_gt in Hhi.
    pose proof (pow_pos 2 (l + 2) ltac:(lia)). pose proof (pow_pos 2 (- (l + 2)) ltac:(lia)).
    pose proof (pow_pos 10 (k + 3) ltac:(lia)). pose proof (pow_pos 10 (- (k + 3)) ltac:(lia)).
    set (A := (10 ^ Z.max (k + 3) 0)%Z) in *. set (B := (10 ^ Z.max (- (k + 3)) 0)%Z) in *. set (P := (2 ^ Z.max (l + 2) 0)%Z) in *.
    set (Q := (2 ^ Z.max (- (l + 2)) 0)%Z) in *.
    clearbody A B P Q. assert (P * B * (num * Q) < A * Q * (den * P))%Z; [|nia]. apply Z.le_lt_trans with (A * Q * (num * Q))%Z; [nia|].
    apply Z.mul_lt_mono_pos_l; nia. }
  destruct (below_pow10 num den k) eqn:E0; [done|]. destruct (below_pow10 num den (k + 1)) eqn:E1; [by rewrite Z.add_simpl_r|].
  destruct (below_pow10 num den (k + 2)) eqn:E2; [by replace (k + 2 - 1)%Z with (k + 1)%Z by lia|]. by replace (k + 3 - 1)%Z with (k + 2)%Z by lia.
Qed.

(** ** Seventeen digits are enough *)

Lemma SFeqb_finite f s m e : SFeqb f (S754_finite s m e) = true ↔ f = S754_finite s m e.
Proof.
  split.
  - unfold SFeqb. destruct f as [s'|s'| |s' m' e']; cbn; [by destruct s, s'|by destruct s, s'|by destruct s|].
    destruct (Z.compare_spec e' e) as [->|Hlt|Hlt], s, s'; try done;
      change (Pos.compare_cont Eq m' m) with (m' ?= m)%positive; destruct (Pos.compare_spec m' m) as [->| |]; done.
  - intros ->. unfold SFeqb. cbn. rewrite Z.compare_refl. change (Pos.compare_cont Eq m m) with (m ?= m)%positive.
    rewrite Pos.compare_refl. by destruct s.
Qed.

Lemma decimal_ratio neg d e : (0 < d)%Z → decimal neg d e = round_ratio neg (d * 10 ^ Z.max e 0) (10 ^ Z.max (- e) 0).
Proof. by destruct d. Qed.

(** The two ratios [shortest] works with. *)
Definition scaled_num (num dp n : Z) : Z := (num * 10 ^ Z.max (n - dp) 0)%Z.
Definition scaled_den (den dp n : Z) : Z := (den * 10 ^ Z.max (- (n - dp)) 0)%Z.

(** A decimal within half a unit of its seventeenth digit. *)
Lemma seventeen_near m e d :
  bounded prec emax m e = true →
  let num := (Z.pos m * 2 ^ Z.max e 0)%Z in let den := (2 ^ Z.max (- e) 0)%Z in let dp := decimal_point num den in
  (- scaled_den den dp 17 ≤ 2 * (d * scaled_den den dp 17 - scaled_num num dp 17) ≤ scaled_den den dp 17)%Z →
  (0 < d)%Z ∧ decimal false d (dp - 17) = S754_finite false m e.
Proof.
  intros Hb num den dp Hd. destruct (bounded_spec m e Hb) as (He & Hm & Hs).
  pose proof (pow_pos 2 e ltac:(lia)) as Hp. pose proof (pow_pos 2 (- e) ltac:(lia)) as Hq.
  assert (Hnum : (0 < num)%Z) by (unfold num; nia). assert (Hden : (0 < den)%Z) by (unfold den; lia).
  destruct (decimal_point_spec num den Hnum Hden) as [_ Hdp].
  { assert (Hl2 : (0 ≤ Z.log2 (Z.pos m) < 53)%Z) by (split; [apply Z.log2_nonneg|apply Z.log2_lt_pow2; lia]).
    unfold num, den. rewrite Z.log2_pow2, <- Z.shiftl_mul_pow2, Z.log2_shiftl by lia. lia. }
  fold dp in Hdp. unfold scaled_num, scaled_den in Hd.
  pose proof (pow_pos 10 (17 - dp) ltac:(lia)) as Hu. pose proof (pow_pos 10 (- (17 - dp)) ltac:(lia)) as Hv.
  assert (Hlow : (10 ^ 16 * (den * 10 ^ Z.max (- (17 - dp)) 0) ≤ num * 10 ^ Z.max (17 - dp) 0)%Z).
  { apply not_true_iff_false in Hdp. replace (dp - 1)%Z with (16 + Z.max (- (17 - dp)) 0 - Z.max (17 - dp) 0)%Z in Hdp by lia.
    rewrite below_pow10_iff in Hdp by lia. rewrite Z.pow_add_r in Hdp by lia. nia. }
  set (X := (den * 10 ^ Z.max (- (17 - dp)) 0)%Z) in *. set (u := (10 ^ Z.max (17 - dp) 0)%Z) in *. set (D := (u * 2 ^ Z.max e 0)%Z).
  assert (EmD : (num * u = Z.pos m * D)%Z) by (unfold num, D; ring). rewrite EmD in *.
  assert (HX : (0 < X)%Z) by (unfold X; nia). assert (HD : (0 < D)%Z) by (unfold D; nia).
  change (10 ^ 16)%Z with 10000000000000000%Z in Hlow. change (2 ^ 53)%Z with 9007199254740992%Z in Hm.
  assert (Hd0 : (0 < d)%Z) by nia. split; [done|].
  rewrite decimal_ratio by done. replace (Z.max (dp - 17) 0)%Z with (Z.max (- (17 - dp)) 0)%Z by lia.
  replace (Z.max (- (dp - 17)) 0)%Z with (Z.max (17 - dp) 0)%Z by lia. fold u.
  apply round_ratio_near; [nia|done|done|]. unfold near. cbv zeta. fold D.
  replace (d * 10 ^ Z.max (- (17 - dp)) 0 * 2 ^ Z.max (- e) 0)%Z with (d * X)%Z by (unfold X, den; ring).
  change (2 ^ 52)%Z with 4503599627370496%Z. assert (HXD : (X < D)%Z) by nia. split; [nia|]. intros E.
  rewrite E in *. assert (2 * X < D)%Z by nia. nia.
Qed.

(** The search finds a decimal that reads as the float. *)
Lemma shortest_from_reads fuel n num den dp m e d j :
  (0 ≤ j < Z.of_nat fuel)%Z →
  let lo := (scaled_num num dp (n + j) / scaled_den den dp (n + j))%Z in
  d = lo ∨ d = (lo + 1)%Z → decimal false d (- (n + j - dp)) = S754_finite false m e →
  let '(d, e10) := shortest_from fuel n num den dp (S754_finite false m e) in decimal false d e10 = S754_finite false m e.
Proof.
  revert n j. induction fuel as [|fuel IH]; intros n j Hj; [lia|]. cbn zeta. intros Hd Hr. cbn [shortest_from]. cbv zeta.
  fold (scaled_num num dp n) (scaled_den den dp n). set (lo := (scaled_num num dp n / scaled_den den dp n)%Z).
  destruct (SFeqb (decimal false lo (- (n - dp))) _) eqn:E1; destruct (SFeqb (decimal false (lo + 1) (- (n - dp))) _) eqn:E2.
  - destruct (_ || _); by apply SFeqb_finite.
  - by apply SFeqb_finite.
  - by apply SFeqb_finite.
  - assert (Hnot : j ≠ 0%Z).
    { intros ->. rewrite Z.add_0_r in Hd, Hr. fold lo in Hd. apply SFeqb_finite in Hr. destruct Hd as [->| ->]; congruence. }
    apply (IH (n + 1)%Z (j - 1)%Z); [lia| |]; by replace (n + 1 + (j - 1))%Z with (n + j)%Z by lia.
Qed.

Lemma shortest_reads m e :
  bounded prec emax m e = true →
  let num := (Z.pos m * 2 ^ Z.max e 0)%Z in let den := (2 ^ Z.max (- e) 0)%Z in let dp := decimal_point num den in
  let '(d, e10) := shortest_from 17 1 num den dp (S754_finite false m e) in decimal false d e10 = S754_finite false m e.
Proof.
  intros Hb num den dp. set (N := scaled_num num dp 17). set (D := scaled_den den dp 17).
  assert (HD : (0 < D)%Z).
  { unfold D, scaled_den, den. pose proof (pow_pos 2 (- e) ltac:(lia)). pose proof (pow_pos 10 (- (17 - dp)) ltac:(lia)). nia. }
  pose proof (Z.div_mod N D ltac:(lia)) as E. pose proof (Z.mod_pos_bound N D HD) as Hr.
  assert (Hd : ∃ d, (d = N / D ∨ d = N / D + 1)%Z ∧ (- D ≤ 2 * (d * D - N) ≤ D)%Z).
  { destruct (Z.le_gt_cases (2 * (N mod D)) D); [exists (N / D)%Z|exists (N / D + 1)%Z]; split; auto; lia. }
  destruct Hd as (d & Hd & Hnear). apply (shortest_from_reads 17 1 num den dp m e d 16); [lia|exact Hd|].
  destruct (seventeen_near m e d Hb Hnear) as [_ Hdec]. replace (- (1 + 16 - dp))%Z with (dp - 17)%Z by lia. exact Hdec.
Qed.

(** ** Decimals of one value *)


Lemma round_ratio_same neg num den num' den' :
  (0 < num)%Z → (0 < den)%Z → (0 < num')%Z → (0 < den')%Z → (num * den' = num' * den)%Z →
  round_ratio neg num den = round_ratio neg num' den'.
Proof.
  intros Hn Hd Hn' Hd' E. rewrite <- (round_ratio_scale neg num den den') by done. rewrite <- (round_ratio_scale neg num' den' den) by done.
  by rewrite E, (Z.mul_comm den').
Qed.

Lemma decimal_shift neg d e j : (0 < d)%Z → (0 ≤ j)%Z → decimal neg (d * 10 ^ j) e = decimal neg d (e + j).
Proof.
  intros Hd Hj. pose proof (Z.pow_pos_nonneg 10 j ltac:(lia) Hj). rewrite !decimal_ratio by nia.
  pose proof (pow_pos 10 e ltac:(lia)). pose proof (pow_pos 10 (- e) ltac:(lia)).
  pose proof (pow_pos 10 (e + j) ltac:(lia)). pose proof (pow_pos 10 (- (e + j)) ltac:(lia)).
  apply round_ratio_same; [nia|lia|nia|lia|].
  assert (Hx : (10 ^ j * 10 ^ Z.max e 0 * 10 ^ Z.max (- (e + j)) 0 = 10 ^ Z.max (e + j) 0 * 10 ^ Z.max (- e) 0)%Z).
  { rewrite <- !Z.pow_add_r by lia. f_equal. lia. }
  nia.
Qed.

Lemma round_ratio_sign neg num den m e : round_ratio false num den = S754_finite false m e → round_ratio neg num den = S754_finite neg m e.
Proof.
  unfold round_ratio. cbv zeta. destruct (_ =? 2 ^ prec)%Z.
  - change (2 ^ (prec - 1))%Z with 4503599627370496%Z. destruct (_ <? _)%Z; [done|]. by intros [= -> ->].
  - destruct (nearest _ _); [done| |done]. destruct (_ <? _)%Z; [done|]. by intros [= -> ->].
Qed.

Lemma decimal_sign neg d e m e' : decimal false d e = S754_finite false m e' → (0 < d)%Z ∧ decimal neg d e = S754_finite neg m e'.
Proof.
  intros H. assert (Hd : (0 < d)%Z) by (by destruct d). split; [done|]. rewrite decimal_ratio in * by done. by apply round_ratio_sign.
Qed.

Lemma strip_zeros_spec fuel m e :
  (0 < m)%Z → let '(m', e') := strip_zeros fuel m e in (0 < m')%Z ∧ ∃ j, (0 ≤ j)%Z ∧ m = (m' * 10 ^ j)%Z ∧ e' = (e + j)%Z.
Proof.
  revert m e. induction fuel as [|fuel IH]; intros m e Hm; cbn [strip_zeros]; [split; [done|exists 0%Z; lia]|].
  destruct (Z.eqb_spec (m mod 10) 0) as [E|_]; [|split; [done|exists 0%Z; lia]].
  pose proof (Z.div_mod m 10 ltac:(lia)) as Hdm. rewrite E in Hdm.
  specialize (IH (m / 10)%Z (e + 1)%Z ltac:(lia)). destruct (strip_zeros fuel (m / 10) (e + 1)) as [m' e'].
  destruct IH as (? & j & Hj & Em & ->). split; [done|]. exists (j + 1)%Z. rewrite Z.pow_add_r by lia. change (10 ^ 1)%Z with 10%Z. lia.
Qed.

(** The digits [shortest] gives are of a decimal that reads as the float. *)
Lemma shortest_spec neg m e :
  bounded prec emax m e = true →
  ∃ d e10, shortest m e = (utoa d, (Z.of_nat (length (utoa d)) + e10)%Z) ∧ (0 < d)%Z ∧ decimal neg d e10 = S754_finite neg m e.
Proof.
  intros Hb. pose proof (shortest_reads m e Hb) as Hr. unfold shortest. cbv zeta in *.
  destruct (shortest_from 17 1 _ _ _ _) as [d e10]. destruct (decimal_sign neg _ _ _ _ Hr) as [Hd Hs].
  pose proof (strip_zeros_spec 17 d e10 Hd) as Hz. destruct (strip_zeros 17 d e10) as [d' e']. destruct Hz as (Hd' & j & Hj & -> & ->).
  exists d', (e10 + j)%Z. split_and!; [done|done|]. by rewrite <- decimal_shift.
Qed.

(** ** Digits *)

Definition is_digit (c : ascii) : Prop := (48 ≤ byte c ≤ 57)%Z.
Abbreviation digits := (Forall is_digit).

Definition num_of (l : list ascii) (m : Z) : Z := foldl (λ m c, m * 10 + (byte c - 48))%Z m l.

Lemma num_of_app l1 l2 m : num_of (l1 ++ l2) m = num_of l2 (num_of l1 m).
Proof. apply foldl_app. Qed.

Lemma digit_val_is c : is_digit c → digit_val c = Some (byte c - 48)%Z.
Proof. unfold is_digit, digit_val. intros H. by rewrite (proj2 (Z.leb_le 48 (byte c))), (proj2 (Z.leb_le (byte c) 57)) by lia. Qed.

(** What ends a run of digits. *)
Definition no_digit (rest : list ascii) : Prop := match rest with c :: _ => digit_val c = None | [] => True end.

Lemma read_digits_run l rest m n :
  digits l → no_digit rest → read_digits (l ++ rest) m n = (num_of l m, (n + Z.of_nat (length l))%Z, rest).
Proof.
  intros Hl Hr. revert m n. induction Hl as [|c l Hc _ IH]; intros m n.
  - cbn [app num_of foldl length]. rewrite Z.add_0_r. destruct rest as [|c t]; [done|]. cbn in Hr |- *. by rewrite Hr.
  - cbn [app read_digits]. rewrite (digit_val_is c Hc), IH. cbn [length]. do 2 f_equal. lia.
Qed.

Lemma num_of_itoa f n acc : (0 ≤ n)%Z → (n < 2 ^ Z.of_nat f)%Z → (0 < f)%nat → num_of (itoa_fuel f n acc) 0 = num_of acc n.
Proof.
  revert n acc. induction f as [|f IH]; intros n acc Hn Hf Hpos; [lia|]. cbn [itoa_fuel]. destruct (Z.ltb_spec n 10) as [Hlt|Hge].
  - unfold num_of. cbn [foldl]. rewrite Z.mod_small, byte_digit by lia. do 2 f_equal. lia.
  - rewrite Nat2Z.inj_succ, Z.pow_succ_r in Hf by lia. pose proof (Z.div_mod n 10 ltac:(lia)) as Hdm. pose proof (Z.mod_pos_bound n 10 ltac:(lia)) as Hmod.
    rewrite IH; [| lia | apply Z.div_lt_upper_bound; lia | destruct f; [simpl in Hf; lia | lia]].
    unfold num_of. cbn [foldl]. rewrite byte_digit by lia. f_equal. lia.
Qed.

Lemma num_of_utoa n : (0 ≤ n)%Z → num_of (utoa n) 0 = n.
Proof.
  intros H. unfold utoa. rewrite num_of_itoa; [done|done| |lia]. rewrite Nat2Z.inj_succ, Z2Nat.id by apply Z.log2_nonneg.
  destruct (decide (n = 0)%Z) as [->|]; [done|]. apply Z.log2_spec. lia.
Qed.

Lemma num_of_zeros n m : (0 ≤ n)%Z → num_of (zeros n) m = (m * 10 ^ n)%Z.
Proof.
  intros Hn. unfold zeros. rewrite <- (Z2Nat.id n Hn) at 2. generalize (Z.to_nat n). clear. intros k. revert m.
  induction k as [|k IH]; intros m; [cbn; lia|]. cbn [replicate]. unfold num_of in *. cbn [foldl]. rewrite IH.
  change (byte "0" - 48)%Z with 0%Z. rewrite Nat2Z.inj_succ, Z.pow_succ_r by lia. ring.
Qed.

Lemma zeros_digits n : digits (zeros n).
Proof. unfold zeros. apply Forall_replicate. unfold is_digit. vm_compute. split; discriminate. Qed.

(** ** The spelling of a number *)

(** Whole digits, a fraction and an exponent, of which the last two may be missing. *)
Definition frac_text (fs : list ascii) : list ascii := match fs with [] => [] | _ => "."%char :: fs end.
Definition exp_text (ex : option (bool * list ascii)) : list ascii :=
  match ex with Some (neg, xs) => "e"%char :: (if neg then "-"%char else "+"%char) :: xs | None => [] end.
Definition exp_value (ex : option (bool * list ascii)) : Z :=
  match ex with Some (neg, xs) => if neg then (- num_of xs 0)%Z else num_of xs 0 | None => 0%Z end.
Definition exp_digits (ex : option (bool * list ascii)) : Prop :=
  match ex with Some (_, xs) => digits xs ∧ xs ≠ [] | None => True end.

Definition spelling (ds fs : list ascii) (ex : option (bool * list ascii)) : list ascii := ds ++ frac_text fs ++ exp_text ex.

(** Without a needless zero in front. *)
Definition whole (ds : list ascii) : Prop :=
  ds = ["0"%char] ∨ ∃ d t, ds = d :: t ∧ (49 ≤ byte d ≤ 57)%Z ∧ digits t.

Lemma whole_digits ds : whole ds → digits ds.
Proof.
  intros [->|(d & t & -> & Hd & Ht)].
  - apply Forall_singleton. unfold is_digit. by vm_compute.
  - apply Forall_cons. split; [unfold is_digit; lia|done].
Qed.

(** Runs of digits, in the states that take them. *)
Lemma scan_digits s l rest :
  (∀ c, is_digit c → number_step s c = Some s) → digits l → scan_number s (l ++ rest) = foldr spush (scan_number s rest) l.
Proof. intros Hs Hl. induction Hl as [|c l Hc _ IH]; [done|]. cbn [app scan_number foldr]. by rewrite (Hs c Hc), IH. Qed.

Lemma digit_test c : is_digit c → ((0x30 <=? byte c) && (byte c <=? 0x39))%Z = true.
Proof. unfold is_digit. lia. Qed.

Lemma digit_not c n : is_digit c → (n < 48 ∨ 57 < n)%Z → is_byte n c = false.
Proof. unfold is_digit, is_byte. lia. Qed.

(** A state a number may end in, and what may follow it there. *)
Lemma scan_exp s ex :
  number_end s = true → number_step s "e" = Some NExp → exp_digits ex → scan_number s (exp_text ex) = SDone (exp_text ex) [].
Proof.
  intros He Hs. destruct ex as [[neg [|x xs]]|]; cbn [exp_digits exp_text]; [by intros [_ []]| |cbn; by rewrite He].
  intros [[Hx Hxs]%Forall_cons _].
  assert (Hn : scan_number NExp ((if neg then "-"%char else "+"%char) :: x :: xs) = SDone ((if neg then "-"%char else "+"%char) :: x :: xs) []).
  { assert (Hd : scan_number NSign (x :: xs) = SDone (x :: xs) []).
    { cbn [scan_number number_step]. rewrite (digit_test x Hx). rewrite <- (app_nil_r xs) at 1.
      rewrite (scan_digits NExpInt) by (done || (intros c Hc; cbn [number_step]; by rewrite (digit_test c Hc))).
      cbn [scan_number number_end]. rewrite foldr_spush. by rewrite app_nil_r. }
    destruct neg; [change (spush "-"%char (scan_number NSign (x :: xs)) = SDone ("-"%char :: x :: xs) [])|
                   change (spush "+"%char (scan_number NSign (x :: xs)) = SDone ("+"%char :: x :: xs) [])]; by rewrite Hd. }
  set (r := _ :: x :: xs) in *. clearbody r. cbn [scan_number]. by rewrite Hs, Hn.
Qed.

Lemma scan_frac_exp s fs ex :
  number_end s = true → number_step s "." = Some NDot → number_step s "e" = Some NExp → digits fs → exp_digits ex →
  scan_number s (frac_text fs ++ exp_text ex) = SDone (frac_text fs ++ exp_text ex) [].
Proof.
  intros He Hd Hs Hfs Hex. destruct fs as [|f fs]; [by apply scan_exp|]. apply Forall_cons in Hfs as [Hf Hfs].
  cbn [frac_text app scan_number]. rewrite Hd. cbn [scan_number number_step]. rewrite (digit_test f Hf).
  rewrite (scan_digits NFrac) by (done || (intros c Hc; cbn [number_step]; by rewrite (digit_test c Hc))).
  rewrite (scan_exp NFrac) by done. by rewrite foldr_spush.
Qed.

Lemma spelling_lit (neg : bool) ds fs ex :
  whole ds → digits fs → exp_digits ex → number_lit ((if neg then ["-"%char] else []) ++ spelling ds fs ex).
Proof.
  intros Hds Hfs Hex. unfold number_lit, spelling.
  assert (Hw : ∀ s, (s = NStart ∨ s = NNeg) → scan_number s (ds ++ frac_text fs ++ exp_text ex) = SDone (ds ++ frac_text fs ++ exp_text ex) []).
  { intros s Hs. destruct Hds as [->|(d & t & -> & Hd & Ht)]; cbn [app scan_number].
    - assert (number_step s "0" = Some NZero) as -> by (by destruct Hs as [->| ->]). by rewrite (scan_frac_exp NZero).
    - assert (Hdd : is_digit d) by (unfold is_digit; lia).
      assert (number_step s d = Some NInt) as ->.
      { destruct Hs as [->| ->]; cbn [number_step]; rewrite (digit_test d Hdd), ?(digit_not d 0x2D Hdd) by lia;
          unfold is_byte; by rewrite (proj2 (Z.eqb_neq (byte d) 0x30)) by lia. }
      rewrite (scan_digits NInt) by (done || (intros c Hc; cbn [number_step]; by rewrite (digit_test c Hc))).
      rewrite (scan_frac_exp NInt) by done. by rewrite foldr_spush. }
  destruct neg; cbn [app]; [|by apply Hw; left]. cbn [scan_number]. change (number_step NStart "-") with (Some NNeg). cbv iota.
  rewrite Hw by auto. done.
Qed.

(** What [ParseFloat] does after the sign. *)
Definition parse_unsigned (neg : bool) (l : list ascii) : option spec_float :=
  let '(m, _, l) := read_digits l 0 0 in
  let '(m, frac, l) := match l with "."%char :: t => read_digits t m 0 | l => (m, 0%Z, l) end in
  let e10 :=
    match l with
    | _ :: "-"%char :: t => (- (read_digits t 0 0).1.1)%Z
    | _ :: "+"%char :: t => (read_digits t 0 0).1.1
    | _ :: t => (read_digits t 0 0).1.1
    | [] => 0%Z
    end in
  match decimal neg m (e10 - frac) with S754_infinity _ | S754_nan => None | f => Some f end.

Lemma ParseFloat_sign (neg : bool) c l :
  is_digit c → ParseFloat ((if neg then ["-"%char] else []) ++ c :: l) = parse_unsigned neg (c :: l).
Proof.
  intros Hc. destruct neg; [done|]. unfold ParseFloat. cbn [app].
  destruct c as [[] [] [] [] [] [] [] []]; try reflexivity. exfalso. unfold is_digit in Hc. vm_compute in Hc. by destruct Hc as [Hc _].
Qed.

(** What is left after the digits and the fraction is the exponent's. *)
Lemma parse_exp neg m frac ex :
  exp_digits ex →
  (let e10 :=
     match exp_text ex with
     | _ :: "-"%char :: t => (- (read_digits t 0 0).1.1)%Z
     | _ :: "+"%char :: t => (read_digits t 0 0).1.1
     | _ :: t => (read_digits t 0 0).1.1
     | [] => 0%Z
     end in
   match decimal neg m (e10 - frac) with S754_infinity _ | S754_nan => None | f => Some f end) =
  match decimal neg m (exp_value ex - frac) with S754_infinity _ | S754_nan => None | f => Some f end.
Proof.
  destruct ex as [[[] xs]|]; [| |done]; intros [Hx _]; cbn [exp_text exp_value]; cbv iota zeta;
    rewrite <- (app_nil_r xs) at 1; by rewrite read_digits_run.
Qed.

Lemma spelling_read (neg : bool) ds fs ex :
  whole ds → digits fs → exp_digits ex →
  ParseFloat ((if neg then ["-"%char] else []) ++ spelling ds fs ex) =
  match decimal neg (num_of (ds ++ fs) 0) (exp_value ex - Z.of_nat (length fs)) with S754_infinity _ | S754_nan => None | f => Some f end.
Proof.
  intros Hds Hfs Hex. pose proof (whole_digits ds Hds) as Hd. unfold spelling.
  assert (Hs : ∃ c t, ds = c :: t ∧ is_digit c).
  { destruct Hds as [->|(d & t & -> & ? & _)]; eexists _, _; (split; [done|]); unfold is_digit; [by vm_compute|lia]. }
  destruct Hs as (c & t & E & Hc). rewrite E. cbn [app]. rewrite ParseFloat_sign by done.
  change (c :: t ++ frac_text fs ++ exp_text ex) with ((c :: t) ++ frac_text fs ++ exp_text ex). rewrite <- E.
  change (c :: t ++ fs) with ((c :: t) ++ fs). rewrite <- E. unfold parse_unsigned.
  assert (He : no_digit (exp_text ex)) by (by destruct ex as [[? ?]|]).
  destruct fs as [|f fs].
  - cbn [frac_text app]. rewrite app_nil_r, read_digits_run by done. cbn [length]. change (Z.of_nat 0) with 0%Z. rewrite <- (parse_exp _ _ 0 ex Hex).
    by destruct ex as [[? ?]|].
  - rewrite read_digits_run by done. cbn [frac_text app]. rewrite num_of_app. cbv iota beta.
    change (f :: fs ++ exp_text ex) with ((f :: fs) ++ exp_text ex). rewrite read_digits_run by done. by rewrite <- (parse_exp _ _ _ ex Hex).
Qed.

(** ** Every finite float64 reads back *)

Lemma utoa_whole n : (0 < n)%Z → ∃ d t, utoa n = d :: t ∧ (49 ≤ byte d ≤ 57)%Z ∧ digits t.
Proof.
  intros Hn. unfold utoa. destruct (itoa_fuel_head (S (Z.to_nat (Z.log2 n))) n [] Hn) as (d & ds & E & Hd & Hds).
  - rewrite Nat2Z.inj_succ, Z2Nat.id by apply Z.log2_nonneg. by apply Z.log2_spec.
  - exists d, ds. by rewrite app_nil_r in E.
Qed.

Lemma frac_text_eq l : match l with [] => [] | f :: fs => "."%char :: f :: fs end = frac_text l.
Proof. by destruct l. Qed.

(** The text spells a number of the value [d * 10 ^ e10]. *)
Definition spells (neg : bool) (d e10 : Z) (text : list ascii) : Prop :=
  ∃ ds fs ex, text = spelling ds fs ex ∧ whole ds ∧ digits fs ∧ exp_digits ex ∧
    decimal neg (num_of (ds ++ fs) 0) (exp_value ex - Z.of_nat (length fs)) = decimal neg d e10.

Section formats.
Variables (neg : bool) (d e10 : Z) (Hd : (0 < d)%Z).
Let ds := utoa d.
Let dp := (Z.of_nat (length ds) + e10)%Z.

Lemma digits_shape : ∃ c t, ds = c :: t ∧ (49 ≤ byte c ≤ 57)%Z ∧ digits t ∧ whole ds ∧ digits ds ∧ num_of ds 0 = d.
Proof.
  destruct (utoa_whole d Hd) as (c & t & E & Hc & Ht). fold ds in E. assert (Hw : whole ds) by (right; by exists c, t).
  exists c, t. split_and!; try done; [lia|lia|by apply whole_digits|apply num_of_utoa; lia].
Qed.

Lemma format_e_spells : spells neg d e10 (format_e ds dp).
Proof.
  destruct digits_shape as (c & t & E & Hc & Ht & Hw & Hds & Hn).
  exists (take 1 ds), (drop 1 ds), (Some ((dp - 1 <? 0)%Z, utoa (Z.abs (dp - 1)))). unfold format_e, spelling. cbv zeta. rewrite frac_text_eq. split.
  { cbn [exp_text]. reflexivity. }
  rewrite E. cbn [take drop firstn skipn]. split_and!.
  - right. exists c, []. rewrite take_0. done.
  - by rewrite drop_0.
  - cbn [exp_digits]. apply utoa_digits. lia.
  - rewrite drop_0. assert (num_of ((c :: take 0 t) ++ t) 0 = d) as -> by (rewrite <- Hn; by rewrite E). f_equal. cbn [exp_value].
    rewrite num_of_utoa by lia. unfold dp. rewrite E. cbn [length]. destruct (Z.ltb_spec (Z.of_nat (S (length t)) + e10 - 1) 0); lia.
Qed.

Lemma format_f_spells : spells neg d e10 (format_f ds dp).
Proof.
  destruct digits_shape as (c & t & E & Hc & Ht & Hw & Hds & Hn). unfold format_f. destruct (Z.ltb_spec 0 dp) as [Hp|Hp].
  - cbv zeta. destruct (Z.le_gt_cases (Z.of_nat (length ds)) dp) as [Hge|Hlt].
    + exists (ds ++ zeros (dp - Z.of_nat (length ds))), [], None. unfold spelling. rewrite take_ge, drop_ge by lia.
      split_and!; [cbn [frac_text exp_text app]; by rewrite !app_nil_r| |done|done|].
      * right. exists c, (t ++ zeros (dp - Z.of_nat (length ds))). rewrite E at 1. split_and!; [done|lia|lia|]. apply Forall_app. split; [done|apply zeros_digits].
      * rewrite app_nil_r, num_of_app, Hn, num_of_zeros by lia. rewrite decimal_shift by lia. cbn [exp_value length]. f_equal. unfold dp. lia.
    + exists (take (Z.to_nat dp) ds), (drop (Z.to_nat dp) ds), None. unfold spelling, zeros. rewrite (Z2Nat.nonpos (dp - _)) by lia. cbn [replicate app exp_text].
      rewrite frac_text_eq, app_nil_r. split_and!; [done| |by apply Forall_drop|done|].
      * right. rewrite E. destruct (Z.to_nat dp) as [|n] eqn:En; [lia|]. cbn [take firstn]. exists c, (take n t). split_and!; [done|lia|lia|by apply Forall_take].
      * rewrite take_drop, Hn, length_drop. cbn [exp_value]. f_equal. unfold dp in *. lia.
  - exists ["0"%char], (zeros (- dp) ++ ds), None. unfold spelling. cbn [app]. split_and!.
    + rewrite E. destruct (zeros (- dp)) as [|z zs]; cbn [app frac_text exp_text]; by rewrite ?app_nil_r.
    + by left.
    + apply Forall_app. split; [apply zeros_digits|done].
    + done.
    + change (num_of _ 0) with (num_of (zeros (- dp) ++ ds) 0).
      rewrite num_of_app, num_of_zeros by lia. rewrite Z.mul_0_l, Hn. f_equal. cbn [exp_value]. rewrite length_app. unfold zeros.
      rewrite length_replicate. unfold dp. lia.
Qed.
End formats.

(** A finite [float64] is written as a number, which reads back as it. *)
Lemma float_text_reads f :
  float_finite f = true → ∃ lit, float_text f = Some lit ∧ number_lit lit ∧ ParseFloat lit = Some f.
Proof.
  destruct f as [s|s| |s m e]; intros Hf; try done.
  { exists (if s then ["-"; "0"] else ["0"])%char. split; [done|]. by destruct s. }
  cbn [float_finite] in Hf. destruct (shortest_spec s m e Hf) as (d & e10 & Es & Hd & Hr).
  cbn [float_text]. rewrite Es. cbv iota beta. set (text := if _ || _ then _ else _).
  assert (Ht : spells s d e10 text) by (unfold text; destruct (_ || _); [by apply format_e_spells|by apply format_f_spells]).
  destruct Ht as (ds & fs & ex & -> & Hds & Hfs & Hex & Hv).
  exists ((if s then ["-"%char] else []) ++ spelling ds fs ex). split; [done|].
  split; [by apply spelling_lit|]. rewrite spelling_read by done. by rewrite Hv, Hr.
Qed.

(** ** Operations stay finite *)

Lemma nearest_bounds N D lo hi : (0 < D → lo * D ≤ N → N ≤ hi * D → lo ≤ nearest N D ≤ hi)%Z.
Proof.
  intros HD Hlo Hhi. unfold nearest. pose proof (Z.div_mod N D ltac:(lia)) as E. pose proof (Z.mod_pos_bound N D HD) as Hr.
  set (q := (N / D)%Z) in *. set (r := (N mod D)%Z) in *. clearbody q r. subst N.
  assert (lo ≤ q)%Z by nia. assert (q ≤ hi)%Z by nia. assert (q = hi → r = 0)%Z by nia.
  destruct ((D <? 2 * r) || (D =? 2 * r) && Z.odd q)%Z eqn:Eu; [|lia]. apply orb_true_iff in Eu as [Eu|[Eu _]%andb_true_iff]; lia.
Qed.

Lemma digits2_pos_is p n : (0 < n → 2 ^ (n - 1) ≤ Z.pos p < 2 ^ n → Z.pos (digits2_pos p) = n)%Z.
Proof.
  intros Hn [H1 H2]. pose proof (digits2_pos_spec p) as [D1 D2]. set (d := Z.pos (digits2_pos p)) in *. assert (0 < d)%Z by done.
  assert (n - 1 < d)%Z by (apply (Z.pow_lt_mono_r_iff 2); lia). assert (d - 1 < n)%Z by (apply (Z.pow_lt_mono_r_iff 2); lia). lia.
Qed.

Lemma bounded_intro m e :
  (-1074 ≤ e ≤ 971)%Z → (Z.pos m < 2 ^ 53)%Z → (2 ^ 52 ≤ Z.pos m)%Z ∨ e = (-1074)%Z → bounded prec emax m e = true.
Proof.
  intros He Hm Hs. unfold bounded, canonical_mantissa, fexp, emin, prec, emax. rewrite andb_true_iff, Z.eqb_eq, Z.leb_le. split; [|lia].
  destruct Hs as [Hs| ->].
  - rewrite (digits2_pos_is m 53) by (change (53 - 1)%Z with 52%Z; lia). lia.
  - pose proof (digits2_pos_spec m) as [D1 _]. set (d := Z.pos (digits2_pos m)) in *. assert (d - 1 < 53)%Z by (apply (Z.pow_lt_mono_r_iff 2); lia). lia.
Qed.

(** A finite float of magnitude at most [2 ^ k]. *)
Definition within (k : Z) (f : spec_float) : Prop :=
  float_finite f = true ∧
  match f with S754_finite _ m e => Z.pos m * 2 ^ Z.max e 0 ≤ 2 ^ k * 2 ^ Z.max (- e) 0 | _ => True end%Z.

Lemma within_finite k f : within k f → float_finite f = true.
Proof. by intros [H _]. Qed.

Lemma within_le k j f : (0 ≤ k ≤ j)%Z → within k f → within j f.
Proof.
  intros Hk [Hf Hw]. split; [done|]. destruct f as [| | |s m e]; try done. pose proof (pow_pos 2 (- e) ltac:(lia)).
  assert (2 ^ k ≤ 2 ^ j)%Z by (apply Z.pow_le_mono_r; lia). nia.
Qed.

Lemma round_ratio_within neg num den k :
  (0 < num)%Z → (0 < den)%Z → (0 ≤ k ≤ 1000)%Z → (num ≤ 2 ^ k * den)%Z → within k (round_ratio neg num den).
Proof.
  intros Hn Hd Hk Hle. destruct (binade_spec num den Hn Hd) as [B1 B2]. set (b := binade num den) in *.
  assert (Hbk : (b ≤ k)%Z).
  { destruct (decide (b ≤ k)%Z) as [|Hgt]; [done|]. exfalso. apply (at_least_mono num den (k + 1 - 0)) in B1; [|lia|lia|lia].
    apply at_least_iff in B1; [|lia|lia]. rewrite Z.pow_add_r in B1 by lia. change (2 ^ 1)%Z with 2%Z in B1. nia. }
  set (e := Z.max (b - 52) (-1074)). rewrite (round_ratio_at neg num den e _ eq_refl eq_refl).
  pose proof (pow_pos 2 e ltac:(lia)) as Hpe. pose proof (pow_pos 2 (- e) ltac:(lia)) as Hqe.
  set (N := (num * 2 ^ Z.max (- e) 0)%Z). set (D := (den * 2 ^ Z.max e 0)%Z). assert (HD : (0 < D)%Z) by (unfold D; nia). assert (HN : (0 < N)%Z) by (unfold N; nia).
  assert (Hhi : (N < 2 ^ 53 * D)%Z).
  { apply not_true_iff_false in B2. apply Z.lt_nge. intros Hc. apply B2. apply (at_least_mono num den b (b + 1)) in B1 || idtac.
    apply (at_least_mono num den (b + 1) (Z.max e 0 + 53 - Z.max (- e) 0)); [done|done|lia|]. apply at_least_iff; [lia|lia|].
    rewrite Z.pow_add_r by lia. fold N. unfold D in Hc. nia. }
  assert (Hlo : (e = -1074 ∨ 2 ^ 52 * D ≤ N)%Z).
  { destruct (decide (e = -1074)%Z); [by left|right]. assert (Eb : b = (Z.max e 0 + 52 - Z.max (- e) 0)%Z) by lia. rewrite Eb in B1.
    apply at_least_iff in B1; [|lia|lia]. rewrite Z.pow_add_r in B1 by lia. fold N in B1. unfold D. nia. }
  assert (Hke : (N ≤ 2 ^ (k - e) * D)%Z).
  { unfold N, D. pose proof (pow_cross 2 (k - e + Z.max e 0) (Z.max (- e) 0) k ltac:(lia) ltac:(lia) ltac:(lia) ltac:(lia)) as Hx.
    rewrite Z.pow_add_r, (Z.max_l k), (Z.max_r (- k)) in Hx by lia. change (2 ^ 0)%Z with 1%Z in Hx. nia. }
  pose proof (nearest_bounds N D 0 (2 ^ 53) HD ltac:(lia) ltac:(lia)) as H53.
  pose proof (nearest_bounds N D 0 (2 ^ (k - e)) HD ltac:(lia) Hke) as Hm.
  assert (H52 : (e = -1074 ∨ 2 ^ 52 ≤ nearest N D)%Z).
  { destruct Hlo as [|Hlo]; [by left|right]. apply (nearest_bounds N D (2 ^ 52) (2 ^ 53) HD Hlo); lia. }
  assert (Hval : ∀ m, (m ≤ 2 ^ (k - e) → m * 2 ^ Z.max e 0 ≤ 2 ^ k * 2 ^ Z.max (- e) 0)%Z).
  { intros m Hmm. replace (2 ^ k * 2 ^ Z.max (- e) 0)%Z with (2 ^ (k - e) * 2 ^ Z.max e 0)%Z by (rewrite <- !Z.pow_add_r by lia; f_equal; lia). nia. }
  unfold pack. set (m := nearest N D) in *. destruct (Z.eqb_spec m (2 ^ prec)) as [Em|Em].
  - change (2 ^ (prec - 1))%Z with 4503599627370496%Z. change (emax - prec)%Z with 971%Z.
    assert (Hke' : (e + 53 ≤ k)%Z).
    { rewrite Em in Hm. change (2 ^ prec)%Z with (2 ^ 53)%Z in Hm. assert (53 ≤ k - e)%Z; [|lia]. apply (Z.pow_le_mono_r_iff 2); lia. }
    rewrite (proj2 (Z.ltb_ge 971 (e + 1))) by lia. split; [apply bounded_intro; [lia|done|by left]|].
    replace (2 ^ k * 2 ^ Z.max (- (e + 1)) 0)%Z with (2 ^ (k - (e + 1)) * 2 ^ Z.max (e + 1) 0)%Z by (rewrite <- !Z.pow_add_r by lia; f_equal; lia).
    apply Z.mul_le_mono_nonneg_r; [apply Z.pow_nonneg; lia|]. change 4503599627370496%Z with (2 ^ 52)%Z. apply Z.pow_le_mono_r; lia.
  - change (emax - prec)%Z with 971%Z. change (2 ^ prec)%Z with (2 ^ 53)%Z in Em. destruct m as [|p|p] eqn:Ep; [by split|..]; [|lia].
    rewrite (proj2 (Z.ltb_ge 971 e)) by lia. split; [|apply Hval; lia]. apply bounded_intro; [lia|lia|destruct H52; [by right|left; lia]].
Qed.

Lemma float64_within n k : (0 ≤ k ≤ 1000)%Z → (Z.abs n ≤ 2 ^ k)%Z → within k (float64 n).
Proof. intros Hk Hn. destruct n as [|p|p]; [by split|..]; apply round_ratio_within; lia. Qed.


Lemma fmul_within j k x y : (0 ≤ j)%Z → (0 ≤ k)%Z → (j + k ≤ 1000)%Z → within j x → within k y → within (j + k) (fmul x y).
Proof.
  intros Hj Hk Hjk [Hfx Hx] [Hfy Hy]. destruct x as [sx|sx| |sx mx ex], y as [sy|sy| |sy my ey]; try done.
  cbn [fmul]. pose proof (pow_pos 2 ex ltac:(lia)). pose proof (pow_pos 2 (- ex) ltac:(lia)). pose proof (pow_pos 2 ey ltac:(lia)). pose proof (pow_pos 2 (- ey) ltac:(lia)).
  pose proof (pow_pos 2 (ex + ey) ltac:(lia)). pose proof (pow_pos 2 (- (ex + ey)) ltac:(lia)).
  apply round_ratio_within; [nia|lia|lia|]. rewrite Z.pow_add_r by lia.
  assert (Hx' : (2 ^ Z.max (ex + ey) 0 * (2 ^ Z.max (- ex) 0 * 2 ^ Z.max (- ey) 0) = 2 ^ Z.max (- (ex + ey)) 0 * (2 ^ Z.max ex 0 * 2 ^ Z.max ey 0))%Z).
  { rewrite <- !Z.pow_add_r by lia. f_equal. lia. }
  set (a := (2 ^ Z.max ex 0)%Z) in *. set (a' := (2 ^ Z.max (- ex) 0)%Z) in *. set (b := (2 ^ Z.max ey 0)%Z) in *. set (b' := (2 ^ Z.max (- ey) 0)%Z) in *.
  set (c := (2 ^ Z.max (ex + ey) 0)%Z) in *. set (c' := (2 ^ Z.max (- (ex + ey)) 0)%Z) in *. set (J := (2 ^ j)%Z) in *. set (Q := (2 ^ k)%Z) in *.
  set (p := Z.pos mx) in *. set (q := Z.pos my) in *. assert (0 < p)%Z by done. assert (0 < q)%Z by done. clearbody a a' b b' c c' J Q p q.
  assert (p * a * (q * b) ≤ J * a' * (Q * b'))%Z.
  { apply Z.mul_le_mono_nonneg; [nia|exact Hx|nia|exact Hy]. }
  apply (Z.mul_le_mono_pos_r _ _ (a * b)); [by apply Z.mul_pos_pos|].
  replace (J * Q * c' * (a * b))%Z with (c * (J * a' * (Q * b')))%Z; [|transitivity (J * Q * (c * (a' * b')))%Z; [ring|rewrite Hx'; ring]].
  replace (p * q * c * (a * b))%Z with (c * (p * a * (q * b)))%Z by ring. apply Z.mul_le_mono_nonneg_l; [lia|done].
Qed.

(** An integer that is positive is a float of at least one, and dividing by it makes nothing larger. *)
Definition at_least_one (f : spec_float) : Prop :=
  match f with S754_finite false m e => 2 ^ Z.max (- e) 0 ≤ Z.pos m * 2 ^ Z.max e 0 | _ => False end%Z.

Lemma float64_at_least_one n : (1 ≤ n ≤ 2 ^ 63)%Z → at_least_one (float64 n).
Proof.
  intros Hn. pose proof (float64_within n 63 ltac:(lia) ltac:(lia)) as [Hf _].
  assert (En : float64 n = round_ratio false n 1) by (destruct n; [lia|done|lia]). rewrite En in *.
  destruct (binade_spec n 1 ltac:(lia) ltac:(lia)) as [_ B]. set (b := binade n 1) in *.
  assert (Hb : (0 ≤ b)%Z).
  { destruct (decide (0 ≤ b)%Z) as [|Hb]; [done|]. exfalso. apply not_true_iff_false in B. apply B. apply (at_least_mono n 1 _ (0 - 0)); [lia|lia|lia|].
    apply at_least_iff; lia. }
  set (e := Z.max (b - 52) (-1074)) in *. rewrite (round_ratio_at false n 1 e _ eq_refl eq_refl) in *.
  pose proof (pow_pos 2 e ltac:(lia)) as Hpe. pose proof (pow_pos 2 (- e) ltac:(lia)) as Hqe.
  set (N := (n * 2 ^ Z.max (- e) 0)%Z) in *. set (D := (1 * 2 ^ Z.max e 0)%Z) in *.
  assert (Hlo : (2 ^ Z.max (- e) 0 ≤ nearest N D * 2 ^ Z.max e 0)%Z).
  { destruct (Z.le_gt_cases e 0).
    - assert (ED : D = 1%Z) by (unfold D; by rewrite (Z.max_r e) by lia). rewrite (Z.max_r e) by lia.
      pose proof (nearest_bounds N D (2 ^ Z.max (- e) 0) N ltac:(lia) ltac:(unfold N; nia) ltac:(lia)). change (2 ^ 0)%Z with 1%Z. lia.
    - rewrite (Z.max_r (- e)) by lia. change (2 ^ 0)%Z with 1%Z.
      assert (1 ≤ nearest N D)%Z; [|nia]. destruct (Z.le_gt_cases 1 (nearest N D)); [done|]. exfalso.
      unfold pack in Hf. assert (Hz : nearest N D = 0%Z).
      { pose proof (nearest_bounds N D 0 N ltac:(unfold D; lia) ltac:(unfold N; nia) ltac:(unfold N, D; nia)). lia. }
      assert (D ≤ N)%Z.
      { unfold N, D. rewrite (Z.max_r (- e)), (Z.max_l e) by lia. change (2 ^ 0)%Z with 1%Z. destruct (binade_spec n 1 ltac:(lia) ltac:(lia)) as [B1 _].
        fold b in B1. apply (at_least_mono n 1 (e - 0)) in B1; [|lia|lia|lia]. apply at_least_iff in B1; [|lia|lia]. change (2 ^ 0)%Z with 1%Z in B1. lia. }
      pose proof (nearest_bounds N D 1 N ltac:(unfold D; lia) ltac:(lia) ltac:(unfold N, D; nia)). lia. }
  unfold pack in *. set (m := nearest N D) in *. destruct (Z.eqb_spec m (2 ^ prec)) as [Em|Em].
  - change (2 ^ (prec - 1))%Z with 4503599627370496%Z in *. destruct (_ <? e + 1)%Z; [done|]. cbn [at_least_one]. rewrite Em in Hlo.
    change (2 ^ prec)%Z with 9007199254740992%Z in Hlo. destruct (Z.le_gt_cases 0 e).
    + rewrite (Z.max_r (- (e + 1))) by lia. pose proof (pow_pos 2 (e + 1) ltac:(lia)). change (2 ^ 0)%Z with 1%Z. lia.
    + rewrite (Z.max_l (- e)), (Z.max_r e) in Hlo by lia. rewrite (Z.max_l (- (e + 1))), (Z.max_r (e + 1)) by lia.
      replace (- e)%Z with (Z.succ (- (e + 1))) in Hlo by lia. rewrite Z.pow_succ_r in Hlo by lia. change (2 ^ 0)%Z with 1%Z in *. lia.
  - destruct m as [|p|p]; [lia|destruct (_ <? e)%Z; [done|exact Hlo]|lia].
Qed.

Lemma fdiv_within k x y : (0 ≤ k ≤ 1000)%Z → within k x → at_least_one y → float_finite y = true → within k (fdiv x y).
Proof.
  intros Hk [Hfx Hx] Hy Hfy. destruct y as [| | |[] my ey]; try done. destruct x as [sx|sx| |sx mx ex]; try done. cbn [at_least_one fdiv] in *.
  pose proof (pow_pos 2 ex ltac:(lia)). pose proof (pow_pos 2 (- ex) ltac:(lia)). pose proof (pow_pos 2 ey ltac:(lia)). pose proof (pow_pos 2 (- ey) ltac:(lia)).
  pose proof (pow_pos 2 (ex - ey) ltac:(lia)). pose proof (pow_pos 2 (ey - ex) ltac:(lia)).
  apply round_ratio_within; [nia|nia|lia|].
  assert (Hc : (2 ^ Z.max (ex - ey) 0 * (2 ^ Z.max (- ex) 0 * 2 ^ Z.max ey 0) = 2 ^ Z.max (ey - ex) 0 * (2 ^ Z.max ex 0 * 2 ^ Z.max (- ey) 0))%Z).
  { rewrite <- !Z.pow_add_r by lia. f_equal. lia. }
  set (a := (2 ^ Z.max ex 0)%Z) in *. set (a' := (2 ^ Z.max (- ex) 0)%Z) in *. set (b := (2 ^ Z.max ey 0)%Z) in *. set (b' := (2 ^ Z.max (- ey) 0)%Z) in *.
  set (c := (2 ^ Z.max (ex - ey) 0)%Z) in *. set (c' := (2 ^ Z.max (ey - ex) 0)%Z) in *. set (Q := (2 ^ k)%Z) in *.
  set (p := Z.pos mx) in *. set (q := Z.pos my) in *. assert (0 < p)%Z by done. assert (0 < q)%Z by done. clearbody a a' b b' c c' Q p q.
  apply (Z.mul_le_mono_pos_r _ _ (a' * b)); [by apply Z.mul_pos_pos|].
  replace (p * c * (a' * b))%Z with (p * a * (c' * b'))%Z; [|transitivity (p * (c * (a' * b)))%Z; [rewrite Hc; ring|ring]].
  replace (Q * (q * c') * (a' * b))%Z with (Q * a' * (c' * (q * b)))%Z by ring.
  apply Z.mul_le_mono_nonneg; [nia|exact Hx|nia|]. apply Z.mul_le_mono_nonneg_l; lia.
Qed.
