(* ===== verification/JsonTypes.v ===== *)
(** * encoding/json: Go values of the types the program declares

    A Go type is a value of [gotype], a struct's with the names and options of its field tags, and
    [decode] and [encode] are the walks [encoding/json] does over them: how a member finds its field,
    what a null or a value of another kind does to it, what is left of the value decoded before it.
    [json_Marshal], [json_Unmarshal] and [Decoder_Decode] are the package's functions on texts and
    readers; JsonTypesSpec.v shows that what they write is read back. *)

From S2P Require Import Prelude GoStrings Base64 GoFloat Json JsonText JsonTextSpec.
From Stdlib Require Import Ascii SpecFloat.

(** ** Types and values *)

(** [TInt signed bits]; [TRaw] is [json.RawMessage], [TMap] is [map[string]string]. *)
Inductive gotype :=
  | TString
  | TBool
  | TInt (signed : bool) (bits : Z)
  | TFloat
  | TRaw
  | TPtr (t : gotype)
  | TSlice (t : gotype)
  | TMap
  | TStruct (fields : list (string * bool * gotype)).    (* name, omitempty, type *)

(** A slice has its elements, and those its array still holds after them; nil is [None]. *)
Inductive goval :=
  | GString (s : string)
  | GBool (b : bool)
  | GInt (n : Z)
  | GFloat (f : spec_float)
  | GRaw (o : option (list ascii))
  | GPtr (o : option goval)
  | GSlice (o : option (list goval * list goval))
  | GMap (o : option (gmap string string))
  | GStruct (l : list goval).

Definition is_uint8 (t : gotype) : bool :=
  match t with TInt false bits => (bits =? 8)%Z | _ => false end.

(** The zero value. *)
Fixpoint zero_value (t : gotype) : goval :=
  match t with
  | TString => GString EmptyString
  | TBool => GBool false
  | TInt _ _ => GInt 0
  | TFloat => GFloat (S754_zero false)
  | TRaw => GRaw None
  | TPtr _ => GPtr None
  | TSlice _ => GSlice None
  | TMap => GMap None
  | TStruct fs => GStruct ((λ f, zero_value f.2) <$> fs)
  end.

(** ** Fields *)

(** [foldName], on code points: upper case for ASCII, and the two letters outside ASCII that fold into it. *)
Definition fold_code (r : Z) : Z :=
  (if (0x61 <=? r) && (r <=? 0x7A) then r - 32 else if r =? 0x17F then 0x53 else if r =? 0x212A then 0x4B else r)%Z.
Definition fold_name (l : list ascii) : list Z := (λ r, fold_code (rcode r)) <$> runes l.

Definition pick_field (fs : list (string * bool * gotype)) (P : string → Prop) `{∀ n, Decision (P n)} : option (nat * gotype) :=
  (λ p : nat * (string * bool * gotype), (p.1, p.2.2)) <$> list_find (λ f, P f.1.1) fs.

(** The field of a member: by its exact name, or else the first by its folded name. *)
Definition find_field (fs : list (string * bool * gotype)) (k : list ascii) : option (nat * gotype) :=
  match pick_field fs (λ n, chars n = k) with
  | Some p => Some p
  | None => pick_field fs (λ n, fold_name (chars n) = fold_name k)
  end.

(** ** Decoding *)

(** [UnmarshalTypeError] and [base64.CorruptInputError]. *)
Inductive fault := FType | FBase64.

#[export] Instance fault_eq_dec : EqDecision fault.
Proof. solve_decision. Defined.

(** [saveError]: the first fault is kept, and decoding goes on. *)
Definition save (f f' : option fault) : option fault := match f with Some _ => f | None => f' end.

(** Whether the type holds the integer. *)
Definition int_fits (signed : bool) (bits n : Z) : bool :=
  (if signed then (- 2 ^ (bits - 1) <=? n) && (n <? 2 ^ (bits - 1)) else (0 <=? n) && (n <? 2 ^ bits))%Z.

(** [strconv.ParseInt] or [ParseUint] in base 10, and the field's size. *)
Definition parse_int (signed : bool) (bits : Z) (lit : list ascii) : option Z :=
  let (neg, ds) := match lit with "-"%char :: t => (true, t) | l => (false, l) end in
  match parse_uint ds 0 with
  | inl n => let n := if neg then (- n)%Z else n in
             if (signed || negb neg) && int_fits signed bits n then Some n else None
  | inr _ => None
  end.

(** A value at once decoded or a fault. *)
Definition set_or (o : option goval) (f : fault) (old : goval) : goval * option fault :=
  match o with Some x => (x, None) | None => (old, Some f) end.

(** A literal null leaves a scalar as it was. *)
Definition scalar (v : jval) (old : goval) (o : option goval) : goval * option fault :=
  match v with VNull => (old, None) | _ => set_or o FType old end.

(** [decode v raw t old]: the value [v], spelled [raw], into a variable of type [t] that holds [old]. *)
Fixpoint decode (v : jval) (raw : list ascii) {struct v} : gotype → goval → goval * option fault :=
  fix into (t : gotype) (old : goval) {struct t} : goval * option fault :=
    match t with
    | TRaw => (GRaw (Some raw), None)
    | TPtr t' =>
        match v with
        | VNull => (GPtr None, None)
        | _ => let (x, f) := into t' (match old with GPtr (Some x) => x | _ => zero_value t' end) in (GPtr (Some x), f)
        end
    | TString => scalar v old (match v with VStr s => Some (GString (str s)) | _ => None end)
    | TBool => scalar v old (match v with VBool b => Some (GBool b) | _ => None end)
    | TInt signed bits => scalar v old (match v with VNum lit => GInt <$> parse_int signed bits lit | _ => None end)
    | TFloat => scalar v old (match v with VNum lit => GFloat <$> ParseFloat lit | _ => None end)
    | TSlice t' =>
        match v with
        | VNull => (GSlice None, None)
        | VStr s =>
            if is_uint8 t'
            then set_or ((λ bs, GSlice (Some ((λ c, GInt (byte c)) <$> bs, []))) <$> b64_decode s) FBase64 old
            else (old, Some FType)
        | VArr [] => (GSlice (Some ([], [])), None)
        | VArr l =>
            let fix elements (l : list (list ascii * jval)) (array : list goval) : list goval * option fault :=
              match l with
              | [] => ([], None)
              | (raw, v) :: l =>
                  let (x, f) := decode v raw t' (default (zero_value t') (head array)) in
                  let (xs, f') := elements l (tail array) in (x :: xs, save f f')
              end in
            let array := match old with GSlice (Some (xs, more)) => xs ++ more | _ => [] end in
            let (xs, f) := elements l array in (GSlice (Some (xs, drop (length l) array)), f)
        | _ => (old, Some FType)
        end
    | TMap =>
        match v with
        | VNull => (GMap None, None)
        | VObj ms =>
            let fix members (ms : list (list ascii * (list ascii * jval))) (m : gmap string string) (f : option fault) :=
              match ms with
              | [] => (GMap (Some m), f)
              | (k, (_, v)) :: ms =>
                  match v with
                  | VStr s => members ms (<[str k := str s]> m) f
                  | VNull => members ms (<[str k := EmptyString]> m) f
                  | _ => members ms (<[str k := EmptyString]> m) (save f (Some FType))
                  end
              end in
            members ms (match old with GMap (Some m) => m | _ => ∅ end) None
        | _ => (old, Some FType)
        end
    | TStruct fs =>
        match v with
        | VNull => (old, None)
        | VObj ms =>
            let fix members (ms : list (list ascii * (list ascii * jval))) (xs : list goval) (f : option fault) :=
              match ms with
              | [] => (GStruct xs, f)
              | (k, (raw, v)) :: ms =>
                  match find_field fs k with
                  | Some (i, t') =>
                      let (x, f') := decode v raw t' (default (zero_value t') (xs !! i)) in members ms (<[i := x]> xs) (save f f')
                  | None => members ms xs f
                  end
              end in
            members ms (match old with GStruct xs => xs | _ => [] end) None
        | _ => (old, Some FType)
        end
    end.

(** ** Encoding *)

(** [isEmptyValue]. *)
Definition is_empty (x : goval) : bool :=
  match x with
  | GString s => bool_decide (s = EmptyString)
  | GBool b => negb b
  | GInt n => (n =? 0)%Z
  | GFloat (S754_zero s) => negb s
  | GPtr None | GSlice None | GSlice (Some ([], _)) | GMap None => true
  | GMap (Some m) => bool_decide (m = ∅)
  | _ => false
  end.

(** [base64] of a []byte. *)
Definition go_bytes (xs : list goval) : list ascii := (λ x, match x with GInt n => of_byte n | _ => "000"%char end) <$> xs.

(** [None] for a float JSON has no number for, and for what the program does not encode. *)
Fixpoint encode (t : gotype) (x : goval) {struct t} : option json :=
  match t, x with
  | TString, GString s => Some (JStr s)
  | TBool, GBool b => Some (JBool b)
  | TInt _ _, GInt n => Some (JInt n)
  | TFloat, GFloat f => (λ lit, JNum (str lit)) <$> float_text f
  | TPtr _, GPtr None => Some JNull
  | TPtr t, GPtr (Some x) => encode t x
  | TSlice _, GSlice None => Some JNull
  | TSlice t, GSlice (Some (xs, _)) =>
      if is_uint8 t then Some (JStr (str (b64 (go_bytes xs)))) else JArr <$> mapM (encode t) xs
  | TMap, GMap None => Some JNull
  | TMap, GMap (Some m) => Some (JObj ((λ kv, (kv.1, JStr kv.2)) <$> sort_by fst (map_to_list m)))
  | TStruct fs, GStruct xs =>
      let fix members (fs : list (string * bool * gotype)) (xs : list goval) : option (list (string * json)) :=
        match fs, xs with
        | (name, omitempty, t) :: fs, x :: xs =>
            if omitempty && is_empty x then members fs xs
            else match encode t x, members fs xs with
                 | Some j, Some l => Some ((name, j) :: l)
                 | _, _ => None
                 end
        | [], [] => Some []
        | _, _ => None
        end in
      JObj <$> members fs xs
  | _, _ => None
  end.

(** ** Texts *)

(** [json.Marshal], without the error: [None]. *)
Definition json_Marshal (t : gotype) (x : goval) : option string := json_text <$> encode t x.

(** [json.Unmarshal] of a whole text into the zero value of a type: syntax is checked first. *)
Inductive unmarshal_error := EEnd | ESyntax | EFault (f : fault).

Definition typed (t : gotype) (raw : list ascii) (v : jval) : result unmarshal_error goval :=
  match decode v raw t (zero_value t) with
  | (x, None) => Ok x
  | (_, Some f) => Err (EFault f)
  end.

Definition json_Unmarshal (t : gotype) (text : string) : result unmarshal_error goval :=
  match scan (chars text) with
  | SMore => Err EEnd
  | SBad => Err ESyntax
  | SDone (raw, v) rest => match skip_space rest with [] => typed t raw v | _ => Err ESyntax end
  end.

(** ** [Decoder.Decode] *)

(** Why a value could not be read: the reader failed, the text ended before the value began, or before it was over,
    it is no JSON, or the value does not fit the type. *)
Inductive json_error (R : Type) := JRead (e : R) | JEOF | JUnexpectedEOF | JSyntax | JFault (f : fault).
Arguments JRead {R} _.
Arguments JEOF {R}.
Arguments JUnexpectedEOF {R}.
Arguments JSyntax {R}.
Arguments JFault {R} _.

(** The first value of a reader that gives the bytes [data] and then [ending], a failure other than [io.EOF]. *)
Definition Decoder_Decode {R} (t : gotype) (data : list ascii) (ending : option R) : result (json_error R) goval :=
  match scan data, ending with
  | SBad, _ => Err JSyntax
  | SMore, Some e => Err (JRead e)
  | SMore, None => Err (match skip_space data with [] => JEOF | _ => JUnexpectedEOF end)
  | SDone (raw, v) rest, _ =>
      match ending, rest, needs_next v with
      | Some e, [], true => Err (JRead e)
      | _, _, _ => match decode v raw t (zero_value t) with (x, None) => Ok x | (_, Some f) => Err (JFault f) end
      end
  end.

(** The bytes hold no whole value yet, nor show that there is none. *)
Definition unfinished (data : list ascii) : bool :=
  match scan data with
  | SMore => true
  | SDone (_, v) [] => needs_next v
  | _ => false
  end.

(** ** Records as Go values *)

Definition go_opt (o : option Z) : goval := GPtr (GInt <$> o).
(** A list of which the program has a nil slice when it is empty, and one it has made. *)
Definition go_slice {A} (f : A → goval) (l : list A) : goval := GSlice (Some (f <$> l, [])).
Definition go_nil_slice {A} (f : A → goval) (l : list A) : goval :=
  match l with [] => GSlice None | _ => go_slice f l end.

Definition field (i : nat) (x : goval) : goval :=
  match x with GStruct xs => default (GPtr None) (xs !! i) | _ => GPtr None end.
Definition as_string (x : goval) : string := match x with GString s => s | _ => EmptyString end.
Definition as_bool (x : goval) : bool := match x with GBool b => b | _ => false end.
Definition as_int (x : goval) : Z := match x with GInt n => n | _ => 0%Z end.
Definition as_float (x : goval) : spec_float := match x with GFloat f => f | _ => S754_zero false end.
Definition as_opt {A} (f : goval → A) (x : goval) : option A := match x with GPtr o => f <$> o | _ => None end.
Definition as_list {A} (f : goval → A) (x : goval) : list A :=
  match x with GSlice (Some (xs, _)) => f <$> xs | _ => [] end.
Definition as_bytes (x : goval) : string :=
  match x with GSlice (Some (xs, _)) => str (go_bytes xs) | _ => EmptyString end.
Definition as_map (x : goval) : gmap string string := match x with GMap (Some m) => m | _ => ∅ end.
