(* ===== verification/JsonTypesSpec.v ===== *)
(** * What is written of a Go value is read back

    [round_all]: a value of a declared type, written and read into the zero value of that type, is
    the value again, normalized ([norm]): invalid bytes of strings are U+FFFD, and an empty field that
    was left out is zero. *)

From S2P Require Import Prelude GoStrings Base64 GoFloat Json JsonText JsonTextSpec GoFloatSpec JsonTypes.
From Stdlib Require Import Ascii SpecFloat.

(** ** The loops of [decode] and [encode], by name *)

Definition decode_elements (t : gotype) : list (list ascii * jval) → list goval → list goval * option fault :=
  fix elements l array :=
  match l with
  | [] => ([], None)
  | (raw, v) :: l =>
      let (x, f) := decode v raw t (default (zero_value t) (head array)) in
      let (xs, f') := elements l (tail array) in (x :: xs, save f f')
  end.

Lemma decode_slice e l raw t old :
  decode (VArr (e :: l)) raw (TSlice t) old =
  let array := match old with GSlice (Some (xs, more)) => xs ++ more | _ => [] end in
  let (xs, f) := decode_elements t (e :: l) array in (GSlice (Some (xs, drop (length (e :: l)) array)), f).
Proof. reflexivity. Qed.

Definition decode_members (fs : list (string * bool * gotype)) :
    list (list ascii * (list ascii * jval)) → list goval → option fault → goval * option fault :=
  fix members ms xs f :=
  match ms with
  | [] => (GStruct xs, f)
  | (k, (raw, v)) :: ms =>
      match find_field fs k with
      | Some (i, t) =>
          let (x, f') := decode v raw t (default (zero_value t) (xs !! i)) in members ms (<[i := x]> xs) (save f f')
      | None => members ms xs f
      end
  end.

Lemma decode_struct ms raw fs old :
  decode (VObj ms) raw (TStruct fs) old = decode_members fs ms (match old with GStruct xs => xs | _ => [] end) None.
Proof. reflexivity. Qed.

Lemma decode_ptr v raw t old :
  v ≠ VNull →
  decode v raw (TPtr t) old =
  let (x, f) := decode v raw t (match old with GPtr (Some x) => x | _ => zero_value t end) in (GPtr (Some x), f).
Proof. by destruct v. Qed.

Fixpoint decode_entries (ms : list (list ascii * (list ascii * jval))) (m : gmap string string) (f : option fault) :
    goval * option fault :=
  match ms with
  | [] => (GMap (Some m), f)
  | (k, (_, v)) :: ms =>
      match v with
      | VStr s => decode_entries ms (<[str k := str s]> m) f
      | VNull => decode_entries ms (<[str k := EmptyString]> m) f
      | _ => decode_entries ms (<[str k := EmptyString]> m) (save f (Some FType))
      end
  end.

Lemma decode_map ms raw old :
  decode (VObj ms) raw TMap old = decode_entries ms (match old with GMap (Some m) => m | _ => ∅ end) None.
Proof. reflexivity. Qed.

Fixpoint encode_members (fs : list (string * bool * gotype)) (xs : list goval) : option (list (string * json)) :=
  match fs, xs with
  | (name, omitempty, t) :: fs, x :: xs =>
      if omitempty && is_empty x then encode_members fs xs
      else match encode t x, encode_members fs xs with
           | Some j, Some l => Some ((name, j) :: l)
           | _, _ => None
           end
  | [], [] => Some []
  | _, _ => None
  end.

Lemma encode_struct fs xs : encode (TStruct fs) (GStruct xs) = JObj <$> encode_members fs xs.
Proof. reflexivity. Qed.

Section gotype_ind.
Variable P : gotype → Prop.
Hypothesis (Hs : P TString) (Hb : P TBool) (Hi : ∀ s b, P (TInt s b)) (Hf : P TFloat) (Hr : P TRaw)
  (Hp : ∀ t, P t → P (TPtr t)) (Hl : ∀ t, P t → P (TSlice t)) (Hm : P TMap)
  (Ht : ∀ fs, Forall (λ f, P f.2) fs → P (TStruct fs)).

(** Induction through the list of fields. *)
Fixpoint gotype_nested_ind (t : gotype) : P t :=
  match t with
  | TString => Hs
  | TBool => Hb
  | TInt s b => Hi s b
  | TFloat => Hf
  | TRaw => Hr
  | TPtr t => Hp t (gotype_nested_ind t)
  | TSlice t => Hl t (gotype_nested_ind t)
  | TMap => Hm
  | TStruct fs =>
      Ht fs ((fix fields (fs : list (string * bool * gotype)) : Forall (λ f, P f.2) fs :=
                match fs with
                | [] => List.Forall_nil _
                | f :: fs => List.Forall_cons _ _ _ (gotype_nested_ind f.2) (fields fs)
                end) fs)
  end.
End gotype_ind.

(** ** Values of a type, and what is kept of them *)

(** Types no value of which is written null. *)
Definition never_null (t : gotype) : bool :=
  match t with TPtr _ | TSlice _ | TMap | TRaw => false | _ => true end.

(** Field names that are told apart even when folded. *)
Definition good_names (fs : list (string * bool * gotype)) : bool :=
  bool_decide (NoDup ((λ f, fold_name (chars f.1.1)) <$> fs)) && forallb (λ f, valid_utf8 f.1.1) fs.

Fixpoint go_ok (t : gotype) (x : goval) {struct t} : Prop :=
  match t, x with
  | TString, GString _ | TBool, GBool _ | TMap, GMap _ => True
  | TInt signed bits, GInt n => (bits ≤ 64)%Z ∧ int_fits signed bits n = true
  | TFloat, GFloat f => float_finite f = true
  | TPtr _, GPtr None => True
  | TPtr t, GPtr (Some x) => never_null t = true ∧ go_ok t x
  | TSlice _, GSlice None => True
  | TSlice t, GSlice (Some (xs, _)) => foldr (λ x P, go_ok t x ∧ P) True xs
  | TStruct fs, GStruct xs =>
      good_names fs = true ∧
      (fix fields (fs : list (string * bool * gotype)) (xs : list goval) : Prop :=
         match fs, xs with
         | f :: fs, x :: xs => go_ok f.2 x ∧ fields fs xs
         | [], [] => True
         | _, _ => False
         end) fs xs
  | _, _ => False
  end.

Fixpoint norm (t : gotype) (x : goval) {struct t} : goval :=
  match t, x with
  | TString, GString s => GString (sanitize s)
  | TPtr t, GPtr (Some x) => GPtr (Some (norm t x))
  | TSlice t, GSlice (Some (xs, _)) => GSlice (Some (if is_uint8 t then xs else norm t <$> xs, []))
  | TMap, GMap (Some m) =>
      GMap (Some (foldl (λ m kv, <[sanitize kv.1 := sanitize kv.2]> m) ∅ (sort_by fst (map_to_list m))))
  | TStruct fs, GStruct xs =>
      GStruct ((fix fields (fs : list (string * bool * gotype)) (xs : list goval) : list goval :=
                  match fs, xs with
                  | (_, omitempty, t) :: fs, x :: xs =>
                      (if omitempty && is_empty x then zero_value t else norm t x) :: fields fs xs
                  | _, _ => []
                  end) fs xs)
  | _, _ => x
  end.

Fixpoint norm_members (fs : list (string * bool * gotype)) (xs : list goval) : list goval :=
  match fs, xs with
  | (_, omitempty, t) :: fs, x :: xs => (if omitempty && is_empty x then zero_value t else norm t x) :: norm_members fs xs
  | _, _ => []
  end.

(** Arrays and objects open at once in a value of the type. *)
Fixpoint depth (t : gotype) : nat :=
  match t with
  | TPtr t => depth t
  | TSlice t => S (depth t)
  | TMap => 1
  | TStruct fs => S (foldr (λ f n, Nat.max (depth f.2) n) 0%nat fs)
  | _ => 0
  end.

(** ** Lemmas of the round trip *)

Lemma parse_int_Itoa signed bits n : (bits ≤ 64)%Z → int_fits signed bits n = true → parse_int signed bits (chars (Itoa n)) = Some n.
Proof.
  intros Hb Hf. assert (Hr : (- 2 ^ 63 ≤ n ≤ max_uint)%Z ∧ (signed = false → 0 ≤ n)%Z).
  { unfold int_fits in Hf. change max_uint with (2 ^ 64 - 1)%Z.
    assert (Hp : (bits < 0 ∨ 0 ≤ bits)%Z) by lia.
    assert (2 ^ bits ≤ 2 ^ 64)%Z by (apply Z.pow_le_mono_r; lia).
    assert (2 ^ (bits - 1) ≤ 2 ^ 63)%Z by (apply Z.pow_le_mono_r; lia).
    change (2 ^ 64)%Z with 18446744073709551616%Z in *. change (2 ^ 63)%Z with 9223372036854775808%Z in *.
    destruct signed; bool_to_prop; split; try lia; done. }
  destruct Hr as [Hr Hu]. unfold parse_int, Itoa. rewrite chars_str. destruct (Z.ltb_spec n 0) as [Hn|Hn].
  - change (ascii_of_nat 45) with "-"%char. cbv iota beta.
    rewrite parse_uint_utoa by (change max_uint with (2 ^ 64 - 1)%Z; change (2 ^ 64)%Z with 18446744073709551616%Z;
      change (2 ^ 63)%Z with 9223372036854775808%Z in *; lia).
    cbv zeta. rewrite Z.opp_involutive, Hf. destruct signed; [done|specialize (Hu eq_refl); lia].
  - destruct (utoa_digits n Hn) as [Hd Hne]. pose proof (parse_uint_utoa n ltac:(lia)) as Hp.
    destruct (utoa n) as [|c t]; [done|]. apply Forall_cons in Hd as [Hd _].
    assert (Hc : byte c ≠ 45%Z) by lia. clear Hd.
    destruct c as [[] [] [] [] [] [] [] []]; try (exfalso; by apply Hc); cbv iota beta; rewrite Hp; by rewrite Hf, orb_true_r.
Qed.

Lemma json_ok_mono d d' j : json_ok d j → (d ≤ d')%nat → json_ok d' j.
Proof.
  revert d d'. induction j as [|s|n|lit|b|l IH|l IH] using json_nested_ind; intros d d'; try done.
  - destruct d as [|d]; [done|]. destruct d' as [|d']; [lia|]. cbn [json_ok]. intros Hl Hd.
    induction IH as [|j l Hj _ IHl]; [done|]. destruct Hl as [H1 H2]. split; [apply (Hj d); [done|lia]|by apply IHl].
  - destruct d as [|d]; [done|]. destruct d' as [|d']; [lia|]. cbn [json_ok]. intros Hl Hd.
    induction IH as [|j l Hj _ IHl]; [done|]. destruct Hl as [H1 H2]. split; [apply (Hj d); [done|lia]|by apply IHl].
Qed.

(** Fields with distinct folded names are found by their names. *)
Lemma find_field_here pre name o t suf :
  good_names (pre ++ (name, o, t) :: suf) = true → find_field (pre ++ (name, o, t) :: suf) (chars name) = Some (length pre, t).
Proof.
  intros Hg. unfold good_names in Hg. apply andb_true_iff in Hg as [Hnd _]. apply bool_decide_eq_true in Hnd.
  unfold find_field, pick_field.
  assert (Hl : list_find (λ f : string * bool * gotype, chars f.1.1 = chars name) (pre ++ (name, o, t) :: suf) =
          Some (length pre, (name, o, t))); [|by rewrite Hl].
  apply list_find_Some. split_and!; [by apply list_lookup_middle|done|].
  intros i y Hi Hlt Hy. rewrite lookup_app_l in Hi by done.
  assert (E1 : ((λ f, fold_name (chars f.1.1)) <$> (pre ++ (name, o, t) :: suf)) !! i = Some (fold_name (chars name))).
  { rewrite list_lookup_fmap, lookup_app_l, Hi by done. cbn. by rewrite Hy. }
  assert (E2 : ((λ f, fold_name (chars f.1.1)) <$> (pre ++ (name, o, t) :: suf)) !! length pre = Some (fold_name (chars name))).
  { by rewrite list_lookup_fmap, list_lookup_middle. }
  pose proof (NoDup_lookup _ _ _ _ Hnd E1 E2). lia.
Qed.

Lemma good_names_valid fs f : good_names fs = true → f ∈ fs → sanitize f.1.1 = f.1.1.
Proof.
  unfold good_names. intros [_ Hv]%andb_true_iff Hf. rewrite forallb_forall in Hv. by apply sanitize_valid, Hv, list_elem_of_In.
Qed.

Definition member_tree (kv : string * json) : list ascii * (list ascii * jval) :=
  (chars (sanitize kv.1), (jtext kv.2, jtree kv.2)).

(** What the induction shows of one type. *)
Definition round (t : gotype) : Prop :=
  ∀ x j, go_ok t x → encode t x = Some j →
    decode (jtree j) (jtext j) t (zero_value t) = (norm t x, None) ∧ json_ok (depth t) j ∧ (never_null t = true → jtree j ≠ VNull).

Definition go_ok_members : list (string * bool * gotype) → list goval → Prop :=
  fix fields fs xs :=
    match fs, xs with
    | f :: fs, x :: xs => go_ok f.2 x ∧ fields fs xs
    | [], [] => True
    | _, _ => False
    end.

Lemma round_members pre fs xs l done_ :
  Forall (λ f, round f.2) fs → good_names (pre ++ fs) = true → go_ok_members fs xs → encode_members fs xs = Some l →
  length done_ = length pre →
  decode_members (pre ++ fs) (member_tree <$> l) (done_ ++ ((λ f, zero_value f.2) <$> fs)) None =
    (GStruct (done_ ++ norm_members fs xs), None) ∧
  foldr (λ kv P, json_ok (foldr (λ f n, Nat.max (depth f.2) n) 0%nat fs) kv.2 ∧ P) True l.
Proof.
  intros Hr. revert pre xs l done_. induction Hr as [|[[name o] t] fs Ht _ IH]; intros pre xs l done_ Hg Hok He Hlen.
  - destruct xs as [|x xs]; [|done]. injection He as <-. done.
  - destruct xs as [|x xs]; [done|]. destruct Hok as [Hx Hok]. cbn [snd] in Ht, Hx. cbn [encode_members] in He.
    rewrite fmap_cons. cbn [snd norm_members].
    assert (Hsplit : ∀ A (a b : list A) y, a ++ y :: b = (a ++ [y]) ++ b) by (intros; by rewrite <- app_assoc).
    assert (Hmono : ∀ m, foldr (λ kv P, json_ok (foldr (λ f n, Nat.max (depth f.2) n) 0%nat fs) kv.2 ∧ P) True m →
      foldr (λ kv P, json_ok (Nat.max (depth t) (foldr (λ f n, Nat.max (depth f.2) n) 0%nat fs)) (kv : string * json).2 ∧ P) True m).
    { induction m as [|kv m IHm]; [done|]. intros [H1 H2]. split; [eapply json_ok_mono; [exact H1|lia]|by apply IHm]. }
    rewrite (Hsplit _ pre) in Hg |- *.
    destruct (o && is_empty x).
    + rewrite (Hsplit _ done_), (Hsplit _ done_ (norm_members fs xs)).
      destruct (IH (pre ++ [(name, o, t)]) xs l (done_ ++ [zero_value t]) Hg Hok He) as [E1 E2].
      { rewrite !length_app. simpl. lia. }
      rewrite E1. split; [done|]. by apply Hmono.
    + destruct (encode t x) as [j|] eqn:Ej; [|done]. destruct (encode_members fs xs) as [l'|] eqn:El; [|done].
      injection He as <-. destruct (Ht x j Hx Ej) as (Hd & Hj & _). rewrite fmap_cons. unfold member_tree at 1. cbn [fst snd].
      assert (Hn : sanitize name = name) by (apply (good_names_valid _ (name, o, t) Hg); set_solver).
      cbn [decode_members]. rewrite Hn.
      rewrite <- (Hsplit _ pre fs (name, o, t)) in Hg |- *. rewrite (find_field_here _ _ _ _ _ Hg).
      rewrite <- Hlen, list_lookup_middle by done. cbn [from_option id]. rewrite Hd. cbn [save].
      replace (<[length done_:=norm t x]> (done_ ++ zero_value t :: ((λ f, zero_value f.2) <$> fs)))
        with (done_ ++ norm t x :: ((λ f, zero_value f.2) <$> fs)).
      2:{ replace (length done_) with (length done_ + 0)%nat at 1 by lia. by rewrite insert_app_r. }
      rewrite (Hsplit _ done_), (Hsplit _ done_ (norm_members fs xs)). rewrite (Hsplit _ pre) in Hg |- *.
      destruct (IH (pre ++ [(name, o, t)]) xs l' (done_ ++ [norm t x]) Hg Hok El) as [E1 E2].
      { rewrite !length_app. simpl. lia. }
      rewrite E1. split; [done|]. split; [eapply json_ok_mono; [exact Hj|cbn; lia]|by apply Hmono].
Qed.

Lemma Forall_foldr {A} (Q : A → Prop) l : Forall Q l → foldr (λ x P, Q x ∧ P) True l.
Proof. by induction 1. Qed.

Lemma round_elements t xs js :
  round t → foldr (λ x P, go_ok t x ∧ P) True xs → mapM (encode t) xs = Some js →
  decode_elements t ((λ j, (jtext j, jtree j)) <$> js) [] = (norm t <$> xs, None) ∧ Forall (json_ok (depth t)) js.
Proof.
  intros Ht Hok Hm. apply mapM_Some in Hm. revert Hok. induction Hm as [|x j xs js Hj _ IH]; [done|]. intros [Hx Hok].
  destruct (Ht x j Hx Hj) as (Hd & Hk & _). destruct (IH Hok) as [E1 E2]. split; [|by constructor].
  rewrite !fmap_cons. cbn [decode_elements head tail from_option id]. rewrite Hd. cbn in E1. by rewrite E1.
Qed.

Lemma round_entries (l : list (string * string)) m :
  decode_entries (member_tree <$> ((λ kv : string * string, (kv.1, JStr kv.2)) <$> l)) m None =
  (GMap (Some (foldl (λ m kv, <[sanitize kv.1 := sanitize kv.2]> m) m l)), None).
Proof.
  revert m. induction l as [|[k v] l IH]; intros m; [done|]. rewrite !fmap_cons. unfold member_tree at 1. cbn [fst snd jtree decode_entries foldl].
  by rewrite IH, !str_chars.
Qed.

Lemma valid_utf8_ascii l : Forall (λ c, (byte c < 0x80)%Z) l → valid_utf8 (str l) = true.
Proof.
  intros Hl. unfold valid_utf8. rewrite chars_str, runes_ascii by done. induction Hl as [|c l Hc _ IH]; [done|].
  rewrite fmap_cons. cbn [forallb]. rewrite IH, andb_true_r. unfold invalid, RuneError. cbn [rcode renc length].
  by rewrite (proj2 (Z.eqb_neq (byte c) 0xFFFD)) by lia.
Qed.

Lemma byte_of_byte n : (0 ≤ n < 256)%Z → byte (of_byte n) = n.
Proof. intros H. unfold byte, of_byte. rewrite N_ascii_embedding by lia. lia. Qed.

(** The bytes of a []byte, and back. *)
Lemma go_bytes_ints t xs :
  is_uint8 t = true → foldr (λ x P, go_ok t x ∧ P) True xs → (λ c, GInt (byte c)) <$> go_bytes xs = xs.
Proof.
  intros E8. destruct t as [| |[] b| | | | | |]; try done. apply Z.eqb_eq in E8. subst b.
  induction xs as [|x xs IH]; [done|]. intros [Hx Hxs]. unfold go_bytes. rewrite !fmap_cons. f_equal; [|by apply IH].
  destruct x; try done. destruct Hx as [_ Hf]. unfold int_fits in Hf. change (2 ^ 8)%Z with 256%Z in Hf. rewrite byte_of_byte by lia. done.
Qed.

(** Decoding what was encoded, for every type. *)
Lemma round_all t : round t.
Proof.
  induction t as [| |s b| | |t IH|t IH| |fs IH] using gotype_nested_ind; intros x j Hok He;
    destruct x as [z|z|n|f|o|o|o|o|xs]; try done; cbn [go_ok encode] in *.
  - injection He as <-. cbn [decode jtree scalar set_or norm]. by rewrite str_chars.
  - injection He as <-. done.
  - injection He as <-. destruct Hok as [Hb Hf]. cbn [decode jtree scalar norm]. by rewrite parse_int_Itoa.
  - destruct (float_text_reads f Hok) as (lit & El & Hl & Hp). rewrite El in He. injection He as <-.
    cbn [decode jtree scalar norm]. rewrite chars_str, Hp. split_and!; [done| |done]. cbn [json_ok]. by rewrite chars_str.
  - destruct o as [x|]; [|injection He as <-; done]. destruct Hok as [Hn Hok]. destruct (IH x j Hok He) as (Hd & Hj & Hv).
    split_and!; [|done|done]. rewrite decode_ptr by auto. cbn [zero_value norm]. by rewrite Hd.
  - destruct o as [[xs more]|]; [|injection He as <-; done]. cbn [norm]. destruct (is_uint8 t) eqn:E8.
    + injection He as <-. split_and!; [|done|done]. cbn [decode jtree]. rewrite E8, sanitize_valid, chars_str, b64_decode_b64.
      * cbn. by rewrite (go_bytes_ints t).
      * apply valid_utf8_ascii. eapply Forall_impl; [apply b64_all_alphabet|]. intros c Hc. unfold b64_alphabet in Hc. lia.
    + destruct (mapM (encode t) xs) as [js|] eqn:Em; [|done]. injection He as <-.
      destruct (round_elements t xs js IH Hok Em) as [E1 E2]. split_and!; [|cbn; by apply Forall_foldr|done].
      cbn [jtree]. destruct js as [|j0 js]; [destruct xs; [done|]; apply mapM_Some in Em; inversion Em|].
      rewrite fmap_cons in E1 |- *. rewrite decode_slice. cbn [zero_value]. rewrite E1. done.
  - destruct o as [m|]; [|injection He as <-; done]. injection He as <-. split_and!; [| |done].
    + cbn [jtree norm]. rewrite decode_map. cbn [zero_value]. apply (round_entries (sort_by fst (map_to_list m)) ∅).
    + cbn [json_ok depth]. apply Forall_foldr, Forall_fmap, Forall_true. done.
  - destruct Hok as [Hg Hok]. change (JObj <$> encode_members fs xs = Some j) in He. destruct (encode_members fs xs) as [l|] eqn:El; [|done]. injection He as <-.
    destruct (round_members [] fs xs l [] IH Hg Hok El eq_refl) as [E1 E2]. split_and!; [|done|done].
    cbn [jtree zero_value]. rewrite decode_struct. exact E1.
Qed.

(** ** Texts *)

Lemma json_Unmarshal_Marshal t x text :
  go_ok t x → (Z.of_nat (depth t) ≤ maxNestingDepth)%Z → json_Marshal t x = Some text → json_Unmarshal t text = Ok (norm t x).
Proof.
  intros Hok Hd. unfold json_Marshal. destruct (encode t x) as [j|] eqn:He; [|done]. intros [= <-].
  destruct (round_all t x j Hok He) as (Hr & Hj & _). unfold json_Unmarshal.
  pose proof (scan_json j (depth t) [] Hj Hd (number_stop_follows j _ number_stop_nil)) as Hs. rewrite app_nil_r in Hs. unfold jtext in Hs at 1. rewrite Hs.
  unfold typed. cbn [skip_space drop_while]. by rewrite Hr.
Qed.

(** ** Records as Go values *)

Lemma as_opt_go_opt o : as_opt as_int (go_opt o) = o.
Proof. by destruct o. Qed.

Lemma norm_opt b o : norm (TPtr (TInt true b)) (go_opt o) = go_opt o.
Proof. by destruct o. Qed.

(** Empty values of the types that are left out. *)
Lemma omitted_string (s : string) :
  as_string (if is_empty (GString s) then GString EmptyString else GString (sanitize s)) = sanitize s.
Proof. cbn. case_bool_decide as Hs; [by subst|done]. Qed.

(** Lists, element by element. *)
Lemma as_list_round {A} t (f : A → goval) (g : goval → A) (h : A → A) l :
  is_uint8 t = false → (∀ x, g (norm t (f x)) = h x) → as_list g (norm (TSlice t) (go_slice f l)) = h <$> l.
Proof.
  intros Ht Hg. cbn. rewrite Ht, <- !list_fmap_compose. apply list_fmap_ext. intros i x _. apply Hg.
Qed.

Lemma go_ok_slice {A} t (f : A → goval) l : Forall (λ x, go_ok t (f x)) l → go_ok (TSlice t) (go_slice f l).
Proof. cbn. induction 1; done. Qed.

Lemma as_list_strings l : as_list as_string (norm (TSlice TString) (go_slice GString l)) = sanitize <$> l.
Proof.
  cbn. rewrite <- !list_fmap_compose. done.
Qed.

Lemma as_list_nil_strings l : as_list as_string (norm (TSlice TString) (go_nil_slice GString l)) = sanitize <$> l.
Proof. destruct l; [done|]. apply as_list_strings. Qed.

(** Integers of a field's size. *)
Definition opt_fits (w : Z) (o : option Z) : Prop := match o with Some n => fits w n | None => True end.

Lemma go_ok_int w n : (w ≤ 64)%Z → fits w n → go_ok (TInt true w) (GInt n).
Proof. intros Hw Hn. split; [done|]. unfold int_fits, fits in *. lia. Qed.

Lemma go_ok_opt w o : (w ≤ 64)%Z → opt_fits w o → go_ok (TPtr (TInt true w)) (go_opt o).
Proof. intros Hw. destruct o as [n|]; [|done]. intros Hn. split; [done|]. by apply go_ok_int. Qed.

Lemma go_ok_strings l : go_ok (TSlice TString) (go_slice GString l).
Proof. cbn. by induction l. Qed.

Lemma go_ok_nil_strings l : go_ok (TSlice TString) (go_nil_slice GString l).
Proof. destruct l; [done|]. apply go_ok_strings. Qed.

#[export] Hint Resolve go_ok_int go_ok_opt go_ok_strings go_ok_nil_strings : gw.

(** Every value of a type is written. *)
Lemma encode_total t x : go_ok t x → ∃ j, encode t x = Some j.
Proof.
  revert x. induction t as [| |s b| | |t IH|t IH| |fs IH] using gotype_nested_ind; intros x Hok;
    destruct x as [z|z|n|f|o|o|o|o|xs]; try done; cbn [go_ok encode] in *; try (by eexists).
  - destruct (float_text_reads f Hok) as (lit & -> & _). by eexists.
  - destruct o as [x|]; [|by eexists]. destruct Hok as [_ Hok]. by apply IH.
  - destruct o as [[xs more]|]; [|by eexists]. destruct (is_uint8 t); [by eexists|].
    assert (Hm : ∃ js, mapM (encode t) xs = Some js); [|destruct Hm as [js ->]; by eexists].
    induction xs as [|x xs IHx]; [by eexists|]. destruct Hok as [Hx Hok]. destruct (IH x Hx) as [j Hj]. destruct (IHx Hok) as [js Hjs].
    exists (j :: js). cbn. rewrite Hj. cbn. by rewrite Hjs.
  - destruct o; by eexists.
  - destruct Hok as [_ Hok]. change (∃ j, JObj <$> encode_members fs xs = Some j). fold (go_ok_members fs xs) in Hok.
    assert (Hm : ∃ l, encode_members fs xs = Some l); [|destruct Hm as [l ->]; by eexists].
    revert xs Hok. induction IH as [|[[name o] t] fs Ht _ IHf]; intros [|x xs] Hok; try done; [by eexists|].
    destruct Hok as [Hx Hok]. cbn [encode_members]. destruct (IHf xs Hok) as [l Hl]. destruct (Ht x Hx) as [j Hj].
    destruct (o && is_empty x); [by exists l|]. cbn [snd] in Hj. rewrite Hj, Hl. by eexists.
Qed.

(** A struct is written as an object, which is over where it ends. *)
Lemma encode_struct_closed fs x j : encode (TStruct fs) x = Some j → needs_next (jtree j) = false.
Proof.
  destruct x as [z|z|n|f|o|o|o|o|xs]; try done. rewrite encode_struct. destruct (encode_members fs xs); [|done]. by intros [= <-].
Qed.

(** A value of a type is written, and read back. *)
Lemma json_round t x :
  go_ok t x → (Z.of_nat (depth t) ≤ maxNestingDepth)%Z →
  ∃ text, json_Marshal t x = Some text ∧ json_Unmarshal t text = Ok (norm t x).
Proof.
  intros Hok Hd. destruct (encode_total t x Hok) as [j Hj].
  assert (Hm : json_Marshal t x = Some (json_text j)) by (unfold json_Marshal; by rewrite Hj).
  exists (json_text j). split; [done|]. by apply json_Unmarshal_Marshal.
Qed.

(** ** Reading the first value *)

(** Once a value is over, or there is none, neither the bytes after it nor how the reader ends matter. *)
Lemma Decoder_Decode_extend {R} t data more (e e' : option R) :
  unfinished data = false → Decoder_Decode t (data ++ more) e' = Decoder_Decode t data e.
Proof.
  unfold unfinished, Decoder_Decode. pose proof (scan_extend data more) as H. unfold extended, closed_value in H.
  destruct (scan data) as [[raw v] rest| |]; [|done|intros _; by rewrite H].
  intros Hu. assert (Hr : rest ≠ [] ∨ needs_next v = false) by (destruct rest; [by right|by left]).
  rewrite H by (destruct Hr as [Hr|Hr]; [by left|right; cbn; by rewrite Hr]).
  destruct rest as [|c rest].
  - destruct Hr as [|Hn]; [done|]. rewrite Hn. by destruct e, e', more.
  - cbn [app]. by destruct e, e'.
Qed.

(** A reader's failure is reported exactly when it comes before the value is over. *)
Lemma Decoder_Decode_read {R} t data (e e' : R) :
  Decoder_Decode t data (Some e) = Err (JRead e') ↔ unfinished data = true ∧ e' = e.
Proof.
  unfold unfinished, Decoder_Decode. destruct (scan data) as [[raw v] rest| |]; [|naive_solver|naive_solver].
  destruct rest as [|c rest]; [destruct (needs_next v)|];
    [naive_solver|destruct (decode v raw t (zero_value t)) as [x [f|]]; naive_solver..].
Qed.

(** The text of a value is read whatever follows it, if it is an object or an array, or if blanks follow. *)
Lemma Decoder_Decode_text {R} t x j rest (e : option R) :
  go_ok t x → (Z.of_nat (depth t) ≤ maxNestingDepth)%Z → encode t x = Some j → needs_next (jtree j) = false →
  Decoder_Decode t (jtext j ++ rest) e = Ok (norm t x).
Proof.
  intros Hok Hd He Hn. destruct (round_all t x j Hok He) as (Hr & Hj & _).
  assert (Hf : may_follow j rest) by (by destruct j).
  unfold Decoder_Decode. rewrite (scan_json j (depth t) rest Hj Hd Hf), Hn, Hr. by destruct e, rest.
Qed.
(** ** Objects of distinct keys, read into structs *)

(** What a field holds after an object that has the member [o] for it, or none. *)
Definition read_member (t : gotype) (x : goval) (o : option json) : goval * option fault :=
  match o with Some j => decode (jtree j) (jtext j) t x | None => (x, None) end.

Lemma find_field_at fs i n o t :
  good_names fs = true → fs !! i = Some (n, o, t) → find_field fs (chars (sanitize n)) = Some (i, t).
Proof.
  intros Hg Hi. pose proof (good_names_valid fs (n, o, t) Hg) as Hs. cbn [fst] in Hs.
  rewrite Hs by (by eapply list_elem_of_lookup_2).
  rewrite <- (take_drop_middle fs i _ Hi) in Hg |- *. rewrite (find_field_here _ _ _ _ _ Hg).
  rewrite length_take_le; [done|]. apply lookup_lt_Some in Hi. lia.
Qed.

(** One more member, which is field [i]'s: that field's new value is what it holds if nothing follows. *)
Lemma read_member_hit fs (m : gmap string json) (xs : list goval) i n o t j x x' f0 i' n' o' t' y y' :
  good_names fs = true → fs !! i = Some (n, o, t) → m !! n = None → xs !! i = Some x →
  decode (jtree j) (jtext j) t x = (x', f0) → fs !! i' = Some (n', o', t') → xs !! i' = Some y → <[i:=x']> xs !! i' = Some y' →
  (read_member t' y (<[n:=j]> m !! n')).1 = (read_member t' y' (m !! n')).1 ∧
  (read_member t' y (<[n:=j]> m !! n')).2 = (if decide (i' = i) then f0 else (read_member t' y' (m !! n')).2) ∧
  (i' = i → (read_member t' y' (m !! n')).2 = None).
Proof.
  intros Hg Hi Hm Hx Hd Hi' Hy Hy'. destruct (decide (i' = i)) as [->|Hne].
  - rewrite list_lookup_insert_eq in Hy' by (by eapply lookup_lt_Some). simplify_eq. by rewrite lookup_insert_eq, Hm; cbn [read_member]; rewrite Hd.
  - rewrite list_lookup_insert_ne in Hy' by done. simplify_eq. rewrite lookup_insert_ne; [done|]. intros <-.
    pose proof (find_field_at fs i n o t Hg Hi). pose proof (find_field_at fs i' n o' t' Hg Hi'). congruence.
Qed.

(** The fields are found by their exact names only. *)
Definition exact_names (fs : list (string * bool * gotype)) (ks : list string) : Prop :=
  ∀ k, k ∈ ks → k ∈ (λ f, f.1.1) <$> fs ∨ find_field fs (chars (sanitize k)) = None.

(** Every field holds what its member says, and there is a fault exactly when some member does not fit. *)
Definition read_object (fs : list (string * bool * gotype)) (m : gmap string json) (xs ys : list goval) (f f' : option fault) : Prop :=
  length ys = length fs ∧
  (∀ i n o t x, fs !! i = Some (n, o, t) → xs !! i = Some x → ys !! i = Some (read_member t x (m !! n)).1) ∧
  (f' = None ↔ f = None ∧ ∀ i n o t x, fs !! i = Some (n, o, t) → xs !! i = Some x → (read_member t x (m !! n)).2 = None).

Lemma decode_members_object fs l xs f :
  good_names fs = true → NoDup l.*1 → length xs = length fs → exact_names fs l.*1 →
  ∃ ys f', decode_members fs (member_tree <$> l) xs f = (GStruct ys, f') ∧ read_object fs (list_to_map l) xs ys f f'.
Proof.
  intros Hg. revert xs f. induction l as [|[k j] l IH]; intros xs f Hnd Hlen Hex.
  { exists xs, f. split; [done|]. by repeat split; intros; destruct_and?. }
  csimpl in Hnd. apply NoDup_cons in Hnd as [Hk Hnd]. rewrite fmap_cons.
  assert (Hex' : exact_names fs l.*1) by (intros k' Hk'; apply Hex; csimpl; by right).
  assert (Hn : (list_to_map l : gmap string json) !! k = None) by (by apply not_elem_of_list_to_map_1).
  change (list_to_map ((k, j) :: l) : gmap string json) with (<[k:=j]> (list_to_map l : gmap string json)).
  set (m := list_to_map l : gmap string json) in *. unfold member_tree at 1. cbn [fst snd decode_members].
  destruct (Hex k) as [Hin|Hnone]; [csimpl; by left| |].
  - apply list_elem_of_fmap in Hin as ([[n o] t] & -> & [i Hi]%list_elem_of_lookup_1). cbn [fst] in *.
    rewrite (find_field_at fs i n o t Hg Hi).
    destruct (xs !! i) as [x|] eqn:Hx; [|apply lookup_ge_None in Hx; apply lookup_lt_Some in Hi; lia]. cbn [default from_option Datatypes.id].
    destruct (decode (jtree j) (jtext j) t x) as [x' f0] eqn:Hd.
    destruct (IH (<[i:=x']> xs) (save f f0) Hnd ltac:(by rewrite length_insert) Hex') as (ys & f' & E & Hl & Hys & Hf).
    exists ys, f'. split; [exact E|]. split; [done|].
    assert (Hat : ∀ i' y, xs !! i' = Some y → ∃ y', <[i:=x']> xs !! i' = Some y').
    { intros i' y Hy. apply lookup_lt_is_Some. rewrite length_insert. by eapply lookup_lt_Some. }
    assert (Hat' : ∀ i' y', <[i:=x']> xs !! i' = Some y' → ∃ y, xs !! i' = Some y).
    { intros i' y' Hy%lookup_lt_Some. rewrite length_insert in Hy. by apply lookup_lt_is_Some. }
    split; [|rewrite Hf; split].
    + intros i' n' o' t' y Hi' Hy. destruct (Hat _ _ Hy) as [y' Hy'].
      destruct (read_member_hit fs m xs i n o t j x x' f0 i' n' o' t' y y') as (-> & _); eauto.
    + intros [Hs Hall]. assert (f = None) as -> by (by destruct f). split; [done|]. intros i' n' o' t' y Hi' Hy. destruct (Hat _ _ Hy) as [y' Hy'].
      destruct (read_member_hit fs m xs i n o t j x x' f0 i' n' o' t' y y') as (_ & -> & _); try done. case_decide; eauto.
    + intros [-> Hall]. split.
      * pose proof (Hall i n o t x Hi Hx) as Hr. rewrite lookup_insert_eq in Hr. cbn [read_member] in Hr. by rewrite Hd in Hr.
      * intros i' n' o' t' y' Hi' Hy'. destruct (Hat' _ _ Hy') as [y Hy]. pose proof (Hall i' n' o' t' y Hi' Hy) as Hr.
        destruct (read_member_hit fs m xs i n o t j x x' f0 i' n' o' t' y y') as (_ & E2 & E3); try done. rewrite E2 in Hr. case_decide; auto.
  - rewrite Hnone. destruct (IH xs f Hnd Hlen Hex') as (ys & f' & E & Hl & Hys & Hf). exists ys, f'. split; [exact E|].
    assert (Hm : ∀ i n o t, fs !! i = Some (n, o, t) → <[k:=j]> m !! n = m !! n).
    { intros i n o t Hi. apply lookup_insert_ne. intros <-. by rewrite (find_field_at fs i k o t Hg Hi) in Hnone. }
    split_and!; [done| |].
    + intros i n o t x Hi Hx. rewrite (Hm i n o t Hi). by apply (Hys i n o t x).
    + rewrite Hf. split; intros [? Hall]; (split; [done|]); intros i n o t x Hi Hx; specialize (Hall i n o t x Hi Hx); by rewrite ?(Hm i n o t Hi) in *.
Qed.

(** What is held of a field of a struct read from an object. *)
Definition held (m : gmap string json) (f : string * bool * gotype) : goval * option fault :=
  read_member f.2 (zero_value f.2) (m !! f.1.1).

(** [json.Unmarshal] of a written object into a struct. *)
Lemma json_Unmarshal_object fs l d :
  good_names fs = true → NoDup l.*1 → exact_names fs l.*1 → json_ok d (JObj l) → (Z.of_nat d ≤ maxNestingDepth)%Z →
  let res := json_Unmarshal (TStruct fs) (json_text (JObj l)) in
  ((∀ f, f ∈ fs → (held (list_to_map l) f).2 = None) → res = Ok (GStruct ((λ f, (held (list_to_map l) f).1) <$> fs))) ∧
  ((∃ f, f ∈ fs ∧ (held (list_to_map l) f).2 ≠ None) → ∃ e, res = Err (EFault e)).
Proof.
  intros Hg Hnd Hex Hok Hd. cbn zeta. unfold json_Unmarshal.
  pose proof (scan_json (JObj l) d [] Hok Hd I) as Hs. rewrite app_nil_r in Hs. unfold jtext in Hs at 1. rewrite Hs.
  cbn [skip_space drop_while]. unfold typed. cbn [jtree zero_value].
  change ((λ kv : string * json, (chars (sanitize kv.1), (jtext kv.2, jtree kv.2))) <$> l) with (member_tree <$> l).
  rewrite decode_struct.
  destruct (decode_members_object fs l ((λ f, zero_value f.2) <$> fs) None Hg Hnd) as (ys & f' & -> & Hl & Hys & Hf);
    [by rewrite length_fmap|done|].
  assert (Hz : ∀ i f, fs !! i = Some f → ((λ f : string * bool * gotype, zero_value f.2) <$> fs) !! i = Some (zero_value f.2)).
  { intros i f Hi. by rewrite list_lookup_fmap, Hi. }
  split.
  - intros Hall. destruct f' as [e|].
    + exfalso. assert (Some e = None) as ?; [|done]. apply Hf. split; [done|]. intros i n o t x Hi Hx.
      rewrite (Hz _ _ Hi) in Hx. injection Hx as <-. apply (Hall (n, o, t)). by eapply list_elem_of_lookup_2.
    + do 2 f_equal. apply list_eq. intros i. rewrite list_lookup_fmap. destruct (fs !! i) as [[[n o] t]|] eqn:Hi; cbn [fmap option_fmap option_map].
      * apply (Hys i n o t (zero_value t) Hi). by apply (Hz i (n, o, t)).
      * apply lookup_ge_None in Hi. apply lookup_ge_None. lia.
  - intros ([[n o] t] & [i Hi]%list_elem_of_lookup_1 & Hne). destruct f' as [e|]; [by exists e|].
    destruct (proj1 Hf eq_refl) as [_ Hall]. destruct Hne. apply (Hall i n o t (zero_value t) Hi). by apply (Hz i (n, o, t)).
Qed.
