(* ===== verification/Sha256.v ===== *)
(** * crypto/sha256

    SHA-256 of a byte string, which [clients.go] uses as the fingerprint of a client's settings.
    Words are [Z] in [0, 2^32); the test vectors at the end are those of the standard. *)

From S2P Require Import Prelude GoStrings.
From Stdlib Require Import Ascii.

Local Open Scope Z_scope.

Definition w32 (z : Z) : Z := z mod 2 ^ 32.

Definition rotr (n x : Z) : Z := Z.lor (Z.shiftr x n) (w32 (Z.shiftl x (32 - n))).

Definition round_constants : list Z :=
  [
    1116352408; 1899447441; 3049323471; 3921009573; 961987163; 1508970993; 2453635748;
    2870763221; 3624381080; 310598401; 607225278; 1426881987; 1925078388; 2162078206;
    2614888103; 3248222580; 3835390401; 4022224774; 264347078; 604807628; 770255983; 1249150122;
    1555081692; 1996064986; 2554220882; 2821834349; 2952996808; 3210313671; 3336571891;
    3584528711; 113926993; 338241895; 666307205; 773529912; 1294757372; 1396182291; 1695183700;
    1986661051; 2177026350; 2456956037; 2730485921; 2820302411; 3259730800; 3345764771;
    3516065817; 3600352804; 4094571909; 275423344; 430227734; 506948616; 659060556; 883997877;
    958139571; 1322822218; 1537002063; 1747873779; 1955562222; 2024104815; 2227730452;
    2361852424; 2428436474; 2756734187; 3204031479; 3329325298
  ].

Definition initial_hash : list Z :=
  [
    1779033703; 3144134277; 1013904242; 2773480762; 1359893119; 2600822924; 528734635;
    1541459225
  ].

(** Padding: a one bit, zeros up to 56 modulo 64 bytes, the length in bits on eight bytes. *)
Definition be_bytes (n : nat) (z : Z) : list Z :=
  (λ i, Z.shiftr z (8 * Z.of_nat i) mod 256) <$> reverse (seq 0 n).

Definition pad (msg : list Z) : list Z :=
  let n := Z.of_nat (length msg) in
  msg ++ [128] ++ replicate (Z.to_nat ((55 - n) mod 64)) 0 ++ be_bytes 8 (8 * n).

Fixpoint words_of (l : list Z) : list Z :=
  match l with
  | a :: b :: c :: d :: t => (a * 2 ^ 24 + b * 2 ^ 16 + c * 2 ^ 8 + d) :: words_of t
  | _ => []
  end.

Fixpoint blocks_of (fuel : nat) (l : list Z) : list (list Z) :=
  match fuel, l with
  | O, _ | _, [] => []
  | S f, _ => take 16 l :: blocks_of f (drop 16 l)
  end.

(** The message schedule, newest word first. *)
Fixpoint schedule (n : nat) (rev_w : list Z) : list Z :=
  match n with
  | O => rev_w
  | S n' =>
      let w i := nth i rev_w 0 in
      let s0 := Z.lxor (rotr 7 (w 14%nat)) (Z.lxor (rotr 18 (w 14%nat)) (Z.shiftr (w 14%nat) 3)) in
      let s1 := Z.lxor (rotr 17 (w 1%nat)) (Z.lxor (rotr 19 (w 1%nat)) (Z.shiftr (w 1%nat) 10)) in
      schedule n' (w32 (w 15%nat + s0 + w 6%nat + s1) :: rev_w)
  end.

Record hstate := MkH { ha : Z; hb : Z; hc : Z; hd : Z; he : Z; hf : Z; hg : Z; hh : Z }.

Definition round (s : hstate) (kw : Z * Z) : hstate :=
  let e := he s in
  let a := ha s in
  let big1 := Z.lxor (rotr 6 e) (Z.lxor (rotr 11 e) (rotr 25 e)) in
  let ch := Z.lxor (Z.land e (hf s)) (Z.land (Z.lxor e (2 ^ 32 - 1)) (hg s)) in
  let t1 := hh s + big1 + ch + kw.1 + kw.2 in
  let big0 := Z.lxor (rotr 2 a) (Z.lxor (rotr 13 a) (rotr 22 a)) in
  let maj := Z.lxor (Z.land a (hb s)) (Z.lxor (Z.land a (hc s)) (Z.land (hb s) (hc s))) in
  MkH (w32 (t1 + big0 + maj)) a (hb s) (hc s) (w32 (hd s + t1)) e (hf s) (hg s).

Definition to_words (s : hstate) : list Z :=
  [ha s; hb s; hc s; hd s; he s; hf s; hg s; hh s].

Definition of_words (l : list Z) : hstate :=
  let w i := nth i l 0 in
  MkH (w 0%nat) (w 1%nat) (w 2%nat) (w 3%nat) (w 4%nat) (w 5%nat) (w 6%nat) (w 7%nat).

Definition compress (h : list Z) (block : list Z) : list Z :=
  let ws := reverse (schedule 48 (reverse block)) in
  let s := foldl round (of_words h) (zip round_constants ws) in
  zip_with (λ x y, w32 (x + y)) h (to_words s).

(** The digest as 32 bytes. *)
Definition sha256 (msg : string) : list Z :=
  let ws := words_of (pad (byte <$> chars msg)) in
  foldl compress initial_hash (blocks_of (length ws) ws) ≫= be_bytes 4.

Example sha256_abc :
  take 8 (sha256 "abc") = [0xba; 0x78; 0x16; 0xbf; 0x8f; 0x01; 0xcf; 0xea].
Proof. vm_compute. reflexivity. Qed.

Example sha256_empty :
  take 8 (sha256 EmptyString) = [0xe3; 0xb0; 0xc4; 0x42; 0x98; 0xfc; 0x1c; 0x14].
Proof. vm_compute. reflexivity. Qed.

Example sha256_two_blocks :
  sha256 "abcdbcdecdefdefgefghfghighijhijkijkljklmklmnlmnomnopnopq" =
  be_bytes 32 0x248d6a61d20638b8e5c026930c3e6039a33ce45964ff2167f6ecedd419db06c1.
Proof. vm_compute. reflexivity. Qed.

(** The digest is opaque to the proofs of the development: they use that it is a function and
    nothing else. *)
#[global] Opaque sha256.
