(* ===== verification/Adapters.v ===== *)
(** * internal/adapters/adapters.go: the data adapters and the gateway share

    [Job], [Status], [JobView], [ClientStatus] and [AdoptedJob] as the source declares them, the
    file name given to uploaded content ([payloadFileName]), and [isControl] of clients.go, which
    several files of the package use.  The interface [Adapter] itself is the class
    [AdapterOps] of Interfaces.v. *)

From S2P Require Import Prelude GoStrings.
From Stdlib Require Import Ascii.

Record Job := MkJob {
  Job_ID : string;
  Job_Source : string;
  Job_SavePath : string;
  Job_Title : string;
  Job_Category : string;
  Job_Payload : string;       (* []byte *)
  Job_PayloadName : string
}.

(** [type Status string] with its four constants; [StatusUnset] is the zero value, the empty
    string, of a [JobView] whose state is not set yet. *)
Inductive Status :=
  | StatusQueued
  | StatusDownloading
  | StatusCompleted
  | StatusFailed
  | StatusUnset.

#[export] Instance Status_eq_dec : EqDecision Status.
Proof. solve_decision. Defined.

(** [string(v.State)]. *)
Definition Status_string (s : Status) : string :=
  match s with
  | StatusQueued => "queued"
  | StatusDownloading => "downloading"
  | StatusCompleted => "completed"
  | StatusFailed => "failed"
  | StatusUnset => EmptyString
  end.

Record JobView := MkJobView {
  v_State : Status;
  v_NativeState : string;
  v_Title : string;
  v_BytesDone : Z;       (* int64 *)
  v_BytesTotal : Z;      (* int64, 0 = unknown *)
  v_SpeedBps : Z;        (* int64 *)
  v_EtaSec : Z;          (* int64, -1 = unknown *)
  v_Files : list string;
  v_Message : string;
  v_Seeders : Z;         (* int32, -1 = not reported *)
  v_Leechers : Z;
  v_Health : Z
}.

#[export] Instance JobView_eq_dec : EqDecision JobView.
Proof. solve_decision. Defined.

Definition NotFoundState : string := "not-found".

Definition NewJobView : JobView :=
  MkJobView StatusUnset EmptyString EmptyString 0 0 0 (-1) [] EmptyString (-1) (-1) (-1).

(** [v := NewJobView(); v.State = StatusQueued; v.NativeState = NotFoundState]: the answer of an
    adapter whose client does not know the job. *)
Definition NotFoundView : JobView :=
  MkJobView StatusQueued NotFoundState EmptyString 0 0 0 (-1) [] EmptyString (-1) (-1) (-1).

Record ClientStatus := MkClientStatus {
  cs_ID : string;
  cs_Type : string;
  cs_Name : string;
  cs_Reachable : bool;
  cs_Error : string;
  cs_DownBps : Z;
  cs_UpBps : Z;
  cs_Paused : bool;
  cs_FreeDisk : option Z;
  cs_Detail : gmap string string
}.

Definition empty_ClientStatus (name : string) : ClientStatus :=
  MkClientStatus EmptyString EmptyString name false EmptyString 0 0 false None ∅.

Record AdoptedJob := MkAdoptedJob {
  aj_ClientJobID : string;
  aj_Title : string
}.

(** clients.go: control characters are refused in settings and dropped from names. *)
Definition isControl (r : Z) : bool := (r <? 0x20)%Z || (r =? 0x7F)%Z.

(** ** [payloadFileName] *)

Definition path_separator (c : ascii) : bool :=
  bool_decide (c = "/"%char) || bool_decide (c = "\"%char).

(** The local closure [clean]. *)
Definition clean_name (s : string) : string :=
  let s := str (drop (after_last path_separator (chars s)) (chars s)) in
  TrimSpace (map_drop isControl s).

Definition payloadFileName (name title ext : string) : string :=
  let out := clean_name name in
  let out := if bool_decide (out = EmptyString) then clean_name title else out in
  let out := if bool_decide (out = EmptyString) then "download" else out in
  if HasSuffix (to_lower out) ext then out else out +:+ ext.

(** A byte an upload may not carry in its file name. *)
Definition unsafe_byte (c : ascii) : bool := path_separator c || isControl (byte c).

(** *** ASCII bytes are runes of their own *)

Lemma first_rune_ascii l r c :
  first_rune l = Some r → c ∈ renc r → (byte c < 0x80)%Z → r = MkRune (byte c) [c].
Proof.
  intros H Hin Hc. unfold first_rune, accept2, is_cont, lead2, lead3, lead4 in H.
  repeat match type of H with
  | context [match ?x with _ => _ end] =>
      lazymatch x with
      | context [match _ with _ => _ end] => fail
      | _ => destruct x eqn:?
      end
  end; try discriminate H; injection H as <-; simpl in Hin; bool_to_prop;
  repeat match goal with
  | H : _ ∈ _ :: _ |- _ => apply elem_of_cons in H as [->|H]
  | H : _ ∈ [] |- _ => by apply not_elem_of_nil in H
  end; try done; lia.
Qed.

Lemma runes_ascii_byte l r c :
  r ∈ runes l → c ∈ renc r → (byte c < 0x80)%Z → r = MkRune (byte c) [c].
Proof.
  intros Hr. apply first_rune_ascii with (renc r).
  pose proof (runes_decoded l) as H. rewrite Forall_forall in H. by apply H.
Qed.

Lemma elem_of_enc_of c rs : c ∈ enc_of rs ↔ ∃ r, r ∈ rs ∧ c ∈ renc r.
Proof.
  unfold enc_of. rewrite list_elem_of_In, in_concat. setoid_rewrite <- list_elem_of_In.
  setoid_rewrite list_elem_of_fmap. naive_solver.
Qed.

Lemma ascii_byte_rune l c : c ∈ l → (byte c < 0x80)%Z → MkRune (byte c) [c] ∈ runes l.
Proof.
  intros Hin Hc. rewrite <- (enc_of_runes l) in Hin. apply elem_of_enc_of in Hin as (r & Hr & Hcr).
  by rewrite <- (runes_ascii_byte _ _ _ Hr Hcr Hc).
Qed.

Lemma map_drop_bytes f s c : c ∈ chars (map_drop f s) → c ∈ chars s ∨ c ∈ rune_error_bytes.
Proof.
  unfold map_drop. rewrite chars_str, elem_of_enc_of. intros (r & Hr & Hc).
  apply list_elem_of_fmap in Hr as (r' & -> & Hr'). apply list_elem_of_filter in Hr' as [_ Hr'].
  unfold valid_enc in Hc. destruct (invalid r'); [by right|left].
  rewrite <- (enc_of_runes (chars s)). apply elem_of_enc_of. eauto.
Qed.

Lemma TrimSpace_sub s r : r ∈ runes (chars (TrimSpace s)) → r ∈ runes (chars s).
Proof.
  rewrite runes_TrimSpace. intros Hr.
  destruct (drop_while_suffix space_rune (runes (chars s))) as (l0 & H0 & _).
  destruct (drop_end_prefix space_rune (drop_while space_rune (runes (chars s)))) as (l1 & H1 & _).
  rewrite H0, H1. set_solver.
Qed.

Lemma TrimSpace_bytes s c : c ∈ chars (TrimSpace s) → c ∈ chars s.
Proof.
  intros Hc. rewrite <- (enc_of_runes (chars (TrimSpace s))) in Hc.
  apply elem_of_enc_of in Hc as (r & Hr & Hc). apply TrimSpace_sub in Hr.
  rewrite <- (enc_of_runes (chars s)). apply elem_of_enc_of. eauto.
Qed.

Lemma drop_after_last f l c : c ∈ drop (after_last f l) l → f c = false.
Proof.
  intros Hc. pose proof (after_last_none f l) as H. rewrite forallb_forall in H.
  apply negb_true_iff, H, list_elem_of_In, Hc.
Qed.

Lemma clean_name_safe s c : c ∈ chars (clean_name s) → unsafe_byte c = false.
Proof.
  intros Hc. unfold unsafe_byte. apply orb_false_iff. split.
  - apply TrimSpace_bytes, map_drop_bytes in Hc as [Hc|Hc].
    + rewrite chars_str in Hc. by apply drop_after_last in Hc.
    + unfold rune_error_bytes in Hc.
      repeat (apply elem_of_cons in Hc as [->|Hc]; [vm_compute; done|]). by apply not_elem_of_nil in Hc.
  - destruct (isControl (byte c)) eqn:E; [|done].
    assert (Hlt : (byte c < 0x80)%Z) by (unfold isControl in E; lia).
    apply ascii_byte_rune in Hc; [|done]. apply TrimSpace_sub, map_drop_free in Hc.
    simpl in Hc. congruence.
Qed.

Definition no_unsafe (s : string) : bool := forallb (λ c, negb (unsafe_byte c)) (chars s).

Lemma no_unsafe_spec s : no_unsafe s = true ↔ ∀ c, c ∈ chars s → unsafe_byte c = false.
Proof.
  unfold no_unsafe. rewrite forallb_forall. setoid_rewrite <- list_elem_of_In.
  setoid_rewrite negb_true_iff. done.
Qed.

Lemma no_unsafe_app s1 s2 : no_unsafe (s1 +:+ s2) = no_unsafe s1 && no_unsafe s2.
Proof. unfold no_unsafe. by rewrite chars_app, forallb_app. Qed.

Lemma clean_name_no_unsafe s : no_unsafe (clean_name s) = true.
Proof. apply no_unsafe_spec, clean_name_safe. Qed.

Lemma to_lower_app s1 s2 : to_lower (s1 +:+ s2) = to_lower s1 +:+ to_lower s2.
Proof. unfold to_lower. by rewrite chars_app, fmap_app, str_app. Qed.

(** ** Properties *)

(** C40: an uploaded file's name is safe whatever the caller sent: it holds no path separator and no
    control character, it is never empty, and it ends in the wanted extension, in some letter case. *)
Theorem payloadFileName_safe name title ext :
  no_unsafe ext = true → ext ≠ EmptyString → to_lower ext = ext →
  let out := payloadFileName name title ext in
  no_unsafe out = true ∧ HasSuffix (to_lower out) ext = true ∧ out ≠ EmptyString.
Proof.
  intros Hs Hne Hlow. cbn zeta.
  assert (Hsuf : HasSuffix (to_lower (payloadFileName name title ext)) ext = true).
  { unfold payloadFileName. cbn zeta. set (out := if bool_decide (_ = _) then "download" else _).
    destruct (HasSuffix (to_lower out) ext) eqn:E; [done|].
    rewrite to_lower_app, Hlow. apply HasSuffix_spec. by eexists. }
  split_and!; [|done|].
  - unfold payloadFileName. cbn zeta. set (out := if bool_decide (_ = _) then "download" else _).
    assert (Ho : no_unsafe out = true).
    { subst out. repeat case_bool_decide; try apply clean_name_no_unsafe; reflexivity. }
    destruct (HasSuffix (to_lower out) ext); [done|]. by rewrite no_unsafe_app, Ho, Hs.
  - intros E. rewrite E in Hsuf. apply HasSuffix_spec in Hsuf as [p Hp]. apply Hne.
    apply (f_equal chars) in Hp. rewrite chars_app in Hp. symmetry in Hp. apply app_eq_nil in Hp as [_ Hp].
    by apply chars_inj.
Qed.

Lemma payloadFileName_safe_witness :
  payloadFileName "../../etc/pass" "Title" ".nzb" = "pass.nzb" ∧
  no_unsafe (payloadFileName "../../etc/pass" "Title" ".nzb") = true.
Proof.
  split; [vm_compute; reflexivity|].
  apply (payloadFileName_safe "../../etc/pass" "Title" ".nzb"); [reflexivity|discriminate|reflexivity].
Defined.
