(* ===== verification/Endpoint.v ===== *)
(** * internal/adapters/endpoint.go: where a pushed client may connect

    [RefusedAddr] on net/netip addresses, the redirect policy [sameOrigin], and the HTTP client
    values adapters are built with, which [guard] restricts. *)

From S2P Require Import Prelude GoStrings GoUrl Responses.
From Stdlib Require Import Ascii.

Local Open Scope Z_scope.

(** ** net/netip: addresses and prefixes *)

(** [netip.Addr]: the zero value, an IPv4 address (32 bits), or an IPv6 address (128 bits) with its
    zone (empty when there is none).  Go's [==] on addresses compares the zone too. *)
Inductive Addr :=
  | AddrZero
  | Addr4 (ip : Z)
  | Addr6 (ip : Z) (zone : string).

#[export] Instance Addr_eq_dec : EqDecision Addr.
Proof. solve_decision. Defined.

Definition ip4 (a b c d : Z) : Z := Z.lor (Z.shiftl a 24) (Z.lor (Z.shiftl b 16) (Z.lor (Z.shiftl c 8) d)).

Fixpoint ip6_groups (l : list Z) (acc : Z) : Z :=
  match l with
  | [] => acc
  | g :: l' => ip6_groups l' (Z.lor (Z.shiftl acc 16) g)
  end.
Definition ip6 (groups : list Z) : Z := ip6_groups groups 0.

Definition Is4In6 (a : Addr) : bool :=
  match a with Addr6 ip _ => Z.shiftr ip 32 =? 0xFFFF | _ => false end.

(** [Unmap] turns an IPv4-mapped address into the IPv4 address, dropping a zone. *)
Definition Unmap (a : Addr) : Addr :=
  match a with
  | Addr6 ip _ => if Is4In6 a then Addr4 (Z.land ip (2 ^ 32 - 1)) else a
  | _ => a
  end.

Record Prefix := MkPrefix { p_addr : Addr; p_bits : Z }.

(** [Prefix.Contains]: an address of the other family, and an IPv6 address with a zone, is in no
    prefix. *)
Definition Contains (p : Prefix) (a : Addr) : bool :=
  match p_addr p, a with
  | Addr4 net, Addr4 ip => Z.shiftr (Z.lxor net ip) (32 - p_bits p) =? 0
  | Addr6 net _, Addr6 ip zone =>
      bool_decide (zone = EmptyString) && (Z.shiftr (Z.lxor net ip) (128 - p_bits p) =? 0)
  | _, _ => false
  end.

Definition linkLocal4 : Prefix := MkPrefix (Addr4 (ip4 169 254 0 0)) 16.
Definition linkLocal6 : Prefix := MkPrefix (Addr6 (ip6 [0xfe80; 0; 0; 0; 0; 0; 0; 0]) EmptyString) 10.
Definition metadataAddrs : list Addr :=
  [Addr4 (ip4 100 100 100 200); Addr6 (ip6 [0xfd00; 0xec2; 0; 0; 0; 0; 0; 0x254]) EmptyString].

Definition RefusedAddr (a : Addr) : bool :=
  let a := Unmap a in
  if Contains linkLocal4 a || Contains linkLocal6 a then true
  else existsb (λ m, bool_decide (a = m)) metadataAddrs.

(** ** The redirect policy *)

Section origin.
(** The representative of a code point's simple case folding orbit ([unicode.SimpleFold]). *)
Context (fold : Z → Z).

(** [strings.EqualFold]. *)
Definition EqualFold (s t : string) : bool :=
  bool_decide ((fold ∘ rcode) <$> runes (chars s) = (fold ∘ rcode) <$> runes (chars t)).

Definition errRedirectRefused : error := ErrorString "refusing a redirect to another host or scheme".

(** [sameOrigin(req, via)]: [None] lets the redirect through.  [via] is never empty, Go calls the
    policy only for a redirect; [via[0]] of an empty slice would panic. *)
Definition sameOrigin (req : URL) (first : URL) (via : nat) : option error :=
  if (10 <=? via)%nat then Some (ErrorString "stopped after 10 redirects")
  else if negb (EqualFold (Scheme req) (Scheme first)) || negb (EqualFold (Host req) (Host first))
       then Some errRedirectRefused
  else None.
End origin.

(** ** HTTP clients *)

Inductive Transport_kind := DefaultTransport | pushedTransport.
Inductive Redirect_policy := DefaultRedirect | SameOriginRedirect.

#[export] Instance Transport_kind_eq_dec : EqDecision Transport_kind.
Proof. solve_decision. Defined.
#[export] Instance Redirect_policy_eq_dec : EqDecision Redirect_policy.
Proof. solve_decision. Defined.

(** [http.Client] as the constructors build it: a pointer (its identity tells two clients apart,
    and names its cookie jar when it has one), its timeout in seconds and its policies. *)
Record HttpClient := MkHttpClient {
  hc_ptr : nat;
  hc_Timeout : Z;
  hc_Jar : bool;
  hc_Transport : Transport_kind;
  hc_CheckRedirect : Redirect_policy
}.

#[export] Instance HttpClient_eq_dec : EqDecision HttpClient.
Proof. solve_decision. Defined.

Definition guard (c : HttpClient) : HttpClient :=
  MkHttpClient (hc_ptr c) (hc_Timeout c) (hc_Jar c) pushedTransport SameOriginRedirect.

(** ** Facts *)

Lemma Contains4_range net bits ip :
  0 ≤ net < 2 ^ 32 → 0 ≤ ip < 2 ^ 32 → 0 ≤ bits ≤ 32 →
  Contains (MkPrefix (Addr4 net) bits) (Addr4 ip) = true ↔
  ip / 2 ^ (32 - bits) = net / 2 ^ (32 - bits).
Proof.
  intros Hn Hi Hb. cbn [Contains p_addr p_bits]. rewrite Z.eqb_eq, Z.shiftr_lxor, Z.lxor_eq_0_iff.
  rewrite !Z.shiftr_div_pow2 by lia. split; congruence.
Qed.

Lemma Contains6_range net bits ip zone :
  0 ≤ net < 2 ^ 128 → 0 ≤ ip < 2 ^ 128 → 0 ≤ bits ≤ 128 →
  Contains (MkPrefix (Addr6 net EmptyString) bits) (Addr6 ip zone) = true ↔
  zone = EmptyString ∧ ip / 2 ^ (128 - bits) = net / 2 ^ (128 - bits).
Proof.
  intros Hn Hi Hb. cbn [Contains p_addr p_bits]. rewrite andb_true_iff, bool_decide_eq_true, Z.eqb_eq, Z.shiftr_lxor, Z.lxor_eq_0_iff.
  rewrite !Z.shiftr_div_pow2 by lia. split; intros [? ?]; split; congruence.
Qed.

(** The addresses a pushed client must never connect to, as the README lists them. *)
Inductive metadata_or_link_local : Addr → Prop :=
  | ll4 ip : 0xA9FE0000 ≤ ip ≤ 0xA9FEFFFF → metadata_or_link_local (Addr4 ip)
  | meta4 : metadata_or_link_local (Addr4 0x646464C8)
  | ll6 ip zone : 0xfe80 * 2 ^ 112 ≤ ip < 0xfec0 * 2 ^ 112 → metadata_or_link_local (Addr6 ip zone)
  | meta6 zone : metadata_or_link_local (Addr6 0xfd000ec2000000000000000000000254 zone)
  | mapped ip zone :
      metadata_or_link_local (Addr4 ip) → 0 ≤ ip < 2 ^ 32 →
      metadata_or_link_local (Addr6 (0xFFFF * 2 ^ 32 + ip) zone).

Definition wf_addr (a : Addr) : Prop :=
  match a with
  | AddrZero => True
  | Addr4 ip => 0 ≤ ip < 2 ^ 32
  | Addr6 ip _ => 0 ≤ ip < 2 ^ 128
  end.

Definition zone_of (a : Addr) : string := match a with Addr6 _ z => z | _ => EmptyString end.

Lemma existsb_eq_elem (a : Addr) l : existsb (λ m, bool_decide (a = m)) l = true ↔ a ∈ l.
Proof.
  rewrite existsb_exists. setoid_rewrite bool_decide_eq_true. setoid_rewrite <- list_elem_of_In.
  split; [by intros (x & Hx & ->)|]. by exists a.
Qed.

Lemma RefusedAddr_spec a :
  RefusedAddr a = true ↔
  Contains linkLocal4 (Unmap a) = true ∨ Contains linkLocal6 (Unmap a) = true ∨ Unmap a ∈ metadataAddrs.
Proof.
  unfold RefusedAddr. destruct (Contains linkLocal4 (Unmap a)), (Contains linkLocal6 (Unmap a));
    cbn [orb]; rewrite ?existsb_eq_elem; naive_solver.
Qed.

Lemma linkLocal4_range ip :
  0 ≤ ip < 2 ^ 32 → Contains linkLocal4 (Addr4 ip) = true ↔ 0xA9FE0000 ≤ ip ≤ 0xA9FEFFFF.
Proof.
  intros Hip. unfold linkLocal4. rewrite Contains4_range; [|vm_compute; split; congruence|done|lia].
  change (ip4 169 254 0 0 / 2 ^ (32 - 16)) with 0xA9FE. change (2 ^ (32 - 16)) with 0x10000.
  Z.to_euclidean_division_equations. lia.
Qed.

Lemma linkLocal6_range ip zone :
  0 ≤ ip < 2 ^ 128 →
  Contains linkLocal6 (Addr6 ip zone) = true ↔
  zone = EmptyString ∧ 0xfe80 * 2 ^ 112 ≤ ip < 0xfec0 * 2 ^ 112.
Proof.
  intros Hip. unfold linkLocal6. rewrite Contains6_range; [|vm_compute; split; congruence|done|lia].
  change (ip6 [0xfe80; 0; 0; 0; 0; 0; 0; 0] / 2 ^ (128 - 10)) with 0x3fa.
  change (2 ^ (128 - 10)) with 0x400000000000000000000000000000.
  change (0xfe80 * 2 ^ 112) with 0xfe800000000000000000000000000000.
  change (0xfec0 * 2 ^ 112) with 0xfec00000000000000000000000000000.
  assert (Hd : ip / 0x400000000000000000000000000000 = 0x3fa ↔
          0xfe800000000000000000000000000000 ≤ ip < 0xfec00000000000000000000000000000)
    by (Z.to_euclidean_division_equations; lia).
  by rewrite Hd.
Qed.

Lemma RefusedAddr4 ip :
  0 ≤ ip < 2 ^ 32 → RefusedAddr (Addr4 ip) = true ↔ metadata_or_link_local (Addr4 ip).
Proof.
  intros Hip. rewrite RefusedAddr_spec. cbn [Unmap]. rewrite linkLocal4_range by done.
  change (Contains linkLocal6 (Addr4 ip)) with false.
  change metadataAddrs with
    [Addr4 0x646464C8; Addr6 0xfd000ec2000000000000000000000254 EmptyString].
  rewrite !elem_of_cons, elem_of_nil. split.
  - intros [H|[H|[H|[H|[]]]]]; simplify_eq; by constructor.
  - inversion 1; subst; auto.
Qed.

Lemma Is4In6_spec ip zone : Is4In6 (Addr6 ip zone) = true ↔ ip / 4294967296 = 65535.
Proof.
  cbn [Is4In6]. rewrite Z.eqb_eq, Z.shiftr_div_pow2 by lia. done.
Qed.

Lemma RefusedAddr_mapped ip zone :
  Is4In6 (Addr6 ip zone) = true → RefusedAddr (Addr6 ip zone) = RefusedAddr (Addr4 (ip mod 4294967296)).
Proof.
  intros E. unfold RefusedAddr. cbn [Unmap]. rewrite E.
  change (2 ^ 32 - 1) with (Z.ones 32). by rewrite Z.land_ones by lia.
Qed.

Lemma mapped_inv ip zone :
  Is4In6 (Addr6 ip zone) = true → metadata_or_link_local (Addr6 ip zone) →
  metadata_or_link_local (Addr4 (ip mod 4294967296)).
Proof.
  intros E%Is4In6_spec H. inversion H as [| |? ? Hi|?|ip0 ? H4 Hi]; subst.
  - exfalso. change (0xfe80 * 2 ^ 112) with 0xfe800000000000000000000000000000 in Hi.
    Z.to_euclidean_division_equations. lia.
  - vm_compute in E. discriminate E.
  - replace ((0xFFFF * 2 ^ 32 + ip0) mod 4294967296) with ip0; [done|].
    change (0xFFFF * 2 ^ 32) with (65535 * 4294967296) in *. change (2 ^ 32) with 4294967296 in Hi.
    Z.to_euclidean_division_equations. lia.
Qed.

Lemma mapped_intro ip zone :
  Is4In6 (Addr6 ip zone) = true → metadata_or_link_local (Addr4 (ip mod 4294967296)) →
  metadata_or_link_local (Addr6 ip zone).
Proof.
  intros E%Is4In6_spec H.
  assert (Hs : ip = 0xFFFF * 2 ^ 32 + ip mod 4294967296).
  { change (0xFFFF * 2 ^ 32) with (65535 * 4294967296). Z.to_euclidean_division_equations. lia. }
  rewrite Hs. constructor; [done|]. change (2 ^ 32) with 4294967296. apply Z.mod_pos_bound. lia.
Qed.

(** What is refused, exactly: an address on the list, except that an IPv6 address with a zone is
    only refused when it maps an IPv4 one. *)
Lemma RefusedAddr_iff a :
  wf_addr a →
  RefusedAddr a = true ↔ metadata_or_link_local a ∧ (zone_of a = EmptyString ∨ Is4In6 a = true).
Proof.
  destruct a as [|ip|ip zone]; intros Hwf; simpl in Hwf.
  - split; [vm_compute; discriminate|]. intros [H _]. inversion H.
  - rewrite RefusedAddr4 by done. simpl. naive_solver.
  - destruct (Is4In6 (Addr6 ip zone)) eqn:E.
    + rewrite RefusedAddr_mapped, RefusedAddr4 by (done || (apply Z.mod_pos_bound; lia)).
      split; [intros H; split; [by apply mapped_intro|by right]|]. intros [H _]. by apply (mapped_inv ip zone).
    + rewrite RefusedAddr_spec. cbn [Unmap]. rewrite E, linkLocal6_range by done.
      change (Contains linkLocal4 (Addr6 ip zone)) with false.
      change metadataAddrs with
        [Addr4 0x646464C8; Addr6 0xfd000ec2000000000000000000000254 EmptyString].
      rewrite !elem_of_cons, elem_of_nil. cbn [zone_of]. split.
      * intros [H|[[-> H]|[H|[H|[]]]]]; simplify_eq; (split; [by constructor|by left]).
      * intros [H [->|H']]; [|congruence]. inversion H as [| |? ? Hi|?|ip0 ? H4 Hi]; subst; [by auto..|].
        exfalso. apply not_true_iff_false in E. apply E, Is4In6_spec.
        change (0xFFFF * 2 ^ 32) with (65535 * 4294967296). change (2 ^ 32) with 4294967296 in Hi.
        Z.to_euclidean_division_equations. lia.
Qed.

(** ** Properties *)

(** An address is refused exactly when it is one of those the README promises a pushed client
    never connects to (169.254.0.0/16, fe80::/10, 100.100.100.200, fd00:ec2::254, or an IPv6 address
    mapping one of the IPv4 ones) and it carries no zone, which a mapped address drops: a zone
    defeats the check of every other IPv6 address, since [Prefix.Contains] and [==] both tell it
    apart. *)
Lemma RefusedAddr_exact a :
  wf_addr a →
  (RefusedAddr a = true ↔ metadata_or_link_local a ∧ (zone_of a = EmptyString ∨ Is4In6 a = true)) ∧
  (zone_of a = EmptyString → RefusedAddr a = true ↔ metadata_or_link_local a) ∧
  (zone_of a ≠ EmptyString → Is4In6 a = false → RefusedAddr a = false).
Proof.
  intros Hwf. pose proof (RefusedAddr_iff a Hwf) as Hi. split_and!; [done|naive_solver|].
  intros Hz H4. apply not_true_is_false. rewrite Hi, H4. naive_solver.
Qed.

Lemma RefusedAddr_exact_witness :
  RefusedAddr (Addr4 (ip4 169 254 169 254)) = true ∧
  metadata_or_link_local (Addr6 (ip6 [0xfe80; 0; 0; 0; 0; 0; 0; 1]) "eth0") ∧
  RefusedAddr (Addr6 (ip6 [0xfe80; 0; 0; 0; 0; 0; 0; 1]) "eth0") = false.
Proof.
  assert (H4 : wf_addr (Addr4 (ip4 169 254 169 254))) by (vm_compute; split; congruence).
  assert (H6 : wf_addr (Addr6 (ip6 [0xfe80; 0; 0; 0; 0; 0; 0; 1]) "eth0")) by (vm_compute; split; congruence).
  split_and!.
  - apply (RefusedAddr_exact (Addr4 (ip4 169 254 169 254)) H4); [reflexivity|]. constructor. vm_compute. split; congruence.
  - constructor. vm_compute. split; congruence.
  - apply (RefusedAddr_exact (Addr6 (ip6 [0xfe80; 0; 0; 0; 0; 0; 0; 1]) "eth0") H6); [discriminate|reflexivity].
Defined.
