(* ===== verification/Clients.v ===== *)
(** * internal/adapters/clients.go: adapter types, client settings and their validation

    The catalog of adapter types, [ClientSpec] with [PrepareSpec] (every branch, in the order of
    the code), the settings fingerprint [specHash], and what a listing shows of a client
    ([info], [RedactURL]).  The catalog's [build] functions are the class [ClientFactory] of
    Registry.v. *)

From S2P Require Import Prelude GoStrings GoUrl JsonText JsonTextSpec Sha256 Adapters Responses.
From Stdlib Require Import Ascii.

Definition ProtocolUsenet : string := "usenet".
Definition ProtocolTorrent : string := "torrent".
Definition ProtocolHTTP : string := "http".

Definition AuthBasic : string := "basic".
Definition AuthToken : string := "token".
Definition AuthNone : string := "none".

(** [SourceEnv] and [SourceAPI]. *)
Inductive Source := SourceEnv | SourceAPI.

#[export] Instance Source_eq_dec : EqDecision Source.
Proof. solve_decision. Defined.

Definition Source_string (s : Source) : string :=
  match s with SourceEnv => "env" | SourceAPI => "api" end.

(** ** The catalog *)

Record TypeInfo := MkTypeInfo {
  ti_Type : string;
  ti_Protocols : list string;
  ti_Auth : list string;
  ti_AcceptsPayload : bool;
  ti_SupportsSavePath : bool;
  ti_CanPause : bool
}.

Definition catalog : list TypeInfo :=
  [MkTypeInfo "nzbget" [ProtocolUsenet] [AuthBasic; AuthNone] true false true;
   MkTypeInfo "odownloader" [ProtocolHTTP] [AuthToken; AuthNone] false false false;
   MkTypeInfo "qbittorrent" [ProtocolTorrent] [AuthBasic; AuthNone] true true true].

(** [Types]: a copy of the catalog. *)
Definition Types : list TypeInfo := catalog.

Definition LookupType (name : string) : option TypeInfo :=
  list_find (λ t, ti_Type t = name) catalog ≫= λ it, Some it.2.

(** ** Client settings *)

Record ClientSpec := MkClientSpec {
  spec_ID : string;
  spec_Type : string;
  spec_BaseURL : string;
  spec_Auth : string;
  spec_Username : string;
  spec_Secret : string;
  spec_Category : string;
  spec_SavePath : string;
  spec_Protocols : list string
}.

#[export] Instance ClientSpec_eq_dec : EqDecision ClientSpec.
Proof. solve_decision. Defined.

Record ClientInfo := MkClientInfo {
  info_ID : string;
  info_Type : string;
  info_BaseURL : string;
  info_Auth : string;
  info_Username : string;
  info_Category : string;
  info_SavePath : string;
  info_Protocols : list string;
  info_Source : option Source;   (* omitted from the JSON when empty *)
  info_SecretSet : bool
}.

(** [RedactURL]: the URL without its userinfo; one that does not parse is dropped. *)
Definition RedactURL (raw : string) : string :=
  match Parse raw with
  | None => EmptyString
  | Some u =>
      match User u with
      | None => raw
      | Some _ =>
          URL_String (MkURL (Scheme u) (Opaque u) None (Host u) (Path u) (RawPath u) (OmitHost u)
                            (ForceQuery u) (RawQuery u) (Fragment u) (RawFragment u))
      end
  end.

(** [s.info(source)]. *)
Definition info (s : ClientSpec) (source : option Source) : ClientInfo :=
  MkClientInfo (spec_ID s) (spec_Type s) (RedactURL (spec_BaseURL s)) (spec_Auth s) (spec_Username s)
    (spec_Category s) (spec_SavePath s) (spec_Protocols s) source
    (negb (bool_decide (spec_Secret s = EmptyString))).

(** [MarshalJSON]: the value that is encoded in the spec's place. *)
Definition MarshalJSON (s : ClientSpec) : ClientInfo := info s None.

(** [LogValue]: the attributes a log line shows, a boolean or a string each. *)
Definition LogValue (s : ClientSpec) : list (string * (bool + string)) :=
  [("id", inr (spec_ID s)); ("type", inr (spec_Type s)); ("base_url", inr (RedactURL (spec_BaseURL s)));
   ("auth", inr (spec_Auth s)); ("category", inr (spec_Category s));
   ("secret_set", inl (negb (bool_decide (spec_Secret s = EmptyString))))].

(** [s.Secret = ""]. *)
Definition drop_secret (s : ClientSpec) : ClientSpec :=
  MkClientSpec (spec_ID s) (spec_Type s) (spec_BaseURL s) (spec_Auth s) (spec_Username s) EmptyString
    (spec_Category s) (spec_SavePath s) (spec_Protocols s).

(** The pattern [^[a-z0-9][a-z0-9-]{0,39}$]. *)
Definition id_char (c : ascii) : bool := in_range 0x61 0x7A c || is_digit c.

Definition ValidClientID (id : string) : bool :=
  match chars id with
  | [] => false
  | c :: t => id_char c && forallb (λ c, id_char c || (byte c =? 0x2D)%Z) t && (length t <=? 39)%nat
  end.

Definition maxBaseURL : Z := 2048.
Definition maxUsername : Z := 256.
Definition maxSecret : Z := 4096.
Definition maxCategory : Z := 128.
Definition maxSavePath : Z := 1024.

(** ** [PrepareSpec] *)

Definition err_type : error :=
  ErrorString ("type must be one of " +:+ Join (ti_Type <$> catalog) ", ").
Definition err_url : error := ErrorString "baseUrl must be an absolute http or https URL".
Definition err_credentials : error :=
  ErrorString "baseUrl must not carry credentials; use username and secret".
Definition err_query : error := ErrorString "baseUrl must not have a query or fragment".
Definition err_auth (ti : TypeInfo) : error :=
  ErrorString ("auth must be one of " +:+ Join (ti_Auth ti) ", " +:+ " for " +:+ ti_Type ti).
Definition err_username : error := ErrorString "username is required for basic auth".
Definition err_token : error := ErrorString "secret is required for token auth".
Definition err_long (name : string) (limit : Z) : error :=
  ErrorString (name +:+ " is longer than " +:+ Itoa limit +:+ " bytes").
Definition err_control (name : string) : error :=
  ErrorString (name +:+ " must not contain control characters").
Definition err_protocols (ti : TypeInfo) : error :=
  ErrorString ("protocols for " +:+ ti_Type ti +:+ " must be within " +:+ Join (ti_Protocols ti) ", ").

(** The URL rules, on the trimmed [raw]; the normalized base URL. *)
Definition check_url (raw : string) : result error string :=
  match Parse raw with
  | None => Err err_url
  | Some u =>
      if bool_decide (raw = EmptyString) || (maxBaseURL <? len raw)%Z then Err err_url
      else if negb (bool_decide (Scheme u = "http")) && negb (bool_decide (Scheme u = "https")) then Err err_url
      else if bool_decide (Host u = EmptyString) then Err err_url
      else if negb (bool_decide (User u = None)) then Err err_credentials
      else if ContainsAny raw "?#" then Err err_query
      else Ok (TrimRightByte raw "/")
  end.

(** The credentials rules: the username and secret the auth mode keeps. *)
Definition check_auth (ti : TypeInfo) (auth username secret : string) : result error (string * string) :=
  if negb (bool_decide (auth ∈ ti_Auth ti)) then Err (err_auth ti)
  else if bool_decide (auth = AuthBasic) then
    if bool_decide (username = EmptyString) then Err err_username else Ok (username, secret)
  else if bool_decide (auth = AuthToken) then
    if bool_decide (secret = EmptyString) then Err err_token else Ok (EmptyString, secret)
  else if bool_decide (auth = AuthNone) then Ok (EmptyString, EmptyString)
  else Ok (username, secret).

(** The loop over the length and control character limits. *)
Fixpoint check_fields (l : list (string * string * Z)) : result error unit :=
  match l with
  | [] => Ok tt
  | (name, value, limit) :: l' =>
      if (limit <? len value)%Z then Err (err_long name limit)
      else if ContainsFunc value isControl then Err (err_control name)
      else check_fields l'
  end.

(** The loop over the protocols, which keeps the first of each. *)
Fixpoint check_protocols (ti : TypeInfo) (ps acc : list string) : result error (list string) :=
  match ps with
  | [] => Ok acc
  | p :: ps' =>
      let p := TrimSpace p in
      if negb (bool_decide (p ∈ ti_Protocols ti)) then Err (err_protocols ti)
      else check_protocols ti ps' (if bool_decide (p ∈ acc) then acc else acc ++ [p])
  end.

Local Open Scope gw_scope.

Definition PrepareSpec (s : ClientSpec) : result error ClientSpec :=
  let ID := TrimSpace (spec_ID s) in
  let Type_ := TrimSpace (spec_Type s) in
  match LookupType Type_ with
  | None => Err err_type
  | Some ti =>
      let? BaseURL := check_url (TrimSpace (spec_BaseURL s)) in
      let Auth := TrimSpace (spec_Auth s) in
      let? creds := check_auth ti Auth (TrimSpace (spec_Username s)) (spec_Secret s) in
      let Category := TrimSpace (spec_Category s) in
      let SavePath := TrimSpace (spec_SavePath s) in
      let? _ := check_fields
        [("username", creds.1, maxUsername); ("secret", creds.2, maxSecret);
         ("category", Category, maxCategory); ("savePath", SavePath, maxSavePath)] in
      let? ps := check_protocols ti (spec_Protocols s) [] in
      let ps := if bool_decide (ps = []) then ti_Protocols ti else ps in
      Ok (MkClientSpec ID Type_ BaseURL Auth creds.1 creds.2 Category SavePath (sort_strings ps))
  end.

(** ** [specHash] *)

(** [fmt.Fprintf(h, "%d:%s|", len(f), f)]. *)
Definition hash_field (f : string) : string := Itoa (len f) +:+ ":" +:+ f +:+ "|".

Definition hash_fields (s : ClientSpec) : list string :=
  [spec_Type s; spec_BaseURL s; spec_Auth s; spec_Username s; spec_Secret s; spec_Category s;
   spec_SavePath s; Join (spec_Protocols s) ","].

Definition hash_input (s : ClientSpec) : string := foldr String.append EmptyString (hash_field <$> hash_fields s).

Definition specHash (s : ClientSpec) : list Z := sha256 (hash_input s).

Example PrepareSpec_normalizes :
  PrepareSpec (MkClientSpec " usenet " "nzbget" "http://nzbget:6789/ " " basic" " gateway "
                            "s3cret" " downloads " EmptyString []) =
  Ok (MkClientSpec "usenet" "nzbget" "http://nzbget:6789" "basic" "gateway" "s3cret" "downloads"
                   EmptyString ["usenet"]).
Proof. vm_compute. reflexivity. Qed.

Example PrepareSpec_refuses_userinfo :
  PrepareSpec (MkClientSpec "x" "nzbget" "http://u:p@host" "none" EmptyString EmptyString EmptyString
                            EmptyString []) = Err err_credentials.
Proof. vm_compute. reflexivity. Qed.

(** ** Facts about the validation *)

Lemma LookupType_Some name ti : LookupType name = Some ti → ti ∈ catalog ∧ ti_Type ti = name.
Proof.
  unfold LookupType. intros H. apply bind_Some in H as ([i t] & Hf & [= <-]).
  apply list_find_Some in Hf as (Hi & Ht & _). split; [|done].
  apply list_elem_of_lookup. by exists i.
Qed.

(** A catalog entry offers protocols, without duplicates and in order, and known auth modes. *)
Lemma catalog_entry ti :
  ti ∈ catalog →
  ti_Protocols ti ≠ [] ∧ NoDup (ti_Protocols ti) ∧
  (∀ a, a ∈ ti_Auth ti → a = AuthBasic ∨ a = AuthToken ∨ a = AuthNone) ∧
  Forall (λ p, TrimSpace p = p ∧ "," %char ∉ chars p) (ti_Protocols ti).
Proof.
  unfold catalog. rewrite !elem_of_cons, elem_of_nil.
  intros [->|[->|[->|[]]]]; simpl; (split_and!; [done|apply (bool_decide_eq_true_1 _); vm_compute; done| |]).
  1,3,5: intros a; rewrite !elem_of_cons, elem_of_nil; naive_solver.
  all: constructor; [|done]; split; [vm_compute; done|apply (bool_decide_eq_true_1 (¬ _)); vm_compute; done].
Qed.

Lemma check_url_ok raw b :
  check_url raw = Ok b →
  ∃ u, Parse raw = Some u ∧ raw ≠ EmptyString ∧ (len raw ≤ maxBaseURL)%Z ∧
       (Scheme u = "http" ∨ Scheme u = "https") ∧ Host u ≠ EmptyString ∧ User u = None ∧
       ContainsAny raw "?#" = false ∧ b = TrimRightByte raw "/".
Proof.
  unfold check_url. destruct (Parse raw) as [u|] eqn:Hp; [|done].
  destruct (bool_decide (raw = EmptyString) || (maxBaseURL <? len raw)%Z) eqn:E1; [done|].
  destruct (negb (bool_decide (Scheme u = "http")) && negb (bool_decide (Scheme u = "https"))) eqn:E2; [done|].
  destruct (bool_decide (Host u = EmptyString)) eqn:E3; [done|].
  destruct (negb (bool_decide (User u = None))) eqn:E4; [done|].
  destruct (ContainsAny raw "?#") eqn:E5; [done|]. intros [= <-]. exists u.
  bool_to_prop. split_and!; try done.
  apply andb_false_iff in E2 as [E2|E2]; bool_to_prop; auto.
Qed.

Lemma ContainsAny_false s cs c : ContainsAny s cs = false → c ∈ chars cs → c ∉ chars s.
Proof.
  unfold ContainsAny. intros H Hc Hin. apply not_true_iff_false in H. apply H.
  apply existsb_exists. exists c. split; [by apply list_elem_of_In|]. by apply bool_decide_eq_true.
Qed.

(** A base URL is accepted again as it is once normalized. *)
Lemma check_url_idemp raw b : check_url raw = Ok b → check_url b = Ok b.
Proof.
  intros H. destruct (check_url_ok _ _ H) as (u & Hp & Hne & Hlen & Hs & Hh & Hu & Hq & ->).
  assert (HqQ : "?"%char ∉ chars raw) by (apply (ContainsAny_false _ _ _ Hq); vm_compute; set_solver).
  assert (HqH : "#"%char ∉ chars raw) by (apply (ContainsAny_false _ _ _ Hq); vm_compute; set_solver).
  destruct (Parse_trim_slashes raw u Hp HqQ HqH) as (u' & Hp' & Hs' & Hh' & Hu'); [|done|].
  { destruct Hs as [-> | ->]; done. }
  destruct (TrimRightByte_prefix raw "/") as (t & Ht & _).
  assert (Hlen' : (len (TrimRightByte raw "/") ≤ maxBaseURL)%Z).
  { rewrite Ht, len_app in Hlen. unfold len in *. lia. }
  unfold check_url. rewrite Hp', Hs', Hh', Hu', Hu.
  rewrite (bool_decide_eq_false_2 (TrimRightByte raw "/" = EmptyString)).
  2:{ intros E. rewrite E in Hp'. vm_compute in Hp'. injection Hp' as <-.
      simpl in Hs'. destruct Hs as [Hs|Hs]; rewrite Hs in Hs'; discriminate Hs'. }
  rewrite (proj2 (Z.ltb_ge _ _) Hlen'). cbn [orb].
  rewrite (bool_decide_eq_false_2 _ Hh), (bool_decide_eq_true_2 (None = None)) by done.
  replace (negb (bool_decide (Scheme u = "http")) && negb (bool_decide (Scheme u = "https"))) with false
    by (destruct Hs as [-> | ->]; done).
  cbn [negb]. rewrite TrimRightByte_idemp.
  destruct (ContainsAny (TrimRightByte raw "/") "?#") eqn:E; [|done]. exfalso.
  unfold ContainsAny in E. rewrite existsb_exists in E. destruct E as (c & Hc & Hcq).
  apply list_elem_of_In in Hc. bool_to_prop.
  apply (ContainsAny_false _ _ _ Hq Hcq). rewrite Ht, chars_app. set_solver.
Qed.

Lemma check_auth_ok ti auth u s u' s' :
  check_auth ti auth u s = Ok (u', s') → check_auth ti auth u' s' = Ok (u', s') ∧ auth ∈ ti_Auth ti ∧
  (auth = AuthBasic → u' ≠ EmptyString) ∧ (auth = AuthToken → u' = EmptyString ∧ s' ≠ EmptyString) ∧
  (auth = AuthNone → u' = EmptyString ∧ s' = EmptyString) ∧ (u' = u ∨ u' = EmptyString) ∧ (s' = s ∨ s' = EmptyString).
Proof.
  unfold check_auth. destruct (bool_decide (auth ∈ ti_Auth ti)) eqn:Ha; [|done]. cbn [negb].
  destruct (bool_decide (auth = AuthBasic)) eqn:Hb.
  { bool_to_prop. subst. destruct (bool_decide (u = EmptyString)) eqn:E; [done|].
    intros [= <- <-]. rewrite E. bool_to_prop. split_and!; auto; done. }
  destruct (bool_decide (auth = AuthToken)) eqn:Ht.
  { bool_to_prop. subst. destruct (bool_decide (s = EmptyString)) eqn:E; [done|].
    intros [= <- <-]. rewrite E. bool_to_prop. split_and!; auto; done. }
  destruct (bool_decide (auth = AuthNone)) eqn:Hn; intros [= <- <-]; bool_to_prop; subst; split_and!; auto; done.
Qed.

Lemma check_fields_ok l :
  check_fields l = Ok tt ↔
  Forall (λ f, (len f.1.2 ≤ f.2)%Z ∧ ContainsFunc f.1.2 isControl = false) l.
Proof.
  induction l as [|[[name value] limit] l IH]; simpl; [done|].
  rewrite Forall_cons, <- IH. cbn [fst snd].
  destruct (limit <? len value)%Z eqn:E1; bool_to_prop; [split; [done|]; lia|].
  destruct (ContainsFunc value isControl); [split; [done|]; naive_solver|]. naive_solver.
Qed.

Lemma check_protocols_ok ti ps acc out :
  check_protocols ti ps acc = Ok out → NoDup acc → Forall (λ p, p ∈ ti_Protocols ti) acc →
  NoDup out ∧ Forall (λ p, p ∈ ti_Protocols ti) out ∧
  (∀ p, p ∈ out ↔ p ∈ acc ∨ p ∈ (TrimSpace <$> ps)).
Proof.
  revert acc. induction ps as [|p ps IH]; intros acc H Hnd Hall; simpl in H.
  { injection H as <-. split_and!; [done|done|]. intros p. rewrite fmap_nil, elem_of_nil. naive_solver. }
  destruct (bool_decide (TrimSpace p ∈ ti_Protocols ti)) eqn:Hp; [|done]. bool_to_prop. simpl in H.
  assert (Hacc : NoDup (if bool_decide (TrimSpace p ∈ acc) then acc else acc ++ [TrimSpace p]) ∧
    Forall (λ p, p ∈ ti_Protocols ti) (if bool_decide (TrimSpace p ∈ acc) then acc else acc ++ [TrimSpace p])).
  { case_bool_decide; [done|]. split.
    - apply NoDup_app. split_and!; [done|set_solver|apply NoDup_singleton].
    - apply Forall_app. split; [done|]. by constructor. }
  destruct Hacc as [Hnd' Hall']. destruct (IH _ H Hnd' Hall') as (H1 & H2 & H3).
  split_and!; [done|done|]. intros q. rewrite H3. csimpl. case_bool_decide; set_solver.
Qed.

(** What [PrepareSpec] promises of the settings it returns. *)
Record valid_spec (s : ClientSpec) (ti : TypeInfo) : Prop := {
  vs_type : LookupType (spec_Type s) = Some ti;
  vs_url : check_url (spec_BaseURL s) = Ok (spec_BaseURL s);
  vs_auth : check_auth ti (spec_Auth s) (spec_Username s) (spec_Secret s) =
            Ok (spec_Username s, spec_Secret s);
  vs_fields : check_fields
    [("username", spec_Username s, maxUsername); ("secret", spec_Secret s, maxSecret);
     ("category", spec_Category s, maxCategory); ("savePath", spec_SavePath s, maxSavePath)] = Ok tt;
  vs_protocols : spec_Protocols s ≠ [] ∧ NoDup (spec_Protocols s) ∧
                 StronglySorted String.le (spec_Protocols s) ∧
                 Forall (λ p, p ∈ ti_Protocols ti) (spec_Protocols s);
  vs_trimmed : TrimSpace (spec_ID s) = spec_ID s ∧ TrimSpace (spec_Type s) = spec_Type s ∧
               TrimSpace (spec_Auth s) = spec_Auth s ∧ TrimSpace (spec_Username s) = spec_Username s ∧
               TrimSpace (spec_Category s) = spec_Category s ∧ TrimSpace (spec_SavePath s) = spec_SavePath s
}.

Lemma PrepareSpec_inv s s' :
  PrepareSpec s = Ok s' →
  ∃ ti b creds ps,
    LookupType (TrimSpace (spec_Type s)) = Some ti ∧
    check_url (TrimSpace (spec_BaseURL s)) = Ok b ∧
    check_auth ti (TrimSpace (spec_Auth s)) (TrimSpace (spec_Username s)) (spec_Secret s) = Ok creds ∧
    check_fields [("username", creds.1, maxUsername); ("secret", creds.2, maxSecret);
      ("category", TrimSpace (spec_Category s), maxCategory);
      ("savePath", TrimSpace (spec_SavePath s), maxSavePath)] = Ok tt ∧
    check_protocols ti (spec_Protocols s) [] = Ok ps ∧
    s' = MkClientSpec (TrimSpace (spec_ID s)) (TrimSpace (spec_Type s)) b (TrimSpace (spec_Auth s))
           creds.1 creds.2 (TrimSpace (spec_Category s)) (TrimSpace (spec_SavePath s))
           (sort_strings (if bool_decide (ps = []) then ti_Protocols ti else ps)).
Proof.
  unfold PrepareSpec. destruct (LookupType (TrimSpace (spec_Type s))) as [ti|] eqn:Ht; [|done].
  destruct (check_url (TrimSpace (spec_BaseURL s))) as [b|] eqn:Hb; [|done].
  destruct (check_auth ti (TrimSpace (spec_Auth s)) (TrimSpace (spec_Username s)) (spec_Secret s))
    as [creds|] eqn:Ha; [|done].
  destruct (check_fields _) as [[]|] eqn:Hf; [|done].
  destruct (check_protocols ti (spec_Protocols s) []) as [ps|] eqn:Hp; [|done].
  intros [= <-]. by exists ti, b, creds, ps.
Qed.

Lemma PrepareSpec_valid_aux s s' : PrepareSpec s = Ok s' → ∃ ti, valid_spec s' ti.
Proof.
  intros H. destruct (PrepareSpec_inv s s' H) as (ti & b & [u k] & ps & Ht & Hb & Ha & Hf & Hp & ->).
  exists ti. pose proof (LookupType_Some _ _ Ht) as [Hcat _].
  destruct (catalog_entry ti Hcat) as (Hne & Hnd & _ & _).
  destruct (check_protocols_ok ti _ _ _ Hp (NoDup_nil_2) (List.Forall_nil _)) as (Hpn & Hpa & _).
  destruct (check_auth_ok _ _ _ _ _ _ Ha) as (Ha' & _ & _ & _ & _ & Hu & _).
  constructor; cbn [spec_ID spec_Type spec_BaseURL spec_Auth spec_Username spec_Secret spec_Category
    spec_SavePath spec_Protocols]; try done.
  - by apply (check_url_idemp (TrimSpace (spec_BaseURL s))).
  - assert (Hchoice : ∀ l : list string, l ≠ [] → NoDup l → Forall (λ p, p ∈ ti_Protocols ti) l →
      sort_strings l ≠ [] ∧ NoDup (sort_strings l) ∧ StronglySorted String.le (sort_strings l) ∧
      Forall (λ p, p ∈ ti_Protocols ti) (sort_strings l)).
    { intros l Hl Hln Hla. split_and!.
      - intros E. apply Hl, Permutation_nil_r. by rewrite <- E, sort_strings_perm.
      - by rewrite sort_strings_perm.
      - apply sort_strings_sorted.
      - by rewrite sort_strings_perm. }
    case_bool_decide; apply Hchoice; try done. by apply Forall_forall.
  - rewrite !TrimSpace_idemp. split_and!; try done. destruct Hu as [-> | ->]; [apply TrimSpace_idemp|done].
Qed.

Lemma check_protocols_id ti ps acc :
  Forall (λ p, p ∈ ti_Protocols ti ∧ TrimSpace p = p) ps → NoDup (acc ++ ps) →
  check_protocols ti ps acc = Ok (acc ++ ps).
Proof.
  intros H. revert acc. induction H as [|p ps [Hp Ht] _ IH]; intros acc Hnd; simpl.
  - by rewrite app_nil_r.
  - rewrite Ht, bool_decide_eq_true_2 by done. cbn [negb].
    rewrite bool_decide_eq_false_2.
    + rewrite IH, <- app_assoc; [done|]. by rewrite <- app_assoc.
    + apply NoDup_app in Hnd as (_ & Hn & _). intros Hin. apply (Hn p Hin). by left.
Qed.

(** Validated settings are validated again to themselves, when the base URL carries no blank at
    its end (a trimmed URL can end in one only if a slash followed it). *)
Lemma PrepareSpec_fixed s ti :
  valid_spec s ti → TrimSpace (spec_BaseURL s) = spec_BaseURL s → PrepareSpec s = Ok s.
Proof.
  intros [Ht Hu Ha Hf Hp (H1 & H2 & H3 & H4 & H5 & H6)] H7.
  pose proof (LookupType_Some _ _ Ht) as [Hcat _].
  destruct (catalog_entry ti Hcat) as (_ & _ & _ & Htrim). rewrite Forall_forall in Htrim.
  destruct Hp as (Hne & Hnd & Hs & Hall).
  unfold PrepareSpec. rewrite H1, H2, H3, H4, H5, H6, H7, Ht, Hu, Ha. cbn [fst snd]. rewrite Hf.
  rewrite (check_protocols_id ti (spec_Protocols s) []); cbn [app]; [| |done].
  2:{ rewrite Forall_forall in Hall |- *. intros p Hin. split; [by apply Hall|].
      by apply Htrim, Hall. }
  rewrite (bool_decide_eq_false_2 _ Hne).
  assert (Hsort : sort_strings (spec_Protocols s) = spec_Protocols s).
  { apply (StronglySorted_unique String.le); [apply sort_strings_sorted|done|apply sort_strings_perm]. }
  rewrite Hsort. by destruct s.
Qed.

Lemma PrepareSpec_BaseURL s s' :
  PrepareSpec s = Ok s' → spec_BaseURL s' = TrimRightByte (TrimSpace (spec_BaseURL s)) "/".
Proof.
  unfold PrepareSpec. intros H. split_match_in H; try discriminate H; injection H as <-; cbn;
  match goal with H : check_url _ = Ok _ |- _ => apply check_url_ok in H; naive_solver end.
Qed.

(** A string trimming leaves as it was, even when a byte is trimmed after the blanks, has no blanks. *)
Lemma trimmed_fixpoint s c : s = TrimRightByte (TrimSpace s) c → TrimSpace s = s.
Proof.
  intros Hs. destruct (TrimRightByte_prefix (TrimSpace s) c) as (t & Ht & _). rewrite <- Hs in Ht.
  destruct (TrimSpace_within s) as (a & b & Hsub). rewrite Ht, chars_app in Hsub.
  apply (f_equal (@length _)) in Hsub. rewrite !length_app in Hsub.
  assert (Hn : chars t = []) by (apply nil_length_inv; lia).
  rewrite Ht. apply chars_inj. by rewrite chars_app, Hn, app_nil_r.
Qed.

(** The messages [PrepareSpec] can answer with: a fixed list, computed from the catalog alone. *)
Definition spec_errors : list error :=
  [err_type; err_url; err_credentials; err_query; err_username; err_token;
   err_long "username" maxUsername; err_long "secret" maxSecret; err_long "category" maxCategory;
   err_long "savePath" maxSavePath; err_control "username"; err_control "secret";
   err_control "category"; err_control "savePath"]
  ++ (err_auth <$> catalog) ++ (err_protocols <$> catalog).

Ltac in_spec_errors :=
  unfold spec_errors; apply elem_of_app; left;
  repeat (apply elem_of_cons; first [by left | right]).

Lemma check_fields_err u k c p e :
  check_fields [("username", u, maxUsername); ("secret", k, maxSecret); ("category", c, maxCategory);
                ("savePath", p, maxSavePath)] = Err e → e ∈ spec_errors.
Proof.
  intros H. simpl in H. split_match_in H; try discriminate H; injection H as <-; in_spec_errors.
Qed.

Lemma check_protocols_err ti ps acc e :
  check_protocols ti ps acc = Err e → e = err_protocols ti.
Proof.
  revert acc. induction ps as [|p ps IH]; intros acc; simpl; [done|].
  destruct (negb _); [by intros [= <-]|]. apply IH.
Qed.

Lemma check_auth_err ti auth u k e :
  check_auth ti auth u k = Err e → e = err_auth ti ∨ e = err_username ∨ e = err_token.
Proof.
  unfold check_auth. intros H. split_match_in H; try discriminate H; injection H as <-; auto.
Qed.

Lemma check_url_err raw e :
  check_url raw = Err e → e = err_url ∨ e = err_credentials ∨ e = err_query.
Proof.
  unfold check_url. intros H. split_match_in H; try discriminate H; injection H as <-; auto.
Qed.

(** *** The rules of the settings, in the words of the documentation *)

(** At most [limit] bytes, none of them a control character. *)
Definition plain (limit : Z) (s : string) : Prop :=
  (len s ≤ limit)%Z ∧ ∀ c, c ∈ chars s → (0x20 ≤ byte c)%Z ∧ byte c ≠ 0x7F%Z.

(** An absolute http or https URL of at most 2048 bytes, without credentials, query or fragment. *)
Definition base_url_ok (raw : string) : Prop :=
  (len raw ≤ 2048)%Z ∧ "?"%char ∉ chars raw ∧ "#"%char ∉ chars raw ∧
  ∃ u, Parse raw = Some u ∧ (Scheme u = "http" ∨ Scheme u = "https") ∧ Host u ≠ EmptyString ∧ User u = None.

(** The credentials that an auth mode uses, the others dropped. *)
Definition kept_username (s : ClientSpec) : string :=
  if decide (TrimSpace (spec_Auth s) = "basic") then TrimSpace (spec_Username s) else EmptyString.
Definition kept_secret (s : ClientSpec) : string :=
  if decide (TrimSpace (spec_Auth s) = "none") then EmptyString else spec_Secret s.

(** Settings that are to be accepted. *)
Record acceptable (s : ClientSpec) (ti : TypeInfo) : Prop := {
  ac_type : ti ∈ catalog ∧ ti_Type ti = TrimSpace (spec_Type s);
  ac_url : base_url_ok (TrimSpace (spec_BaseURL s));
  ac_auth : TrimSpace (spec_Auth s) ∈ ti_Auth ti;
  ac_basic : TrimSpace (spec_Auth s) = "basic" → TrimSpace (spec_Username s) ≠ EmptyString;
  ac_token : TrimSpace (spec_Auth s) = "token" → spec_Secret s ≠ EmptyString;
  ac_fields : plain 256 (kept_username s) ∧ plain 4096 (kept_secret s) ∧
              plain 128 (TrimSpace (spec_Category s)) ∧ plain 1024 (TrimSpace (spec_SavePath s));
  ac_protocols : ∀ p, p ∈ spec_Protocols s → TrimSpace p ∈ ti_Protocols ti
}.

(** [s'] is the normal form of [s]. *)
Record normal_form (s : ClientSpec) (ti : TypeInfo) (s' : ClientSpec) : Prop := {
  nf_trimmed : spec_ID s' = TrimSpace (spec_ID s) ∧ spec_Type s' = TrimSpace (spec_Type s) ∧
               spec_Auth s' = TrimSpace (spec_Auth s) ∧ spec_Category s' = TrimSpace (spec_Category s) ∧
               spec_SavePath s' = TrimSpace (spec_SavePath s);
  nf_credentials : spec_Username s' = kept_username s ∧ spec_Secret s' = kept_secret s;
  nf_url : (∃ slashes, chars (TrimSpace (spec_BaseURL s)) = chars (spec_BaseURL s') ++ slashes ∧
                       Forall (λ c, c = "/"%char) slashes) ∧
           last (chars (spec_BaseURL s')) ≠ Some "/"%char;
  nf_protocols : NoDup (spec_Protocols s') ∧ StronglySorted String.le (spec_Protocols s') ∧
                 ∀ p, p ∈ spec_Protocols s' ↔
                      p ∈ (if decide (spec_Protocols s = []) then ti_Protocols ti else TrimSpace <$> spec_Protocols s)
}.

(** Settings fit to build an adapter from. *)
Record sound_settings (s : ClientSpec) (ti : TypeInfo) : Prop := {
  so_type : ti ∈ catalog ∧ ti_Type ti = spec_Type s;
  so_url : base_url_ok (spec_BaseURL s);
  so_auth : spec_Auth s ∈ ti_Auth ti ∧
            (spec_Auth s = "basic" ∧ spec_Username s ≠ EmptyString ∨
             spec_Auth s = "token" ∧ spec_Username s = EmptyString ∧ spec_Secret s ≠ EmptyString ∨
             spec_Auth s = "none" ∧ spec_Username s = EmptyString ∧ spec_Secret s = EmptyString);
  so_fields : plain 256 (spec_Username s) ∧ plain 4096 (spec_Secret s) ∧
              plain 128 (spec_Category s) ∧ plain 1024 (spec_SavePath s);
  so_protocols : spec_Protocols s ≠ [] ∧ ∀ p, p ∈ spec_Protocols s → p ∈ ti_Protocols ti
}.

Lemma isControl_free s :
  ContainsFunc s isControl = false ↔ ∀ c, c ∈ chars s → (0x20 ≤ byte c)%Z ∧ byte c ≠ 0x7F%Z.
Proof.
  unfold ContainsFunc. rewrite <- not_true_iff_false, existsb_exists. split.
  - intros H c Hc. destruct (decide (0x20 ≤ byte c ∧ byte c ≠ 0x7F)%Z) as [?|Hn]; [done|exfalso].
    apply H. exists (MkRune (byte c) [c]). unfold isControl. cbn [rcode].
    split; [apply list_elem_of_In, ascii_byte_rune; [done|lia]|lia].
  - intros H (r & Hr%list_elem_of_In & Hc). pose proof (runes_decoded (chars s)) as Hd.
    rewrite Forall_forall in Hd. unfold isControl in Hc.
    destruct (low_code_byte r (Hd r Hr)) as (c & -> & _); [bool_to_prop; lia|]. cbn [rcode] in Hc.
    destruct (H c); [|bool_to_prop; lia]. rewrite <- (enc_of_runes (chars s)). apply elem_of_enc_of.
    exists (MkRune (byte c) [c]). split; [done|by apply list_elem_of_singleton].
Qed.

Lemma check_fields_plain u k c p :
  check_fields [("username", u, maxUsername); ("secret", k, maxSecret); ("category", c, maxCategory);
                ("savePath", p, maxSavePath)] = Ok tt ↔
  plain 256 u ∧ plain 4096 k ∧ plain 128 c ∧ plain 1024 p.
Proof.
  rewrite check_fields_ok. repeat setoid_rewrite Forall_cons. cbn [fst snd].
  rewrite !isControl_free. unfold plain, maxUsername, maxSecret, maxCategory, maxSavePath.
  rewrite Forall_nil. tauto.
Qed.

Lemma ContainsAny_query raw : ContainsAny raw "?#" = false ↔ "?"%char ∉ chars raw ∧ "#"%char ∉ chars raw.
Proof.
  split.
  - intros H. split; apply (ContainsAny_false _ _ _ H); vm_compute; set_solver.
  - intros [H1 H2]. apply not_true_iff_false. unfold ContainsAny. rewrite existsb_exists.
    intros (c & Hc%list_elem_of_In & Hin). bool_to_prop. change (chars "?#") with ["?"%char; "#"%char] in Hin. set_solver.
Qed.

Lemma check_url_iff raw : base_url_ok raw ↔ check_url raw = Ok (TrimRightByte raw "/").
Proof.
  split.
  - intros (Hl & H1 & H2 & u & Hp & Hs & Hh & Hu). change 2048%Z with maxBaseURL in Hl. unfold check_url. rewrite Hp.
    rewrite (bool_decide_eq_false_2 (raw = EmptyString)).
    2:{ intros ->. vm_compute in Hp. injection Hp as <-. by destruct Hh. }
    rewrite (proj2 (Z.ltb_ge _ _) Hl), (bool_decide_eq_false_2 _ Hh), (bool_decide_eq_true_2 _ Hu).
    rewrite (proj2 (ContainsAny_query raw)) by done. by destruct Hs as [-> | ->].
  - intros H. destruct (check_url_ok _ _ H) as (u & Hp & _ & Hl & Hs & Hh & Hu & Hq & _).
    apply ContainsAny_query in Hq as [H1 H2]. split_and!; [exact Hl|done|done|]. by exists u.
Qed.

#[local] Ltac auth_cases :=
  repeat case_bool_decide; repeat case_decide; try discriminate; try congruence; naive_solver.

Lemma check_auth_iff s ti :
  ti ∈ catalog →
  check_auth ti (TrimSpace (spec_Auth s)) (TrimSpace (spec_Username s)) (spec_Secret s) =
    Ok (kept_username s, kept_secret s) ↔
  TrimSpace (spec_Auth s) ∈ ti_Auth ti ∧
  (TrimSpace (spec_Auth s) = "basic" → TrimSpace (spec_Username s) ≠ EmptyString) ∧
  (TrimSpace (spec_Auth s) = "token" → spec_Secret s ≠ EmptyString).
Proof.
  intros Hc. destruct (catalog_entry ti Hc) as (_ & _ & Hm & _).
  unfold check_auth, kept_username, kept_secret, AuthBasic, AuthToken, AuthNone in *.
  destruct (decide (TrimSpace (spec_Auth s) ∈ ti_Auth ti)) as [Hin|Hin].
  - rewrite (bool_decide_eq_true_2 _ Hin). cbn [negb].
    destruct (Hm _ Hin) as [E|[E|E]]; rewrite E in *; clear Hm; by auth_cases.
  - rewrite (bool_decide_eq_false_2 _ Hin). cbn [negb]. naive_solver.
Qed.

Lemma check_auth_kept s ti creds :
  ti ∈ catalog → check_auth ti (TrimSpace (spec_Auth s)) (TrimSpace (spec_Username s)) (spec_Secret s) = Ok creds →
  creds = (kept_username s, kept_secret s).
Proof.
  intros Hc. destruct (catalog_entry ti Hc) as (_ & _ & Hm & _).
  unfold check_auth, kept_username, kept_secret, AuthBasic, AuthToken, AuthNone in *.
  destruct (decide (TrimSpace (spec_Auth s) ∈ ti_Auth ti)) as [Hin|Hin].
  - rewrite (bool_decide_eq_true_2 _ Hin). cbn [negb].
    destruct (Hm _ Hin) as [E|[E|E]]; rewrite E in *; clear Hm; by auth_cases.
  - rewrite (bool_decide_eq_false_2 _ Hin). done.
Qed.

Lemma check_protocols_accepts ti ps acc :
  (∀ p, p ∈ ps → TrimSpace p ∈ ti_Protocols ti) → ∃ out, check_protocols ti ps acc = Ok out.
Proof.
  revert acc. induction ps as [|p ps IH]; intros acc H; simpl; [by eexists|].
  rewrite bool_decide_eq_true_2 by (apply H; set_solver). cbn [negb]. apply IH. set_solver.
Qed.

Lemma TrimRightByte_last s c : last (chars (TrimRightByte s c)) ≠ Some c.
Proof.
  unfold TrimRightByte. rewrite chars_str. intros H%drop_end_last. by rewrite bool_decide_eq_true_2 in H.
Qed.

Lemma LookupType_catalog ti : ti ∈ catalog → LookupType (ti_Type ti) = Some ti.
Proof.
  unfold catalog. rewrite !elem_of_cons, elem_of_nil. intros [->|[->|[->|[]]]]; vm_compute; reflexivity.
Qed.

Lemma PrepareSpec_accepts s ti : acceptable s ti → ∃ s', PrepareSpec s = Ok s'.
Proof.
  intros [[Hc Ht] Hu Ha Hb Hk Hf Hp]. unfold PrepareSpec. rewrite <- Ht, (LookupType_catalog ti Hc).
  rewrite (proj1 (check_url_iff _) Hu). rewrite (proj2 (check_auth_iff s ti Hc)) by done. cbn [fst snd].
  rewrite (proj2 (check_fields_plain _ _ _ _)) by done.
  destruct (check_protocols_accepts ti (spec_Protocols s) [] Hp) as [out ->]. by eexists.
Qed.

Lemma check_protocols_inputs ti ps acc out :
  check_protocols ti ps acc = Ok out → ∀ p, p ∈ ps → TrimSpace p ∈ ti_Protocols ti.
Proof.
  revert acc. induction ps as [|q ps IH]; intros acc H p Hp; [by apply not_elem_of_nil in Hp|]. simpl in H.
  destruct (bool_decide (TrimSpace q ∈ ti_Protocols ti)) eqn:Hq; [|done]. bool_to_prop.
  apply elem_of_cons in Hp as [->|Hp]; [done|]. by apply (IH _ H).
Qed.

Lemma PrepareSpec_normal s s' :
  PrepareSpec s = Ok s' → ∃ ti, acceptable s ti ∧ normal_form s ti s'.
Proof.
  intros H. destruct (PrepareSpec_inv s s' H) as (ti & b & creds & ps & Ht & Hb & Ha & Hf & Hp & ->).
  destruct (LookupType_Some _ _ Ht) as [Hcat Hty]. destruct (catalog_entry ti Hcat) as (Hne & Hnd & _ & _).
  pose proof (check_auth_kept s ti creds Hcat Ha) as ->. cbn [fst snd] in *.
  apply (check_auth_iff s ti Hcat) in Ha as (Ha1 & Ha2 & Ha3). apply check_fields_plain in Hf.
  assert (Hbt : b = TrimRightByte (TrimSpace (spec_BaseURL s)) "/") by (apply check_url_ok in Hb; naive_solver).
  subst b. destruct (check_protocols_ok ti _ _ _ Hp (NoDup_nil_2) (List.Forall_nil _)) as (Hpn & _ & Hpe).
  exists ti. split; constructor; cbn [spec_ID spec_Type spec_BaseURL spec_Auth spec_Username spec_Secret
    spec_Category spec_SavePath spec_Protocols]; try done.
  - by apply check_url_iff.
  - by apply (check_protocols_inputs ti _ [] ps).
  - split; [|apply TrimRightByte_last]. destruct (TrimRightByte_prefix (TrimSpace (spec_BaseURL s)) "/") as (t & E & Hs).
    exists (chars t). split; [by rewrite E at 1; rewrite chars_app|done].
  - assert (Hl : ps = [] ↔ spec_Protocols s = []).
    { split; intros E; [|by rewrite E in Hp; injection Hp as <-].
      destruct (spec_Protocols s) as [|q qs]; [done|exfalso]. subst ps.
      apply (not_elem_of_nil (TrimSpace q)), Hpe. csimpl. set_solver. }
    split_and!; [rewrite sort_strings_perm; by case_bool_decide|apply sort_strings_sorted|]. intros p.
    rewrite elem_of_sort_strings. case_bool_decide as E1; case_decide as E2; try tauto. rewrite Hpe. set_solver.
Qed.

Lemma normal_form_sound s ti s' : acceptable s ti → normal_form s ti s' → check_url (spec_BaseURL s') = Ok (spec_BaseURL s') → sound_settings s' ti.
Proof.
  intros [[Hc Ht] Hu Ha Hb Hk Hf Hp] [(_ & Hty & Hau & Hca & Hsp) [Hun Hse] _ (_ & _ & Hps)] Hub.
  destruct (catalog_entry ti Hc) as (Hne & _ & Hm & _). unfold AuthBasic, AuthToken, AuthNone in Hm.
  constructor.
  - by rewrite Hty.
  - apply check_url_iff. rewrite Hub. apply check_url_ok in Hub as (? & _ & _ & _ & _ & _ & _ & _ & E). by rewrite <- E.
  - rewrite Hau, Hun, Hse. split; [done|]. unfold kept_username, kept_secret.
    destruct (Hm _ Ha) as [E|[E|E]]; rewrite E in *; clear Hm Hps Hun Hse Hub; by auth_cases.
  - by rewrite Hun, Hse, Hca, Hsp.
  - split.
    + intros E. case_decide as E0.
      * destruct (ti_Protocols ti) as [|p l]; [done|]. apply (not_elem_of_nil p). rewrite <- E. apply Hps. set_solver.
      * destruct (spec_Protocols s) as [|p l]; [done|]. apply (not_elem_of_nil (TrimSpace p)). rewrite <- E.
        apply Hps. csimpl. set_solver.
    + intros p Hin%Hps. case_decide; [done|]. apply list_elem_of_fmap in Hin as (q & -> & Hq). by apply Hp.
Qed.

(** ** Facts about the fingerprint *)

Lemma colon_not_digit : Forall (λ c, (48 ≤ byte c ≤ 57)%Z) [":"%char] → False.
Proof. intros H. apply Forall_cons in H as [H _]. vm_compute in H. by destruct H. Qed.

(** Digit strings end at the first colon. *)
Lemma digits_colon_inj d1 d2 r1 r2 :
  Forall (λ c, (48 ≤ byte c ≤ 57)%Z) d1 → Forall (λ c, (48 ≤ byte c ≤ 57)%Z) d2 →
  d1 ++ ":"%char :: r1 = d2 ++ ":"%char :: r2 → d1 = d2 ∧ r1 = r2.
Proof.
  revert d2. induction d1 as [|c d1 IH]; intros [|c2 d2] H1 H2 H; simpl in H.
  - by injection H as ->.
  - injection H as <- _. exfalso. apply colon_not_digit. apply Forall_cons in H2 as [H2 _]. by constructor.
  - injection H as -> _. exfalso. apply colon_not_digit. apply Forall_cons in H1 as [H1 _]. by constructor.
  - injection H as <- H. apply Forall_cons in H1 as [_ H1]. apply Forall_cons in H2 as [_ H2].
    destruct (IH d2 H1 H2 H) as [-> ->]. done.
Qed.

Lemma hash_field_chars f :
  chars (hash_field f) = utoa (len f) ++ ":"%char :: chars f ++ ["|"%char].
Proof.
  unfold hash_field, Itoa. rewrite !chars_app.
  rewrite (proj2 (Z.ltb_ge (len f) 0)) by (unfold len; lia). rewrite chars_str. done.
Qed.

(** The encoding of a field is self-delimiting: it begins the same string for no other field. *)
Lemma hash_field_inj f1 f2 r1 r2 :
  (len f1 ≤ max_uint)%Z → (len f2 ≤ max_uint)%Z →
  chars (hash_field f1) ++ r1 = chars (hash_field f2) ++ r2 → f1 = f2 ∧ r1 = r2.
Proof.
  intros Hl1 Hl2 H. rewrite !hash_field_chars in H.
  assert (Hn1 : (0 ≤ len f1)%Z) by (unfold len; lia). assert (Hn2 : (0 ≤ len f2)%Z) by (unfold len; lia).
  pose proof (proj1 (utoa_digits _ Hn1)) as D1. pose proof (proj1 (utoa_digits _ Hn2)) as D2.
  rewrite <- !app_assoc in H. simpl in H.
  destruct (digits_colon_inj _ _ _ _ D1 D2 H) as [Hd Hr].
  assert (Hlen : len f1 = len f2).
  { pose proof (parse_uint_utoa (len f1) ltac:(lia)) as P1.
    pose proof (parse_uint_utoa (len f2) ltac:(lia)) as P2. rewrite Hd in P1. congruence. }
  rewrite <- !app_assoc in Hr. rewrite !len_chars in Hlen.
  apply app_inj_1 in Hr as [Hf Hr]; [|lia]. simpl in Hr. injection Hr as ->. split; [|done].
  by apply chars_inj.
Qed.

Lemma hash_fields_inj l1 l2 :
  length l1 = length l2 →
  Forall (λ f, (len f ≤ max_uint)%Z) l1 → Forall (λ f, (len f ≤ max_uint)%Z) l2 →
  foldr String.append EmptyString (hash_field <$> l1) = foldr String.append EmptyString (hash_field <$> l2) →
  l1 = l2.
Proof.
  revert l2. induction l1 as [|f1 l1 IH]; intros [|f2 l2] Hlen H1 H2 H; try done.
  csimpl in H. apply (f_equal chars) in H. rewrite !chars_app in H.
  apply Forall_cons in H1 as [H1 H1']. apply Forall_cons in H2 as [H2 H2'].
  destruct (hash_field_inj _ _ _ _ H1 H2 H) as [-> Hr]. f_equal.
  apply IH; [|done|done|by apply chars_inj]. simpl in Hlen. lia.
Qed.

(** Settings an adapter is built from: everything but the id. *)
Definition same_settings (s1 s2 : ClientSpec) : Prop :=
  spec_Type s1 = spec_Type s2 ∧ spec_BaseURL s1 = spec_BaseURL s2 ∧ spec_Auth s1 = spec_Auth s2 ∧
  spec_Username s1 = spec_Username s2 ∧ spec_Secret s1 = spec_Secret s2 ∧
  spec_Category s1 = spec_Category s2 ∧ spec_SavePath s1 = spec_SavePath s2 ∧
  spec_Protocols s1 = spec_Protocols s2.

Lemma valid_protocols_plain s ti :
  valid_spec s ti → Forall (λ p, ","%char ∉ chars p) (spec_Protocols s).
Proof.
  intros H. destruct (LookupType_Some _ _ (vs_type _ _ H)) as [Hcat _].
  destruct (catalog_entry ti Hcat) as (_ & _ & _ & Hc).
  destruct (vs_protocols _ _ H) as (_ & _ & _ & Hall). rewrite Forall_forall in Hc, Hall |- *.
  intros p Hp. by apply Hc, Hall.
Qed.

Definition field_sizes (s : ClientSpec) : Prop := Forall (λ f, (len f ≤ max_uint)%Z) (hash_fields s).

(** ** Properties *)

(** C9: [PrepareSpec] accepts exactly the settings the documentation allows, and what it returns is
    their normal form.  Allowed are a known type; an http or https base URL with a host, no
    credentials, no query or fragment, at most 2048 bytes; an auth mode of the type, with a username
    for basic and a secret for token; the username and secret that mode uses, category and save path
    within 256, 4096, 128 and 1024 bytes and free of control characters; protocols of the type.  The
    normal form has the fields trimmed, the URL without trailing slashes, the credentials the mode
    does not use dropped, and the given protocols, all of the type's when none is, sorted and once
    each.  It satisfies the same rules again. *)
Theorem PrepareSpec_valid s :
  (∀ s', PrepareSpec s = Ok s' → ∃ ti, acceptable s ti ∧ normal_form s ti s' ∧ sound_settings s' ti) ∧
  (∀ ti, acceptable s ti → ∃ s', PrepareSpec s = Ok s').
Proof.
  split; [|apply PrepareSpec_accepts]. intros s' H. destruct (PrepareSpec_normal s s' H) as (ti & Ha & Hn).
  exists ti. split_and!; [done|done|]. apply (normal_form_sound s ti s' Ha Hn).
  destruct (PrepareSpec_valid_aux _ _ H) as [? Hv]. apply (vs_url _ _ Hv).
Qed.

Lemma PrepareSpec_valid_witness :
  (∃ ti, sound_settings (MkClientSpec "usenet" "nzbget" "http://nzbget:6789" "basic" "gateway" "s3cret"
                                      "downloads" EmptyString ["usenet"]) ti) ∧
  ∃ s', PrepareSpec (MkClientSpec "o" "odownloader" "https://odl/" "none" "dropped" "dropped" EmptyString
                                  EmptyString []) = Ok s'.
Proof.
  split.
  - destruct (proj1 (PrepareSpec_valid (MkClientSpec " usenet " "nzbget" "http://nzbget:6789/ " " basic" " gateway "
             "s3cret" " downloads " EmptyString [])) (MkClientSpec "usenet" "nzbget" "http://nzbget:6789" "basic"
             "gateway" "s3cret" "downloads" EmptyString ["usenet"])) as (ti & _ & _ & Hs); [vm_compute; reflexivity|].
    by exists ti.
  - apply (proj2 (PrepareSpec_valid _) (MkTypeInfo "odownloader" [ProtocolHTTP] [AuthToken; AuthNone] false false false)).
    constructor; cbn [spec_ID spec_Type spec_BaseURL spec_Auth spec_Username spec_Secret spec_Category spec_SavePath
      spec_Protocols ti_Auth ti_Type ti_Protocols].
    + split; [unfold catalog; set_solver|vm_compute; reflexivity].
    + split_and!; [vm_compute; discriminate|apply (bool_decide_eq_true_1 (¬ _)); vm_compute; reflexivity..|].
      eexists. split; [vm_compute; reflexivity|]. split_and!; [by right|done|done].
    + apply (bool_decide_eq_true_1 _). vm_compute. reflexivity.
    + intros E. vm_compute in E. discriminate E.
    + intros E. vm_compute in E. discriminate E.
    + split_and!; (split; [vm_compute; discriminate|]); intros c Hc; vm_compute in Hc; by apply not_elem_of_nil in Hc.
    + intros p Hp. by apply not_elem_of_nil in Hp.
Defined.

(** Validation is stable exactly when the base URL it leaves carries no blank at its end; because the
    blanks are trimmed before the slashes, some settings leave one. *)
Lemma PrepareSpec_stable s s' :
  PrepareSpec s = Ok s' →
  (PrepareSpec s' = Ok s' ↔ TrimSpace (spec_BaseURL s') = spec_BaseURL s') ∧
  (let u b := MkClientSpec "x" "nzbget" b "none" EmptyString EmptyString EmptyString EmptyString ["usenet"] in
   PrepareSpec (u "http://host/ /") = Ok (u "http://host/ ") ∧
   PrepareSpec (u "http://host/ ") = Ok (u "http://host") ∧
   specHash (u "http://host/ ") ≠ specHash (u "http://host")).
Proof.
  intros H. destruct (PrepareSpec_valid_aux _ _ H) as [ti Hv]. split.
  - split; [|by apply (PrepareSpec_fixed s' ti)]. intros Hu%PrepareSpec_BaseURL. by apply trimmed_fixpoint with "/"%char.
  - vm_compute. split_and!; [reflexivity|reflexivity|]. intros E. discriminate E.
Qed.

(** No refusal quotes a username, a secret or a URL: whatever the settings, the message is one of
    a fixed list that depends on the catalog of types alone. *)
Lemma PrepareSpec_errors_fixed s e : PrepareSpec s = Err e → e ∈ spec_errors.
Proof.
  assert (Hcat : ∀ ti, ti ∈ catalog → err_auth ti ∈ spec_errors ∧ err_protocols ti ∈ spec_errors).
  { intros ti Hti. unfold spec_errors. rewrite !elem_of_app, !list_elem_of_fmap.
    split; right; [left|right]; by exists ti. }
  unfold PrepareSpec. destruct (LookupType _) as [ti|] eqn:Ht.
  2:{ intros [= <-]. in_spec_errors. }
  apply LookupType_Some in Ht as [Ht _]. apply Hcat in Ht as [H1 H2].
  destruct (check_url _) eqn:Hu.
  2:{ intros [= <-]. apply check_url_err in Hu as [->|[->| ->]]; in_spec_errors. }
  destruct (check_auth ti _ _ _) eqn:Ha.
  2:{ intros [= <-]. apply check_auth_err in Ha as [->|[->| ->]]; [done|in_spec_errors..]. }
  destruct (check_fields _) as [[]|] eqn:Hf; [|intros [= <-]; by eapply check_fields_err].
  destruct (check_protocols _ _ _) eqn:Hp; [done|]. intros [= <-]. by apply check_protocols_err in Hp as ->.
Qed.

Lemma PrepareSpec_errors_fixed_witness : err_token ∈ spec_errors.
Proof.
  apply (PrepareSpec_errors_fixed (MkClientSpec "o" "odownloader" "http://odl" "token" EmptyString EmptyString
                                  EmptyString EmptyString [])).
  vm_compute. reflexivity.
Defined.

(** The bytes a fingerprint is computed from determine the settings: every field is length-prefixed,
    and no protocol name holds the separating comma. *)
Lemma hash_input_injective s1 s2 ti1 ti2 :
  valid_spec s1 ti1 → valid_spec s2 ti2 → field_sizes s1 → field_sizes s2 →
  hash_input s1 = hash_input s2 ↔ same_settings s1 s2.
Proof.
  intros V1 V2 F1 F2. split.
  - intros H. apply hash_fields_inj in H; [|done|done|done].
    unfold hash_fields in H. injection H as ? ? ? ? ? ? ? Hj. unfold same_settings. split_and!; try done.
    rewrite <- (Split_Join (spec_Protocols s1) ","), <- (Split_Join (spec_Protocols s2) ",").
    + by rewrite Hj.
    + apply (vs_protocols _ _ V2).
    + by apply (valid_protocols_plain s2 ti2).
    + apply (vs_protocols _ _ V1).
    + by apply (valid_protocols_plain s1 ti1).
  - unfold same_settings, hash_input, hash_fields. intros (-> & -> & -> & -> & -> & -> & -> & ->). done.
Qed.

(** C35: a client keeps its fingerprint exactly as long as its settings stay.  Two accepted settings
    are hashed from the same bytes only if they agree in every field, secrets included; pushing
    accepted settings back changes nothing, so keeps the fingerprint, exactly when their base URL
    carries no blank at its end; and because the blanks are trimmed before the slashes, some
    settings leave one, and pushing them back is another URL with another fingerprint. *)
Theorem fingerprints raw1 raw2 s1 s2 :
  PrepareSpec raw1 = Ok s1 → PrepareSpec raw2 = Ok s2 → field_sizes s1 → field_sizes s2 →
  (hash_input s1 = hash_input s2 ↔ same_settings s1 s2) ∧
  (PrepareSpec s1 = Ok s1 ↔ TrimSpace (spec_BaseURL s1) = spec_BaseURL s1) ∧
  (let u b := MkClientSpec "x" "nzbget" b "none" EmptyString EmptyString EmptyString EmptyString ["usenet"] in
   PrepareSpec (u "http://host/ /") = Ok (u "http://host/ ") ∧
   PrepareSpec (u "http://host/ ") = Ok (u "http://host") ∧
   specHash (u "http://host/ ") ≠ specHash (u "http://host")).
Proof.
  intros H1 H2 F1 F2. destruct (PrepareSpec_valid_aux _ _ H1) as [ti1 V1]. destruct (PrepareSpec_valid_aux _ _ H2) as [ti2 V2].
  split; [by eapply hash_input_injective|by eapply PrepareSpec_stable].
Qed.

Lemma fingerprints_witness :
  let s u := MkClientSpec "o" "odownloader" u "token" EmptyString "t" EmptyString EmptyString ["http"] in
  (hash_input (s "http://odl") = hash_input (s "http://odl:80") ↔ same_settings (s "http://odl") (s "http://odl:80")) ∧
  PrepareSpec (s "http://odl") = Ok (s "http://odl").
Proof.
  set (s u := MkClientSpec "o" "odownloader" u "token" EmptyString "t" EmptyString EmptyString ["http"]).
  assert (F : ∀ x, forallb (λ f, (len f <=? max_uint)%Z) (hash_fields x) = true → field_sizes x).
  { intros x Hx. apply Forall_forall. intros f Hf. rewrite forallb_forall in Hx.
    apply Z.leb_le, Hx, list_elem_of_In, Hf. }
  destruct (fingerprints (s "http://odl//") (s "http://odl:80/") (s "http://odl") (s "http://odl:80")) as (Hh & Hp & _);
    [vm_compute; reflexivity|vm_compute; reflexivity|apply F; vm_compute; reflexivity|apply F; vm_compute; reflexivity|].
  split; [exact Hh|]. apply Hp. vm_compute. reflexivity.
Defined.
