(* ===== verification/Registry.v ===== *)
(** * internal/adapters/registry.go: the clients the gateway drives

    [Registry] is the Go struct: the clients by id, the leases of adds in flight by id, and the
    revision of the last push that applied without errors.  Its operations are functions on that
    record, each one a critical section under the registry's lock.  Go iterates over maps in an
    unspecified order: the operations that do take the order as an argument ([..._in]), and the
    order is shown not to matter.  Adapters are opaque here: the class [ClientFactory] says how one
    is named and built; the number [r_next] tells two built adapters apart, as two pointers do. *)

From S2P Require Import Prelude GoStrings Adapters Responses Clients.

(** What the registry needs of adapters: [Adapter.Name], and the catalog's [build] functions, whose
    results the number identifies. *)
Class ClientFactory (A : Type) := {
  Adapter_Name : A → string;
  buildClient : nat → ClientSpec → A
}.

Inductive lease_error := ErrUnknownClient | ErrClientDraining.

#[export] Instance lease_error_eq_dec : EqDecision lease_error.
Proof. solve_decision. Defined.

Record ApplyError := MkApplyError { ae_ID : string; ae_Message : string }.

Record Client (A : Type) := MkClient {
  c_ID : string;
  c_Type : string;
  c_Source : Source;
  c_Category : string;
  c_SavePath : string;
  c_Adapter : A
}.
Arguments MkClient {A} _ _ _ _ _ _.
Arguments c_ID {A} _.
Arguments c_Type {A} _.
Arguments c_Source {A} _.
Arguments c_Category {A} _.
Arguments c_SavePath {A} _.
Arguments c_Adapter {A} _.

Record entry (A : Type) := MkEntry {
  e_spec : ClientSpec;
  e_secretSet : bool;
  e_source : Source;
  e_adapter : A;
  e_hash : list Z;
  e_draining : bool
}.
Arguments MkEntry {A} _ _ _ _ _ _.
Arguments e_spec {A} _.
Arguments e_secretSet {A} _.
Arguments e_source {A} _.
Arguments e_adapter {A} _.
Arguments e_hash {A} _.
Arguments e_draining {A} _.

Record Registry (A : Type) := MkRegistry {
  r_clients : gmap string (entry A);
  r_leases : gmap string Z;
  r_revision : Z;
  r_next : nat
}.
Arguments MkRegistry {A} _ _ _ _.
Arguments r_clients {A} _.
Arguments r_leases {A} _.
Arguments r_revision {A} _.
Arguments r_next {A} _.

Record ApplyResult (A : Type) := MkApplyResult {
  res_Revision : Z;
  res_Applied : list string;
  res_Errors : list ApplyError;
  res_Started : list (Client A);
  res_Draining : list string;
  res_Removed : list string
}.
Arguments MkApplyResult {A} _ _ _ _ _ _.
Arguments res_Revision {A} _.
Arguments res_Applied {A} _.
Arguments res_Errors {A} _.
Arguments res_Started {A} _.
Arguments res_Draining {A} _.
Arguments res_Removed {A} _.

Section registry.
Context {A : Type} `{ClientFactory A} `{Quote}.

(** [(e *entry).client()]. *)
Definition entry_client (e : entry A) : Client A :=
  MkClient (spec_ID (e_spec e)) (spec_Type (e_spec e)) (e_source e) (spec_Category (e_spec e))
    (spec_SavePath (e_spec e)) (e_adapter e).

Definition set_draining (b : bool) (e : entry A) : entry A :=
  MkEntry (e_spec e) (e_secretSet e) (e_source e) (e_adapter e) (e_hash e) b.

Definition with_clients (m : gmap string (entry A)) (r : Registry A) : Registry A :=
  MkRegistry m (r_leases r) (r_revision r) (r_next r).

Definition empty_registry : Registry A := MkRegistry ∅ ∅ 0 0.

(** The zero value of [hash [32]byte], which env clients keep. *)
Definition zero_hash : list Z := replicate 32 0%Z.

(** ** Registration at boot *)

Definition AddEnv (spec : ClientSpec) (ad : A) (r : Registry A) : Registry A :=
  let id := if bool_decide (spec_ID spec = EmptyString) then Adapter_Name ad else spec_ID spec in
  let typ := if bool_decide (spec_Type spec = EmptyString) then Adapter_Name ad else spec_Type spec in
  let protocols :=
    match spec_Protocols spec with
    | [] => match LookupType typ with Some ti => ti_Protocols ti | None => [] end
    | ps => ps
    end in
  let spec' := MkClientSpec id typ (spec_BaseURL spec) (spec_Auth spec) (spec_Username spec)
                 EmptyString (spec_Category spec) (spec_SavePath spec) protocols in
  with_clients (<[id := MkEntry spec' (negb (bool_decide (spec_Secret spec = EmptyString)))
                          SourceEnv ad zero_hash false]> (r_clients r)) r.

Definition empty_spec : ClientSpec :=
  MkClientSpec EmptyString EmptyString EmptyString EmptyString EmptyString EmptyString EmptyString
    EmptyString [].

(** [NewRegistry(adapters...)]; a nil adapter ([None]) is skipped. *)
Definition NewRegistry (ads : list (option A)) : Registry A :=
  foldl (λ r ad, match ad with Some ad => AddEnv empty_spec ad r | None => r end) empty_registry ads.

(** ** Lookups *)

Definition Get (id : string) (r : Registry A) : option A := e_adapter <$> r_clients r !! id.

Definition Lookup (id : string) (r : Registry A) : option (Client A) := entry_client <$> r_clients r !! id.

(** The lists below range over the entries in the order [order]. *)
Definition Active_in (order : list (string * entry A)) : list (Client A) :=
  sort_by c_ID ((λ ke, entry_client ke.2) <$> filter (λ ke, e_draining ke.2 = false) order).

Definition Active (r : Registry A) : list (Client A) := Active_in (map_to_list (r_clients r)).

Definition Names (r : Registry A) : list string := c_ID <$> Active r.

(** One entry as [Config] lists it. *)
Definition entry_info (e : entry A) : ClientInfo :=
  let i := info (e_spec e) (Some (e_source e)) in
  MkClientInfo (info_ID i) (info_Type i) (info_BaseURL i) (info_Auth i) (info_Username i)
    (info_Category i) (info_SavePath i) (info_Protocols i) (info_Source i) (e_secretSet e).

Definition Config_in (order : list (string * entry A)) (r : Registry A) : Z * list ClientInfo :=
  (r_revision r,
   sort_by info_ID ((λ ke, entry_info ke.2) <$> filter (λ ke, e_draining ke.2 = false) order)).

Definition Config (r : Registry A) : Z * list ClientInfo := Config_in (map_to_list (r_clients r)) r.

Definition List_ (r : Registry A) : list ClientInfo := (Config r).2.

Definition Revision (r : Registry A) : Z := r_revision r.

(** ** Leases *)

Definition leases_of (id : string) (r : Registry A) : Z := default 0%Z (r_leases r !! id).

Definition with_leases (m : gmap string Z) (r : Registry A) : Registry A :=
  MkRegistry (r_clients r) m (r_revision r) (r_next r).

(** [Lease(id)]: the client, and the registry with the lease counted. *)
Definition Lease (id : string) (r : Registry A) : result lease_error (Client A * Registry A) :=
  match r_clients r !! id with
  | None => Err ErrUnknownClient
  | Some e =>
      if e_draining e then Err ErrClientDraining
      else Ok (entry_client e, with_leases (<[id := (leases_of id r + 1)%Z]> (r_leases r)) r)
  end.

(** The body of the release function, which its [sync.Once] runs at most once. *)
Definition release (id : string) (r : Registry A) : Registry A :=
  let n := (leases_of id r - 1)%Z in
  with_leases (if (n <=? 0)%Z then delete id (r_leases r) else <[id := n]> (r_leases r)) r.

(** ** [Apply] *)

Definition err_id : string := "id must match ^[a-z0-9][a-z0-9-]{0,39}$".
Definition err_duplicate : string := "id appears more than once in the push".
Definition err_env : string := "id is taken by a client configured in the environment".

(** The locals of [Apply] while it walks the pushed specs. *)
Record apply_state := MkApplyState {
  as_clients : gmap string (entry A);
  as_next : nat;
  as_keep : gset string;
  as_reported : gset string;
  as_Applied : list string;
  as_Errors : list ApplyError;
  as_Started : list (Client A)
}.

Definition spec_counts (specs : list ClientSpec) : gmap string nat :=
  foldl (λ m s, let id := TrimSpace (spec_ID s) in <[id := S (default O (m !! id))]> m) ∅ specs.

(** The closure [fail]. *)
Definition apply_fail (id msg : string) (st : apply_state) : apply_state :=
  if bool_decide (id ∈ as_reported st) then st
  else
    let keep := match as_clients st !! id with
                | Some e => if bool_decide (e_source e = SourceAPI) then {[id]} ∪ as_keep st else as_keep st
                | None => as_keep st
                end in
    MkApplyState (as_clients st) (as_next st) keep ({[id]} ∪ as_reported st) (as_Applied st)
      (as_Errors st ++ [MkApplyError id msg]) (as_Started st).

(** The rest of the loop's body for a spec that passed the checks. *)
Definition apply_spec (id : string) (spec : ClientSpec) (st : apply_state) : apply_state :=
  let hash := specHash spec in
  let keep := {[id]} ∪ as_keep st in
  let applied := as_Applied st ++ [id] in
  let build :=
    let e := MkEntry (drop_secret spec) (negb (bool_decide (spec_Secret spec = EmptyString))) SourceAPI
               (buildClient (as_next st) spec) hash false in
    MkApplyState (<[id := e]> (as_clients st)) (S (as_next st)) keep (as_reported st) applied
      (as_Errors st) (as_Started st ++ [entry_client e]) in
  match as_clients st !! id with
  | Some e =>
      if bool_decide (e_hash e = hash)
      then MkApplyState (<[id := set_draining false e]> (as_clients st)) (as_next st) keep
             (as_reported st) applied (as_Errors st) (as_Started st)
      else build
  | None => build
  end.

Definition apply_one (counts : gmap string nat) (st : apply_state) (raw : ClientSpec) : apply_state :=
  let id := TrimSpace (spec_ID raw) in
  if negb (ValidClientID id) then apply_fail id err_id st
  else if (1 <? default O (counts !! id))%nat then apply_fail id err_duplicate st
  else
    match as_clients st !! id with
    | Some (MkEntry _ _ SourceEnv _ _ _) => apply_fail id err_env st
    | _ =>
        match PrepareSpec raw with
        | Err err => apply_fail id (Error_text err) st
        | Ok spec => apply_spec id spec st
        end
    end.

Definition apply_specs (specs : list ClientSpec) (r : Registry A) : apply_state :=
  foldl (apply_one (spec_counts specs))
    (MkApplyState (r_clients r) (r_next r) ∅ ∅ [] [] []) specs.

(** The second loop: clients missing from the push are removed or left draining.  Its locals are
    the map and the two result lists. *)
Record sweep_state := MkSweepState {
  sw_clients : gmap string (entry A);
  sw_Draining : list string;
  sw_Removed : list string
}.

Definition in_use (leases : gmap string Z) (inUse : string → bool) (id : string) : bool :=
  (0 <? default 0%Z (leases !! id))%Z || inUse id.

Definition sweep_one (leases : gmap string Z) (inUse : string → bool) (keep : gset string)
    (st : sweep_state) (id : string) : sweep_state :=
  match sw_clients st !! id with
  | None => st
  | Some e =>
      if negb (bool_decide (e_source e = SourceAPI)) || bool_decide (id ∈ keep) then st
      else if in_use leases inUse id then
        if e_draining e then st
        else MkSweepState (<[id := set_draining true e]> (sw_clients st))
               (sw_Draining st ++ [id]) (sw_Removed st)
      else MkSweepState (delete id (sw_clients st)) (sw_Draining st) (sw_Removed st ++ [id])
  end.

Definition sweep (leases : gmap string Z) (inUse : string → bool) (keep : gset string)
    (order : list string) (m : gmap string (entry A)) : sweep_state :=
  foldl (sweep_one leases inUse keep) (MkSweepState m [] []) order.

(** [Apply(revision, specs, inUse)], its second loop in the order [order]; a nil [inUse] is the
    constant [false]. *)
Definition Apply_in (order : list string) (revision : Z) (specs : list ClientSpec)
    (inUse : string → bool) (r : Registry A) : Registry A * ApplyResult A :=
  let st := apply_specs specs r in
  let sw := sweep (r_leases r) inUse (as_keep st) order (as_clients st) in
  let rev' := match as_Errors st with [] => revision | _ => r_revision r end in
  (MkRegistry (sw_clients sw) (r_leases r) rev' (as_next st),
   MkApplyResult rev' (as_Applied st) (as_Errors st) (as_Started st)
     (sort_strings (sw_Draining sw)) (sort_strings (sw_Removed sw))).

(** The ids [Apply]'s second loop visits. *)
Definition sweep_ids (specs : list ClientSpec) (r : Registry A) : list string :=
  (map_to_list (as_clients (apply_specs specs r))).*1.

Definition Apply (revision : Z) (specs : list ClientSpec) (inUse : string → bool) (r : Registry A) :
    Registry A * ApplyResult A :=
  Apply_in (sweep_ids specs r) revision specs inUse r.

(** ** [Reap] *)

Definition reap_one (leases : gmap string Z) (inUse : string → bool)
    (st : gmap string (entry A) * list string) (id : string) : gmap string (entry A) * list string :=
  match st.1 !! id with
  | None => st
  | Some e =>
      if negb (e_draining e) || in_use leases inUse id then st
      else (delete id st.1, st.2 ++ [id])
  end.

Definition Reap_in (order : list string) (inUse : string → bool) (r : Registry A) : Registry A * list string :=
  let st := foldl (reap_one (r_leases r) inUse) (r_clients r, []) order in
  (with_clients st.1 r, sort_strings st.2).

Definition Reap (inUse : string → bool) (r : Registry A) : Registry A * list string :=
  Reap_in (map_to_list (r_clients r)).*1 inUse r.
End registry.

(** ** Facts about the removal loop and [Reap] *)

Lemma filter_ext_elem {B} (P Q : B → Prop) `{!∀ x, Decision (P x), !∀ x, Decision (Q x)} (l : list B) :
  (∀ x, x ∈ l → P x ↔ Q x) → filter P l = filter Q l.
Proof.
  induction l as [|x l IH]; intros Hl; [done|]. rewrite !filter_cons.
  assert (filter P l = filter Q l) as -> by (apply IH; intros y Hy; apply Hl; by right).
  assert (P x ↔ Q x) by (apply Hl; by left). destruct (decide (P x)), (decide (Q x)); tauto.
Qed.

Section facts.
Context {A : Type} `{ClientFactory A} `{Quote}.
Implicit Types (r : Registry A) (e : entry A) (m : gmap string (entry A)).

Definition removable (keep : gset string) (id : string) (e : entry A) : bool :=
  bool_decide (e_source e = SourceAPI) && negb (bool_decide (id ∈ keep)).

(** What becomes of one entry in the removal loop. *)
Definition sweep_entry (leases : gmap string Z) (inUse : string → bool) (keep : gset string)
    (id : string) (e : entry A) : option (entry A) :=
  if removable keep id e then
    if in_use leases inUse id then Some (set_draining true e) else None
  else Some e.

Definition newly_draining leases inUse keep m (id : string) : Prop :=
  ∃ e, m !! id = Some e ∧ removable keep id e = true ∧ in_use leases inUse id = true ∧ e_draining e = false.

Definition newly_removed leases inUse keep m (id : string) : Prop :=
  ∃ e, m !! id = Some e ∧ removable keep id e = true ∧ in_use leases inUse id = false.

#[local] Instance newly_draining_dec leases inUse keep m id : Decision (newly_draining leases inUse keep m id).
Proof.
  unfold newly_draining. destruct (m !! id) as [e|] eqn:E.
  - destruct (decide (removable keep id e = true ∧ in_use leases inUse id = true ∧ e_draining e = false)) as [?|Hn].
    + left. by exists e.
    + right. intros (e' & [= <-] & ?). by apply Hn.
  - right. by intros (? & ? & _).
Defined.

#[local] Instance newly_removed_dec leases inUse keep m id : Decision (newly_removed leases inUse keep m id).
Proof.
  unfold newly_removed. destruct (m !! id) as [e|] eqn:E.
  - destruct (decide (removable keep id e = true ∧ in_use leases inUse id = false)) as [?|Hn].
    + left. by exists e.
    + right. intros (e' & [= <-] & ?). by apply Hn.
  - right. by intros (? & ? & _).
Defined.

(** Where the two lists of the loop pick an id depends on that id's entry only. *)
Lemma newly_draining_ext leases inUse keep m m' id :
  m !! id = m' !! id → newly_draining leases inUse keep m id ↔ newly_draining leases inUse keep m' id.
Proof. unfold newly_draining. by intros ->. Qed.

Lemma newly_removed_ext leases inUse keep m m' id :
  m !! id = m' !! id → newly_removed leases inUse keep m id ↔ newly_removed leases inUse keep m' id.
Proof. unfold newly_removed. by intros ->. Qed.

(** One step of the loop, on the three components of its state. *)
Lemma sweep_one_spec leases inUse keep m d rm id :
  let st := sweep_one leases inUse keep (MkSweepState m d rm) id in
  (∀ i, sw_clients st !! i = if decide (i = id) then m !! id ≫= sweep_entry leases inUse keep id else m !! i) ∧
  sw_Draining st = d ++ filter (newly_draining leases inUse keep m) [id] ∧
  sw_Removed st = rm ++ filter (newly_removed leases inUse keep m) [id].
Proof.
  cbn zeta. unfold sweep_one. cbn [sw_clients sw_Draining sw_Removed].
  rewrite !filter_cons, !filter_nil.
  assert (Hsame : ∀ i (o : option (entry A)), o = m !! id → m !! i = if decide (i = id) then o else m !! i).
  { intros i o ->. by destruct (decide (i = id)) as [->|]. }
  destruct (m !! id) as [e|] eqn:E.
  2:{ rewrite !decide_False by (intros (? & ? & _); congruence). rewrite !app_nil_r.
      split_and!; [|done|done]. intros i. by apply Hsame. }
  unfold sweep_entry. cbn [mbind option_bind].
  replace (negb (bool_decide (e_source e = SourceAPI)) || bool_decide (id ∈ keep))
    with (negb (removable keep id e)).
  2:{ unfold removable. by rewrite negb_andb, negb_involutive. }
  destruct (removable keep id e) eqn:Hr; cbn [negb].
  2:{ rewrite !decide_False by (intros (? & ? & ? & _); congruence). rewrite !app_nil_r.
      split_and!; [|done|done]. intros i. by apply Hsame. }
  destruct (in_use leases inUse id) eqn:Hu.
  - rewrite (decide_False (P := newly_removed _ _ _ _ _)) by (intros (? & ? & ? & ?); congruence).
    destruct (e_draining e) eqn:Hd; cbn [sw_clients sw_Draining sw_Removed].
    + rewrite (decide_False (P := newly_draining _ _ _ _ _)) by (intros (? & ? & ? & ? & ?); congruence).
      rewrite !app_nil_r. split_and!; [|done|done]. intros i. apply Hsame.
      rewrite ?E. f_equal. unfold set_draining. destruct e; simpl in *; congruence.
    + rewrite (decide_True (P := newly_draining _ _ _ _ _)) by (exists e; done).
      rewrite app_nil_r. split_and!; [|done|done]. intros i.
      destruct (decide (i = id)) as [->|]; [by rewrite lookup_insert_eq|by rewrite lookup_insert_ne by done].
  - rewrite (decide_False (P := newly_draining _ _ _ _ _)) by (intros (? & ? & ? & ? & ?); congruence).
    rewrite (decide_True (P := newly_removed _ _ _ _ _)) by (exists e; done).
    cbn [sw_clients sw_Draining sw_Removed]. rewrite app_nil_r. split_and!; [|done|done]. intros i.
    destruct (decide (i = id)) as [->|]; [by rewrite lookup_delete_eq|by rewrite lookup_delete_ne by done].
Qed.

(** The whole loop: entry by entry, whatever the order. *)
Lemma sweep_spec leases inUse keep order m d rm :
  NoDup order →
  let st := foldl (sweep_one leases inUse keep) (MkSweepState m d rm) order in
  (∀ i, sw_clients st !! i =
        if decide (i ∈ order) then m !! i ≫= sweep_entry leases inUse keep i else m !! i) ∧
  sw_Draining st = d ++ filter (newly_draining leases inUse keep m) order ∧
  sw_Removed st = rm ++ filter (newly_removed leases inUse keep m) order.
Proof.
  revert m d rm. induction order as [|id order IH]; intros m d rm Hnd; cbn zeta.
  { cbn. rewrite !app_nil_r. split_and!; [|done|done]. intros i.
    by rewrite decide_False by apply not_elem_of_nil. }
  apply NoDup_cons in Hnd as [Hid Hnd]. cbn [foldl].
  destruct (sweep_one_spec leases inUse keep m d rm id) as (H1 & H2 & H3).
  destruct (sweep_one leases inUse keep (MkSweepState m d rm) id) as [m1 d1 rm1].
  cbn [sw_clients sw_Draining sw_Removed] in H1, H2, H3.
  destruct (IH m1 d1 rm1 Hnd) as (I1 & I2 & I3).
  assert (Hsame : ∀ i, i ∈ order → m1 !! i = m !! i).
  { intros i Hi. rewrite H1, decide_False; [done|]. by intros ->. }
  split_and!.
  - intros i. rewrite I1. destruct (decide (i ∈ order)) as [Hi|Hi].
    + rewrite (decide_True (P := i ∈ id :: order)) by (by right). by rewrite Hsame.
    + rewrite H1. destruct (decide (i = id)) as [->|Hne].
      * by rewrite decide_True by (by left).
      * rewrite decide_False; [done|]. by intros [->|?]%elem_of_cons.
  - rewrite I2, H2, <- app_assoc. f_equal. rewrite !(filter_cons _ id), filter_nil.
    erewrite (filter_ext_elem _ (newly_draining leases inUse keep m) order);
      [by case_decide|]. intros x Hx. by apply newly_draining_ext, Hsame.
  - rewrite I3, H3, <- app_assoc. f_equal. rewrite !(filter_cons _ id), filter_nil.
    erewrite (filter_ext_elem _ (newly_removed leases inUse keep m) order);
      [by case_decide|]. intros x Hx. by apply newly_removed_ext, Hsame.
Qed.

(** [Reap], entry by entry. *)
Definition reap_entry (leases : gmap string Z) (inUse : string → bool) (id : string) (e : entry A) :
    option (entry A) :=
  if e_draining e && negb (in_use leases inUse id) then None else Some e.

Definition reaped leases inUse m (id : string) : Prop :=
  ∃ e, m !! id = Some e ∧ e_draining e = true ∧ in_use leases inUse id = false.

#[local] Instance reaped_dec leases inUse m id : Decision (reaped leases inUse m id).
Proof.
  unfold reaped. destruct (m !! id) as [e|] eqn:E.
  - destruct (decide (e_draining e = true ∧ in_use leases inUse id = false)) as [?|Hn].
    + left. by exists e.
    + right. intros (e' & [= <-] & ?). by apply Hn.
  - right. by intros (? & ? & _).
Defined.

Lemma reap_spec leases inUse order m l :
  NoDup order →
  let st := foldl (reap_one leases inUse) (m, l) order in
  (∀ i, st.1 !! i = if decide (i ∈ order) then m !! i ≫= reap_entry leases inUse i else m !! i) ∧
  st.2 = l ++ filter (reaped leases inUse m) order.
Proof.
  revert m l. induction order as [|id order IH]; intros m l Hnd; cbn zeta.
  { cbn. rewrite app_nil_r. split; [|done]. intros i. by rewrite decide_False by apply not_elem_of_nil. }
  apply NoDup_cons in Hnd as [Hid Hnd]. cbn [foldl].
  assert (Hstep : ∃ m1, reap_one leases inUse (m, l) id = (m1, l ++ filter (reaped leases inUse m) [id]) ∧
    ∀ i, m1 !! i = if decide (i = id) then m !! id ≫= reap_entry leases inUse id else m !! i).
  { unfold reap_one, reap_entry. cbn [fst snd]. rewrite filter_cons, filter_nil.
    destruct (m !! id) as [e|] eqn:E; cbn [mbind option_bind].
    - destruct (e_draining e) eqn:Hd, (in_use leases inUse id) eqn:Hu; cbn [negb orb andb].
      all: try (rewrite decide_False by (intros (? & ? & ? & ?); congruence);
        rewrite app_nil_r; eexists; split; [done|]; intros i; by destruct (decide (i = id)) as [->|]).
      rewrite decide_True by (by exists e). eexists. split; [done|]. intros i.
      destruct (decide (i = id)) as [->|]; [by rewrite lookup_delete_eq|by rewrite lookup_delete_ne by done].
    - rewrite decide_False by (intros (? & ? & _); congruence). rewrite app_nil_r.
      eexists; split; [done|]. intros i. by destruct (decide (i = id)) as [->|]. }
  destruct Hstep as (m1 & -> & H1). destruct (IH m1 (l ++ filter (reaped leases inUse m) [id]) Hnd) as (I1 & I2).
  assert (Hsame : ∀ i, i ∈ order → m1 !! i = m !! i).
  { intros i Hi. rewrite H1, decide_False; [done|]. by intros ->. }
  split.
  - intros i. rewrite I1. destruct (decide (i ∈ order)) as [Hi|Hi].
    + rewrite (decide_True (P := i ∈ id :: order)) by (by right). by rewrite Hsame.
    + rewrite H1. destruct (decide (i = id)) as [->|Hne].
      * by rewrite decide_True by (by left).
      * rewrite decide_False; [done|]. by intros [->|?]%elem_of_cons.
  - rewrite I2, <- app_assoc. f_equal. rewrite !(filter_cons _ id), filter_nil.
    erewrite (filter_ext_elem _ (reaped leases inUse m) order); [by case_decide|].
    intros x Hx. unfold reaped. by rewrite Hsame.
Qed.
End facts.

(** ** Facts about the first loop of [Apply] *)

Section apply_facts.
Context {A : Type} `{ClientFactory A} `{Quote}.
Implicit Types (r : Registry A) (e : entry A) (m : gmap string (entry A)).

(** The id a pushed spec stands for. *)
Definition spec_id (s : ClientSpec) : string := TrimSpace (spec_ID s).

Definition specs_of (specs : list ClientSpec) (id : string) : list ClientSpec :=
  filter (λ s, spec_id s = id) specs.

Lemma spec_counts_aux specs (c : gmap string nat) id :
  default O (foldl (λ c s, let i := spec_id s in <[i := S (default O (c !! i))]> c) c specs !! id) =
  (default O (c !! id) + length (specs_of specs id))%nat.
Proof.
  revert c. induction specs as [|s specs IH]; intros c; simpl; [by rewrite Nat.add_0_r|].
  rewrite IH. unfold specs_of. rewrite filter_cons. destruct (decide (spec_id s = id)) as [<-|Hne].
  - rewrite lookup_insert_eq. simpl. lia.
  - by rewrite lookup_insert_ne.
Qed.

Lemma spec_counts_spec specs id : default O (spec_counts specs !! id) = length (specs_of specs id).
Proof. unfold spec_counts. rewrite spec_counts_aux. by rewrite lookup_empty. Qed.

Definition is_env (o : option (entry A)) : bool :=
  match o with Some e => bool_decide (e_source e = SourceEnv) | None => false end.

Definition is_api (o : option (entry A)) : bool :=
  match o with Some e => bool_decide (e_source e = SourceAPI) | None => false end.

(** The verdict on one pushed spec, given what is registered under its id. *)
Definition spec_verdict (specs : list ClientSpec) (old : option (entry A)) (raw : ClientSpec) :
    result string ClientSpec :=
  if negb (ValidClientID (spec_id raw)) then Err err_id
  else if (1 <? length (specs_of specs (spec_id raw)))%nat then Err err_duplicate
  else if is_env old then Err err_env
  else match PrepareSpec raw with Ok spec => Ok spec | Err e => Err (Error_text e) end.

(** The verdict of a push on an id: [None] when the push does not mention it. *)
Definition decision (specs : list ClientSpec) (old : option (entry A)) (id : string) :
    option (result string ClientSpec) :=
  spec_verdict specs old <$> head (specs_of specs id).

Lemma apply_one_verdict specs st raw :
  apply_one (spec_counts specs) st raw =
  match spec_verdict specs (as_clients st !! spec_id raw) raw with
  | Ok spec => apply_spec (spec_id raw) spec st
  | Err msg => apply_fail (spec_id raw) msg st
  end.
Proof.
  unfold apply_one, spec_verdict. cbn zeta. fold (spec_id raw). rewrite spec_counts_spec.
  destruct (negb _); [done|]. destruct (1 <? _)%nat; [done|].
  destruct (as_clients st !! spec_id raw) as [[sp ss [] ad h d]|]; cbn; try done.
  - by destruct (PrepareSpec raw).
  - by destruct (PrepareSpec raw).
Qed.

(** An accepted spec is the only one of the push with its id. *)
Lemma verdict_ok_unique specs old raw spec :
  spec_verdict specs old raw = Ok spec → raw ∈ specs →
  specs_of specs (spec_id raw) = [raw] ∧ ValidClientID (spec_id raw) = true ∧ is_env old = false ∧
  PrepareSpec raw = Ok spec.
Proof.
  unfold spec_verdict. intros Hv Hin.
  destruct (ValidClientID (spec_id raw)) eqn:Hid; [|done]. cbn [negb] in Hv.
  destruct (1 <? length (specs_of specs (spec_id raw)))%nat eqn:Hc; [done|]. apply Nat.ltb_ge in Hc.
  destruct (is_env old); [done|]. destruct (PrepareSpec raw) eqn:Hp; [|done]. injection Hv as ->.
  split_and!; [|done|done|done].
  assert (Hin' : raw ∈ specs_of specs (spec_id raw)) by (apply list_elem_of_filter; done).
  destruct (specs_of specs (spec_id raw)) as [|x [|y l]]; [by apply not_elem_of_nil in Hin'| |simpl in Hc; lia].
  apply list_elem_of_singleton in Hin' as ->. done.
Qed.

(** The entry registered for accepted settings. *)
Definition built_entry (k : nat) (spec : ClientSpec) : entry A :=
  MkEntry (drop_secret spec) (negb (bool_decide (spec_Secret spec = EmptyString))) SourceAPI
    (buildClient k spec) (specHash spec) false.

Definition entry_after (old : option (entry A)) (spec : ClientSpec) (lo hi : nat) (e : entry A) : Prop :=
  match old with
  | Some e0 => if bool_decide (e_hash e0 = specHash spec) then e = set_draining false e0
               else ∃ k, (lo ≤ k < hi)%nat ∧ e = built_entry k spec
  | None => ∃ k, (lo ≤ k < hi)%nat ∧ e = built_entry k spec
  end.

Lemma entry_after_mono old spec lo hi hi' e :
  entry_after old spec lo hi e → (hi ≤ hi')%nat → entry_after old spec lo hi' e.
Proof.
  unfold entry_after. intros He Hle.
  assert (Hk : (∃ k, (lo ≤ k < hi)%nat ∧ e = built_entry k spec) →
               ∃ k, (lo ≤ k < hi')%nat ∧ e = built_entry k spec).
  { intros (k & ? & ->). exists k. split; [lia|done]. }
  destruct old as [e0|]; [|by apply Hk]. case_bool_decide; [done|by apply Hk].
Qed.

(** The state of the loop after the prefix [done] of the push, id by id. *)
Record loop_inv (specs : list ClientSpec) r (seen : list ClientSpec) (st : apply_state) : Prop := {
  li_next : (r_next r ≤ as_next st)%nat;
  li_fresh id : id ∉ (spec_id <$> seen) →
    as_clients st !! id = r_clients r !! id ∧ id ∉ as_keep st ∧ id ∉ as_reported st ∧
    id ∉ as_Applied st;
  li_err id msg : id ∈ (spec_id <$> seen) → decision specs (r_clients r !! id) id = Some (Err msg) →
    as_clients st !! id = r_clients r !! id ∧ id ∈ as_reported st ∧ id ∉ as_Applied st ∧
    (id ∈ as_keep st ↔ is_api (r_clients r !! id) = true);
  li_ok id spec : id ∈ (spec_id <$> seen) → decision specs (r_clients r !! id) id = Some (Ok spec) →
    (∃ e, as_clients st !! id = Some e ∧ entry_after (r_clients r !! id) spec (r_next r) (as_next st) e) ∧
    id ∈ as_keep st ∧ id ∈ as_Applied st ∧ id ∉ as_reported st;
  li_errors id : id ∈ as_reported st ↔ id ∈ (ae_ID <$> as_Errors st);
  li_errors_nodup : NoDup (ae_ID <$> as_Errors st);
  li_messages ae : ae ∈ as_Errors st →
    decision specs (r_clients r !! ae_ID ae) (ae_ID ae) = Some (Err (ae_Message ae));
  li_applied_nodup : NoDup (as_Applied st)
}.

Lemma loop_inv_init specs r : loop_inv specs r [] (MkApplyState (r_clients r) (r_next r) ∅ ∅ [] [] []).
Proof.
  constructor; cbn [as_clients as_next as_keep as_reported as_Applied as_Errors as_Started].
  - lia.
  - intros id _. split_and!; [done|set_solver|set_solver|apply not_elem_of_nil].
  - by intros ? ? ?%not_elem_of_nil.
  - by intros ? ? ?%not_elem_of_nil.
  - intros id. split; [set_solver|]. by intros ?%not_elem_of_nil.
  - apply NoDup_nil_2.
  - by intros ae ?%not_elem_of_nil.
  - apply NoDup_nil_2.
Qed.

(** The specs of an id all get a refusal, or there is just one. *)
Lemma decision_of specs r raw :
  raw ∈ specs →
  match spec_verdict specs (r_clients r !! spec_id raw) raw with
  | Ok spec => decision specs (r_clients r !! spec_id raw) (spec_id raw) = Some (Ok spec)
  | Err _ => ∃ msg, decision specs (r_clients r !! spec_id raw) (spec_id raw) = Some (Err msg)
  end.
Proof.
  intros Hin. unfold decision.
  assert (Hin' : raw ∈ specs_of specs (spec_id raw)) by (apply list_elem_of_filter; done).
  destruct (spec_verdict specs (r_clients r !! spec_id raw) raw) as [spec|msg] eqn:Hv.
  - destruct (verdict_ok_unique _ _ _ _ Hv Hin) as [-> _]. simpl. by rewrite Hv.
  - destruct (specs_of specs (spec_id raw)) as [|x l] eqn:Hl; [by apply not_elem_of_nil in Hin'|]. simpl.
    assert (Hx : x ∈ specs_of specs (spec_id raw)) by (rewrite Hl; by left).
    apply list_elem_of_filter in Hx as [Hxid Hx].
    destruct (spec_verdict specs (r_clients r !! spec_id raw) x) as [spec|msg'] eqn:Hv'; [|by eexists].
    exfalso. rewrite <- Hxid in Hv'. destruct (verdict_ok_unique _ _ _ _ Hv' Hx) as [Hu _].
    rewrite Hxid, Hl in Hu. injection Hu as ->. apply elem_of_cons in Hin' as [->|Hn]; [|by apply not_elem_of_nil in Hn].
    congruence.
Qed.
Lemma specs_of_head specs seen raw rest :
  specs = seen ++ raw :: rest → spec_id raw ∉ (spec_id <$> seen) →
  head (specs_of specs (spec_id raw)) = Some raw.
Proof.
  intros -> Hn. unfold specs_of. rewrite filter_app.
  assert (filter (λ s, spec_id s = spec_id raw) seen = []) as ->.
  { apply elem_of_nil_inv. intros x Hx. apply list_elem_of_filter in Hx as [Hx Hin].
    apply Hn. apply list_elem_of_fmap. by exists x. }
  simpl. rewrite filter_cons, decide_True by done. done.
Qed.

Lemma elem_of_seen id seen raw : id ∈ (spec_id <$> seen ++ [raw]) ↔ id ∈ (spec_id <$> seen) ∨ id = spec_id raw.
Proof. rewrite fmap_app, elem_of_app. simpl. by rewrite list_elem_of_singleton. Qed.

(** The spec of a refused entry leaves the registered client alone. *)
Lemma loop_inv_fail specs r seen st raw rest msg :
  specs = seen ++ raw :: rest → loop_inv specs r seen st →
  spec_verdict specs (as_clients st !! spec_id raw) raw = Err msg →
  as_clients st !! spec_id raw = r_clients r !! spec_id raw →
  loop_inv specs r (seen ++ [raw]) (apply_fail (spec_id raw) msg st).
Proof.
  intros Hsp [In If Ie Io Ier End_ Im Ian] Hv Hc. set (id0 := spec_id raw) in *.
  assert (Hraw : raw ∈ specs) by (subst specs; set_solver).
  pose proof (decision_of specs r raw Hraw) as Hd. fold id0 in Hd. rewrite <- Hc, Hv in Hd.
  destruct Hd as [msg0 Hd]. rewrite Hc in Hd.
  assert (Hna : id0 ∉ as_Applied st).
  { destruct (decide (id0 ∈ (spec_id <$> seen))) as [Hin|Hn]; [|by apply If].
    by destruct (Ie _ _ Hin Hd) as (_ & _ & ? & _). }
  unfold apply_fail. case_bool_decide as Hrep.
  - assert (Hin : id0 ∈ (spec_id <$> seen)).
    { destruct (decide (id0 ∈ (spec_id <$> seen))); [done|]. by destruct (If id0) as (_ & _ & [] & _). }
    constructor; try done.
    + intros id Hn. apply If. rewrite elem_of_seen in Hn. naive_solver.
    + intros id m Hi. apply Ie. apply elem_of_seen in Hi as [?| ->]; done.
    + intros id sp Hi Hd'. apply elem_of_seen in Hi as [?|Hi]; [by apply Io|].
      change (id = id0) in Hi. subst id. congruence.
  - assert (Hn0 : id0 ∉ (spec_id <$> seen)).
    { intros Hin. by destruct (Ie _ _ Hin Hd) as (_ & ? & _). }
    destruct (If id0 Hn0) as (_ & Hk0 & _ & _).
    set (keep := match as_clients st !! id0 with Some _ => _ | None => _ end).
    assert (Hkeep : ∀ id, id ∈ keep ↔ id ∈ as_keep st ∨ (id = id0 ∧ is_api (r_clients r !! id0) = true)).
    { intros id. unfold keep. rewrite Hc. destruct (r_clients r !! id0) as [e|]; simpl; [|naive_solver].
      case_bool_decide; set_solver. }
    constructor; cbn [as_clients as_next as_keep as_reported as_Applied as_Errors as_Started]; try done.
    + intros id Hn. rewrite elem_of_seen in Hn. destruct (If id ltac:(naive_solver)) as (? & ? & ? & ?).
      split_and!; [done| |set_solver|done]. rewrite Hkeep. naive_solver.
    + intros id m Hi Hd'. apply elem_of_seen in Hi as [Hi|Hi]; [|change (id = id0) in Hi; subst id].
      * destruct (Ie _ _ Hi Hd') as (? & ? & ? & Hk). split_and!; [done|set_solver|done|].
        rewrite Hkeep, Hk. split; [|naive_solver]. intros [?|[-> ?]]; done.
      * split_and!; [done|set_solver|done|]. rewrite Hkeep. naive_solver.
    + intros id sp Hi Hd'. apply elem_of_seen in Hi as [Hi|Hi]; [|change (id = id0) in Hi; subst id; congruence].
      destruct (Io _ _ Hi Hd') as (? & ? & ? & ?).
      split_and!; [done|rewrite Hkeep; by left|done|]. intros [->%elem_of_singleton|?]%elem_of_union; done.
    + intros id. rewrite fmap_app, elem_of_app, <- Ier. simpl. set_solver.
    + rewrite fmap_app. apply NoDup_app. split_and!; [done| |apply NoDup_singleton].
      intros id Hid. apply Ier in Hid. simpl. set_solver.
    + intros ae [Hae|Hae%list_elem_of_singleton]%elem_of_app; [by apply Im|]. subst ae. cbn [ae_ID ae_Message].
      pose proof (specs_of_head specs seen raw rest Hsp Hn0) as Hhd. fold id0 in Hhd.
      unfold decision. rewrite Hhd. cbn [fmap option_fmap option_map]. rewrite Hc in Hv. by rewrite Hv.
Qed.

(** An accepted spec is the first the loop meets under its id. *)
Lemma ok_fresh specs seen raw rest :
  specs = seen ++ raw :: rest → specs_of specs (spec_id raw) = [raw] → spec_id raw ∉ (spec_id <$> seen).
Proof.
  intros -> Hu (y & Hy & Hin)%list_elem_of_fmap. unfold specs_of in Hu.
  rewrite filter_app, filter_cons, decide_True in Hu by done.
  assert (Hf : y ∈ filter (λ s, spec_id s = spec_id raw) seen) by (by apply list_elem_of_filter).
  apply (f_equal length) in Hu. rewrite length_app in Hu. simpl in Hu.
  destruct (filter _ seen); [by apply not_elem_of_nil in Hf|simpl in Hu; lia].
Qed.

(** What [apply_spec] leaves: one map entry, and [id] kept and reported as applied. *)
Lemma apply_spec_shape id spec st :
  let st' := apply_spec id spec st in
  (∃ e, as_clients st' = <[id := e]> (as_clients st) ∧
        entry_after (as_clients st !! id) spec (as_next st) (as_next st') e) ∧
  (as_next st ≤ as_next st')%nat ∧ as_keep st' = {[id]} ∪ as_keep st ∧
  as_reported st' = as_reported st ∧ as_Applied st' = as_Applied st ++ [id] ∧
  as_Errors st' = as_Errors st.
Proof.
  cbn zeta. unfold apply_spec, entry_after.
  destruct (as_clients st !! id) as [e0|]; [case_bool_decide|];
    cbn [as_clients as_next as_keep as_reported as_Applied as_Errors];
    (split_and!; [|lia|done..]); eexists; (split; [reflexivity|]); [done| |];
    eexists; (split; [|reflexivity]); lia.
Qed.

Lemma entry_after_lo old spec lo lo' hi e :
  entry_after old spec lo hi e → (lo' ≤ lo)%nat → entry_after old spec lo' hi e.
Proof.
  unfold entry_after. intros He Hle.
  assert (Hk : (∃ k, (lo ≤ k < hi)%nat ∧ e = built_entry k spec) →
               ∃ k, (lo' ≤ k < hi)%nat ∧ e = built_entry k spec).
  { intros (k & ? & ->). exists k. split; [lia|done]. }
  destruct old as [e0|]; [|by apply Hk]. case_bool_decide; [done|by apply Hk].
Qed.

Lemma loop_inv_ok specs r seen st raw rest spec :
  specs = seen ++ raw :: rest → loop_inv specs r seen st →
  spec_verdict specs (as_clients st !! spec_id raw) raw = Ok spec →
  loop_inv specs r (seen ++ [raw]) (apply_spec (spec_id raw) spec st).
Proof.
  intros Hsp [In If Ie Io Ier End_ Im Ian] Hv.
  assert (Hraw : raw ∈ specs) by (rewrite Hsp; apply elem_of_app; right; by left).
  destruct (verdict_ok_unique _ _ _ _ Hv Hraw) as (Hu & _).
  pose proof (ok_fresh _ _ _ _ Hsp Hu) as Hn0.
  destruct (If _ Hn0) as (Hc & _ & Hr0 & Ha0). rewrite Hc in Hv.
  pose proof (decision_of specs r raw Hraw) as Hd. rewrite Hv in Hd.
  pose proof (apply_spec_shape (spec_id raw) spec st) as Hsh. cbn zeta in Hsh.
  set (id0 := spec_id raw) in *. set (st' := apply_spec id0 spec st) in *.
  destruct Hsh as ((e & Hm & He) & Hle & Hk & Hrp & Hap & Her). rewrite Hc in He.
  constructor; rewrite ?Hk, ?Hrp, ?Hap, ?Her; [lia| | | |done|done|done|].
  - intros id Hn. rewrite elem_of_seen in Hn.
    assert (id ≠ id0 ∧ id ∉ (spec_id <$> seen)) as [Hne Hns] by tauto.
    rewrite Hm, lookup_insert_ne by done. destruct (If id Hns) as (? & ? & ? & ?).
    rewrite elem_of_union, elem_of_singleton, elem_of_app, list_elem_of_singleton. tauto.
  - intros id m Hi Hd'. apply elem_of_seen in Hi as [Hi|Hi]; [|change (id = id0) in Hi; subst id; congruence].
    assert (id ≠ id0) by (intros ->; done). rewrite Hm, lookup_insert_ne by done.
    destruct (Ie _ _ Hi Hd') as (? & ? & ? & <-).
    rewrite elem_of_union, elem_of_singleton, elem_of_app, list_elem_of_singleton. tauto.
  - intros id sp Hi Hd'. rewrite elem_of_union, elem_of_singleton, elem_of_app, list_elem_of_singleton, Hm.
    apply elem_of_seen in Hi as [Hi|Hi].
    + assert (id ≠ id0) by (intros ->; done). rewrite lookup_insert_ne by done.
      destruct (Io _ _ Hi Hd') as ((e' & He' & Hea) & ? & ? & ?). split_and!; [|tauto..].
      exists e'. split; [done|]. by eapply entry_after_mono.
    + change (id = id0) in Hi. subst id. rewrite lookup_insert_eq.
      assert (sp = spec) as -> by congruence. split_and!; [|tauto..].
      exists e. split; [done|]. eapply entry_after_lo; [exact He|lia].
  - apply NoDup_app. split_and!; [done| |apply NoDup_singleton].
    intros id Hin ->%list_elem_of_singleton. done.
Qed.

(** The registered entry the loop compares a spec against is the one the push found. *)
Lemma loop_verdict_old specs r seen st raw rest :
  specs = seen ++ raw :: rest → loop_inv specs r seen st →
  as_clients st !! spec_id raw = r_clients r !! spec_id raw ∨
  ∃ spec, decision specs (r_clients r !! spec_id raw) (spec_id raw) = Some (Ok spec) ∧
          spec_id raw ∈ (spec_id <$> seen).
Proof.
  intros Hsp HI. destruct (decide (spec_id raw ∈ (spec_id <$> seen))) as [Hin|Hn].
  - assert (Hraw : raw ∈ specs) by (rewrite Hsp; apply elem_of_app; right; by left).
    pose proof (decision_of specs r raw Hraw) as Hd.
    destruct (spec_verdict _ _ _) as [spec|msg]; [right; by exists spec|].
    destruct Hd as [msg' Hd]. left. by apply (li_err _ _ _ _ HI _ _ Hin Hd).
  - left. by apply (li_fresh _ _ _ _ HI).
Qed.

Lemma loop_inv_step specs r seen st raw rest :
  specs = seen ++ raw :: rest → loop_inv specs r seen st →
  loop_inv specs r (seen ++ [raw]) (apply_one (spec_counts specs) st raw).
Proof.
  intros Hsp HI. rewrite apply_one_verdict.
  destruct (loop_verdict_old _ _ _ _ _ _ Hsp HI) as [Hold|(spec & Hd & Hin)].
  - destruct (spec_verdict _ _ _) as [spec|msg] eqn:Hv; [by eapply loop_inv_ok|by eapply loop_inv_fail].
  - exfalso. unfold decision in Hd.
    destruct (head (specs_of specs (spec_id raw))) as [x|] eqn:Hh; [|done].
    cbn [fmap option_fmap option_map] in Hd. injection Hd as Hv.
    assert (Hx : x ∈ specs_of specs (spec_id raw)).
    { destruct (specs_of specs (spec_id raw)); [done|]. injection Hh as ->. by left. }
    apply list_elem_of_filter in Hx as [Hxid Hx]. rewrite <- Hxid in Hv.
    destruct (verdict_ok_unique _ _ _ _ Hv Hx) as [Hu _]. rewrite Hxid in Hu.
    assert (raw ∈ specs_of specs (spec_id raw)) as Hr.
    { apply list_elem_of_filter. split; [done|]. rewrite Hsp. apply elem_of_app. right. by left. }
    rewrite Hu in Hr. apply list_elem_of_singleton in Hr as ->. by apply (ok_fresh _ _ _ _ Hsp Hu).
Qed.

Lemma loop_inv_all specs r rest seen st :
  specs = seen ++ rest → loop_inv specs r seen st →
  loop_inv specs r specs (foldl (apply_one (spec_counts specs)) st rest).
Proof.
  revert seen st. induction rest as [|raw rest IH]; intros seen st Hsp HI.
  - rewrite app_nil_r in Hsp. subst seen. done.
  - cbn [foldl]. apply (IH (seen ++ [raw])); [by rewrite <- app_assoc|].
    by eapply loop_inv_step.
Qed.

(** The state after the first loop, id by id. *)
Lemma apply_specs_inv specs r : loop_inv specs r specs (apply_specs specs r).
Proof. apply (loop_inv_all _ _ _ []); [done|apply loop_inv_init]. Qed.
End apply_facts.
