(* ===== verification/RegistrySpec.v ===== *)
(** * What the registry promises

    The specification of [Registry.Apply] entry by entry, and the properties of the registry:
    the outcome of a push on every client id, the invariant every operation keeps, the
    independence from Go's map order, the idempotence of a repeated push, and leases that keep a
    client registered. *)

From S2P Require Import Prelude GoStrings Adapters Responses Clients Registry.

Section spec.
Context {A : Type} `{ClientFactory A} `{Quote}.
Implicit Types (r : Registry A) (e : entry A) (specs : list ClientSpec).

(** ** The abstract outcome of a push

    [None]: the push does not mention the id.  A refused entry leaves what runs under its id
    untouched; an accepted one is registered; an API client the push does not mention is removed,
    or left draining while it is in use. *)
Definition push_entry (specs : list ClientSpec) (leases : gmap string Z) (inUse : string → bool)
    (lo hi : nat) (id : string) (old new : option (entry A)) : Prop :=
  match decision specs old id with
  | Some (Ok spec) => ∃ e, new = Some e ∧ entry_after old spec lo hi e
  | Some (Err _) => new = old
  | None => new = old ≫= λ e, if bool_decide (e_source e = SourceAPI) then
                                if in_use leases inUse id then Some (set_draining true e) else None
                              else Some e
  end.

Definition map_ids (m : gmap string (entry A)) : list string := (map_to_list m).*1.

Lemma map_ids_NoDup m : NoDup (map_ids m).
Proof. apply NoDup_fst_map_to_list. Qed.

Lemma elem_of_map_ids m id : id ∈ map_ids m ↔ is_Some (m !! id).
Proof.
  unfold map_ids. rewrite list_elem_of_fmap. split.
  - intros ([k v] & -> & Hin). apply elem_of_map_to_list in Hin. by eexists.
  - intros [v Hv]. exists (id, v). split; [done|]. by apply elem_of_map_to_list.
Qed.

(** An order Go may visit the registry's map in. *)
Definition sweep_order (specs : list ClientSpec) r (order : list string) : Prop :=
  order ≡ₚ sweep_ids specs r.

Lemma sweep_order_NoDup specs r order : sweep_order specs r order → NoDup order.
Proof. unfold sweep_order. intros ->. apply map_ids_NoDup. Qed.

Lemma sweep_order_elem specs r order id :
  sweep_order specs r order → id ∈ order ↔ is_Some (as_clients (apply_specs specs r) !! id).
Proof. unfold sweep_order. intros ->. apply elem_of_map_ids. Qed.

Lemma decision_None specs (old : option (entry A)) id : decision specs old id = None ↔ id ∉ (spec_id <$> specs).
Proof.
  unfold decision. destruct (specs_of specs id) as [|s l] eqn:E; simpl.
  - split; [|done]. intros _ (s & -> & Hin)%list_elem_of_fmap.
    assert (Hs : s ∈ specs_of specs (spec_id s)) by (by apply list_elem_of_filter).
    rewrite E in Hs. by apply not_elem_of_nil in Hs.
  - split; [done|]. intros Hn. exfalso. apply Hn, list_elem_of_fmap. exists s.
    assert (Hs : s ∈ specs_of specs id) by (rewrite E; by left).
    apply list_elem_of_filter in Hs as [<- ?]. done.
Qed.

Lemma decision_Some specs (old : option (entry A)) id v :
  decision specs old id = Some v → id ∈ (spec_id <$> specs).
Proof.
  intros Hd. destruct (decide (id ∈ spec_id <$> specs)) as [|Hn]; [done|].
  apply (decision_None _ old) in Hn. congruence.
Qed.

(** A decision of acceptance comes from a spec of the push. *)
Lemma decision_Ok_inv specs (old : option (entry A)) id spec :
  decision specs old id = Some (Ok spec) →
  ∃ raw, raw ∈ specs ∧ spec_id raw = id ∧ specs_of specs id = [raw] ∧ ValidClientID id = true ∧
         is_env old = false ∧ PrepareSpec raw = Ok spec.
Proof.
  unfold decision. destruct (specs_of specs id) as [|raw l] eqn:E; [done|]. simpl. intros [= Hv].
  assert (Hs : raw ∈ specs_of specs id) by (rewrite E; by left).
  apply list_elem_of_filter in Hs as [Hid Hin].
  destruct (verdict_ok_unique _ _ _ _ Hv Hin) as (Hu & ? & ? & ?). rewrite Hid in *.
  exists raw. split_and!; try done. congruence.
Qed.

Lemma PrepareSpec_ID raw spec : PrepareSpec raw = Ok spec → spec_ID spec = spec_id raw.
Proof. intros (ti & b & creds & ps & _ & _ & _ & _ & _ & ->)%PrepareSpec_inv. done. Qed.

(** The removal loop on the state the first loop leaves. *)
Lemma Apply_in_lookup_aux order rev specs inUse r id :
  sweep_order specs r order →
  r_clients (Apply_in order rev specs inUse r).1 !! id =
  as_clients (apply_specs specs r) !! id ≫= sweep_entry (r_leases r) inUse (as_keep (apply_specs specs r)) id.
Proof.
  intros Ho. unfold Apply_in. cbn [fst r_clients].
  destruct (sweep_spec (r_leases r) inUse (as_keep (apply_specs specs r)) order
              (as_clients (apply_specs specs r)) [] [] (sweep_order_NoDup _ _ _ Ho)) as (H1 & _ & _).
  unfold sweep. rewrite H1. case_decide as Hin; [done|].
  rewrite (sweep_order_elem _ _ _ _ Ho) in Hin.
  apply eq_None_not_Some in Hin. by rewrite Hin.
Qed.

Lemma push_entry_lookup order rev specs inUse r id :
  sweep_order specs r order →
  push_entry specs (r_leases r) inUse (r_next r) (r_next (Apply_in order rev specs inUse r).1) id
    (r_clients r !! id) (r_clients (Apply_in order rev specs inUse r).1 !! id).
Proof.
  intros Ho. rewrite (Apply_in_lookup_aux _ _ _ _ _ _ Ho). pose proof (apply_specs_inv specs r) as HI.
  change (r_next (Apply_in order rev specs inUse r).1) with (as_next (apply_specs specs r)).
  set (st := apply_specs specs r) in *. unfold push_entry.
  destruct (decision specs (r_clients r !! id) id) as [[spec|msg]|] eqn:Hd.
  - pose proof (decision_Some _ _ _ _ Hd) as Hin.
    destruct (li_ok _ _ _ _ HI _ _ Hin Hd) as ((e & -> & He) & Hk & _). exists e. split; [|done].
    simpl. unfold sweep_entry, removable. rewrite (bool_decide_eq_true_2 _ Hk).
    by rewrite andb_false_r.
  - pose proof (decision_Some _ _ _ _ Hd) as Hin.
    destruct (li_err _ _ _ _ HI _ _ Hin Hd) as (-> & _ & _ & Hk).
    destruct (r_clients r !! id) as [e|]; [|done]. simpl in *. unfold sweep_entry, removable.
    destruct (bool_decide (e_source e = SourceAPI)) eqn:Hs; [|done].
    by rewrite (bool_decide_eq_true_2 _ (proj2 Hk eq_refl)).
  - apply decision_None in Hd. destruct (li_fresh _ _ _ _ HI _ Hd) as (-> & Hk & _).
    destruct (r_clients r !! id) as [e|]; [|done]. simpl. unfold sweep_entry, removable.
    rewrite (bool_decide_eq_false_2 _ Hk). by rewrite andb_true_r.
Qed.

(** ** The lists a push reports *)

Lemma errors_iff specs r ae :
  ae ∈ as_Errors (apply_specs specs r) ↔
  decision specs (r_clients r !! ae_ID ae) (ae_ID ae) = Some (Err (ae_Message ae)).
Proof.
  pose proof (apply_specs_inv specs r) as HI. split; [apply (li_messages _ _ _ _ HI)|]. intros Hd.
  pose proof (decision_Some _ _ _ _ Hd) as Hin.
  destruct (li_err _ _ _ _ HI _ _ Hin Hd) as (_ & Hr & _).
  apply (li_errors _ _ _ _ HI), list_elem_of_fmap in Hr as (ae' & Hid & Hae).
  pose proof (li_messages _ _ _ _ HI _ Hae) as Hd'. rewrite <- Hid, Hd in Hd'. injection Hd' as Hm.
  destruct ae, ae'. simpl in *. by subst.
Qed.

Lemma applied_iff specs r id :
  id ∈ as_Applied (apply_specs specs r) ↔ ∃ spec, decision specs (r_clients r !! id) id = Some (Ok spec).
Proof.
  pose proof (apply_specs_inv specs r) as HI. split.
  - intros Ha. destruct (decision specs (r_clients r !! id) id) as [[spec|msg]|] eqn:Hd; [by exists spec| |].
    + by destruct (li_err _ _ _ _ HI _ _ (decision_Some _ _ _ _ Hd) Hd) as (_ & _ & ? & _).
    + apply decision_None in Hd. by destruct (li_fresh _ _ _ _ HI _ Hd) as (_ & _ & _ & ?).
  - intros [spec Hd]. by destruct (li_ok _ _ _ _ HI _ _ (decision_Some _ _ _ _ Hd) Hd) as (_ & _ & ? & _).
Qed.

(** What the removal loop finds removable, in terms of the registry before the push. *)
Lemma removable_iff specs r id e :
  as_clients (apply_specs specs r) !! id = Some e ∧ removable (as_keep (apply_specs specs r)) id e = true ↔
  r_clients r !! id = Some e ∧ e_source e = SourceAPI ∧ id ∉ (spec_id <$> specs).
Proof.
  pose proof (apply_specs_inv specs r) as HI. unfold removable. rewrite andb_true_iff, bool_decide_eq_true, negb_true_iff, bool_decide_eq_false.
  destruct (decision specs (r_clients r !! id) id) as [[spec|msg]|] eqn:Hd.
  - pose proof (decision_Some _ _ _ _ Hd) as Hin. destruct (li_ok _ _ _ _ HI _ _ Hin Hd) as (_ & ? & _). tauto.
  - pose proof (decision_Some _ _ _ _ Hd) as Hin. destruct (li_err _ _ _ _ HI _ _ Hin Hd) as (-> & _ & _ & Hk).
    split; [|tauto]. intros (He & Hs & Hn). rewrite He in Hk. simpl in Hk. rewrite bool_decide_eq_true_2 in Hk by done. tauto.
  - apply decision_None in Hd. destruct (li_fresh _ _ _ _ HI _ Hd) as (-> & ? & _). tauto.
Qed.

(** An API client the push leaves out. *)
Definition left_out specs r (id : string) (e : entry A) : Prop :=
  r_clients r !! id = Some e ∧ e_source e = SourceAPI ∧ id ∉ (spec_id <$> specs).

Lemma sweep_lists specs r inUse order :
  sweep_order specs r order →
  let sw := sweep (r_leases r) inUse (as_keep (apply_specs specs r)) order (as_clients (apply_specs specs r)) in
  (∀ id, id ∈ sw_Draining sw ↔
     ∃ e, left_out specs r id e ∧ in_use (r_leases r) inUse id = true ∧ e_draining e = false) ∧
  (∀ id, id ∈ sw_Removed sw ↔ ∃ e, left_out specs r id e ∧ in_use (r_leases r) inUse id = false).
Proof.
  intros Ho. cbn zeta.
  destruct (sweep_spec (r_leases r) inUse (as_keep (apply_specs specs r)) order
              (as_clients (apply_specs specs r)) [] [] (sweep_order_NoDup _ _ _ Ho)) as (_ & H2 & H3).
  unfold sweep. rewrite H2, H3. split; intros id; rewrite app_nil_l, list_elem_of_filter, (sweep_order_elem _ _ _ _ Ho).
  - unfold newly_draining, left_out. split.
    + intros ((e & He & Hr & ? & ?) & _). exists e. pose proof (proj1 (removable_iff specs r id e) (conj He Hr)). tauto.
    + intros (e & Hl & Hu & Hd). apply removable_iff in Hl as [He Hr]. rewrite He. split; [|by eexists]. exists e. tauto.
  - unfold newly_removed, left_out. split.
    + intros ((e & He & Hr & ?) & _). exists e. pose proof (proj1 (removable_iff specs r id e) (conj He Hr)). tauto.
    + intros (e & Hl & Hu). apply removable_iff in Hl as [He Hr]. rewrite He. split; [|by eexists]. exists e. tauto.
Qed.

(** ** A push that finds everything as it asks *)

Lemma set_draining_id b e : e_draining e = b → set_draining b e = e.
Proof. destruct e. simpl. by intros ->. Qed.

(** Every accepted spec is already running with the same settings. *)
Definition settled specs r : Prop :=
  ∀ id spec, decision specs (r_clients r !! id) id = Some (Ok spec) →
    ∃ e, r_clients r !! id = Some e ∧ e_hash e = specHash spec ∧ e_draining e = false.

Lemma settled_step specs r seen raw rest st :
  settled specs r → specs = seen ++ raw :: rest → as_clients st = r_clients r → 
  let st' := apply_one (spec_counts specs) st raw in
  as_clients st' = r_clients r ∧ as_next st' = as_next st ∧ as_Started st' = as_Started st.
Proof.
  intros Hs Hsp Hc. cbn zeta. rewrite apply_one_verdict, Hc.
  assert (Hraw : raw ∈ specs) by (rewrite Hsp; apply elem_of_app; right; by left).
  pose proof (decision_of specs r raw Hraw) as Hd.
  destruct (spec_verdict _ _ _) as [spec|msg]; [|unfold apply_fail; by case_bool_decide].
  destruct (Hs _ _ Hd) as (e & He & Hh & Hdr). unfold apply_spec. rewrite Hc, He.
  rewrite bool_decide_eq_true_2 by done. cbn [as_clients as_next as_Started]. split_and!; [|done..].
  rewrite set_draining_id by done. by apply insert_id.
Qed.

Lemma settled_loop specs r rest seen st :
  settled specs r → specs = seen ++ rest → as_clients st = r_clients r →
  let st' := foldl (apply_one (spec_counts specs)) st rest in
  as_clients st' = r_clients r ∧ as_next st' = as_next st ∧ as_Started st' = as_Started st.
Proof.
  intros Hs. revert seen st. induction rest as [|raw rest IH]; intros seen st Hsp Hc; cbn zeta; [done|].
  destruct (settled_step specs r seen raw rest st Hs Hsp Hc) as (H1 & H2 & H3). cbn [foldl].
  destruct (IH (seen ++ [raw]) _ ltac:(by rewrite <- app_assoc) H1) as (-> & -> & ->). done.
Qed.

Lemma settled_specs specs r :
  settled specs r →
  as_clients (apply_specs specs r) = r_clients r ∧ as_next (apply_specs specs r) = r_next r ∧
  as_Started (apply_specs specs r) = [].
Proof.
  intros Hs. exact (settled_loop specs r specs [] (MkApplyState (r_clients r) (r_next r) ∅ ∅ [] [] [])
                      Hs eq_refl eq_refl).
Qed.

(** The registry a push leaves has settled that push. *)
Lemma decision_env_ext specs (old new : option (entry A)) id :
  is_env old = is_env new → decision specs old id = decision specs new id.
Proof.
  intros He. unfold decision. destruct (head _); [|done]. cbn. unfold spec_verdict. by rewrite He.
Qed.

Lemma entry_after_api old spec lo hi e :
  is_env old = false → entry_after old spec lo hi e →
  is_env (Some e) = false ∧ e_hash e = specHash spec ∧ e_draining e = false.
Proof.
  unfold entry_after. intros Hold He.
  assert (Hk : (∃ k, (lo ≤ k < hi)%nat ∧ e = built_entry k spec) →
               is_env (Some e) = false ∧ e_hash e = specHash spec ∧ e_draining e = false).
  { by intros (k & _ & ->). }
  destruct old as [e0|]; [|by apply Hk]. case_bool_decide as Hh; [|by apply Hk]. by subst e.
Qed.

Lemma push_entry_env specs leases inUse lo hi id old new :
  push_entry specs leases inUse lo hi id old new → is_env new = is_env old.
Proof.
  unfold push_entry. destruct (decision specs old id) as [[spec|msg]|] eqn:Hd.
  - intros (e & -> & He). apply decision_Ok_inv in Hd as (_ & _ & _ & _ & _ & Hn & _).
    rewrite Hn. by destruct (entry_after_api _ _ _ _ _ Hn He).
  - by intros ->.
  - intros ->. destruct old as [e|]; [|done]. simpl. destruct (bool_decide (e_source e = SourceAPI)) eqn:Hs; [|done].
    apply bool_decide_eq_true in Hs. destruct (in_use _ _ _); simpl; rewrite Hs; done.
Qed.

Lemma push_settles order rev specs inUse r :
  sweep_order specs r order → settled specs (Apply_in order rev specs inUse r).1.
Proof.
  intros Ho id spec Hd. pose proof (push_entry_lookup order rev specs inUse r id Ho) as Hp.
  rewrite (decision_env_ext _ _ (r_clients r !! id)) in Hd by (by eapply push_entry_env).
  unfold push_entry in Hp. rewrite Hd in Hp. destruct Hp as (e & Hl & He). exists e. split; [done|].
  apply decision_Ok_inv in Hd as (_ & _ & _ & _ & _ & Hn & _).
  by destruct (entry_after_api _ _ _ _ _ Hn He) as (_ & ? & ?).
Qed.

(** ** The invariant *)

(** A registered entry: its id is its key and its secret is gone; an env client never drains; an
    API client was built, by the [k]-th call of [buildClient], from settings [PrepareSpec]
    accepted, and its hash is their fingerprint. *)
Record wf_entry (next : nat) (id : string) (e : entry A) : Prop := {
  we_id : spec_ID (e_spec e) = id;
  we_secret : spec_Secret (e_spec e) = EmptyString;
  we_env : e_source e = SourceEnv → e_draining e = false ∧ e_hash e = zero_hash;
  we_api : e_source e = SourceAPI → ValidClientID id = true ∧
    ∃ raw spec k, (k < next)%nat ∧ PrepareSpec raw = Ok spec ∧ e_spec e = drop_secret spec ∧
      e_secretSet e = negb (bool_decide (spec_Secret spec = EmptyString)) ∧
      e_hash e = specHash spec ∧ e_adapter e = buildClient k spec
}.

Record wf_registry r : Prop := {
  wr_entries id e : r_clients r !! id = Some e → wf_entry (r_next r) id e;
  wr_leases id n : r_leases r !! id = Some n → (0 < n)%Z
}.

Lemma wf_entry_mono next next' id e : wf_entry next id e → (next ≤ next')%nat → wf_entry next' id e.
Proof.
  intros [? ? ? Ha] Hle. constructor; [done..|]. intros Hs.
  destruct (Ha Hs) as (? & raw & spec & k & ? & ?). split; [done|]. exists raw, spec, k. split; [lia|done].
Qed.

Lemma wf_entry_draining next id e b :
  wf_entry next id e → e_source e = SourceAPI → wf_entry next id (set_draining b e).
Proof. intros [? ? ? Ha] Hs. constructor; cbn; [done|done|congruence|done]. Qed.

Lemma wf_entry_after specs old id spec lo hi e :
  decision specs old id = Some (Ok spec) → entry_after old spec lo hi e → (lo ≤ hi)%nat →
  (∀ e0, old = Some e0 → wf_entry lo id e0) → wf_entry hi id e.
Proof.
  intros Hd He Hle Hold. destruct (decision_Ok_inv _ _ _ _ Hd) as (raw & Hin & Hid & _ & Hv & Henv & Hp).
  assert (Hk : (∃ k, (lo ≤ k < hi)%nat ∧ e = built_entry k spec) → wf_entry hi id e).
  { intros (k & Hk & ->). constructor; cbn; try done.
    - pose proof (PrepareSpec_ID _ _ Hp) as Hi. congruence.
    - intros _. split; [done|]. exists raw, spec, k. split; [lia|done]. }
  unfold entry_after in He. destruct old as [e0|]; [|by apply Hk].
  case_bool_decide as Hh; [|by apply Hk]. subst e. eapply wf_entry_mono; [|exact Hle].
  apply wf_entry_draining; [by apply Hold|]. simpl in Henv. by destruct (e_source e0).
Qed.

Lemma apply_next_le specs r : (r_next r ≤ as_next (apply_specs specs r))%nat.
Proof. apply (li_next _ _ _ _ (apply_specs_inv specs r)). Qed.

Lemma Apply_in_wf order rev specs inUse r :
  sweep_order specs r order → wf_registry r → wf_registry (Apply_in order rev specs inUse r).1.
Proof.
  intros Ho [He Hl]. pose proof (apply_next_le specs r) as Hle. constructor; [|exact Hl].
  intros id e Hlk. pose proof (push_entry_lookup order rev specs inUse r id Ho) as Hp.
  rewrite Hlk in Hp. change (r_next (Apply_in order rev specs inUse r).1) with (as_next (apply_specs specs r)) in *.
  unfold push_entry in Hp. destruct (decision specs _ id) as [[spec|msg]|] eqn:Hd.
  - destruct Hp as (e' & [= <-] & Hea). eapply wf_entry_after; [exact Hd|exact Hea|done|].
    intros e0 H0'. by apply He.
  - eapply wf_entry_mono; [by apply He|done].
  - destruct (r_clients r !! id) as [e0|] eqn:Ho'; [|done]. simpl in Hp.
    eapply wf_entry_mono; [|exact Hle]. pose proof (He _ _ Ho') as Hw.
    case_bool_decide; [|congruence]. destruct (in_use _ _ _); [|done]. injection Hp as ->.
    by apply wf_entry_draining.
Qed.

Lemma reap_lookup order inUse r id :
  NoDup order →
  r_clients (Reap_in order inUse r).1 !! id =
  if decide (id ∈ order) then r_clients r !! id ≫= reap_entry (r_leases r) inUse id else r_clients r !! id.
Proof. intros Hnd. apply (reap_spec (r_leases r) inUse order (r_clients r) []). done. Qed.

Lemma Reap_in_wf order inUse r : NoDup order → wf_registry r → wf_registry (Reap_in order inUse r).1.
Proof.
  intros Hnd [He Hl]. constructor; [|exact Hl]. intros id e. rewrite (reap_lookup order inUse r id Hnd).
  change (r_next (Reap_in order inUse r).1) with (r_next r).
  case_decide; [|apply He]. destruct (r_clients r !! id) as [e0|] eqn:Ho; [|done]. simpl.
  unfold reap_entry. destruct (_ && _); [done|]. intros [= <-]. by apply He.
Qed.

Lemma AddEnv_wf spec ad r : wf_registry r → wf_registry (AddEnv spec ad r).
Proof.
  intros [He Hl]. constructor; [|exact Hl]. intros id e. unfold AddEnv, with_clients.
  cbn [r_clients r_next]. rewrite lookup_insert_Some. intros [[<- <-]|[_ ?]]; [|by apply He].
  constructor; cbn; done.
Qed.

Lemma Lease_wf id r c r' : Lease id r = Ok (c, r') → wf_registry r → wf_registry r'.
Proof.
  unfold Lease. intros Hls [He Hl]. destruct (r_clients r !! id) as [e|]; [|done].
  destruct (e_draining e); [done|]. injection Hls as <- <-. constructor; [exact He|].
  intros i n. cbn [with_leases r_leases]. rewrite lookup_insert_Some. intros [[<- <-]|[_ ?]]; [|by eapply Hl].
  unfold leases_of. destruct (r_leases r !! id) as [k|] eqn:E; simpl; [|lia]. apply Hl in E. lia.
Qed.

Lemma release_wf id r : wf_registry r → wf_registry (release id r).
Proof.
  intros [He Hl]. constructor; [exact He|]. intros i n. unfold release. cbn zeta.
  destruct (_ <=? 0)%Z eqn:E; cbn [with_leases r_leases].
  - rewrite lookup_delete_Some. intros [_ ?]. by eapply Hl.
  - rewrite lookup_insert_Some. intros [[<- <-]|[_ ?]]; [|by eapply Hl]. apply Z.leb_gt in E. lia.
Qed.

(** Every state the registry's operations reach. *)
Inductive reg_reachable : Registry A → Prop :=
| rr_new ads : reg_reachable (NewRegistry ads)
| rr_add_env spec ad r : reg_reachable r → reg_reachable (AddEnv spec ad r)
| rr_lease id c r r' : reg_reachable r → Lease id r = Ok (c, r') → reg_reachable r'
| rr_release id r : reg_reachable r → reg_reachable (release id r)
| rr_apply order rev specs inUse r :
    reg_reachable r → sweep_order specs r order → reg_reachable (Apply_in order rev specs inUse r).1
| rr_reap order inUse r :
    reg_reachable r → order ≡ₚ map_ids (r_clients r) → reg_reachable (Reap_in order inUse r).1.

Lemma NewRegistry_wf ads : wf_registry (NewRegistry ads).
Proof.
  unfold NewRegistry. assert (H0' : wf_registry (empty_registry (A := A))).
  { constructor; intros ? ?; unfold empty_registry; cbn; by rewrite lookup_empty. }
  revert H0'. generalize (empty_registry (A := A)). induction ads as [|[ad|] ads IH]; intros r Hr; cbn [foldl]; [done| |by apply IH].
  by apply IH, AddEnv_wf.
Qed.

Lemma reachable_wf r : reg_reachable r → wf_registry r.
Proof.
  induction 1.
  - apply NewRegistry_wf.
  - by apply AddEnv_wf.
  - by eapply Lease_wf.
  - by apply release_wf.
  - by apply Apply_in_wf.
  - apply Reap_in_wf; [|done]. match goal with Hp : _ ≡ₚ _ |- _ => rewrite Hp end. apply map_ids_NoDup.
Qed.

(** ** The order of the walks *)

Lemma sweep_perm leases inUse keep (o1 o2 : list string) (m : gmap string (entry A)) :
  NoDup o1 → o1 ≡ₚ o2 →
  let s1 := sweep leases inUse keep o1 m in
  let s2 := sweep leases inUse keep o2 m in
  sw_clients s1 = sw_clients s2 ∧ sw_Draining s1 ≡ₚ sw_Draining s2 ∧ sw_Removed s1 ≡ₚ sw_Removed s2.
Proof.
  intros N1 Hp. assert (N2 : NoDup o2) by (by rewrite <- Hp). cbn zeta. unfold sweep.
  destruct (sweep_spec leases inUse keep o1 m [] [] N1) as (A1 & B1 & C1).
  destruct (sweep_spec leases inUse keep o2 m [] [] N2) as (A2 & B2 & C2).
  split_and!.
  - apply map_eq. intros i. rewrite A1, A2. apply decide_ext. by rewrite Hp.
  - rewrite B1, B2, Hp. done.
  - rewrite C1, C2, Hp. done.
Qed.

Lemma reap_perm inUse (o1 o2 : list string) r :
  NoDup o1 → o1 ≡ₚ o2 → Reap_in o1 inUse r = Reap_in o2 inUse r.
Proof.
  intros N1 Hp. assert (N2 : NoDup o2) by (by rewrite <- Hp).
  destruct (reap_spec (r_leases r) inUse o1 (r_clients r) [] N1) as [A1 B1].
  destruct (reap_spec (r_leases r) inUse o2 (r_clients r) [] N2) as [A2 B2].
  unfold Reap_in. cbn zeta. rewrite B1, B2. f_equal.
  - unfold with_clients. f_equal. apply map_eq. intros i. rewrite A1, A2. apply decide_ext. by rewrite Hp.
  - apply sort_strings_unique. by rewrite Hp.
Qed.

(** ** A repeated push *)

Lemma push_decisions order rev specs inUse r id :
  sweep_order specs r order →
  decision specs (r_clients (Apply_in order rev specs inUse r).1 !! id) id = decision specs (r_clients r !! id) id.
Proof. intros Ho. eapply decision_env_ext, push_entry_env. by apply push_entry_lookup. Qed.

(** What a push left out and kept is draining and in use. *)
Lemma push_left_out order rev specs inUse r id e :
  sweep_order specs r order → left_out specs (Apply_in order rev specs inUse r).1 id e →
  in_use (r_leases r) inUse id = true ∧ e_draining e = true.
Proof.
  intros Ho (He & Hsrc & Hid). pose proof (push_entry_lookup order rev specs inUse r id Ho) as Hpush.
  unfold push_entry in Hpush. rewrite (proj2 (decision_None specs (r_clients r !! id) id) Hid), He in Hpush.
  destruct (r_clients r !! id) as [e0|]; [|done]. simpl in Hpush.
  destruct (bool_decide (e_source e0 = SourceAPI)) eqn:Hb.
  - destruct (in_use _ _ _); [|done]. injection Hpush as ->. done.
  - injection Hpush as ->. by rewrite bool_decide_eq_true_2 in Hb.
Qed.

Lemma push_errors_again order rev specs inUse r :
  sweep_order specs r order →
  as_Errors (apply_specs specs (Apply_in order rev specs inUse r).1) = [] ↔ as_Errors (apply_specs specs r) = [].
Proof.
  intros Ho. split; intros Hnil; apply elem_of_nil_inv; intros ae Hae; apply errors_iff in Hae.
  - rewrite <- (push_decisions order rev specs inUse r _ Ho) in Hae.
    apply errors_iff in Hae. rewrite Hnil in Hae. by apply not_elem_of_nil in Hae.
  - rewrite push_decisions in Hae by done.
    apply errors_iff in Hae. rewrite Hnil in Hae. by apply not_elem_of_nil in Hae.
Qed.

Lemma push_clients_again order order' rev specs inUse r :
  let r' := (Apply_in order rev specs inUse r).1 in
  sweep_order specs r order → sweep_order specs r' order' →
  r_clients (Apply_in order' rev specs inUse r').1 = r_clients r'.
Proof.
  cbn zeta. intros Ho Ho'. destruct (settled_specs _ _ (push_settles order rev specs inUse r Ho)) as (Hc & _ & _).
  apply map_eq. intros id. rewrite (Apply_in_lookup_aux _ _ _ _ _ _ Ho'), Hc.
  destruct (r_clients (Apply_in order rev specs inUse r).1 !! id) as [e|] eqn:He; [|done]. simpl. unfold sweep_entry.
  destruct (removable _ id e) eqn:Hrm; [|done].
  destruct (push_left_out order rev specs inUse r id e Ho) as [Hu Hdr].
  { apply removable_iff. by rewrite Hc. }
  change (r_leases (Apply_in order rev specs inUse r).1) with (r_leases r). by rewrite Hu, set_draining_id.
Qed.

(** ** The clients a push starts *)

(** An accepted spec is built anew unless a client with the same fingerprint runs under its id. *)
Definition restarted (old : option (entry A)) (spec : ClientSpec) : bool :=
  match old with Some e0 => negb (bool_decide (e_hash e0 = specHash spec)) | None => true end.

Definition started_inv specs r (seen : list ClientSpec) (st : apply_state (A := A)) : Prop :=
  ∀ c, c ∈ as_Started st ↔ ∃ id spec e, id ∈ (spec_id <$> seen) ∧
    decision specs (r_clients r !! id) id = Some (Ok spec) ∧ restarted (r_clients r !! id) spec = true ∧
    as_clients st !! id = Some e ∧ c = entry_client e.

Lemma apply_spec_started id spec st c :
  c ∈ as_Started (apply_spec (A := A) id spec st) ↔
  c ∈ as_Started st ∨ restarted (as_clients st !! id) spec = true ∧
    ∃ e, as_clients (apply_spec id spec st) !! id = Some e ∧ c = entry_client e.
Proof.
  unfold apply_spec, restarted.
  destruct (as_clients st !! id) as [e0|]; [case_bool_decide|]; cbn [as_Started as_clients negb];
    rewrite ?elem_of_app, ?list_elem_of_singleton, ?lookup_insert_eq; [naive_solver| |];
    (split; [intros [?| ->]; [by left|right; split; [done|by eexists]]|]);
    intros [?|(_ & e & [= <-] & ->)]; [by left|by right|by left|by right].
Qed.

Lemma started_step specs r seen st raw rest :
  specs = seen ++ raw :: rest → loop_inv specs r seen st → started_inv specs r seen st →
  started_inv specs r (seen ++ [raw]) (apply_one (spec_counts specs) st raw).
Proof.
  intros Hsp HI HS c. pose proof (loop_inv_step _ _ _ _ _ _ Hsp HI) as HI'. rewrite apply_one_verdict in HI' |- *.
  assert (Hraw : raw ∈ specs) by (rewrite Hsp; apply elem_of_app; right; by left).
  destruct (spec_verdict specs (as_clients st !! spec_id raw) raw) as [spec|msg] eqn:Hv.
  - destruct (verdict_ok_unique _ _ _ _ Hv Hraw) as (Hu & _).
    pose proof (ok_fresh _ _ _ _ Hsp Hu) as Hn0. destruct (li_fresh _ _ _ _ HI _ Hn0) as (Hc & _).
    assert (Hd : decision specs (r_clients r !! spec_id raw) (spec_id raw) = Some (Ok spec)).
    { unfold decision. rewrite Hu. simpl. by rewrite <- Hc, Hv. }
    rewrite apply_spec_started, (HS c), Hc.
    pose proof (apply_spec_shape (spec_id raw) spec st) as ((e & Hm & _) & _). split.
    + intros [(id & sp & e1 & Hin & H1 & H2 & H3 & ->)|(Hre & e1 & H1 & ->)].
      * exists id, sp, e1. rewrite elem_of_seen. split_and!; [by left|done|done| |done].
        rewrite Hm, lookup_insert_ne; [done|]. by intros <-.
      * exists (spec_id raw), spec, e1. rewrite elem_of_seen. split_and!; [by right|done..].
    + intros (id & sp & e1 & Hin & H1 & H2 & H3 & ->). apply elem_of_seen in Hin as [Hin| ->].
      * left. exists id, sp, e1. split_and!; try done. rewrite Hm, lookup_insert_ne in H3; [done|]. by intros <-.
      * right. assert (sp = spec) as -> by congruence. split; [done|by exists e1].
  - assert (Hs : ∀ x, as_Started (apply_fail x msg st) = as_Started st ∧ as_clients (apply_fail x msg st) = as_clients st).
    { intros x. unfold apply_fail. by case_bool_decide. }
    destruct (Hs (spec_id raw)) as [-> -> ]. rewrite (HS c). split.
    + intros (id & sp & e1 & Hin & ?). exists id, sp, e1. rewrite elem_of_seen. split; [by left|done].
    + intros (id & sp & e1 & Hin & H1 & H2). apply elem_of_seen in Hin as [Hin| ->]; [by exists id, sp, e1|].
      destruct (loop_verdict_old _ _ _ _ _ _ Hsp HI) as [Hold|(sp' & Hd & Hin)]; [|by exists (spec_id raw), sp, e1].
      exfalso. pose proof (decision_of specs r raw Hraw) as Hd. rewrite <- Hold, Hv in Hd. destruct Hd as [? Hd].
      rewrite Hold in Hd. congruence.
Qed.

Lemma started_all specs r rest seen st :
  specs = seen ++ rest → loop_inv specs r seen st → started_inv specs r seen st →
  started_inv specs r specs (foldl (apply_one (spec_counts specs)) st rest).
Proof.
  revert seen st. induction rest as [|raw rest IH]; intros seen st Hsp HI HS.
  - rewrite app_nil_r in Hsp. by subst seen.
  - cbn [foldl]. apply (IH (seen ++ [raw])); [by rewrite <- app_assoc|by eapply loop_inv_step|by eapply started_step].
Qed.

Lemma apply_specs_started specs r : started_inv specs r specs (apply_specs specs r).
Proof.
  apply (started_all specs r specs []); [done|apply loop_inv_init|].
  intros c. cbn. split; [by intros ?%not_elem_of_nil|]. by intros (? & ? & ? & ?%not_elem_of_nil & _).
Qed.

(** ** Properties *)

(** A push, client by client and whatever the order Go visits the map in: a valid entry with a
    free id is in effect afterwards, with the running adapter kept when its settings are unchanged
    and a newly built one otherwise; a refused entry leaves what runs under its id as it was; an
    API client the push leaves out is gone, or draining while it is in use; everything else,
    environment clients first, is untouched.  Each pushed id is reported once, applied or in
    error with its own message, and the revision is recorded exactly when there were no errors. *)
Lemma push_outcome order rev specs inUse r :
  sweep_order specs r order →
  let r' := (Apply_in order rev specs inUse r).1 in
  let res := (Apply_in order rev specs inUse r).2 in
  (∀ id, push_entry specs (r_leases r) inUse (r_next r) (r_next r') id (r_clients r !! id) (r_clients r' !! id)) ∧
  (∀ id, id ∈ res_Applied res ↔ ∃ spec, decision specs (r_clients r !! id) id = Some (Ok spec)) ∧
  NoDup (res_Applied res) ∧
  (∀ ae, ae ∈ res_Errors res ↔
     decision specs (r_clients r !! ae_ID ae) (ae_ID ae) = Some (Err (ae_Message ae))) ∧
  NoDup (ae_ID <$> res_Errors res) ∧
  r_revision r' = (if decide (res_Errors res = []) then rev else r_revision r) ∧
  res_Revision res = r_revision r' ∧ r_leases r' = r_leases r.
Proof.
  intros Ho. cbn zeta. pose proof (apply_specs_inv specs r) as HI. split_and!.
  - intros id. by apply push_entry_lookup.
  - intros id. apply applied_iff.
  - apply (li_applied_nodup _ _ _ _ HI).
  - intros ae. apply errors_iff.
  - apply (li_errors_nodup _ _ _ _ HI).
  - unfold Apply_in. cbn. by destruct (as_Errors (apply_specs specs r)).
  - done.
  - done.
Qed.

(** The clients a push reports as started, whose downloads the gateway then adopts, are the
    accepted ones that did not run with the same fingerprint before, as the registry now has
    them: no running client is restarted and none is missed. *)
Lemma Apply_started order rev specs inUse r c :
  sweep_order specs r order →
  let r' := (Apply_in order rev specs inUse r).1 in
  c ∈ res_Started (Apply_in order rev specs inUse r).2 ↔
  ∃ id spec e, decision specs (r_clients r !! id) id = Some (Ok spec) ∧
    restarted (r_clients r !! id) spec = true ∧ r_clients r' !! id = Some e ∧ c = entry_client e.
Proof.
  intros Ho. cbn zeta. change (res_Started (Apply_in order rev specs inUse r).2) with (as_Started (apply_specs specs r)).
  rewrite (apply_specs_started specs r c). pose proof (apply_specs_inv specs r) as HI.
  assert (Hl : ∀ id spec, decision specs (r_clients r !! id) id = Some (Ok spec) →
    r_clients (Apply_in order rev specs inUse r).1 !! id = as_clients (apply_specs specs r) !! id).
  { intros id spec Hd. rewrite (Apply_in_lookup_aux _ _ _ _ _ _ Ho).
    destruct (li_ok _ _ _ _ HI _ _ (decision_Some _ _ _ _ Hd) Hd) as ((e & -> & _) & Hk & _). simpl.
    unfold sweep_entry, removable. by rewrite (bool_decide_eq_true_2 _ Hk), andb_false_r. }
  split; intros (id & spec & e & Hx).
  - destruct Hx as (_ & Hd & ? & ? & ?). exists id, spec, e. by rewrite (Hl id spec Hd).
  - destruct Hx as (Hd & ? & He & ?). exists id, spec, e. rewrite (Hl id spec Hd) in He.
    split; [by eapply decision_Some|done].
Qed.

(** The removed and the draining clients a push reports are the API clients it leaves out that
    are out of use, and those in use that were not draining already; both lists are sorted. *)
Lemma Apply_removal_lists order rev specs inUse r :
  sweep_order specs r order →
  let res := (Apply_in order rev specs inUse r).2 in
  (∀ id, id ∈ res_Draining res ↔
     ∃ e, left_out specs r id e ∧ in_use (r_leases r) inUse id = true ∧ e_draining e = false) ∧
  (∀ id, id ∈ res_Removed res ↔ ∃ e, left_out specs r id e ∧ in_use (r_leases r) inUse id = false) ∧
  StronglySorted String.le (res_Draining res) ∧ StronglySorted String.le (res_Removed res).
Proof.
  intros Ho. cbn zeta. destruct (sweep_lists specs r inUse order Ho) as [Hd Hr].
  unfold Apply_in. cbn [snd res_Draining res_Removed].
  split_and!; [| |apply sort_strings_sorted..]; intros id; rewrite elem_of_sort_strings; [apply Hd|apply Hr].
Qed.

(** C4: a push, client by client and whatever the order Go visits the map in: a valid entry with a
    free id is in effect afterwards, with the running adapter kept when its settings are unchanged
    and a newly built one otherwise; a refused entry leaves what runs under its id as it was; an
    API client the push leaves out is gone, or draining while it is in use; everything else,
    environment clients first, is untouched.  Each pushed id is reported once, applied or in
    error with its own message, and the revision is recorded exactly when there were no errors.
    The clients reported as started, whose downloads the gateway then adopts, are the accepted ones that did
    not run with the same fingerprint before, as the registry now has them, so that no running client is
    restarted and none is missed; the removed and the draining ones are the API clients left out that are
    out of use, and those in use that were not draining already; both lists of ids are sorted. *)
Theorem Apply_outcome order rev specs inUse r :
  sweep_order specs r order →
  let r' := (Apply_in order rev specs inUse r).1 in
  let res := (Apply_in order rev specs inUse r).2 in
  (∀ id, push_entry specs (r_leases r) inUse (r_next r) (r_next r') id (r_clients r !! id) (r_clients r' !! id)) ∧
  ((∀ id, id ∈ res_Applied res ↔ ∃ spec, decision specs (r_clients r !! id) id = Some (Ok spec)) ∧ NoDup (res_Applied res)) ∧
  ((∀ ae, ae ∈ res_Errors res ↔ decision specs (r_clients r !! ae_ID ae) (ae_ID ae) = Some (Err (ae_Message ae))) ∧
   NoDup (ae_ID <$> res_Errors res)) ∧
  (r_revision r' = (if decide (res_Errors res = []) then rev else r_revision r) ∧
   res_Revision res = r_revision r' ∧ r_leases r' = r_leases r) ∧
  (∀ c, c ∈ res_Started res ↔
     ∃ id spec e, decision specs (r_clients r !! id) id = Some (Ok spec) ∧
       restarted (r_clients r !! id) spec = true ∧ r_clients r' !! id = Some e ∧ c = entry_client e) ∧
  (∀ id, id ∈ res_Draining res ↔
     ∃ e, left_out specs r id e ∧ in_use (r_leases r) inUse id = true ∧ e_draining e = false) ∧
  (∀ id, id ∈ res_Removed res ↔ ∃ e, left_out specs r id e ∧ in_use (r_leases r) inUse id = false) ∧
  StronglySorted String.le (res_Draining res) ∧ StronglySorted String.le (res_Removed res).
Proof.
  intros Ho. cbn zeta. destruct (push_outcome order rev specs inUse r Ho) as (? & ? & ? & ? & ? & ? & ? & ?).
  destruct (Apply_removal_lists order rev specs inUse r Ho) as (? & ? & ? & ?). split_and!; try done. intros c. by apply Apply_started.
Qed.

(** C33: Go's random map order never shows: two runs of the same push, or of the same reaping, that
    visit the clients in different orders give the same registry and the same report, to the
    order of its lists. *)
Theorem registry_order_irrelevant order1 order2 o1 o2 rev specs inUse r :
  sweep_order specs r order1 → sweep_order specs r order2 →
  o1 ≡ₚ map_ids (r_clients r) → o2 ≡ₚ map_ids (r_clients r) →
  Apply_in order1 rev specs inUse r = Apply_in order2 rev specs inUse r ∧
  Reap_in o1 inUse r = Reap_in o2 inUse r.
Proof.
  intros Ho1 Ho2 Hp1 Hp2. split.
  - unfold Apply_in. cbn zeta.
    destruct (sweep_perm (r_leases r) inUse (as_keep (apply_specs specs r)) order1 order2
      (as_clients (apply_specs specs r)) (sweep_order_NoDup _ _ _ Ho1)) as (-> & HD & HR).
    { unfold sweep_order in *. by rewrite Ho1, Ho2. }
    by rewrite (sort_strings_unique _ _ HD), (sort_strings_unique _ _ HR).
  - apply reap_perm; [rewrite Hp1; apply map_ids_NoDup|by rewrite Hp1, Hp2].
Qed.

(** C8: a push is idempotent: repeating it, in whatever orders and with the same clients in use,
    starts, drains and removes nothing and leaves the registry exactly as the first left it, so
    every adapter keeps running. *)
Theorem Apply_idempotent order order' rev specs inUse r :
  let r' := (Apply_in order rev specs inUse r).1 in
  sweep_order specs r order → sweep_order specs r' order' →
  let again := Apply_in order' rev specs inUse r' in
  again.1 = r' ∧ res_Started again.2 = [] ∧ res_Draining again.2 = [] ∧ res_Removed again.2 = [].
Proof.
  cbn zeta. intros Ho Ho'. pose proof (push_settles order rev specs inUse r Ho) as Hset.
  pose proof (push_clients_again order order' rev specs inUse r Ho Ho') as Hm.
  pose proof (push_errors_again order rev specs inUse r Ho) as He.
  pose proof (push_left_out order rev specs inUse r) as Hgone.
  set (r' := (Apply_in order rev specs inUse r).1) in *.
  destruct (settled_specs _ _ Hset) as (Hc & Hn & Hs).
  destruct (sweep_lists specs r' inUse order' Ho') as [Hd Hr]. change (r_leases r') with (r_leases r) in Hd, Hr.
  split_and!; [|exact Hs| |].
  - assert (Hrev : r_revision (Apply_in order' rev specs inUse r').1 = r_revision r').
    { unfold Apply_in at 1. cbn [fst r_revision].
      destruct (as_Errors (apply_specs specs r')) as [|x l] eqn:E2; [|done].
      unfold r', Apply_in. cbn [fst r_revision]. by rewrite (proj1 He eq_refl). }
    unfold Apply_in in Hm, Hrev |- *. cbn [fst r_clients r_revision] in Hm, Hrev |- *.
    rewrite Hm, Hrev, Hn. by destruct r'.
  - apply elem_of_nil_inv. intros id. cbn [Apply_in snd res_Draining].
    change (r_leases r') with (r_leases r). rewrite elem_of_sort_strings, Hd.
    intros (e & Hlo & _ & Hf). destruct (Hgone _ _ Ho Hlo) as [_ Ht]. congruence.
  - apply elem_of_nil_inv. intros id. cbn [Apply_in snd res_Removed].
    change (r_leases r') with (r_leases r). rewrite elem_of_sort_strings, Hr.
    intros (e & Hlo & Hf). destruct (Hgone _ _ Ho Hlo) as [Ht _]. congruence.
Qed.

(** C7: every registry the operations reach is well formed: a client's id is its key, no secret is
    kept in a registered spec, an environment client never drains, an API client carries a valid
    id and the fingerprint of the validated settings its adapter was built from, and the leases
    counted are positive. *)
Theorem registry_invariant r : reg_reachable r → wf_registry r.
Proof. apply reachable_wf. Qed.

(** Reaping drops exactly the draining clients that are out of use, names them in order, and touches
    nothing else. *)
Lemma Reap_exact order inUse r :
  order ≡ₚ map_ids (r_clients r) →
  let out := Reap_in order inUse r in
  (∀ id, r_clients out.1 !! id = r_clients r !! id ≫= reap_entry (r_leases r) inUse id) ∧
  (∀ id, id ∈ out.2 ↔ reaped (r_leases r) inUse (r_clients r) id) ∧
  StronglySorted String.le out.2 ∧
  r_leases out.1 = r_leases r ∧ r_revision out.1 = r_revision r.
Proof.
  intros Ho. cbn zeta. assert (Hnd : NoDup order) by (rewrite Ho; apply map_ids_NoDup).
  assert (Hin : ∀ id, id ∈ order ↔ is_Some (r_clients r !! id)) by (intros id; rewrite Ho; apply elem_of_map_ids).
  destruct (reap_spec (r_leases r) inUse order (r_clients r) [] Hnd) as [_ H2]. split_and!; [| | |done|done].
  - intros id. rewrite (reap_lookup order inUse r id Hnd). case_decide as Hi; [done|].
    rewrite Hin in Hi. apply eq_None_not_Some in Hi. by rewrite Hi.
  - intros id. unfold Reap_in. cbn [snd]. rewrite elem_of_sort_strings, H2, app_nil_l, list_elem_of_filter.
    split; [tauto|]. intros Hr. split; [done|]. rewrite Hin. destruct Hr as (e & He & _). by exists e.
  - apply sort_strings_sorted.
Qed.

(** A push keeps a client with an add in flight. *)
Lemma lease_kept order rev specs inUse r id e :
  sweep_order specs r order → r_clients r !! id = Some e → (0 < leases_of id r)%Z →
  ∃ e', r_clients (Apply_in order rev specs inUse r).1 !! id = Some e' ∧
        (id ∉ (spec_id <$> specs) ∨ e_source e = SourceEnv → e_adapter e' = e_adapter e).
Proof.
  intros Ho He Hl. unfold leases_of in Hl.
  assert (Hu : in_use (r_leases r) inUse id = true).
  { unfold in_use. by rewrite (proj2 (Z.ltb_lt 0 _) Hl). }
  pose proof (push_entry_lookup order rev specs inUse r id Ho) as Hpush. rewrite He in Hpush.
  unfold push_entry in Hpush. destruct (decision specs (Some e) id) as [[spec|msg]|] eqn:Hd.
  - destruct Hpush as (e' & Hl' & _). exists e'. split; [done|]. intros [Hn|Hs].
    + apply (decision_None specs (Some e)) in Hn. congruence.
    + apply decision_Ok_inv in Hd as (_ & _ & _ & _ & _ & Hn & _). simpl in Hn. by rewrite Hs in Hn.
  - by exists e.
  - simpl in Hpush. rewrite Hu in Hpush. case_bool_decide; by eexists.
Qed.

(** C34: what becomes of clients out of use and in use.  A reaping drops exactly the draining clients
    that are out of use, names them in order, and touches nothing else: a removed client whose last
    job ended and whose last add returned is gone after the next tick.  A client with an add in
    flight is never dropped: whatever a push or a reaping does, and whatever it believes of the
    tracked jobs, the client stays registered, and when it was an environment client, or the push
    leaves it out, with the same adapter. *)
Theorem Reap_outcome order o2 inUse rev specs r :
  o2 ≡ₚ map_ids (r_clients r) → sweep_order specs r order →
  let out := Reap_in o2 inUse r in
  ((∀ id, r_clients out.1 !! id = r_clients r !! id ≫= reap_entry (r_leases r) inUse id) ∧
   (∀ id, id ∈ out.2 ↔ reaped (r_leases r) inUse (r_clients r) id) ∧
   StronglySorted String.le out.2 ∧
   r_leases out.1 = r_leases r ∧ r_revision out.1 = r_revision r) ∧
  (∀ id e, r_clients r !! id = Some e → (0 < leases_of id r)%Z →
     (∃ e', r_clients (Apply_in order rev specs inUse r).1 !! id = Some e' ∧
            (id ∉ (spec_id <$> specs) ∨ e_source e = SourceEnv → e_adapter e' = e_adapter e)) ∧
     r_clients out.1 !! id = Some e).
Proof.
  intros Hp Ho. cbn zeta. pose proof (Reap_exact o2 inUse r Hp) as Hr. split; [exact Hr|]. intros id e He Hl.
  split; [by apply lease_kept|]. destruct Hr as [-> _]. rewrite He. cbn. unfold reap_entry, in_use.
  unfold leases_of in Hl. by rewrite (proj2 (Z.ltb_lt 0 _) Hl), andb_false_r.
Qed.
End spec.

(** ** Witnesses *)

Section witnesses.
#[local] Instance demo_quote : Quote := λ s, s.

#[local] Instance demo_factory : ClientFactory (nat * ClientSpec) := {|
  Adapter_Name := λ a, spec_Type a.2;
  buildClient := λ k s, (k, s)
|}.

Definition demo_raw (id url : string) : ClientSpec :=
  MkClientSpec id "nzbget" url "none" EmptyString EmptyString EmptyString EmptyString [].

(** An environment client, and one pushed client with an add in flight. *)
Definition demo_env : Registry (nat * ClientSpec) := NewRegistry [Some (0%nat, demo_raw "nzbget" "http://n")].

Definition demo_pushed : Registry (nat * ClientSpec) :=
  (Apply 7 [demo_raw "usenet" "http://n:6789/"] (λ _, false) demo_env).1.

Definition demo_leased : Registry (nat * ClientSpec) :=
  match Lease "usenet" demo_pushed with Ok (_, r) => r | Err _ => demo_pushed end.

(** The next push: an entry under the environment client's id, a bad id, and nothing for the
    running client. *)
Definition demo_specs : list ClientSpec := [demo_raw "nzbget" "http://m"; demo_raw "Bad" "http://m"].

Lemma sweep_order_self (specs : list ClientSpec) (r : Registry (nat * ClientSpec)) :
  sweep_order specs r (sweep_ids specs r).
Proof. unfold sweep_order. done. Qed.

Lemma Apply_outcome_witness :
  (let out := Apply 8 demo_specs (λ _, false) demo_leased in
   r_revision out.1 = 7%Z ∧ NoDup (ae_ID <$> res_Errors out.2) ∧ res_Applied out.2 = [] ∧ res_Draining out.2 = ["usenet"]) ∧
  (∃ c, c ∈ res_Started (Apply 7 [demo_raw "usenet" "http://n:6789/"] (λ _, false) demo_env).2 ∧ c_ID c = "usenet") ∧
  StronglySorted String.le (res_Removed (Apply 8 [] (λ _, false) demo_pushed).2) ∧
  res_Removed (Apply 8 [] (λ _, false) demo_pushed).2 = ["usenet"].
Proof.
  assert (Hd : ∃ spec e, decision [demo_raw "usenet" "http://n:6789/"] (r_clients demo_env !! "usenet") "usenet" = Some (Ok spec) ∧
    restarted (r_clients demo_env !! "usenet") spec = true ∧ r_clients demo_pushed !! "usenet" = Some e ∧
    c_ID (entry_client e) = "usenet").
  { eexists _, _. split_and!; vm_compute; reflexivity. }
  destruct Hd as (spec & e & H1 & H2 & H3 & H4).
  destruct (Apply_outcome (sweep_ids demo_specs demo_leased) 8 demo_specs (λ _, false) demo_leased
    (sweep_order_self _ _)) as (_ & _ & [_ Hnd] & _).
  destruct (Apply_outcome (sweep_ids [demo_raw "usenet" "http://n:6789/"] demo_env) 7
    [demo_raw "usenet" "http://n:6789/"] (λ _, false) demo_env (sweep_order_self _ _)) as (_ & _ & _ & _ & Hst & _).
  destruct (Apply_outcome (sweep_ids [] demo_pushed) 8 [] (λ _, false) demo_pushed (sweep_order_self _ _)) as (_ & _ & _ & _ & _ & _ & _ & _ & Hs).
  split; [split_and!; [vm_compute; reflexivity|exact Hnd|vm_compute; reflexivity|vm_compute; reflexivity]|].
  split; [|split; [exact Hs|vm_compute; reflexivity]].
  exists (entry_client e). split; [|exact H4]. apply Hst.
  exists "usenet", spec, e. split; [exact H1|]. split; [exact H2|]. split; [|reflexivity].
  unfold demo_pushed, Apply in H3. exact H3.
Defined.

Lemma registry_order_irrelevant_witness :
  Apply_in ["nzbget"; "usenet"] 8 demo_specs (λ _, true) demo_leased =
  Apply_in ["usenet"; "nzbget"] 8 demo_specs (λ _, true) demo_leased ∧
  Reap_in ["nzbget"; "usenet"] (λ _, true) demo_leased = Reap_in ["usenet"; "nzbget"] (λ _, true) demo_leased.
Proof.
  apply (registry_order_irrelevant ["nzbget"; "usenet"] ["usenet"; "nzbget"] ["nzbget"; "usenet"] ["usenet"; "nzbget"]
    8 demo_specs (λ _, true) demo_leased); apply (bool_decide_eq_true_1 (_ ≡ₚ _)); vm_compute; reflexivity.
Defined.

Lemma Apply_idempotent_witness :
  let r' := (Apply 8 demo_specs (λ _, false) demo_leased).1 in
  (Apply 8 demo_specs (λ _, false) r').1 = r' ∧ res_Started (Apply 8 demo_specs (λ _, false) r').2 = [] ∧
  res_Draining (Apply 8 demo_specs (λ _, false) r').2 = [] ∧
  res_Removed (Apply 8 demo_specs (λ _, false) r').2 = [].
Proof.
  exact (Apply_idempotent (sweep_ids demo_specs demo_leased)
    (sweep_ids demo_specs (Apply 8 demo_specs (λ _, false) demo_leased).1) 8 demo_specs (λ _, false)
    demo_leased (sweep_order_self _ _) (sweep_order_self _ _)).
Defined.

Lemma registry_invariant_witness : wf_registry demo_pushed.
Proof.
  apply (registry_invariant demo_pushed). apply rr_apply; [apply rr_new|apply sweep_order_self].
Defined.

(** The client removed while it was leased is dropped once the lease is released. *)
Definition demo_drained : Registry (nat * ClientSpec) :=
  release "usenet" (Apply 9 [] (λ _, false) demo_leased).1.

Lemma Reap_outcome_witness :
  (r_clients (Reap (λ _, false) demo_drained).1 !! "usenet" = None ∧ "usenet" ∈ (Reap (λ _, false) demo_drained).2) ∧
  ∃ e, r_clients (Reap (λ _, false) demo_leased).1 !! "usenet" = Some e ∧
    ∃ e', r_clients (Apply 9 [] (λ _, false) demo_leased).1 !! "usenet" = Some e' ∧
      e_draining e' = true ∧ e_adapter e' = e_adapter e.
Proof.
  split.
  - destruct (Reap_outcome (sweep_ids [] demo_drained) (map_ids (r_clients demo_drained)) (λ _, false) 9 [] demo_drained
      (reflexivity _) (sweep_order_self _ _)) as ((Hc & Hl & _) & _).
    split.
    + unfold Reap. unfold map_ids in Hc. rewrite Hc. vm_compute. reflexivity.
    + unfold Reap. unfold map_ids in Hl. apply Hl. unfold reaped. eexists. split_and!; vm_compute; reflexivity.
  - assert (He : ∃ e, r_clients demo_leased !! "usenet" = Some e ∧ (0 < leases_of "usenet" demo_leased)%Z ∧
      e_draining <$> (r_clients (Apply 9 [] (λ _, false) demo_leased).1 !! "usenet") = Some true).
    { eexists. split_and!; vm_compute; reflexivity. }
    destruct He as (e & He & Hl & Hd).
    destruct (Reap_outcome (sweep_ids [] demo_leased) (map_ids (r_clients demo_leased)) (λ _, false) 9 [] demo_leased
      (reflexivity _) (sweep_order_self _ _)) as (_ & Hkeep). destruct (Hkeep "usenet" e He Hl) as ((e' & He' & Ha) & Hr).
    exists e. split; [exact Hr|]. exists e'. split; [exact He'|]. split.
    + change (Apply_in (sweep_ids [] demo_leased) 9 [] (λ _, false) demo_leased) with (Apply 9 [] (λ _, false) demo_leased) in He'.
      rewrite He' in Hd. by injection Hd.
    + apply Ha. left. apply not_elem_of_nil.
Defined.
End witnesses.
