(* ===== verification/Events.v ===== *)
(** * internal/events/events.go: the lifecycle events and their Kafka publisher

    The four payloads, the topic and partition key of an event, the environment wiring, the
    producer's configuration (mTLS when any TLS file is named, else plaintext), and the publisher.
    sarama, crypto/tls and the file system are not the program's own: they are the fields of the class
    [KafkaEnv].  A payload is marshalled by its struct's fields and tags ([Started_type] and the others).  A [float64] is Stdlib's [spec_float]. *)

From S2P Require Import Prelude GoStrings GoFloat Json JsonText JsonTextSpec JsonTypes JsonTypesSpec Adapters Responses.
From Stdlib Require Import Ascii SpecFloat.
#[local] Open Scope gw_scope.

Definition defaultTopicPrefix : string := "stube.".

Definition KindStarted : string := "started".
Definition KindProgress : string := "progress".
Definition KindCompleted : string := "completed".
Definition KindFailed : string := "failed".

Record Started := MkStarted {
  st_ClientID : string;
  st_Adapter : string;
  st_ClientType : string;
  st_WantedItemID : string;
  st_Title : string;
  st_SizeBytes : option Z;
  st_StartedAt : Z
}.

Record Progress := MkProgress {
  pr_ClientID : string;
  pr_Adapter : string;
  pr_ClientType : string;
  pr_WantedItemID : string;
  pr_Title : string;
  pr_State : string;
  pr_NativeState : string;
  pr_ProgressPct : spec_float;
  pr_DownloadedBytes : Z;
  pr_SizeBytes : option Z;
  pr_SpeedBps : Z;
  pr_EtaSec : option Z;      (* *int32 *)
  pr_Seeders : option Z;
  pr_Leechers : option Z;
  pr_Health : option Z;
  pr_EmittedAt : Z
}.

Record Completed := MkCompleted {
  co_ClientID : string;
  co_Adapter : string;
  co_ClientType : string;
  co_WantedItemID : string;
  co_Files : list string;
  co_SizeBytes : Z;
  co_CompletedAt : Z
}.

Record Failed := MkFailed {
  fa_ClientID : string;
  fa_Adapter : string;
  fa_ClientType : string;
  fa_WantedItemID : string;
  fa_Title : string;
  fa_Error : string;
  fa_ErrorCode : string;
  fa_Retriable : bool;
  fa_FailedAt : Z
}.

(** [payload any], with the types [emit] is called with. *)
Inductive Event :=
  | EvStarted (e : Started)
  | EvProgress (e : Progress)
  | EvCompleted (e : Completed)
  | EvFailed (e : Failed).

(** ** The structs' fields and tags, and their values *)

Definition Started_type : gotype := TStruct [
  ("client_id", false, TString); ("adapter", false, TString); ("client_type", false, TString);
  ("wanted_item_id", true, TString); ("title", false, TString); ("size_bytes", false, TPtr (TInt true 64));
  ("started_at", false, TInt true 64)].

Definition Started_go (e : Started) : goval := GStruct [
  GString (st_ClientID e); GString (st_Adapter e); GString (st_ClientType e); GString (st_WantedItemID e);
  GString (st_Title e); go_opt (st_SizeBytes e); GInt (st_StartedAt e)].

Definition Progress_type : gotype := TStruct [
  ("client_id", false, TString); ("adapter", false, TString); ("client_type", false, TString);
  ("wanted_item_id", true, TString); ("title", true, TString); ("state", false, TString); ("native_state", true, TString);
  ("progress_pct", false, TFloat); ("downloaded_bytes", false, TInt true 64); ("size_bytes", false, TPtr (TInt true 64));
  ("speed_bps", false, TInt true 64); ("eta_sec", false, TPtr (TInt true 32)); ("seeders", true, TPtr (TInt true 32));
  ("leechers", true, TPtr (TInt true 32)); ("health", true, TPtr (TInt true 32)); ("emitted_at", false, TInt true 64)].

Definition Progress_go (e : Progress) : goval := GStruct [
  GString (pr_ClientID e); GString (pr_Adapter e); GString (pr_ClientType e); GString (pr_WantedItemID e);
  GString (pr_Title e); GString (pr_State e); GString (pr_NativeState e); GFloat (pr_ProgressPct e);
  GInt (pr_DownloadedBytes e); go_opt (pr_SizeBytes e); GInt (pr_SpeedBps e); go_opt (pr_EtaSec e);
  go_opt (pr_Seeders e); go_opt (pr_Leechers e); go_opt (pr_Health e); GInt (pr_EmittedAt e)].

Definition Completed_type : gotype := TStruct [
  ("client_id", false, TString); ("adapter", false, TString); ("client_type", false, TString);
  ("wanted_item_id", true, TString); ("files", false, TSlice TString); ("size_bytes", false, TInt true 64);
  ("completed_at", false, TInt true 64)].

(** A job without files has a nil slice. *)
Definition Completed_go (e : Completed) : goval := GStruct [
  GString (co_ClientID e); GString (co_Adapter e); GString (co_ClientType e); GString (co_WantedItemID e);
  go_nil_slice GString (co_Files e); GInt (co_SizeBytes e); GInt (co_CompletedAt e)].

Definition Failed_type : gotype := TStruct [
  ("client_id", false, TString); ("adapter", false, TString); ("client_type", false, TString);
  ("wanted_item_id", true, TString); ("title", true, TString); ("error", false, TString); ("error_code", true, TString);
  ("retriable", false, TBool); ("failed_at", false, TInt true 64)].

Definition Failed_go (e : Failed) : goval := GStruct [
  GString (fa_ClientID e); GString (fa_Adapter e); GString (fa_ClientType e); GString (fa_WantedItemID e);
  GString (fa_Title e); GString (fa_Error e); GString (fa_ErrorCode e); GBool (fa_Retriable e); GInt (fa_FailedAt e)].

(** The text of an [UnsupportedValueError]: only a float that is no number has one. *)
Definition unsupported (ev : Event) : string :=
  match ev with
  | EvProgress e =>
      match pr_ProgressPct e with
      | S754_nan => "NaN" | S754_infinity true => "-Inf" | S754_infinity false => "+Inf" | _ => EmptyString
      end
  | _ => EmptyString
  end.

(** [json.Marshal(payload)]. *)
Definition Marshal (payload : Event) : result error string :=
  match (match payload with
         | EvStarted e => json_Marshal Started_type (Started_go e)
         | EvProgress e => json_Marshal Progress_type (Progress_go e)
         | EvCompleted e => json_Marshal Completed_type (Completed_go e)
         | EvFailed e => json_Marshal Failed_type (Failed_go e)
         end) with
  | Some b => Ok b
  | None => Err (ErrorString ("json: unsupported value: " +:+ unsupported payload))
  end.

(** ** Topics and keys *)

(** [Publisher]: [pub_p] is the producer ([None] in scaffold mode).  A nil [*Publisher] is [None]
    where a method allows one. *)
Record Publisher (P : Type) := MkPublisher {
  pub_p : option P;
  pub_prefix : string;
  pub_closed : bool
}.
Arguments MkPublisher {P} _ _ _.
Arguments pub_p {P} _.
Arguments pub_prefix {P} _.
Arguments pub_closed {P} _.

Definition Ready {P} (p : option (Publisher P)) : bool :=
  match p with Some p => negb (pub_closed p) | None => false end.

Definition topicFor {P} (p : option (Publisher P)) (kind : string) : string :=
  let prefix :=
    match p with
    | Some p => if bool_decide (pub_prefix p = EmptyString) then defaultTopicPrefix else pub_prefix p
    | None => defaultTopicPrefix
    end in
  prefix +:+ "download.client." +:+ kind.

(** The composite key [[]byte(adapter + ":" + clientID)]. *)
Definition key (adapter clientID : string) : string := adapter +:+ ":" +:+ clientID.

(** ** Configuration *)

Record Config := MkConfig {
  cfg_Brokers : string;
  cfg_CertFile : string;
  cfg_KeyFile : string;
  cfg_CAFile : string;
  cfg_TopicPrefix : string
}.

Definition ConfigFromEnv (Getenv : string → string) : Config :=
  let prefix := TrimSpace (Getenv "KAFKA_TOPIC_PREFIX") in
  let prefix := if bool_decide (prefix = EmptyString) then defaultTopicPrefix else prefix in
  MkConfig (Getenv "KAFKA_BROKERS") (Getenv "KAFKA_TLS_CERT") (Getenv "KAFKA_TLS_KEY")
    (Getenv "KAFKA_TLS_CA") prefix.

Inductive RequiredAcks := NoResponse | WaitForLocal | WaitForAll.
Inductive KafkaVersion := V3_5_0_0 | OtherVersion (v : string).
Inductive TLSVersion := VersionTLS10 | VersionTLS11 | VersionTLS12 | VersionTLS13.

(** The fields of [tls.Config] the program sets. *)
Record TLSConfig (Cert Pool : Type) := MkTLSConfig {
  tls_Certificates : list Cert;
  tls_RootCAs : Pool;
  tls_MinVersion : TLSVersion
}.
Arguments MkTLSConfig {Cert Pool} _ _ _.
Arguments tls_Certificates {Cert Pool} _.
Arguments tls_RootCAs {Cert Pool} _.
Arguments tls_MinVersion {Cert Pool} _.

(** The fields of [sarama.Config] the program sets. *)
Record ProducerConfig (TLS : Type) := MkProducerConfig {
  pc_Return_Successes : bool;
  pc_RequiredAcks : RequiredAcks;
  pc_Idempotent : bool;
  pc_MaxOpenRequests : Z;
  pc_Version : KafkaVersion;
  pc_TLS_Enable : bool;
  pc_TLS_Config : option TLS
}.
Arguments MkProducerConfig {TLS} _ _ _ _ _ _ _.
Arguments pc_Return_Successes {TLS} _.
Arguments pc_RequiredAcks {TLS} _.
Arguments pc_Idempotent {TLS} _.
Arguments pc_MaxOpenRequests {TLS} _.
Arguments pc_Version {TLS} _.
Arguments pc_TLS_Enable {TLS} _.
Arguments pc_TLS_Config {TLS} _.

(** sarama, crypto/tls and the file system, over a world [W]. *)
Class KafkaEnv (P Cert Pool W : Type) := {
  newSyncProducer : list string → ProducerConfig (TLSConfig Cert Pool) → W → result error P * W;
  SendMessage : P → string → string → string → W → result error unit * W;   (* topic, key, value *)
  Producer_Close : P → W → result error unit * W;
  LoadX509KeyPair : string → string → result error Cert;
  NewCertPool : Pool;
  ReadFile : string → result error string;
  AppendCertsFromPEM : Pool → string → option Pool
}.

Section publisher.
Context {P Cert Pool W : Type} `{KafkaEnv P Cert Pool W}.

Definition mTLS (c : Config) : result error (TLSConfig Cert Pool) :=
  let? cert := LoadX509KeyPair (cfg_CertFile c) (cfg_KeyFile c) in
  let? pool :=
    (if bool_decide (cfg_CAFile c = EmptyString) then Ok NewCertPool
     else let? ca := ReadFile (cfg_CAFile c) in
          match AppendCertsFromPEM NewCertPool ca with
          | Some pool => Ok pool
          | None => Err (ErrorString "append CA failed")
          end) in
  Ok (MkTLSConfig [cert] pool VersionTLS12).

Definition no_tls_files (c : Config) : bool :=
  bool_decide (cfg_CertFile c = EmptyString) && bool_decide (cfg_KeyFile c = EmptyString) &&
  bool_decide (cfg_CAFile c = EmptyString).

(** TLS is off in [sarama.NewConfig()]. *)
Definition producerConfig (c : Config) : result error (ProducerConfig (TLSConfig Cert Pool)) :=
  let cfg := MkProducerConfig true WaitForAll true 1 V3_5_0_0 false None in
  if no_tls_files c then Ok cfg
  else match mTLS c with
       | Err err => Err (WrapError "kafka mTLS" err)
       | Ok tlsCfg => Ok (MkProducerConfig true WaitForAll true 1 V3_5_0_0 true (Some tlsCfg))
       end.

Definition NewPublisher (c : Config) (w : W) : result error (Publisher P) * W :=
  if bool_decide (cfg_Brokers c = EmptyString) then (Ok (MkPublisher None (cfg_TopicPrefix c) false), w)
  else match producerConfig c with
       | Err err => (Err err, w)
       | Ok cfg =>
           match newSyncProducer (Split (cfg_Brokers c) ","%char) cfg w with
           | (Err err, w) => (Err err, w)
           | (Ok p, w) => (Ok (MkPublisher (Some p) (cfg_TopicPrefix c) false), w)
           end
       end.

(** ** Emission *)

Definition emit (p : option (Publisher P)) (kind adapter clientID : string) (payload : Event) (w : W) :
    result error unit * W :=
  match Marshal payload with
  | Err err => (Err err, w)
  | Ok b =>
      let topic := topicFor p kind in
      match p with
      | Some (MkPublisher (Some producer) _ _) => SendMessage producer topic (key adapter clientID) b w
      | _ => (Ok tt, w)
      end
  end.

(** The four [Emit...] methods; [now] is [nowMs()]. *)
Definition EmitStarted (p : option (Publisher P)) (now : Z) (e : Started) : W → result error unit * W :=
  let e := MkStarted (st_ClientID e) (st_Adapter e) (st_ClientType e) (st_WantedItemID e) (st_Title e)
             (st_SizeBytes e) now in
  emit p KindStarted (st_Adapter e) (st_ClientID e) (EvStarted e).

Definition EmitProgress (p : option (Publisher P)) (now : Z) (e : Progress) : W → result error unit * W :=
  let e := MkProgress (pr_ClientID e) (pr_Adapter e) (pr_ClientType e) (pr_WantedItemID e) (pr_Title e)
             (pr_State e) (pr_NativeState e) (pr_ProgressPct e) (pr_DownloadedBytes e) (pr_SizeBytes e)
             (pr_SpeedBps e) (pr_EtaSec e) (pr_Seeders e) (pr_Leechers e) (pr_Health e) now in
  emit p KindProgress (pr_Adapter e) (pr_ClientID e) (EvProgress e).

Definition EmitCompleted (p : option (Publisher P)) (now : Z) (e : Completed) : W → result error unit * W :=
  let e := MkCompleted (co_ClientID e) (co_Adapter e) (co_ClientType e) (co_WantedItemID e) (co_Files e)
             (co_SizeBytes e) now in
  emit p KindCompleted (co_Adapter e) (co_ClientID e) (EvCompleted e).

Definition EmitFailed (p : option (Publisher P)) (now : Z) (e : Failed) : W → result error unit * W :=
  let e := MkFailed (fa_ClientID e) (fa_Adapter e) (fa_ClientType e) (fa_WantedItemID e) (fa_Title e)
             (fa_Error e) (fa_ErrorCode e) (fa_Retriable e) now in
  emit p KindFailed (fa_Adapter e) (fa_ClientID e) (EvFailed e).

(** The method of an event. *)
Definition Emit (p : option (Publisher P)) (now : Z) (ev : Event) : W → result error unit * W :=
  match ev with
  | EvStarted e => EmitStarted p now e
  | EvProgress e => EmitProgress p now e
  | EvCompleted e => EmitCompleted p now e
  | EvFailed e => EmitFailed p now e
  end.

(** [Close]: the publisher afterwards, and the producer's error. *)
Definition Close (p : option (Publisher P)) (w : W) : option (Publisher P) * (result error unit * W) :=
  match p with
  | None => (None, (Ok tt, w))
  | Some p =>
      let p' := MkPublisher (pub_p p) (pub_prefix p) true in
      (Some p', match pub_p p with
                | None => (Ok tt, w)
                | Some producer => Producer_Close producer w
                end)
  end.
End publisher.

(** ** Facts *)

Definition colon_free (s : string) : Prop := ":"%char ∉ chars s.

#[export] Instance colon_free_dec s : Decision (colon_free s).
Proof. unfold colon_free. apply _. Defined.

Lemma cons_colon_inj (l1 l2 r1 r2 : list ascii) :
  ":"%char ∉ l1 → ":"%char ∉ l2 → l1 ++ ":"%char :: r1 = l2 ++ ":"%char :: r2 → l1 = l2 ∧ r1 = r2.
Proof.
  revert l2. induction l1 as [|c l1 IH]; intros [|c2 l2] H1 H2 E; simpl in E.
  - by injection E.
  - injection E as <- _. exfalso. apply H2. by left.
  - injection E as -> _. exfalso. apply H1. by left.
  - injection E as <- E. rewrite not_elem_of_cons in H1, H2.
    destruct (IH l2) as [-> ->]; tauto.
Qed.

(** A key names one client and one of its jobs, client ids holding no colon. *)
Lemma key_inj a1 a2 i1 i2 :
  colon_free a1 → colon_free a2 → key a1 i1 = key a2 i2 → a1 = a2 ∧ i1 = i2.
Proof.
  unfold key, colon_free. intros H1 H2 E. apply (f_equal chars) in E. rewrite !chars_app in E.
  apply cons_colon_inj in E as [Ea Ei]; [|done|done]. split; by apply chars_inj.
Qed.

Lemma key_inj_same a i1 i2 : key a i1 = key a i2 → i1 = i2.
Proof.
  unfold key. intros E. apply (f_equal chars) in E. rewrite !chars_app in E.
  apply app_inv_head in E. injection E as E. by apply chars_inj.
Qed.

(** ** What a consumer reads *)

(** The event with the time [Emit] gives it. *)
Definition stamped (now : Z) (ev : Event) : Event :=
  match ev with
  | EvStarted e => EvStarted (MkStarted (st_ClientID e) (st_Adapter e) (st_ClientType e) (st_WantedItemID e) (st_Title e)
      (st_SizeBytes e) now)
  | EvProgress e => EvProgress (MkProgress (pr_ClientID e) (pr_Adapter e) (pr_ClientType e) (pr_WantedItemID e) (pr_Title e)
      (pr_State e) (pr_NativeState e) (pr_ProgressPct e) (pr_DownloadedBytes e) (pr_SizeBytes e)
      (pr_SpeedBps e) (pr_EtaSec e) (pr_Seeders e) (pr_Leechers e) (pr_Health e) now)
  | EvCompleted e => EvCompleted (MkCompleted (co_ClientID e) (co_Adapter e) (co_ClientType e) (co_WantedItemID e) (co_Files e)
      (co_SizeBytes e) now)
  | EvFailed e => EvFailed (MkFailed (fa_ClientID e) (fa_Adapter e) (fa_ClientType e) (fa_WantedItemID e) (fa_Title e)
      (fa_Error e) (fa_ErrorCode e) (fa_Retriable e) now)
  end.

Definition ev_kind (ev : Event) : string :=
  match ev with EvStarted _ => KindStarted | EvProgress _ => KindProgress | EvCompleted _ => KindCompleted | EvFailed _ => KindFailed end.
Definition ev_adapter (ev : Event) : string :=
  match ev with EvStarted e => st_Adapter e | EvProgress e => pr_Adapter e | EvCompleted e => co_Adapter e | EvFailed e => fa_Adapter e end.
Definition ev_client (ev : Event) : string :=
  match ev with EvStarted e => st_ClientID e | EvProgress e => pr_ClientID e | EvCompleted e => co_ClientID e | EvFailed e => fa_ClientID e end.

(** Every string with its invalid bytes replaced. *)
Definition sanitize_event (ev : Event) : Event :=
  match ev with
  | EvStarted e => EvStarted (MkStarted (sanitize (st_ClientID e)) (sanitize (st_Adapter e)) (sanitize (st_ClientType e))
      (sanitize (st_WantedItemID e)) (sanitize (st_Title e)) (st_SizeBytes e) (st_StartedAt e))
  | EvProgress e => EvProgress (MkProgress (sanitize (pr_ClientID e)) (sanitize (pr_Adapter e)) (sanitize (pr_ClientType e))
      (sanitize (pr_WantedItemID e)) (sanitize (pr_Title e)) (sanitize (pr_State e)) (sanitize (pr_NativeState e))
      (pr_ProgressPct e) (pr_DownloadedBytes e) (pr_SizeBytes e) (pr_SpeedBps e) (pr_EtaSec e) (pr_Seeders e)
      (pr_Leechers e) (pr_Health e) (pr_EmittedAt e))
  | EvCompleted e => EvCompleted (MkCompleted (sanitize (co_ClientID e)) (sanitize (co_Adapter e)) (sanitize (co_ClientType e))
      (sanitize (co_WantedItemID e)) (sanitize <$> co_Files e) (co_SizeBytes e) (co_CompletedAt e))
  | EvFailed e => EvFailed (MkFailed (sanitize (fa_ClientID e)) (sanitize (fa_Adapter e)) (sanitize (fa_ClientType e))
      (sanitize (fa_WantedItemID e)) (sanitize (fa_Title e)) (sanitize (fa_Error e)) (sanitize (fa_ErrorCode e))
      (fa_Retriable e) (fa_FailedAt e))
  end.

(** The fields of the four structs, from decoded values. *)
Definition of_Started (x : goval) : Started :=
  let f i := field i x in
  MkStarted (as_string (f 0)) (as_string (f 1)) (as_string (f 2)) (as_string (f 3)) (as_string (f 4)) (as_opt as_int (f 5))
    (as_int (f 6)).
Definition of_Progress (x : goval) : Progress :=
  let f i := field i x in
  MkProgress (as_string (f 0)) (as_string (f 1)) (as_string (f 2)) (as_string (f 3)) (as_string (f 4)) (as_string (f 5))
    (as_string (f 6)) (as_float (f 7)) (as_int (f 8)) (as_opt as_int (f 9)) (as_int (f 10)) (as_opt as_int (f 11))
    (as_opt as_int (f 12)) (as_opt as_int (f 13)) (as_opt as_int (f 14)) (as_int (f 15)).
Definition of_Completed (x : goval) : Completed :=
  let f i := field i x in
  MkCompleted (as_string (f 0)) (as_string (f 1)) (as_string (f 2)) (as_string (f 3)) (as_list as_string (f 4)) (as_int (f 5))
    (as_int (f 6)).
Definition of_Failed (x : goval) : Failed :=
  let f i := field i x in
  MkFailed (as_string (f 0)) (as_string (f 1)) (as_string (f 2)) (as_string (f 3)) (as_string (f 4)) (as_string (f 5))
    (as_string (f 6)) (as_bool (f 7)) (as_int (f 8)).

(** A consumer of the topic of a kind, that declares the same fields. *)
Definition read_payload (kind text : string) : option Event :=
  let read t (build : goval → Event) := match json_Unmarshal t text with Ok x => Some (build x) | Err _ => None end in
  if bool_decide (kind = KindStarted) then read Started_type (λ x, EvStarted (of_Started x))
  else if bool_decide (kind = KindProgress) then read Progress_type (λ x, EvProgress (of_Progress x))
  else if bool_decide (kind = KindCompleted) then read Completed_type (λ x, EvCompleted (of_Completed x))
  else if bool_decide (kind = KindFailed) then read Failed_type (λ x, EvFailed (of_Failed x))
  else None.

(** Integers are in the range of their fields, and the percentage is a number. *)
Definition event_ok (ev : Event) : Prop :=
  match ev with
  | EvStarted e => opt_fits 64 (st_SizeBytes e) ∧ fits 64 (st_StartedAt e)
  | EvProgress e => float_finite (pr_ProgressPct e) = true ∧ fits 64 (pr_DownloadedBytes e) ∧ opt_fits 64 (pr_SizeBytes e) ∧
      fits 64 (pr_SpeedBps e) ∧ opt_fits 32 (pr_EtaSec e) ∧ opt_fits 32 (pr_Seeders e) ∧ opt_fits 32 (pr_Leechers e) ∧
      opt_fits 32 (pr_Health e) ∧ fits 64 (pr_EmittedAt e)
  | EvCompleted e => fits 64 (co_SizeBytes e) ∧ fits 64 (co_CompletedAt e)
  | EvFailed e => fits 64 (fa_FailedAt e)
  end.

(** The values of an event are of its types, and what is kept of them is the event. *)
Lemma payload_ok ev :
  event_ok ev →
  match ev with
  | EvStarted e => go_ok Started_type (Started_go e)
  | EvProgress e => go_ok Progress_type (Progress_go e)
  | EvCompleted e => go_ok Completed_type (Completed_go e)
  | EvFailed e => go_ok Failed_type (Failed_go e)
  end.
Proof.
  destruct ev as [e|e|e|e]; cbn [event_ok]; intros Hok; (split; [vm_compute; reflexivity|]);
    repeat match goal with |- _ ∧ _ => split end; try done; destruct_and?; eauto with gw lia.
Qed.

Lemma payload_norm ev :
  match ev with
  | EvStarted e => EvStarted (of_Started (norm Started_type (Started_go e)))
  | EvProgress e => EvProgress (of_Progress (norm Progress_type (Progress_go e)))
  | EvCompleted e => EvCompleted (of_Completed (norm Completed_type (Completed_go e)))
  | EvFailed e => EvFailed (of_Failed (norm Failed_type (Failed_go e)))
  end = sanitize_event ev.
Proof.
  destruct ev as [e|e|e|e]; destruct e; cbn [sanitize_event];
    [apply (f_equal EvStarted)|apply (f_equal EvProgress)|apply (f_equal EvCompleted)|apply (f_equal EvFailed)];
    [unfold of_Started|unfold of_Progress|unfold of_Completed|unfold of_Failed]; cbv zeta;
    f_equal; try done; first
      [apply omitted_string|cbn; match goal with |- _ = ?o => destruct o; reflexivity end|apply as_list_nil_strings].
Qed.

Lemma Marshal_reads ev :
  event_ok ev → ∃ value, Marshal ev = Ok value ∧ read_payload (ev_kind ev) value = Some (sanitize_event ev).
Proof.
  intros Hok. pose proof (payload_ok ev Hok) as Hg. rewrite <- payload_norm.
  destruct ev as [e|e|e|e]; (destruct (json_round _ _ Hg) as (text & Hm & Hu); [vm_compute; discriminate|]);
    exists text; unfold Marshal; rewrite Hm; (split; [done|]); unfold read_payload, ev_kind;
    rewrite ?(bool_decide_true (_ = _)) by done; rewrite ?(bool_decide_false (_ = _)) by done; by rewrite Hu.
Qed.

(** ** Properties *)

Section properties.
Context {P Cert Pool W : Type} `{KafkaEnv P Cert Pool W}.

(** C38: incomplete TLS material never falls back to plaintext: a producer configuration is plaintext
    exactly when no TLS file is named; with any of them it uses TLS 1.2 or later with the key
    pair, verified against the named CA when there is one; either way it is the idempotent
    producer with one request in flight. *)
Theorem producerConfig_tls c cfg :
  producerConfig c = Ok cfg →
  (pc_TLS_Enable cfg = false ↔ cfg_CertFile c = EmptyString ∧ cfg_KeyFile c = EmptyString ∧ cfg_CAFile c = EmptyString) ∧
  (pc_TLS_Enable cfg = true → ∃ cert t, pc_TLS_Config cfg = Some t ∧
     LoadX509KeyPair (cfg_CertFile c) (cfg_KeyFile c) = Ok cert ∧ tls_Certificates t = [cert] ∧
     tls_MinVersion t = VersionTLS12 ∧
     (cfg_CAFile c ≠ EmptyString → ∃ pem, ReadFile (cfg_CAFile c) = Ok pem ∧
        AppendCertsFromPEM NewCertPool pem = Some (tls_RootCAs t))) ∧
  pc_RequiredAcks cfg = WaitForAll ∧ pc_Idempotent cfg = true ∧ pc_MaxOpenRequests cfg = 1%Z ∧
  pc_Return_Successes cfg = true.
Proof.
  unfold producerConfig, no_tls_files. destruct (_ && _) eqn:Hn.
  - intros [= <-]. bool_to_prop. cbn. split_and!; try done.
  - destruct (mTLS c) as [t|e] eqn:Ht; [|done]. intros [= <-]. cbn. split_and!; try done.
    + split; [done|]. intros (Hc & Hk & Ha). by rewrite !bool_decide_eq_true_2 in Hn.
    + intros _. unfold mTLS in Ht.
      destruct (LoadX509KeyPair (cfg_CertFile c) (cfg_KeyFile c)) as [cert|] eqn:Hl; [|done]. cbn in Ht.
      case_bool_decide as Hca; cbn in Ht.
      * injection Ht as <-. by exists cert, (MkTLSConfig [cert] NewCertPool VersionTLS12).
      * destruct (ReadFile (cfg_CAFile c)) as [pem|] eqn:Hr; [|done]. cbn in Ht.
        destruct (AppendCertsFromPEM NewCertPool pem) as [pool|] eqn:Hp; [|done]. injection Ht as <-.
        exists cert, (MkTLSConfig [cert] pool VersionTLS12). split_and!; try done. intros _. by exists pem.
Qed.

(** C39: each event of a connected publisher is one message, on the topic of its kind under the
    configured prefix and partitioned by client and job, so that two events share a topic and a
    partition key exactly when they are of one kind and about one job of one client; and its value
    is a JSON text that whoever declares the same fields reads back as the event, with the time it
    was published at, every field as it was, invalid bytes of a string replaced by U+FFFD. *)
Theorem emit_message p producer now ev w :
  pub_p p = Some producer → pub_prefix p ≠ EmptyString → event_ok (stamped now ev) →
  ∃ value,
    Emit (Some p) now ev w =
      SendMessage producer (pub_prefix p +:+ "download.client." +:+ ev_kind ev) (key (ev_adapter ev) (ev_client ev)) value w ∧
    read_payload (ev_kind ev) value = Some (sanitize_event (stamped now ev)) ∧
    ∀ ev', colon_free (ev_adapter ev) → colon_free (ev_adapter ev') →
      (topicFor (Some p) (ev_kind ev) = topicFor (Some p) (ev_kind ev') ↔ ev_kind ev = ev_kind ev') ∧
      (key (ev_adapter ev) (ev_client ev) = key (ev_adapter ev') (ev_client ev') ↔
       ev_adapter ev = ev_adapter ev' ∧ ev_client ev = ev_client ev').
Proof.
  intros Hp Hx Hok. destruct (Marshal_reads _ Hok) as (value & Hm & Hr). exists value.
  assert (Ht : ∀ k, topicFor (Some p) k = pub_prefix p +:+ "download.client." +:+ k).
  { intros k. unfold topicFor. by rewrite bool_decide_eq_false_2. }
  split_and!.
  - rewrite <- Ht. destruct ev; cbn [Emit stamped ev_kind] in *; unfold EmitStarted, EmitProgress, EmitCompleted, EmitFailed, emit;
      rewrite Hm; destruct p as [pp px pcl]; cbn in Hp; by subst pp.
  - by destruct ev.
  - intros ev' H1 H2. rewrite !Ht. split.
    + split; [|by intros ->]. intros E. apply (f_equal chars) in E. rewrite !chars_app in E.
      apply app_inv_head, app_inv_head in E. by apply chars_inj.
    + split; [by apply key_inj|by intros [-> ->]].
Qed.
End properties.

Section witnesses.
#[local] Instance demo_kafka : KafkaEnv unit string string (list (string * string)) := {|
  newSyncProducer := λ _ _ w, (Ok tt, w);
  SendMessage := λ _ t k _ w, (Ok tt, w ++ [(t, k)]);
  Producer_Close := λ _ w, (Ok tt, w);
  LoadX509KeyPair := λ c k, if bool_decide (c = EmptyString) || bool_decide (k = EmptyString)
                            then Err (ErrorString "open") else Ok (c +:+ k);
  NewCertPool := EmptyString;
  ReadFile := λ f, Ok f;
  AppendCertsFromPEM := λ pool pem, Some (pool +:+ pem)
|}.

Lemma producerConfig_tls_witness :
  ∃ cfg, producerConfig (MkConfig "b:9092" "tls.crt" "tls.key" "ca.crt" "stube.") = Ok cfg ∧ pc_Idempotent cfg = true.
Proof.
  eexists. split; [reflexivity|].
  apply (producerConfig_tls (MkConfig "b:9092" "tls.crt" "tls.key" "ca.crt" "stube.")). reflexivity.
Defined.

(** A CA alone is refused, not ignored. *)
Example producerConfig_ca_only :
  producerConfig (MkConfig "b" EmptyString EmptyString "ca.crt" "stube.") = Err (WrapError "kafka mTLS" (ErrorString "open")).
Proof. reflexivity. Qed.

(** A publisher whose world is the messages it was given. *)
Definition demo_completed : Event := EvCompleted (MkCompleted "7" "usenet" "nzbget" EmptyString ["/data/a"; "/data/b"] 42 0).

Lemma emit_message_witness :
  ∃ value, Emit (Some (MkPublisher (Some tt) "stube." false)) 1700000000000 demo_completed [] =
    (Ok tt, [("stube.download.client.completed", "usenet:7")]) ∧
  read_payload KindCompleted value =
    Some (EvCompleted (MkCompleted "7" "usenet" "nzbget" EmptyString ["/data/a"; "/data/b"] 42 1700000000000)).
Proof.
  destruct (emit_message (MkPublisher (Some tt) "stube." false) tt 1700000000000 demo_completed []) as (value & H1 & H2 & _).
  - reflexivity.
  - discriminate.
  - split; split; vm_compute; congruence.
  - exists value. split; [rewrite H1; reflexivity|]. etransitivity; [exact H2|vm_compute; reflexivity].
Defined.
End witnesses.
