(* ===== verification/Interfaces.v ===== *)
(** * internal/adapters/adapters.go: the interfaces of the download clients

    [Adapter] and the four optional interfaces the gateway asks an adapter for by type assertion:
    [Controller], [Reporter], [Rehydrator] and [Prober].  An adapter of type [A] works over a world
    [W] that stands for everything outside the process (the client behind its HTTP API, the
    adapter's session): a call is a function of it.  An assertion [ad.(I)] is an option. *)

From S2P Require Import Prelude GoStrings Adapters Responses.

Record Controller (W : Type) := MkController {
  Pause : string → W → result error unit * W;
  Resume : string → W → result error unit * W
}.
Arguments MkController {W} _ _.
Arguments Pause {W} _ _ _.
Arguments Resume {W} _ _ _.

Class AdapterOps (A W : Type) := {
  Name : A → string;
  Add : A → Job → W → result error string * W;
  Status_ : A → string → W → result error Status * W;
  Describe : A → string → W → result error JobView * W;
  Remove : A → string → W → result error unit * W;
  as_Controller : A → option (Controller W);
  as_Reporter : A → option (W → ClientStatus * W);
  as_Rehydrator : A → option (W → result error (list AdoptedJob) * W);
  as_Prober : A → option (W → result error string * W)
}.
