(* ===== verification/Jobs.v ===== *)
(** * cmd/server/main.go: the table of tracked jobs and the poll loop

    [tracked], the map [jobs] of the gateway and the functions that read and write it under its
    mutex, each a function on the map; the values derived for an event ([fillDerived], [pct],
    [optInt64], [optInt32], [optCount]); [pollOne] and [pollAll].

    Instants are nanoseconds, and the zero [time.Time] is [None].  [time.Now] is read at three
    places of a poll: the record [Clock] holds the three readings.  [float64] values are Stdlib's
    [spec_float] (GoFloat.v).

    A tracked job's adapter, job id, client type, title and wanted item never change once it is in
    the table, so that the pointer the poll loop holds is the record it read; the mutable fields are
    always reached through the table again, as in the source. *)

From S2P Require Import Prelude GoStrings Adapters Responses Clients Registry Events Interfaces GoFloat GoFloatSpec JsonTypesSpec.
From Stdlib Require Import SpecFloat.

Record tracked := MkTracked {
  t_adapter : string;
  t_clientType : string;
  t_clientJobID : string;
  t_title : string;
  t_wantedItemID : string;
  t_last : Status;
  t_view : JobView;
  t_lastBytes : Z;
  t_lastAt : option Z;
  t_missingSince : option Z
}.

Definition Second : Z := 1000000000.
Definition Minute : Z := 60 * Second.
Definition lostAfter : Z := 10 * Minute.
Definition pollConcurrency : Z := 8.

(** [time.Since(t)]: a [Duration] saturates. *)
Definition Since (now t : Z) : Z := Z.max (- 2 ^ 63) (Z.min (now - t) (2 ^ 63 - 1)).

Abbreviation job_table := (gmap string tracked).

Definition job_key (t : tracked) : string := key (t_adapter t) (t_clientJobID t).

(** ** The table *)

Definition track (t : tracked) (jobs : job_table) : job_table := <[job_key t := t]> jobs.

Definition trackIfAbsent (t : tracked) (jobs : job_table) : bool * job_table :=
  match jobs !! job_key t with
  | Some _ => (false, jobs)
  | None => (true, <[job_key t := t]> jobs)
  end.

Definition untrack (adapter id : string) (jobs : job_table) : job_table := delete (key adapter id) jobs.

Definition hasJobs (jobs : job_table) (clientID : string) : bool :=
  existsb (λ kt, bool_decide (t_adapter kt.2 = clientID)) (map_to_list jobs).

Definition snapshot (jobs : job_table) : list tracked := (map_to_list jobs).*2.

Definition set_observed (v : JobView) (now : Z) (t : tracked) : tracked :=
  MkTracked (t_adapter t) (t_clientType t) (t_clientJobID t) (t_title t) (t_wantedItemID t)
    (v_State v) v (v_BytesDone v) (Some now) (t_missingSince t).

Definition set_missingSince (m : option Z) (t : tracked) : tracked :=
  MkTracked (t_adapter t) (t_clientType t) (t_clientJobID t) (t_title t) (t_wantedItemID t)
    (t_last t) (t_view t) (t_lastBytes t) (t_lastAt t) m.

Definition observe (now : Z) (job : tracked) (v : JobView) (jobs : job_table) : job_table :=
  match jobs !! job_key job with
  | Some cur => <[job_key job := set_observed v now cur]> jobs
  | None => jobs
  end.

Definition prevSample (job : tracked) (jobs : job_table) : Z * option Z :=
  match jobs !! job_key job with
  | Some cur => (t_lastBytes cur, t_lastAt cur)
  | None => (0%Z, None)
  end.

Definition markMissing (now : Z) (job : tracked) (jobs : job_table) : bool * job_table :=
  match jobs !! job_key job with
  | None => (false, jobs)
  | Some cur =>
      match t_missingSince cur with
      | None => (false, <[job_key job := set_missingSince (Some now) cur]> jobs)
      | Some since => ((lostAfter <? Since now since)%Z, jobs)
      end
  end.

Definition clearMissing (job : tracked) (jobs : job_table) : job_table :=
  match jobs !! job_key job with
  | Some cur => <[job_key job := set_missingSince None cur]> jobs
  | None => jobs
  end.

(** ** Derived values *)

Definition titleOf (job : tracked) (v : JobView) : string :=
  if bool_decide (v_Title v = EmptyString) then t_title job else v_Title v.

(** [Duration.Seconds]. *)
Definition Seconds (d : Z) : spec_float :=
  fadd (float64 (Z.quot d Second)) (fdiv (float64 (Z.rem d Second)) (float64 Second)).

Definition set_rate (speed eta : Z) (v : JobView) : JobView :=
  MkJobView (v_State v) (v_NativeState v) (v_Title v) (v_BytesDone v) (v_BytesTotal v) speed eta
    (v_Files v) (v_Message v) (v_Seeders v) (v_Leechers v) (v_Health v).

(** [fillDerived(&v, prevBytes, prevAt)] at the instant [now]. *)
Definition fillDerived `{FloatConv} (now : Z) (v : JobView) (prevBytes : Z) (prevAt : option Z) : JobView :=
  let speed :=
    match prevAt with
    | Some at_ =>
        if (v_SpeedBps v <=? 0)%Z && (prevBytes <? v_BytesDone v)%Z then
          let elapsed := Seconds (Since now at_) in
          if SFleb (float64 1) elapsed
          then float_to_int64 (fdiv (float64 (int64 (v_BytesDone v - prevBytes))) elapsed)
          else v_SpeedBps v
        else v_SpeedBps v
    | None => v_SpeedBps v
    end in
  let eta :=
    if (v_EtaSec v <? 0)%Z && (0 <? speed)%Z && (v_BytesDone v <? v_BytesTotal v)%Z
    then go_div (int64 (v_BytesTotal v - v_BytesDone v)) speed
    else v_EtaSec v in
  set_rate speed eta v.

Definition pct (done_ total : Z) : spec_float :=
  if (total <=? 0)%Z then S754_zero false
  else fmul (fdiv (float64 done_) (float64 total)) (float64 100).

Definition optInt64 (v : Z) : option Z := if (v =? 0)%Z then None else Some v.
Definition optInt32 (v : Z) : option Z := if (v <? 0)%Z then None else Some (int32 v).
Definition optCount (v : Z) : option Z := if (v <? 0)%Z then None else Some v.

(** ** Polling *)

Record Clock := MkClock {
  clk_missing : Z;    (* in markMissing *)
  clk_rate : Z;       (* in fillDerived *)
  clk_observe : Z     (* in observe *)
}.

Definition completed_event (job : tracked) (v : JobView) : Event :=
  EvCompleted (MkCompleted (t_clientJobID job) (t_adapter job) (t_clientType job) (t_wantedItemID job)
    (v_Files v) (v_BytesTotal v) 0).

Definition failed_event (job : tracked) (title err : string) : Event :=
  EvFailed (MkFailed (t_clientJobID job) (t_adapter job) (t_clientType job) (t_wantedItemID job)
    title err EmptyString false 0).

Definition progress_event (job : tracked) (v : JobView) : Event :=
  EvProgress (MkProgress (t_clientJobID job) (t_adapter job) (t_clientType job) (t_wantedItemID job)
    (titleOf job v) (Status_string (v_State v)) (v_NativeState v) (pct (v_BytesDone v) (v_BytesTotal v))
    (v_BytesDone v) (optInt64 (v_BytesTotal v)) (v_SpeedBps v) (optInt32 (v_EtaSec v))
    (optCount (v_Seeders v)) (optCount (v_Leechers v)) (optCount (v_Health v)) 0).

Section poll.
Context {A W : Type} `{ClientFactory A} `{AdapterOps A W} `{FloatConv}.

(** [pollOne] once the client answered [v]: the table, and the events published. *)
Definition poll_view (clk : Clock) (job : tracked) (v : JobView) (jobs : job_table) :
    job_table * list Event :=
  match v_State v with
  | StatusCompleted =>
      (untrack (t_adapter job) (t_clientJobID job) jobs, [completed_event job v])
  | StatusFailed =>
      (untrack (t_adapter job) (t_clientJobID job) jobs, [failed_event job (titleOf job v) (v_Message v)])
  | _ =>
      let progress jobs :=
        let (pb, pt) := prevSample job jobs in
        let v := fillDerived (clk_rate clk) v pb pt in
        (observe (clk_observe clk) job v jobs, [progress_event job v]) in
      if bool_decide (v_NativeState v = NotFoundState) then
        let (lost, jobs) := markMissing (clk_missing clk) job jobs in
        if lost then
          (untrack (t_adapter job) (t_clientJobID job) jobs,
           [failed_event job (t_title job) ("job is no longer known to " +:+ t_adapter job)])
        else progress jobs
      else progress (clearMissing job jobs)
  end.

Definition pollOne (r : Registry A) (clk : Clock) (job : tracked) (jobs : job_table) (w : W) :
    job_table * list Event * W :=
  match Get (t_adapter job) r with
  | None => (untrack (t_adapter job) (t_clientJobID job) jobs, [], w)
  | Some ad =>
      match Describe ad (t_clientJobID job) w with
      | (Err _, w) => (jobs, [], w)
      | (Ok v, w) => (poll_view clk job v jobs, w)
      end
  end.

(** [pollAll], its goroutines run one after the other in the order [order] of the snapshot, each
    with its clock; then the registry drops the removed clients whose last job is gone. *)
Fixpoint poll_jobs (r : Registry A) (order : list (tracked * Clock)) (jobs : job_table) (w : W) :
    job_table * list Event * W :=
  match order with
  | [] => (jobs, [], w)
  | (job, clk) :: order =>
      let '(jobs, evs, w) := pollOne r clk job jobs w in
      let '(jobs, evs', w) := poll_jobs r order jobs w in
      (jobs, evs ++ evs', w)
  end.

Definition pollAll (r : Registry A) (order : list (tracked * Clock)) (jobs : job_table) (w : W) :
    Registry A * job_table * list Event * W :=
  let '(jobs, evs, w) := poll_jobs r order jobs w in
  ((Reap (hasJobs jobs) r).1, jobs, evs, w).
End poll.

(** ** Facts *)

(** Every job is filed under its own key. *)
Definition wf_jobs (jobs : job_table) : Prop := map_Forall (λ k t, k = job_key t) jobs.

Lemma track_wf t jobs : wf_jobs jobs → wf_jobs (track t jobs).
Proof. intros Hw. apply map_Forall_insert_2; done. Qed.

Lemma trackIfAbsent_wf t jobs : wf_jobs jobs → wf_jobs (trackIfAbsent t jobs).2.
Proof. intros Hw. unfold trackIfAbsent. destruct (jobs !! _); [done|]. by apply map_Forall_insert_2. Qed.

Lemma untrack_wf a i jobs : wf_jobs jobs → wf_jobs (untrack a i jobs).
Proof. intros Hw. by apply map_Forall_delete. Qed.

(** An update in place that leaves the key alone. *)
Lemma update_wf job (f : tracked → tracked) jobs cur :
  (∀ t, job_key (f t) = job_key t) → jobs !! job_key job = Some cur → wf_jobs jobs →
  wf_jobs (<[job_key job := f cur]> jobs).
Proof. intros Hf Hc Hw. apply map_Forall_insert_2; [|done]. rewrite Hf. by apply Hw. Qed.

Lemma observe_wf now job v jobs : wf_jobs jobs → wf_jobs (observe now job v jobs).
Proof. unfold observe. destruct (jobs !! job_key job) eqn:E; [|done]. by apply (update_wf _ (set_observed v now)). Qed.

Lemma clearMissing_wf job jobs : wf_jobs jobs → wf_jobs (clearMissing job jobs).
Proof. unfold clearMissing. destruct (jobs !! job_key job) eqn:E; [|done]. by apply (update_wf _ (set_missingSince None)). Qed.

Lemma markMissing_wf now job jobs : wf_jobs jobs → wf_jobs (markMissing now job jobs).2.
Proof.
  unfold markMissing. destruct (jobs !! job_key job) as [cur|] eqn:E; [|done].
  destruct (t_missingSince cur); [done|]. by apply (update_wf _ (set_missingSince (Some now))).
Qed.

#[export] Hint Resolve track_wf trackIfAbsent_wf untrack_wf observe_wf clearMissing_wf markMissing_wf : gw.

Lemma hasJobs_spec jobs c : hasJobs jobs c = true ↔ ∃ k t, jobs !! k = Some t ∧ t_adapter t = c.
Proof.
  unfold hasJobs. rewrite existsb_exists. split.
  - intros ([k t] & Hin & Ht). apply bool_decide_eq_true in Ht. exists k, t. split; [|done].
    by apply elem_of_map_to_list, list_elem_of_In.
  - intros (k & t & Hk & Ht). exists (k, t). split; [by apply list_elem_of_In, elem_of_map_to_list|].
    by apply bool_decide_eq_true.
Qed.

Lemma hasJobs_false jobs c : hasJobs jobs c = false ↔ ∀ k t, jobs !! k = Some t → t_adapter t ≠ c.
Proof.
  rewrite <- not_true_iff_false, hasJobs_spec. split; [|naive_solver]. intros Hn k t Hk Ht. apply Hn. by exists k, t.
Qed.

Lemma elem_of_snapshot jobs t : t ∈ snapshot jobs ↔ ∃ k, jobs !! k = Some t.
Proof.
  unfold snapshot. rewrite list_elem_of_fmap. split.
  - intros ([k t'] & -> & Hin). exists k. by apply elem_of_map_to_list.
  - intros [k Hk]. exists (k, t). split; [done|]. by apply elem_of_map_to_list.
Qed.

(** The client and job an event is about, and whether it ends the job. *)
Definition event_key (ev : Event) : string :=
  match ev with
  | EvStarted e => key (st_Adapter e) (st_ClientID e)
  | EvProgress e => key (pr_Adapter e) (pr_ClientID e)
  | EvCompleted e => key (co_Adapter e) (co_ClientID e)
  | EvFailed e => key (fa_Adapter e) (fa_ClientID e)
  end.

Definition terminal (ev : Event) : bool :=
  match ev with EvCompleted _ | EvFailed _ => true | _ => false end.

(** The keys of the jobs whose end [evs] announces. *)
Definition ended (evs : list Event) : list string := event_key <$> filter (λ ev, terminal ev = true) evs.

Lemma ended_app e1 e2 : ended (e1 ++ e2) = ended e1 ++ ended e2.
Proof. unfold ended. by rewrite filter_app, fmap_app. Qed.

(** [jobs'] is [jobs] with the fields of the jobs under [k] possibly updated. *)
Definition same_but (k : string) (jobs jobs' : job_table) : Prop :=
  (∀ k', k' ≠ k → jobs' !! k' = jobs !! k') ∧ (is_Some (jobs' !! k) ↔ is_Some (jobs !! k)).

Lemma same_but_refl k jobs : same_but k jobs jobs.
Proof. done. Qed.

Lemma same_but_trans k j1 j2 j3 : same_but k j1 j2 → same_but k j2 j3 → same_but k j1 j3.
Proof. intros [A1 B1] [A2 B2]. split; [|by rewrite B2]. intros k' Hk. by rewrite A2, A1. Qed.

Lemma same_but_insert k jobs cur t : jobs !! k = Some cur → same_but k jobs (<[k := t]> jobs).
Proof.
  intros Hc. split; [intros k' Hk; by rewrite lookup_insert_ne|]. rewrite lookup_insert_eq, Hc. split; by eexists.
Qed.

Lemma observe_same now job v jobs : same_but (job_key job) jobs (observe now job v jobs).
Proof. unfold observe. destruct (jobs !! job_key job) eqn:E; [|done]. by eapply same_but_insert. Qed.

Lemma clearMissing_same job jobs : same_but (job_key job) jobs (clearMissing job jobs).
Proof. unfold clearMissing. destruct (jobs !! job_key job) eqn:E; [|done]. by eapply same_but_insert. Qed.

Lemma markMissing_same now job jobs : same_but (job_key job) jobs (markMissing now job jobs).2.
Proof.
  unfold markMissing. destruct (jobs !! job_key job) as [cur|] eqn:E; [|done].
  destruct (t_missingSince cur); [done|]. by eapply same_but_insert.
Qed.

(** The job is lost: the table says it has been missing for longer than the grace window. *)
Definition lost (now : Z) (job : tracked) (jobs : job_table) : Prop :=
  ∃ cur since, jobs !! job_key job = Some cur ∧ t_missingSince cur = Some since ∧ (lostAfter < Since now since)%Z.

Lemma markMissing_lost now job jobs : (markMissing now job jobs).1 = true ↔ lost now job jobs.
Proof.
  unfold markMissing, lost. destruct (jobs !! job_key job) as [cur|]; [|naive_solver].
  destruct (t_missingSince cur) as [since|] eqn:Em; cbn [fst]; [rewrite Z.ltb_lt|]; [|naive_solver].
  split; [by exists cur, since|]. intros (c' & s' & [= <-] & Hs & Hl). congruence.
Qed.

Section poll_facts.
Context `{FloatConv}.

(** The view ends the job. *)
Definition ends (clk : Clock) (job : tracked) (v : JobView) (jobs : job_table) : Prop :=
  v_State v = StatusCompleted ∨ v_State v = StatusFailed ∨
  (v_NativeState v = NotFoundState ∧ lost (clk_missing clk) job jobs).

(** The part of [poll_view] for a job that goes on. *)
Definition progress_step (clk : Clock) (job : tracked) (v : JobView) (jobs : job_table) : job_table * list Event :=
  let (pb, pt) := prevSample job jobs in
  let v := fillDerived (clk_rate clk) v pb pt in
  (observe (clk_observe clk) job v jobs, [progress_event job v]).

Lemma progress_step_spec clk job v jobs :
  let p := progress_step clk job v jobs in
  same_but (job_key job) jobs p.1 ∧ (wf_jobs jobs → wf_jobs p.1) ∧
  ∃ v', p.2 = [progress_event job v'] ∧ v_State v' = v_State v.
Proof.
  unfold progress_step. destruct (prevSample job jobs) as [pb pt]. cbn. split_and!.
  - apply observe_same.
  - apply observe_wf.
  - by eexists.
Qed.

(** The table a job that goes on is observed in. *)
Definition marked (clk : Clock) (job : tracked) (v : JobView) (jobs : job_table) : job_table :=
  if bool_decide (v_NativeState v = NotFoundState) then (markMissing (clk_missing clk) job jobs).2
  else clearMissing job jobs.

Lemma marked_same clk job v jobs : same_but (job_key job) jobs (marked clk job v jobs).
Proof. unfold marked. case_bool_decide; [apply markMissing_same|apply clearMissing_same]. Qed.

Lemma marked_wf clk job v jobs : wf_jobs jobs → wf_jobs (marked clk job v jobs).
Proof. unfold marked. case_bool_decide; auto with gw. Qed.

Lemma poll_view_goes_on clk job v jobs :
  ¬ ends clk job v jobs → poll_view clk job v jobs = progress_step clk job v (marked clk job v jobs).
Proof.
  unfold ends. intros Hn. unfold poll_view, marked.
  assert (Hm : v_NativeState v = NotFoundState → (markMissing (clk_missing clk) job jobs).1 = false).
  { intros Hf. apply not_true_iff_false. rewrite markMissing_lost. tauto. }
  destruct (v_State v) eqn:Es; try tauto; case_bool_decide as Hb; try reflexivity;
    specialize (Hm Hb); destruct (markMissing (clk_missing clk) job jobs) as [[] m]; cbn in *; done.
Qed.

Lemma poll_view_ends clk job v jobs :
  ends clk job v jobs →
  (poll_view clk job v jobs).1 = delete (job_key job) jobs ∧
  ∃ ev, (poll_view clk job v jobs).2 = [ev] ∧ terminal ev = true ∧ event_key ev = job_key job.
Proof.
  unfold ends. intros He.
  destruct (v_State v) eqn:Es; try (unfold poll_view; rewrite Es; split; [done|]; eexists; split_and!; done).
  all: destruct He as [?|[?|[Hf Hl]]]; [done|done|].
  all: pose proof Hl as (cur & since & Hc & Hs & _).
  all: apply markMissing_lost in Hl; unfold poll_view; rewrite Es, bool_decide_eq_true_2 by done.
  all: unfold markMissing in Hl |- *; rewrite Hc, Hs in Hl |- *; cbn [fst] in Hl; rewrite Hl.
  all: split; [done|]; eexists; split_and!; done.
Qed.

Lemma ends_dec_aux clk job v jobs : ends clk job v jobs ∨ ¬ ends clk job v jobs.
Proof.
  unfold ends. rewrite <- markMissing_lost.
  destruct (v_State v); destruct (decide (v_NativeState v = NotFoundState));
    destruct ((markMissing (clk_missing clk) job jobs).1) eqn:E; naive_solver.
Qed.

(** Either way exactly one event, about the job, and the rest of the table as it was. *)
Lemma poll_view_event clk job v jobs :
  ∃ ev, (poll_view clk job v jobs).2 = [ev] ∧ event_key ev = job_key job ∧
    (terminal ev = true ↔ ends clk job v jobs) ∧
    (terminal ev = true → (poll_view clk job v jobs).1 = delete (job_key job) jobs) ∧
    (terminal ev = false → same_but (job_key job) jobs (poll_view clk job v jobs).1) ∧
    (wf_jobs jobs → wf_jobs (poll_view clk job v jobs).1).
Proof.
  destruct (ends_dec_aux clk job v jobs) as [He|Hn].
  - destruct (poll_view_ends _ _ _ _ He) as (Hj & ev & -> & Ht & Hk). exists ev. rewrite Hj, Ht.
    split_and!; try done. intros Hw. by apply map_Forall_delete.
  - rewrite (poll_view_goes_on _ _ _ _ Hn).
    destruct (progress_step_spec clk job v (marked clk job v jobs)) as (Hs & Hw & v' & -> & _).
    eexists. split; [done|]. split_and!; try done.
    + intros _. eapply same_but_trans; [apply marked_same|exact Hs].
    + intros Hwf. by apply Hw, marked_wf.
Qed.
End poll_facts.

Section poll_table.
Context {A W : Type} `{ClientFactory A} `{AdapterOps A W} `{FloatConv}.

(** A poll of a job: at most one event, about that job; the job leaves the table if the event ends
    it, and nothing else moves. *)
Lemma pollOne_spec (r : Registry A) clk job jobs (w : W) :
  let p := pollOne r clk job jobs w in
  (∀ k, k ≠ job_key job → p.1.1 !! k = jobs !! k) ∧
  (p.1.1 !! job_key job = None ∨ same_but (job_key job) jobs p.1.1) ∧
  (wf_jobs jobs → wf_jobs p.1.1) ∧
  (p.1.2 = [] ∨ ∃ ev, p.1.2 = [ev] ∧ event_key ev = job_key job) ∧
  (ended p.1.2 ≠ [] → ended p.1.2 = [job_key job] ∧ p.1.1 = delete (job_key job) jobs).
Proof.
  cbn zeta. unfold pollOne. destruct (Get (t_adapter job) r) as [ad|].
  2:{ cbn. split_and!; try done; [|left; apply lookup_delete_eq| |by left].
      - intros k Hk. by apply lookup_delete_ne.
      - apply untrack_wf. }
  destruct (Describe ad (t_clientJobID job) w) as [[v|e] w']; cbn [fst snd].
  2:{ split_and!; try done; [by right|by left]. }
  destruct (poll_view_event clk job v jobs) as (ev & Hev & Hk & Ht & Hd & Hs & Hw).
  destruct (poll_view clk job v jobs) as [jobs' evs]. cbn [fst snd] in *. subst evs.
  destruct (terminal ev) eqn:E.
  - rewrite (Hd eq_refl). split_and!.
    + intros k Hne. by apply lookup_delete_ne.
    + left. apply lookup_delete_eq.
    + intros Hwf. by apply map_Forall_delete.
    + right. by exists ev.
    + unfold ended. rewrite filter_cons, decide_True by done. cbn. by rewrite Hk.
  - destruct (Hs eq_refl) as [Hs1 Hs2]. split_and!.
    + done.
    + right. by split.
    + done.
    + right. by exists ev.
    + unfold ended. rewrite filter_cons, decide_False by congruence. done.
Qed.

Lemma poll_jobs_spec (r : Registry A) order jobs (w : W) :
  NoDup (job_key ∘ fst <$> order) → wf_jobs jobs →
  let p := poll_jobs r order jobs w in
  wf_jobs p.1.1 ∧ NoDup (ended p.1.2) ∧
  (∀ k, k ∈ ended p.1.2 → k ∈ (job_key ∘ fst <$> order)) ∧
  (∀ k, k ∈ ended p.1.2 → p.1.1 !! k = None) ∧
  (∀ k, jobs !! k = None → p.1.1 !! k = None) ∧
  (∀ k, k ∉ (job_key ∘ fst <$> order) → p.1.1 !! k = jobs !! k).
Proof.
  revert jobs w. induction order as [|[job clk] order IH]; intros jobs w Hnd Hwf; cbn zeta.
  { cbn. split_and!; try done; try apply NoDup_nil_2; intros k Hk; by apply not_elem_of_nil in Hk. }
  cbn [poll_jobs]. rewrite fmap_cons in Hnd |- *. apply NoDup_cons in Hnd as [Hj Hnd]. simpl in Hj.
  pose proof (pollOne_spec r clk job jobs w) as (P1 & P2 & P3 & P4 & P5).
  destruct (pollOne r clk job jobs w) as [[jobs1 evs1] w1]. cbn [fst snd] in *.
  destruct (IH jobs1 w1 Hnd (P3 Hwf)) as (I1 & I2 & I3 & I4 & I5 & I6).
  destruct (poll_jobs r order jobs1 w1) as [[jobs2 evs2] w2]. cbn [fst snd] in *.
  rewrite ended_app. change ((job_key ∘ fst) (job, clk)) with (job_key job).
  assert (Hone : ∀ k, k ∈ ended evs1 → k = job_key job ∧ jobs1 !! k = None ∧ ended evs1 = [job_key job]).
  { intros k Hk. destruct P5 as [E1 E2]; [by intros E; rewrite E in Hk; apply not_elem_of_nil in Hk|].
    rewrite E1 in Hk. apply list_elem_of_singleton in Hk as ->. split_and!; [done| |done].
    rewrite E2. apply lookup_delete_eq. }
  assert (Hfresh : ∀ k, jobs !! k = None → jobs1 !! k = None).
  { intros k Hk. destruct (decide (k = job_key job)) as [->|Hne]; [|by rewrite P1].
    destruct P2 as [?|[_ Hs]]; [done|]. apply eq_None_not_Some. rewrite Hs, Hk. by apply is_Some_None. }
  split_and!.
  - done.
  - apply NoDup_app. split_and!; [|intros k Hk Hk2|done].
    + destruct (ended evs1) as [|k l] eqn:E; [apply NoDup_nil_2|].
      destruct (Hone k ltac:(by left)) as (_ & _ & ->). apply NoDup_singleton.
    + destruct (Hone _ Hk) as [-> _]. by apply Hj, I3.
  - intros k Hk. apply elem_of_app in Hk as [Hk|Hk]; [|right; by apply I3].
    destruct (Hone _ Hk) as [-> _]. by left.
  - intros k Hk. apply elem_of_app in Hk as [Hk|Hk]; [|by apply I4].
    destruct (Hone _ Hk) as (_ & Hn & _). by apply I5.
  - intros k Hk. by apply I5, Hfresh.
  - intros k Hk. apply not_elem_of_cons in Hk as [Hne Hk]. rewrite I6 by done. by apply P1.
Qed.

(** Ticks of the poll loop, with jobs removed and the registry changed in between; [order] is the
    snapshot of the table in some order, with the clocks of its polls. *)
Inductive ticks : job_table → list Event → job_table → Prop :=
| ticks_nil jobs : ticks jobs [] jobs
| ticks_untrack a i jobs evs jobs' : ticks (untrack a i jobs) evs jobs' → ticks jobs evs jobs'
| ticks_poll (r : Registry A) order (w : W) jobs evs jobs' :
    order.*1 ≡ₚ snapshot jobs →
    ticks (pollAll r order jobs w).1.1.2 evs jobs' →
    ticks jobs ((pollAll r order jobs w).1.2 ++ evs) jobs'.

Lemma snapshot_keys_NoDup jobs : wf_jobs jobs → NoDup (job_key <$> snapshot jobs).
Proof.
  intros Hw. unfold snapshot. assert (E : job_key <$> (map_to_list jobs).*2 = (map_to_list jobs).*1).
  { rewrite <- list_fmap_compose. apply list_fmap_ext. intros i [k t] Hi. simpl. symmetry.
    apply Hw, elem_of_map_to_list. by eapply list_elem_of_lookup_2. }
  rewrite E. apply NoDup_fst_map_to_list.
Qed.

Lemma pollAll_jobs (r : Registry A) order jobs (w : W) :
  (pollAll r order jobs w).1.1.2 = (poll_jobs r order jobs w).1.1 ∧
  (pollAll r order jobs w).1.2 = (poll_jobs r order jobs w).1.2.
Proof. unfold pollAll. by destruct (poll_jobs r order jobs w) as [[? ?] ?]. Qed.

Lemma ticks_ended jobs evs jobs' :
  ticks jobs evs jobs' → wf_jobs jobs →
  NoDup (ended evs) ∧ (∀ k, k ∈ ended evs → is_Some (jobs !! k) ∧ jobs' !! k = None) ∧
  (∀ k, jobs !! k = None → jobs' !! k = None).
Proof.
  induction 1 as [jobs|a i jobs evs jobs' _ IH|r order w jobs evs jobs' Ho _ IH]; intros Hw.
  - split_and!; [apply NoDup_nil_2| |done]. intros k Hk. by apply not_elem_of_nil in Hk.
  - destruct (IH (untrack_wf a i _ Hw)) as (I1 & I2 & I3). split_and!; [done| |].
    + intros k Hk. destruct (I2 k Hk) as [[t Ht] ?]. split; [|done]. unfold untrack in Ht.
      apply lookup_delete_Some in Ht as [_ Ht]. by exists t.
    + intros k Hk. apply I3. unfold untrack. apply lookup_delete_None. by right.
  - destruct (pollAll_jobs r order jobs w) as [Ej Ee]. rewrite Ej in IH. rewrite Ee, ended_app.
    assert (Hk : job_key ∘ fst <$> order = job_key <$> order.*1) by apply list_fmap_compose.
    destruct (poll_jobs_spec r order jobs w) as (P1 & P2 & P3 & P4 & P5 & P6); [|done|].
    { rewrite Hk, Ho. by apply snapshot_keys_NoDup. }
    destruct (IH P1) as (I1 & I2 & I3). split_and!.
    + apply NoDup_app. split_and!; [done| |done]. intros k Hk1 Hk2.
      destruct (I2 k Hk2) as [[t Ht] _]. rewrite P4 in Ht by done. done.
    + intros k Hin. apply elem_of_app in Hin as [Hin|Hin].
      * split; [|by apply I3, P4]. apply P3 in Hin. rewrite Hk, Ho in Hin.
        apply list_elem_of_fmap in Hin as (t & -> & Ht). apply elem_of_snapshot in Ht as [k Ht].
        rewrite <- (Hw _ _ Ht). by exists t.
      * destruct (I2 k Hin) as [[t Ht] ?]. split; [|done].
        destruct (jobs !! k) eqn:E; [by eexists|]. rewrite P5 in Ht by done. done.
    + intros k Hn. by apply I3, P5.
Qed.
End poll_table.

(** ** What is published fits its fields *)

(** Numbers are of the types of their fields. *)
Definition view_ok (v : JobView) : Prop :=
  fits64 (v_BytesDone v) ∧ fits64 (v_BytesTotal v) ∧ fits64 (v_SpeedBps v) ∧ fits64 (v_EtaSec v) ∧
  fits32 (v_Seeders v) ∧ fits32 (v_Leechers v) ∧ fits32 (v_Health v).

(** A percentage is a number: the quotient of two int64 by a positive one, and a hundred times that. *)
Lemma pct_finite done_ total : fits64 done_ → fits64 total → float_finite (pct done_ total) = true.
Proof.
  intros Hd Ht. unfold fits in Hd, Ht. change (2 ^ (64 - 1))%Z with (2 ^ 63)%Z in *. unfold pct. destruct (Z.leb_spec total 0) as [|Hp]; [done|].
  apply (within_finite (63 + 7)), fmul_within; [lia|lia|lia| |apply float64_within; lia].
  apply fdiv_within; [lia|apply float64_within; lia|apply float64_at_least_one; lia|].
  apply (within_finite 63), float64_within; lia.
Qed.

Lemma optInt64_fits v : fits64 v → opt_fits 64 (optInt64 v).
Proof. unfold optInt64. by destruct (v =? 0)%Z. Qed.

Lemma optInt32_fits v : opt_fits 32 (optInt32 v).
Proof. unfold optInt32. destruct (v <? 0)%Z; [done|]. apply int32_fits. Qed.

Lemma optCount_fits v : fits32 v → opt_fits 32 (optCount v).
Proof. unfold optCount. by destruct (v <? 0)%Z. Qed.

Section published.
Context `{FloatConv} (Hconv : ∀ f, fits64 (float_out_of_range f)).

Lemma float_to_int64_fits f : fits64 (float_to_int64 f).
Proof using Hconv.
  unfold float_to_int64. destruct (ftrunc f) as [n|]; [|apply Hconv]. destruct (Z.leb_spec (- 2 ^ 63) n); [|apply Hconv]. destruct (Z.ltb_spec n (2 ^ 63)); [|apply Hconv].
  cbn [andb]. unfold fits. change (64 - 1)%Z with 63%Z. lia.
Qed.

Lemma fillDerived_ok now v prevBytes prevAt : view_ok v → view_ok (fillDerived now v prevBytes prevAt).
Proof using Hconv.
  intros (H1 & H2 & H3 & H4 & H5). unfold fillDerived. cbv zeta. set (speed := match prevAt with Some _ => _ | None => _ end).
  assert (Hs : fits64 speed).
  { unfold speed. repeat case_match; try done. apply float_to_int64_fits. }
  split_and!; cbn; try done; [|tauto..]. case_match; [|done]. unfold go_div. apply wrapS_fits. lia.
Qed.

(** Every event of a poll is one the fields of its kind hold, so that it is published as it is. *)
Lemma poll_events_ok clk job v table now :
  view_ok v → fits64 now → Forall (λ ev, event_ok (stamped now ev)) (poll_view clk job v table).2.
Proof using Hconv.
  intros Hv Hn. assert (Hf : ∀ title err, event_ok (stamped now (failed_event job title err))) by done.
  assert (Hc : event_ok (stamped now (completed_event job v))) by (split; [by apply Hv|done]).
  assert (Hp : ∀ table, Forall (λ ev, event_ok (stamped now ev)) (progress_step clk job v table).2).
  { intros t. unfold progress_step. destruct (prevSample job t) as [pb pt]. cbn [snd]. apply Forall_singleton.
    destruct (fillDerived_ok (clk_rate clk) v pb pt Hv) as (H1 & H2 & H3 & H4 & H5 & H6 & H7).
    cbn [stamped progress_event event_ok pr_ProgressPct pr_DownloadedBytes pr_SizeBytes pr_SpeedBps pr_EtaSec pr_Seeders pr_Leechers pr_Health pr_EmittedAt].
    split_and!; auto using pct_finite, optInt64_fits, optInt32_fits, optCount_fits. }
  unfold poll_view. fold (progress_step clk job v). destruct (v_State v); try (apply Forall_singleton; done);
    (case_bool_decide; [|apply Hp]; destruct (markMissing _ _ _) as [[] ?]; [apply Forall_singleton; done|apply Hp]).
Qed.
End published.

Section grace.
Context `{FloatConv}.

(** A client that answered without knowing the job. *)
Definition missing_view (v : JobView) : Prop :=
  v_NativeState v = NotFoundState ∧ v_State v ≠ StatusCompleted ∧ v_State v ≠ StatusFailed.

Definition missing_since (job : tracked) (jobs : job_table) (since : option Z) : Prop :=
  ∃ cur, jobs !! job_key job = Some cur ∧ t_missingSince cur = since.

(** Consecutive polls of one job. *)
Definition poll_run (job : tracked) (polls : list (Clock * JobView)) (jobs : job_table) : job_table * list Event :=
  foldl (λ s p, let r := poll_view p.1 job p.2 s.1 in (r.1, s.2 ++ r.2)) (jobs, []) polls.

Lemma progress_step_missing clk job v jobs since :
  missing_since job jobs since → missing_since job (progress_step clk job v jobs).1 since.
Proof.
  intros (cur & Hc & Hs). unfold progress_step. destruct (prevSample job jobs) as [pb pt]. cbn.
  unfold observe. rewrite Hc. eexists. rewrite lookup_insert_eq. split; [done|]. done.
Qed.

Lemma missing_not_lost clk job jobs since :
  missing_since job jobs since →
  (∀ s, since = Some s → (Since (clk_missing clk) s ≤ lostAfter)%Z) → ¬ lost (clk_missing clk) job jobs.
Proof.
  intros (cur & Hc & Hs) Hle (cur' & s & Hc' & Hs' & Hlt).
  assert (cur' = cur) as -> by congruence. specialize (Hle s ltac:(congruence)). lia.
Qed.

(** A poll inside the window starts it or leaves it running. *)
Lemma poll_missing_step clk job v jobs since :
  missing_view v → missing_since job jobs since →
  (∀ s, since = Some s → (Since (clk_missing clk) s ≤ lostAfter)%Z) →
  missing_since job (poll_view clk job v jobs).1 (Some (default (clk_missing clk) since)) ∧
  ended (poll_view clk job v jobs).2 = [].
Proof.
  intros (Hnf & Hc1 & Hc2) Hm Hle.
  rewrite poll_view_goes_on.
  2:{ intros [?|[?|[_ Hl]]]; [done|done|]. by apply (missing_not_lost clk job jobs since). }
  split.
  - apply progress_step_missing. unfold marked. rewrite bool_decide_eq_true_2 by done.
    destruct Hm as (cur & Hc & Hs). unfold markMissing, missing_since. rewrite Hc, Hs.
    destruct since as [s|]; cbn [fst snd default]; [by exists cur|].
    eexists. rewrite lookup_insert_eq. split; done.
  - destruct (progress_step_spec clk job v (marked clk job v jobs)) as (_ & _ & v' & -> & _). done.
Qed.

Lemma poll_run_missing job since polls jobs :
  missing_since job jobs (Some since) → Forall (λ p, missing_view p.2) polls →
  Forall (λ p, (Since (clk_missing p.1) since ≤ lostAfter)%Z) polls →
  ∀ evs, ended evs = [] →
  let s := foldl (λ s p, let r := poll_view p.1 job p.2 s.1 in (r.1, s.2 ++ r.2)) (jobs, evs) polls in
  missing_since job s.1 (Some since) ∧ ended s.2 = [].
Proof.
  intros Hm Hv Hle. revert jobs Hm. induction polls as [|p polls IH]; intros jobs Hm evs He; [done|].
  apply Forall_cons in Hv as [Hv Hvs]. apply Forall_cons in Hle as [Hl Hls]. cbn [foldl].
  destruct (poll_missing_step p.1 job p.2 jobs (Some since) Hv Hm) as [Hm' He'].
  { intros s [= <-]. done. }
  apply (IH Hvs Hls); [done|]. cbn [fst snd]. by rewrite ended_app, He, He'.
Qed.

(** What one answered poll of a job announces, and what it does to the table. *)
Definition poll_announces (clk : Clock) (job : tracked) (v : JobView) (jobs : job_table) : Prop :=
  ∃ ev, (poll_view clk job v jobs).2 = [ev] ∧ event_key ev = job_key job ∧
    (terminal ev = true ↔ ends clk job v jobs) ∧
    (terminal ev = true → (poll_view clk job v jobs).1 = delete (job_key job) jobs) ∧
    (terminal ev = false → same_but (job_key job) jobs (poll_view clk job v jobs).1).

(** ** Properties *)

(** C10: a job its client stops knowing is given up after ten minutes and not before: from the poll
    that first misses it, at [t0], polls that keep missing it announce nothing final while at most
    [lostAfter] has passed, and the first poll past that publishes the failure and drops the job. *)
Theorem poll_grace job jobs p0 polls p :
  let t0 := clk_missing p0.1 in
  missing_since job jobs None → Forall (λ p, missing_view p.2) (p0 :: polls) → missing_view p.2 →
  Forall (λ p, (Since (clk_missing p.1) t0 ≤ lostAfter)%Z) polls →
  (lostAfter < Since (clk_missing p.1) t0)%Z →
  let s := poll_run job (p0 :: polls) jobs in
  ended s.2 = [] ∧ is_Some (s.1 !! job_key job) ∧
  poll_view p.1 job p.2 s.1 =
    (delete (job_key job) s.1, [failed_event job (t_title job) ("job is no longer known to " +:+ t_adapter job)]).
Proof.
  cbn zeta. intros Hm Hall (Hnf & Hc & Hf) Hle Hlt. apply Forall_cons in Hall as [H0 Hall].
  unfold poll_run. cbn [foldl].
  destruct (poll_missing_step p0.1 job p0.2 jobs None H0 Hm) as [Hm' He']; [done|]. cbn [default] in Hm'.
  destruct (poll_run_missing job _ polls _ Hm' Hall Hle ([] ++ (poll_view p0.1 job p0.2 jobs).2)) as [Hr He].
  { by rewrite ended_app. }
  change ((jobs, []).1) with jobs. change ((jobs, @nil Event).2) with (@nil Event).
  set (s := foldl _ _ polls) in *. destruct Hr as (cur & Hk & Hs). split_and!; [done|by eexists|].
  unfold poll_view. rewrite bool_decide_eq_true_2 by done. unfold markMissing. rewrite Hk, Hs.
  rewrite (proj2 (Z.ltb_lt _ _) Hlt). by destruct (v_State p.2).
Qed.

(** Derived values are consistent: what the client reported is kept, nothing but the rate and
    the estimate changes, and an estimate the gateway derives is the remaining bytes divided by
    the rate, rounded down and never negative. *)
Lemma fillDerived_bounds now v prevBytes prevAt :
  (0 ≤ v_BytesDone v)%Z → (v_BytesTotal v < 2 ^ 63)%Z →
  let v' := fillDerived now v prevBytes prevAt in
  ((0 < v_SpeedBps v)%Z → v_SpeedBps v' = v_SpeedBps v) ∧
  ((0 ≤ v_EtaSec v)%Z → v_EtaSec v' = v_EtaSec v) ∧
  ((v_EtaSec v < 0)%Z → (0 < v_SpeedBps v')%Z → (v_BytesDone v < v_BytesTotal v)%Z →
     v_EtaSec v' = ((v_BytesTotal v - v_BytesDone v) / v_SpeedBps v')%Z ∧
     (0 ≤ v_EtaSec v' < 2 ^ 63)%Z) ∧
  set_rate (v_SpeedBps v) (v_EtaSec v) v' = v.
Proof.
  intros Hd Ht. cbn zeta. unfold fillDerived. cbn [v_SpeedBps v_EtaSec set_rate].
  set (speed := match prevAt with Some _ => _ | None => _ end).
  split_and!.
  - intros Hs. subst speed. destruct prevAt; [|done]. by rewrite (proj2 (Z.leb_gt _ _) Hs).
  - intros He. by rewrite (proj2 (Z.ltb_ge _ _) He).
  - intros He Hs Hlt. rewrite (proj2 (Z.ltb_lt _ _) He), (proj2 (Z.ltb_lt _ _) Hs), (proj2 (Z.ltb_lt _ _) Hlt).
    cbn [andb]. unfold go_div. rewrite (int64_id (v_BytesTotal v - v_BytesDone v)).
    2:{ unfold fits. lia. }
    rewrite Z.quot_div_nonneg by lia.
    assert (Hq : (0 ≤ (v_BytesTotal v - v_BytesDone v) / speed < 2 ^ 63)%Z).
    { split; [apply Z.div_pos; lia|]. apply Z.div_lt_upper_bound; [lia|]. nia. }
    rewrite int64_id; [done|]. unfold fits. lia.
  - by destruct v.
Qed.

(** The event's estimate is a 32-bit integer and is converted without a check: an estimate of
    2^31 seconds or more does not survive, and some come out negative, the value consumers are
    told never to see. *)
Lemma optInt32_wraps v :
  (0 ≤ v < 2 ^ 63)%Z →
  (optInt32 v = Some v ↔ (v < 2 ^ 31)%Z) ∧ optInt32 (2 ^ 31) = Some (- 2 ^ 31)%Z.
Proof.
  intros Hv. split; [|reflexivity]. unfold optInt32. rewrite (proj2 (Z.ltb_ge v 0)) by lia. split.
  - intros [= E]. pose proof (int32_fits v) as Hf. rewrite E in Hf. unfold fits in Hf. lia.
  - intros Hlt. f_equal. apply int32_id. unfold fits. lia.
Qed.

(** C36: derived and published values: what the client reported is kept, nothing but the rate and
    the estimate changes, and an estimate the gateway derives is the remaining bytes divided by the
    rate, rounded down and never negative; but an event carries its estimate as a 32-bit integer, converted without
    a check: one of 2^31 seconds or more does not survive, and some come out negative, the
    value consumers are told never to see.  A percentage is always a finite number, and everything a poll publishes of
    a view whose numbers are of their types fits the fields of its event, so that it is published as it is. *)
Theorem derived_bounds now v prevBytes prevAt :
  (0 ≤ v_BytesDone v)%Z → (v_BytesTotal v < 2 ^ 63)%Z →
  let v' := fillDerived now v prevBytes prevAt in
  (((0 < v_SpeedBps v)%Z → v_SpeedBps v' = v_SpeedBps v) ∧
   ((0 ≤ v_EtaSec v)%Z → v_EtaSec v' = v_EtaSec v) ∧
   ((v_EtaSec v < 0)%Z → (0 < v_SpeedBps v')%Z → (v_BytesDone v < v_BytesTotal v)%Z →
      v_EtaSec v' = ((v_BytesTotal v - v_BytesDone v) / v_SpeedBps v')%Z ∧
      (0 ≤ v_EtaSec v' < 2 ^ 63)%Z) ∧
   set_rate (v_SpeedBps v) (v_EtaSec v) v' = v) ∧
  ((∀ eta, (0 ≤ eta < 2 ^ 63)%Z → optInt32 eta = Some eta ↔ (eta < 2 ^ 31)%Z) ∧ optInt32 (2 ^ 31) = Some (- 2 ^ 31)%Z) ∧
  (∀ done_ total, fits64 done_ → fits64 total → float_finite (pct done_ total) = true) ∧
  ((∀ f, fits64 (float_out_of_range f)) →
   ∀ clk job view table at_, view_ok view → fits64 at_ → Forall (λ ev, event_ok (stamped at_ ev)) (poll_view clk job view table).2).
Proof.
  intros Hd Ht. split; [by apply fillDerived_bounds|]. split; [split; [intros eta He; by apply optInt32_wraps|apply (optInt32_wraps 0); lia]|].
  split; [exact pct_finite|exact poll_events_ok].
Qed.
End grace.

Section once.
Context {A W : Type} `{ClientFactory A} `{AdapterOps A W} `{FloatConv}.

(** C5: the end of a job is announced at most once.  Over any number of ticks of the poll loop, each
    visiting its snapshot in any order, with jobs removed and the registry changed in between and
    none tracked anew, no job's completion or failure is published twice, only jobs that were
    tracked are announced, and each announced job is no longer tracked at the end.  Every poll a client answers
    publishes exactly one event about the polled job; it announces the job's end exactly when the client says
    completed or failed, or has not known the job for longer than the grace window; then the job leaves the
    table, and otherwise stays; no other job's record changes. *)
Theorem terminal_once jobs evs jobs' :
  ticks (A := A) (W := W) jobs evs jobs' → wf_jobs jobs →
  (NoDup (ended evs) ∧ ∀ k, k ∈ ended evs → is_Some (jobs !! k) ∧ jobs' !! k = None) ∧
  ∀ clk job v table, poll_announces clk job v table.
Proof.
  intros Ht Hw. destruct (ticks_ended jobs evs jobs' Ht Hw) as (? & ? & _). split; [done|]. intros clk job v table.
  destruct (poll_view_event clk job v table) as (ev & ? & ? & ? & ? & ? & _). by exists ev.
Qed.
End once.

Section witnesses.
#[local] Instance demo_conv : FloatConv := λ _, (- 2 ^ 63)%Z.

#[local] Instance demo_client : ClientFactory string := {|
  Adapter_Name := λ a, a;
  buildClient := λ _ s, spec_Type s
|}.

(** A client that answers with the view the world holds. *)
#[local] Instance demo_ops : AdapterOps string JobView := {|
  Name := λ a, a;
  Add := λ _ _ w, (Ok "1", w);
  Status_ := λ _ _ w, (Ok (v_State w), w);
  Describe := λ _ _ w, (Ok w, w);
  Remove := λ _ _ w, (Ok tt, w);
  as_Controller := λ _, None;
  as_Reporter := λ _, None;
  as_Rehydrator := λ _, None;
  as_Prober := λ _, None
|}.

Definition demo_job : tracked :=
  MkTracked "nzbget" "nzbget" "1" "A title" "w-1" StatusQueued NewJobView 0 None None.

Definition demo_clock (t : Z) : Clock := MkClock t t t.

Definition demo_done : JobView :=
  MkJobView StatusCompleted "SUCCESS" EmptyString 10 10 0 (-1) ["/d/f"] EmptyString (-1) (-1) (-1).

Definition demo_reg : Registry string := NewRegistry [Some "nzbget"].

Lemma terminal_once_witness :
  let out := pollAll demo_reg [(demo_job, demo_clock 0)] (track demo_job ∅) demo_done in
  ended out.1.2 = ["nzbget:1"] ∧ out.1.1.2 !! "nzbget:1" = None.
Proof.
  assert (Ht : ticks (A := string) (W := JobView) (track demo_job ∅)
    ((pollAll demo_reg [(demo_job, demo_clock 0)] (track demo_job ∅) demo_done).1.2 ++ [])
    (pollAll demo_reg [(demo_job, demo_clock 0)] (track demo_job ∅) demo_done).1.1.2).
  { apply ticks_poll; [|apply ticks_nil].
    assert (E : snapshot (track demo_job ∅) = [demo_job]) by (vm_compute; reflexivity). by rewrite E. }
  destruct (terminal_once _ _ _ Ht) as [[_ Hk] _].
  { apply track_wf, map_Forall_empty. }
  split; [vm_compute; reflexivity|]. apply Hk. vm_compute. left.
Defined.

Lemma poll_grace_witness :
  (poll_view (demo_clock (lostAfter + 2)) demo_job NotFoundView
     (poll_run demo_job [(demo_clock 1, NotFoundView); (demo_clock 9, NotFoundView)] (track demo_job ∅)).1).2 =
  [failed_event demo_job "A title" "job is no longer known to nzbget"].
Proof.
  assert (Hv : missing_view NotFoundView) by (split_and!; [reflexivity|discriminate|discriminate]).
  destruct (poll_grace demo_job (track demo_job ∅) (demo_clock 1, NotFoundView) [(demo_clock 9, NotFoundView)]
    (demo_clock (lostAfter + 2), NotFoundView)) as (_ & _ & H).
  - exists demo_job. split; reflexivity.
  - apply List.Forall_cons; [exact Hv|]. apply List.Forall_cons; [exact Hv|apply List.Forall_nil].
  - exact Hv.
  - constructor; [|constructor]. vm_compute. discriminate.
  - vm_compute. reflexivity.
  - cbn [fst snd] in H. rewrite H. reflexivity.
Defined.

(** 1000 bytes in two seconds, 3000 to go. *)
Definition demo_view : JobView :=
  MkJobView StatusDownloading "DOWNLOADING" EmptyString 1000 4000 0 (-1) [] EmptyString (-1) (-1) (-1).

Lemma derived_bounds_witness :
  let v' := fillDerived (2 * Second) demo_view 0 (Some 0%Z) in
  v_SpeedBps v' = 500%Z ∧ v_EtaSec v' = 6%Z ∧ (0 ≤ v_EtaSec v' < 2 ^ 63)%Z ∧ optInt32 (2 ^ 31) = Some (- 2 ^ 31)%Z.
Proof.
  destruct (derived_bounds (2 * Second) demo_view 0 (Some 0%Z)) as ((_ & _ & H & _) & [_ Hw] & _).
  - vm_compute. discriminate.
  - vm_compute. reflexivity.
  - split_and!; [vm_compute; reflexivity|vm_compute; reflexivity|apply H; vm_compute; reflexivity..|exact Hw].
Defined.

Example pct_third : pct 1 3 = fmul (fdiv (float64 1) (float64 3)) (float64 100) ∧ pct 5 0 = S754_zero false ∧
  pct 50 200 = S754_finite false 7036874417766400 (-48).
Proof. vm_compute. split_and!; reflexivity. Qed.
End witnesses.
