(* ===== verification/System.v ===== *)
(** * The registry and the job table under concurrency

    The registry has its lock and the job table its own; a push ([Apply]) and a reaping hold the
    registry's lock for their whole run and ask the job table, client by client, whether a client is
    in use, while adds, polls and removals go on changing the table.  This file is the transition
    system of those interleavings: one step per critical section, except that the two walks over
    the registry take two steps per client, one that asks [hasJobs] and one that acts on the
    answer, so that anything may happen in between.

    A thread that adds or adopts ([handleAdd], [adopt]) is a holder: it leases its client, tracks
    jobs on it, and releases the lease.  [s_hold] maps such threads to the client they lease. *)

From S2P Require Import Prelude GoStrings Adapters Responses Clients Registry RegistrySpec Events Interfaces Jobs.

Section system.
Context {A : Type} `{ClientFactory A} `{Quote}.

(** ** States *)

(** What the holder of the registry's lock is doing: [order] is the order it walks the map in,
    [todo] what is left of it, [answers] what [hasJobs] answered so far, and [pending] its answer
    for the head of [todo] until it is acted on. *)
Inductive lock :=
  | Free
  | Sweeping (rev : Z) (specs : list ClientSpec) (order todo : list string) (sw : sweep_state (A := A))
      (answers : gmap string bool) (pending : option bool)
  | Reaping (order todo : list string) (m : gmap string (entry A) * list string)
      (answers : gmap string bool) (pending : option bool).

(** While the lock is held [s_reg] is the registry its holder found. *)
Record sys := MkSys {
  s_reg : Registry A;
  s_jobs : job_table;
  s_hold : gmap nat string;
  s_lock : lock
}.

(** The clients as they are in the registry's map at this moment. *)
Definition cur_clients (s : sys) : gmap string (entry A) :=
  match s_lock s with
  | Free => r_clients (s_reg s)
  | Sweeping _ _ _ _ sw _ _ => sw_clients sw
  | Reaping _ _ m _ _ => m.1
  end.

Definition with_jobs (jobs : job_table) (s : sys) : sys := MkSys (s_reg s) jobs (s_hold s) (s_lock s).
Definition with_lock (l : lock) (s : sys) : sys := MkSys (s_reg s) (s_jobs s) (s_hold s) l.

Definition sweep_keep (specs : list ClientSpec) (r : Registry A) : gset string := as_keep (apply_specs specs r).

(** The registry a push leaves behind when its walk ends in [sw]. *)
Definition apply_done (rev : Z) (specs : list ClientSpec) (sw : sweep_state (A := A)) (r : Registry A) : Registry A :=
  let st := apply_specs specs r in
  MkRegistry (sw_clients sw) (r_leases r) (match as_Errors st with [] => rev | _ => r_revision r end) (as_next st).

(** ** Steps *)

Inductive step : sys → sys → Prop :=
(* the job table's critical sections *)
| step_track s tid t :
    s_hold s !! tid = Some (t_adapter t) → step s (with_jobs (track t (s_jobs s)) s)
| step_adopt s tid t :
    s_hold s !! tid = Some (t_adapter t) → step s (with_jobs (trackIfAbsent t (s_jobs s)).2 s)
| step_untrack s a i : step s (with_jobs (untrack a i (s_jobs s)) s)
| step_observe s now job v : step s (with_jobs (observe now job v (s_jobs s)) s)
| step_mark s now job : step s (with_jobs (markMissing now job (s_jobs s)).2 s)
| step_clear s job : step s (with_jobs (clearMissing job (s_jobs s)) s)
(* leases *)
| step_lease s tid id c r' :
    s_lock s = Free → s_hold s !! tid = None → Lease id (s_reg s) = Ok (c, r') →
    step s (MkSys r' (s_jobs s) (<[tid := id]> (s_hold s)) Free)
| step_release s tid id :
    s_lock s = Free → s_hold s !! tid = Some id →
    step s (MkSys (release id (s_reg s)) (s_jobs s) (delete tid (s_hold s)) Free)
(* a push *)
| step_apply s rev specs order :
    s_lock s = Free → sweep_order specs (s_reg s) order →
    step s (with_lock (Sweeping rev specs order order
      (MkSweepState (as_clients (apply_specs specs (s_reg s))) [] []) ∅ None) s)
| step_sweep_ask s rev specs order id todo sw ans :
    s_lock s = Sweeping rev specs order (id :: todo) sw ans None →
    step s (with_lock (Sweeping rev specs order (id :: todo) sw ans (Some (hasJobs (s_jobs s) id))) s)
| step_sweep_act s rev specs order id todo sw ans b :
    s_lock s = Sweeping rev specs order (id :: todo) sw ans (Some b) →
    step s (with_lock (Sweeping rev specs order todo
      (sweep_one (r_leases (s_reg s)) (λ _, b) (sweep_keep specs (s_reg s)) sw id) (<[id := b]> ans) None) s)
| step_apply_end s rev specs order sw ans :
    s_lock s = Sweeping rev specs order [] sw ans None →
    step s (MkSys (apply_done rev specs sw (s_reg s)) (s_jobs s) (s_hold s) Free)
(* a reaping *)
| step_reap s order :
    s_lock s = Free → order ≡ₚ map_ids (r_clients (s_reg s)) →
    step s (with_lock (Reaping order order (r_clients (s_reg s), []) ∅ None) s)
| step_reap_ask s order id todo m ans :
    s_lock s = Reaping order (id :: todo) m ans None →
    step s (with_lock (Reaping order (id :: todo) m ans (Some (hasJobs (s_jobs s) id))) s)
| step_reap_act s order id todo m ans b :
    s_lock s = Reaping order (id :: todo) m ans (Some b) →
    step s (with_lock (Reaping order todo (reap_one (r_leases (s_reg s)) (λ _, b) m id) (<[id := b]> ans) None) s)
| step_reap_end s order m ans :
    s_lock s = Reaping order [] m ans None →
    step s (MkSys (with_clients m.1 (s_reg s)) (s_jobs s) (s_hold s) Free).

(** At boot: environment clients, whose ids hold no colon, no job and no thread. *)
Inductive boot_registry : Registry A → Prop :=
| boot_empty : boot_registry empty_registry
| boot_env spec ad r :
    boot_registry r →
    colon_free (if bool_decide (spec_ID spec = EmptyString) then Adapter_Name ad else spec_ID spec) →
    boot_registry (AddEnv spec ad r).

Inductive reachable : sys → Prop :=
| reach_boot r : boot_registry r → reachable (MkSys r ∅ ∅ Free)
| reach_step s s' : reachable s → step s s' → reachable s'.

(** ** Counting holders *)

Definition holders (hold : gmap nat string) (id : string) : nat :=
  length (filter (λ th, th.2 = id) (map_to_list hold)).

Lemma holders_insert hold tid id id' :
  hold !! tid = None → holders (<[tid := id]> hold) id' = (holders hold id' + if decide (id = id') then 1 else 0)%nat.
Proof.
  intros Hn. unfold holders. rewrite (map_to_list_insert _ _ _ Hn), filter_cons. cbn [snd].
  destruct (decide (id = id')); cbn [length]; lia.
Qed.

Lemma holders_delete hold tid id id' :
  hold !! tid = Some id → holders hold id' = (holders (delete tid hold) id' + if decide (id = id') then 1 else 0)%nat.
Proof.
  intros Hs. rewrite <- (holders_insert (delete tid hold) tid id id') by apply lookup_delete_eq.
  by rewrite insert_delete_id.
Qed.

Lemma holders_pos hold tid id : hold !! tid = Some id → (0 < holders hold id)%nat.
Proof. intros Hs. rewrite (holders_delete _ _ _ _ Hs), decide_True by done. lia. Qed.

(** ** The invariant *)

(** The walk has read that no job is tracked on the client it is about to act on. *)
Definition head_unused (s : sys) : Prop :=
  match s_lock s with
  | Sweeping _ _ _ (id :: _) _ _ (Some false) | Reaping _ (id :: _) _ _ (Some false) =>
      holders (s_hold s) id = 0%nat → hasJobs (s_jobs s) id = false
  | _ => True
  end.

Record inv (s : sys) : Prop := {
  inv_wf : wf_jobs (s_jobs s);
  inv_jobs k t : s_jobs s !! k = Some t → is_Some (cur_clients s !! t_adapter t);
  inv_hold tid id : s_hold s !! tid = Some id → is_Some (cur_clients s !! id);
  inv_leases id : leases_of id (s_reg s) = Z.of_nat (holders (s_hold s) id);
  inv_ids id : is_Some (cur_clients s !! id) → colon_free id;
  inv_head : head_unused s
}.

(** *** The job table's steps *)

(** Every job of [jobs'] was tracked on its client before, or its client is leased. *)
Definition backed (s : sys) (jobs' : job_table) : Prop :=
  ∀ k t', jobs' !! k = Some t' →
    (∃ t, s_jobs s !! k = Some t ∧ t_adapter t = t_adapter t') ∨ (∃ tid, s_hold s !! tid = Some (t_adapter t')).

Lemma backed_unused s jobs' id :
  backed s jobs' → holders (s_hold s) id = 0%nat → hasJobs (s_jobs s) id = false → hasJobs jobs' id = false.
Proof.
  rewrite !hasJobs_false. intros Hb Hh Hn k t' Hk Ha. destruct (Hb k t' Hk) as [(t & Ht & E)|(tid & Ht)].
  - apply (Hn k t Ht). congruence.
  - apply holders_pos in Ht. rewrite Ha in Ht. lia.
Qed.

Lemma inv_with_jobs s jobs' : inv s → wf_jobs jobs' → backed s jobs' → inv (with_jobs jobs' s).
Proof.
  intros [Hw Hj Hh Hl Hi Hd] Hw' Hb. constructor; cbn; try done.
  - intros k t' Hk. destruct (Hb k t' Hk) as [(t & Ht & <-)|(tid & Ht)]; [by eapply Hj|by eapply Hh].
  - unfold head_unused in *. cbn. destruct (s_lock s) as [|? ? ? [|id ?] ? ? [[]|]|? [|id ?] ? ? [[]|]]; try done;
      intros Hz; by apply (backed_unused s), Hd.
Qed.

Lemma backed_same k s jobs' :
  same_but k (s_jobs s) jobs' → (∀ t t', s_jobs s !! k = Some t → jobs' !! k = Some t' → t_adapter t = t_adapter t') →
  backed s jobs'.
Proof.
  intros [Hs Hk] Ha k' t' Ht'. left. destruct (decide (k' = k)) as [->|Hne].
  - destruct (proj1 Hk ltac:(by eexists)) as [t Ht]. exists t. split; [done|]. by apply Ha.
  - exists t'. by rewrite <- (Hs k' Hne).
Qed.

Lemma backed_track s tid t : s_hold s !! tid = Some (t_adapter t) → backed s (track t (s_jobs s)).
Proof.
  intros Ht k t'. unfold track. rewrite lookup_insert_Some. intros [[_ <-]|[_ Hk]]; [right; by exists tid|].
  left. by exists t'.
Qed.

Lemma backed_adopt s tid t : s_hold s !! tid = Some (t_adapter t) → backed s (trackIfAbsent t (s_jobs s)).2.
Proof.
  intros Ht. unfold trackIfAbsent. destruct (s_jobs s !! job_key t) eqn:E; [|by eapply backed_track].
  intros k t' Hk. left. by exists t'.
Qed.

Lemma backed_untrack s a i : backed s (untrack a i (s_jobs s)).
Proof. intros k t'. unfold untrack. rewrite lookup_delete_Some. intros [_ Hk]. left. by exists t'. Qed.

Lemma backed_update s job (f : tracked → tracked) cur :
  s_jobs s !! job_key job = Some cur → (∀ t, t_adapter (f t) = t_adapter t) →
  backed s (<[job_key job := f cur]> (s_jobs s)).
Proof.
  intros Hc Hf. apply (backed_same (job_key job)); [by eapply same_but_insert|].
  intros t t'. rewrite lookup_insert_eq. intros Ht [= <-]. rewrite Hf. congruence.
Qed.

Lemma backed_refl s : backed s (s_jobs s).
Proof. intros k t Ht. left. by exists t. Qed.

Lemma backed_observe s now job v : backed s (observe now job v (s_jobs s)).
Proof.
  unfold observe. destruct (s_jobs s !! job_key job) eqn:E; [|apply backed_refl].
  by apply (backed_update s job (set_observed v now)).
Qed.

Lemma backed_mark s now job : backed s (markMissing now job (s_jobs s)).2.
Proof.
  unfold markMissing. destruct (s_jobs s !! job_key job) as [cur|] eqn:E; [|apply backed_refl].
  destruct (t_missingSince cur); [apply backed_refl|]. by apply (backed_update s job (set_missingSince (Some now))).
Qed.

Lemma backed_clear s job : backed s (clearMissing job (s_jobs s)).
Proof.
  unfold clearMissing. destruct (s_jobs s !! job_key job) eqn:E; [|apply backed_refl].
  by apply (backed_update s job (set_missingSince None)).
Qed.

(** *** The walks *)

Lemma apply_specs_dom specs (r : Registry A) id :
  is_Some (r_clients r !! id) → is_Some (as_clients (apply_specs specs r) !! id).
Proof.
  intros Hs. pose proof (apply_specs_inv specs r) as HI.
  destruct (decision specs (r_clients r !! id) id) as [[spec|msg]|] eqn:Hd.
  - destruct (li_ok _ _ _ _ HI _ _ (decision_Some _ _ _ _ Hd) Hd) as ((e & -> & _) & _). by eexists.
  - by destruct (li_err _ _ _ _ HI _ _ (decision_Some _ _ _ _ Hd) Hd) as (-> & _).
  - apply decision_None in Hd. by destruct (li_fresh _ _ _ _ HI _ Hd) as (-> & _).
Qed.

Lemma ValidClientID_colon_free id : ValidClientID id = true → colon_free id.
Proof.
  unfold ValidClientID, colon_free. destruct (chars id) as [|c l]; [done|]. intros Hv.
  assert (Hall : forallb (λ c, id_char c || (byte c =? 0x2D)%Z) (c :: l) = true).
  { bool_to_prop. cbn [forallb]. apply andb_true_iff. split; [apply orb_true_iff; by left|done]. }
  intros Hin. rewrite forallb_forall in Hall. apply list_elem_of_In, Hall in Hin. by vm_compute in Hin.
Qed.

Lemma apply_specs_ids specs (r : Registry A) id :
  is_Some (as_clients (apply_specs specs r) !! id) → is_Some (r_clients r !! id) ∨ colon_free id.
Proof.
  intros Hs. pose proof (apply_specs_inv specs r) as HI.
  destruct (decision specs (r_clients r !! id) id) as [[spec|msg]|] eqn:Hd.
  - right. apply decision_Ok_inv in Hd as (raw & _ & _ & _ & Hv & _). by apply ValidClientID_colon_free.
  - left. by destruct (li_err _ _ _ _ HI _ _ (decision_Some _ _ _ _ Hd) Hd) as (<- & _).
  - left. apply decision_None in Hd. by destruct (li_fresh _ _ _ _ HI _ Hd) as (<- & _).
Qed.

(** One client of the push's walk: only an unused one disappears, and none appears. *)
Lemma sweep_one_dom leases b keep (sw : sweep_state (A := A)) id i :
  is_Some (sw_clients sw !! i) → (i = id → (0 < default 0%Z (leases !! id))%Z ∨ b = true) →
  is_Some (sw_clients (sweep_one leases (λ _, b) keep sw id) !! i).
Proof.
  intros Hs Hu. destruct sw as [m d rm]. destruct (sweep_one_spec leases (λ _, b) keep m d rm id) as (Hm & _).
  rewrite Hm. case_decide as Hi; [|done]. subst i. destruct Hs as [e He]. cbn in He. rewrite He. simpl.
  unfold sweep_entry. destruct (removable keep id e); [|by eexists].
  unfold in_use. destruct (Hu eq_refl) as [Hl| ->]; [|rewrite orb_true_r; by eexists].
  rewrite (proj2 (Z.ltb_lt _ _) Hl). by eexists.
Qed.

Lemma sweep_one_sub leases b keep (sw : sweep_state (A := A)) id i :
  is_Some (sw_clients (sweep_one leases (λ _, b) keep sw id) !! i) → is_Some (sw_clients sw !! i).
Proof.
  destruct sw as [m d rm]. destruct (sweep_one_spec leases (λ _, b) keep m d rm id) as (Hm & _).
  rewrite Hm. case_decide as Hi; [|done]. subst i. cbn. destruct (m !! id); [by eexists|]. by intros [? ?].
Qed.

Lemma reap_one_dom leases b (m : gmap string (entry A) * list string) id i :
  is_Some (m.1 !! i) → (i = id → (0 < default 0%Z (leases !! id))%Z ∨ b = true) →
  is_Some ((reap_one leases (λ _, b) m id).1 !! i).
Proof.
  intros Hs Hu. unfold reap_one. destruct (m.1 !! id) as [e|] eqn:E; [|done].
  destruct (_ || _) eqn:Eu; [done|]. cbn. rewrite lookup_delete_ne; [done|]. intros ->.
  unfold in_use in Eu. bool_to_prop. destruct (Hu eq_refl) as [Hl|Hb]; [lia|congruence].
Qed.

Lemma reap_one_sub leases b (m : gmap string (entry A) * list string) id i :
  is_Some ((reap_one leases (λ _, b) m id).1 !! i) → is_Some (m.1 !! i).
Proof.
  unfold reap_one. destruct (m.1 !! id); [|done]. destruct (_ || _); [done|]. cbn.
  intros [x Hx]. apply lookup_delete_Some in Hx as [_ Hx]. by eexists.
Qed.

(** A step of a walk that keeps every client with a holder or a tracked job. *)
Lemma inv_walk s l m' :
  inv s → cur_clients (with_lock l s) = m' → head_unused (with_lock l s) →
  (∀ i, is_Some (m' !! i) → is_Some (cur_clients s !! i) ∨ colon_free i) →
  (∀ i, is_Some (cur_clients s !! i) → (∃ tid, s_hold s !! tid = Some i) ∨ hasJobs (s_jobs s) i = true → is_Some (m' !! i)) →
  inv (with_lock l s).
Proof.
  intros [Hw Hj Hh Hl Hi Hd] Hm Hhead Hsub Hkeep. constructor; try done.
  - intros k t Hk. rewrite Hm. apply Hkeep; [by eapply Hj|]. right. apply hasJobs_spec. by exists k, t.
  - intros tid id Ht. rewrite Hm. apply Hkeep; [by eapply Hh|]. left. by exists tid.
  - intros id. rewrite Hm. intros Hs. destruct (Hsub id Hs); [by apply Hi|done].
Qed.

(** The client the walk acts on is in use if it has a holder or a job. *)
Lemma head_used s id b :
  inv s → (b = false → holders (s_hold s) id = 0%nat → hasJobs (s_jobs s) id = false) →
  (∃ tid, s_hold s !! tid = Some id) ∨ hasJobs (s_jobs s) id = true →
  (0 < default 0%Z (r_leases (s_reg s) !! id))%Z ∨ b = true.
Proof.
  intros HI Hb Hu. destruct b; [by right|left]. pose proof (inv_leases _ HI id) as Hl. unfold leases_of in Hl.
  rewrite Hl. destruct Hu as [[tid Ht]|Ht]; [apply holders_pos in Ht; lia|].
  destruct (holders (s_hold s) id) eqn:E; [|lia]. rewrite (Hb eq_refl eq_refl) in Ht. done.
Qed.

Lemma inv_apply s rev specs order :
  inv s → s_lock s = Free →
  inv (with_lock (Sweeping rev specs order order
      (MkSweepState (as_clients (apply_specs specs (s_reg s))) [] []) ∅ None) s).
Proof.
  intros HI Hf. assert (Hc : cur_clients s = r_clients (s_reg s)) by (unfold cur_clients; by rewrite Hf).
  eapply inv_walk; [done|reflexivity| | |].
  - unfold head_unused. cbn. by destruct order.
  - intros i. cbn. rewrite Hc. apply apply_specs_ids.
  - intros i. cbn. rewrite Hc. intros Hs _. by apply apply_specs_dom.
Qed.

Lemma inv_sweep_act s rev specs order id todo sw ans b :
  inv s → s_lock s = Sweeping rev specs order (id :: todo) sw ans (Some b) →
  inv (with_lock (Sweeping rev specs order todo
      (sweep_one (r_leases (s_reg s)) (λ _, b) (sweep_keep specs (s_reg s)) sw id) (<[id := b]> ans) None) s).
Proof.
  intros HI Hl. assert (Hc : cur_clients s = sw_clients sw) by (unfold cur_clients; by rewrite Hl).
  pose proof (inv_head _ HI) as Hd. unfold head_unused in Hd. rewrite Hl in Hd.
  eapply inv_walk; [done|reflexivity| | |].
  - unfold head_unused. cbn. by destruct todo.
  - intros i. cbn. rewrite Hc. intros Hs. left. by eapply sweep_one_sub.
  - intros i. cbn. rewrite Hc. intros Hs Hu. apply sweep_one_dom; [done|]. intros ->.
    apply head_used; [done| |done]. by intros ->.
Qed.

Lemma inv_reap_act s order id todo m ans b :
  inv s → s_lock s = Reaping order (id :: todo) m ans (Some b) →
  inv (with_lock (Reaping order todo (reap_one (r_leases (s_reg s)) (λ _, b) m id) (<[id := b]> ans) None) s).
Proof.
  intros HI Hl. assert (Hc : cur_clients s = m.1) by (unfold cur_clients; by rewrite Hl).
  pose proof (inv_head _ HI) as Hd. unfold head_unused in Hd. rewrite Hl in Hd.
  eapply inv_walk; [done|reflexivity| | |].
  - unfold head_unused. cbn. by destruct todo.
  - intros i. cbn. rewrite Hc. intros Hs. left. by eapply reap_one_sub.
  - intros i. cbn. rewrite Hc. intros Hs Hu. apply reap_one_dom; [done|]. intros ->.
    apply head_used; [done| |done]. by intros ->.
Qed.

(** Asking [hasJobs] moves nothing. *)
Lemma inv_ask s l :
  inv s → cur_clients (with_lock l s) = cur_clients s → head_unused (with_lock l s) → inv (with_lock l s).
Proof. intros HI Hc Hh. eapply inv_walk; [done|exact Hc|done|by left|done]. Qed.

Lemma inv_lease s tid id c r' :
  inv s → s_lock s = Free → s_hold s !! tid = None → Lease id (s_reg s) = Ok (c, r') →
  inv (MkSys r' (s_jobs s) (<[tid := id]> (s_hold s)) Free).
Proof.
  intros [Hw Hj Hh Hl Hi Hd] Hf Hn HL. unfold cur_clients in *. rewrite Hf in *. unfold Lease in HL.
  destruct (r_clients (s_reg s) !! id) as [e|] eqn:E; [|done]. destruct (e_draining e); [done|].
  injection HL as _ <-. constructor; cbn; try done.
  - intros tid' id'. rewrite lookup_insert_Some. intros [[_ <-]|[_ Ht]]; [by exists e|by eapply Hh].
  - intros id'. rewrite (holders_insert _ _ _ _ Hn). unfold leases_of in *. cbn [with_leases r_leases].
    destruct (decide (id = id')) as [<-|Hne].
    + rewrite lookup_insert_eq. cbn [default]. unfold Datatypes.id, leases_of. rewrite Hl. lia.
    + rewrite lookup_insert_ne by done. rewrite Hl. lia.
Qed.

Lemma release_leases id id' (r : Registry A) (n : nat) :
  leases_of id r = Z.of_nat (S n) → leases_of id' (release id r) = (leases_of id' r - if decide (id = id') then 1 else 0)%Z.
Proof.
  intros Hn. unfold release. cbn zeta. rewrite Hn. unfold leases_of in *.
  destruct (decide (id = id')) as [<-|Hne].
  - destruct (_ <=? 0)%Z eqn:E; cbn [with_leases r_leases].
    + rewrite lookup_delete_eq, Hn. apply Z.leb_le in E. cbn [from_option]. lia.
    + rewrite lookup_insert_eq, Hn. cbn [from_option]. unfold Datatypes.id. lia.
  - destruct (_ <=? 0)%Z; cbn [with_leases r_leases]; rewrite ?lookup_delete_ne, ?lookup_insert_ne by done; lia.
Qed.

Lemma inv_release s tid id :
  inv s → s_lock s = Free → s_hold s !! tid = Some id →
  inv (MkSys (release id (s_reg s)) (s_jobs s) (delete tid (s_hold s)) Free).
Proof.
  intros [Hw Hj Hh Hl Hi Hd] Hf Hs. unfold cur_clients in *. rewrite Hf in *.
  constructor; cbn; try done.
  - intros tid' id'. rewrite lookup_delete_Some. intros [_ Ht]. by eapply Hh.
  - intros id'. pose proof (holders_delete _ _ _ id Hs) as Hc. rewrite decide_True in Hc by done.
    rewrite (release_leases id id' (s_reg s) (holders (delete tid (s_hold s)) id)).
    2:{ rewrite Hl, Hc. f_equal. lia. }
    rewrite Hl, (holders_delete _ _ _ id' Hs). destruct (decide (id = id')); lia.
Qed.

(** The end of a walk changes no client. *)
Lemma inv_end s (r' : Registry A) :
  inv s → r_clients r' = cur_clients s → r_leases r' = r_leases (s_reg s) →
  inv (MkSys r' (s_jobs s) (s_hold s) Free).
Proof.
  intros [Hw Hj Hh Hl Hi Hd] Hc Hr. constructor; unfold cur_clients at 1 || idtac; cbn; rewrite ?Hc; try done.
  intros id. unfold leases_of in *. by rewrite Hr.
Qed.

Lemma inv_step s s' : inv s → step s s' → inv s'.
Proof.
  intros HI Hst. pose proof (inv_wf _ HI) as Hw. destruct Hst.
  - apply inv_with_jobs; [done|by apply track_wf|by eapply backed_track].
  - apply inv_with_jobs; [done|by apply trackIfAbsent_wf|by eapply backed_adopt].
  - apply inv_with_jobs; [done|by apply untrack_wf|apply backed_untrack].
  - apply inv_with_jobs; [done|by apply observe_wf|apply backed_observe].
  - apply inv_with_jobs; [done|by apply markMissing_wf|apply backed_mark].
  - apply inv_with_jobs; [done|by apply clearMissing_wf|apply backed_clear].
  - by eapply inv_lease.
  - by eapply inv_release.
  - by apply inv_apply.
  - apply inv_ask; [done|unfold cur_clients; cbn; by rewrite H1|]. unfold head_unused. cbn.
    by destruct (hasJobs (s_jobs s) id).
  - by apply inv_sweep_act.
  - apply inv_end; [done|unfold cur_clients; by rewrite H1|done].
  - apply inv_ask; [done|unfold cur_clients; cbn; by rewrite H1|]. unfold head_unused. cbn. by destruct order.
  - apply inv_ask; [done|unfold cur_clients; cbn; by rewrite H1|]. unfold head_unused. cbn.
    by destruct (hasJobs (s_jobs s) id).
  - by apply inv_reap_act.
  - apply inv_end; [done|unfold cur_clients; by rewrite H1|done].
Qed.

Lemma boot_ids (r : Registry A) : boot_registry r → r_leases r = ∅ ∧ ∀ id, is_Some (r_clients r !! id) → colon_free id.
Proof.
  induction 1 as [|spec ad r _ [IH1 IH2] Hc]; [split; [done|]; intros id; cbn; by rewrite lookup_empty; intros [? ?]|].
  split; [done|]. intros id. unfold AddEnv. cbn [with_clients r_clients]. intros [e He].
  apply lookup_insert_Some in He as [[<- _]|[_ He]]; [done|]. apply IH2. by eexists.
Qed.

Lemma reachable_inv s : reachable s → inv s.
Proof.
  induction 1 as [r Hb|s s' _ IH Hst]; [|by eapply inv_step]. destruct (boot_ids r Hb) as [Hl Hi].
  constructor; cbn; try done.
  intros id. unfold leases_of. by rewrite Hl.
Qed.

(** ** The walks implement [Apply] and [Reap] *)

(** What [hasJobs] answered the walk. *)
Definition answer (ans : gmap string bool) (id : string) : bool := default false (ans !! id).

Lemma sweep_one_answer leases f g keep (sw : sweep_state (A := A)) id :
  f id = g id → sweep_one leases f keep sw id = sweep_one leases g keep sw id.
Proof. intros E. unfold sweep_one, in_use. by rewrite E. Qed.

Lemma reap_one_answer leases f g (m : gmap string (entry A) * list string) id :
  f id = g id → reap_one leases f m id = reap_one leases g m id.
Proof. intros E. unfold reap_one, in_use. by rewrite E. Qed.

Lemma sweep_answers leases keep ans id b l (sw : sweep_state (A := A)) :
  id ∉ l → foldl (sweep_one leases (answer (<[id := b]> ans)) keep) sw l = foldl (sweep_one leases (answer ans) keep) sw l.
Proof.
  revert sw. induction l as [|x l IH]; intros sw Hn; [done|]. apply not_elem_of_cons in Hn as [Hne Hn].
  cbn [foldl]. rewrite IH by done. f_equal. apply sweep_one_answer. unfold answer. by rewrite lookup_insert_ne.
Qed.

Lemma reap_answers leases ans id b l (m : gmap string (entry A) * list string) :
  id ∉ l → foldl (reap_one leases (answer (<[id := b]> ans))) m l = foldl (reap_one leases (answer ans)) m l.
Proof.
  revert m. induction l as [|x l IH]; intros m Hn; [done|]. apply not_elem_of_cons in Hn as [Hne Hn].
  cbn [foldl]. rewrite IH by done. f_equal. apply reap_one_answer. unfold answer. by rewrite lookup_insert_ne.
Qed.

(** The walk so far is the walk of [Apply] or [Reap] with the answers so far. *)
Definition walk_inv (s : sys) : Prop :=
  match s_lock s with
  | Free => True
  | Sweeping _ specs order todo sw ans _ =>
      sweep_order specs (s_reg s) order ∧ ∃ done_, order = done_ ++ todo ∧
        sw = sweep (r_leases (s_reg s)) (answer ans) (sweep_keep specs (s_reg s)) done_ (as_clients (apply_specs specs (s_reg s)))
  | Reaping order todo m ans _ =>
      order ≡ₚ map_ids (r_clients (s_reg s)) ∧ ∃ done_, order = done_ ++ todo ∧
        m = foldl (reap_one (r_leases (s_reg s)) (answer ans)) (r_clients (s_reg s), []) done_
  end.

Lemma walk_step s s' : walk_inv s → step s s' → walk_inv s'.
Proof.
  intros HW Hst. destruct Hst; unfold walk_inv in *; cbn; try done;
    match goal with Hl : s_lock ?s = _ |- _ => try rewrite Hl in HW end; try done.
  - split; [done|]. by exists [].
  - destruct HW as (Ho & done_ & Hd & Hsw). split; [done|]. exists (done_ ++ [id]).
    split; [by rewrite <- app_assoc|].
    assert (Hn : id ∉ done_).
    { apply sweep_order_NoDup in Ho. rewrite Hd in Ho. apply NoDup_app in Ho as (_ & Ho & _).
      intros Hin. apply (Ho id Hin). by left. }
    unfold sweep. rewrite foldl_app. cbn [foldl]. rewrite sweep_answers by done.
    rewrite Hsw. unfold sweep. apply sweep_one_answer. unfold answer. by rewrite lookup_insert_eq.
  - split; [done|]. by exists [].
  - destruct HW as (Ho & done_ & Hd & Hm). split; [done|]. exists (done_ ++ [id]).
    split; [by rewrite <- app_assoc|].
    assert (Hn : id ∉ done_).
    { assert (Hnd : NoDup order) by (rewrite Ho; apply map_ids_NoDup). rewrite Hd in Hnd.
      apply NoDup_app in Hnd as (_ & Hnd & _). intros Hin. apply (Hnd id Hin). by left. }
    rewrite foldl_app. cbn [foldl]. rewrite reap_answers by done.
    rewrite Hm. apply reap_one_answer. unfold answer. by rewrite lookup_insert_eq.
Qed.

Lemma reachable_walk s : reachable s → walk_inv s.
Proof. induction 1; [done|by eapply walk_step]. Qed.

(** A pending answer is about a client the walk has still to act on. *)
Definition pending_inv (s : sys) : Prop :=
  match s_lock s with
  | Free => True
  | Sweeping _ _ _ todo _ _ p | Reaping _ todo _ _ p => todo = [] → p = None
  end.

Lemma pending_step s s' : pending_inv s → step s s' → pending_inv s'.
Proof.
  intros HP Hst. destruct Hst; unfold pending_inv in *; cbn; try done;
    match goal with Hl : s_lock ?s = _ |- _ => try rewrite Hl in HP end; done.
Qed.

Lemma reachable_pending s : reachable s → pending_inv s.
Proof. induction 1; [done|by eapply pending_step]. Qed.

(** Left alone, the holder of the lock finishes its walk. *)
Definition finishes (s : sys) : Prop :=
  ∃ s', rtc step s s' ∧ s_lock s' = Free ∧ s_jobs s' = s_jobs s ∧ s_hold s' = s_hold s.

Lemma finishes_step s s1 : step s s1 → s_jobs s1 = s_jobs s → s_hold s1 = s_hold s → finishes s1 → finishes s.
Proof.
  intros Hst Hj Hh (s' & Hr & Hf & Hj' & Hh'). exists s'. split_and!; [|done|congruence|congruence].
  by eapply rtc_l.
Qed.

Lemma sweeping_finishes rev specs order todo : ∀ s sw ans p,
  s_lock s = Sweeping rev specs order todo sw ans p → (todo = [] → p = None) → finishes s.
Proof.
  induction todo as [|id todo IH]; intros s sw ans p Hl Hp.
  - rewrite (Hp eq_refl) in Hl. eapply finishes_step; [by eapply step_apply_end|done|done|].
    eexists. split; [apply rtc_refl|done].
  - assert (Hact : ∀ s b, s_lock s = Sweeping rev specs order (id :: todo) sw ans (Some b) → finishes s).
    { intros s0 b Hl0. eapply finishes_step; [by eapply step_sweep_act|done|done|].
      eapply IH; [reflexivity|done]. }
    destruct p as [b|]; [by eapply Hact|].
    eapply finishes_step; [by eapply step_sweep_ask|done|done|]. by eapply Hact.
Qed.

Lemma reaping_finishes order todo : ∀ s m ans p,
  s_lock s = Reaping order todo m ans p → (todo = [] → p = None) → finishes s.
Proof.
  induction todo as [|id todo IH]; intros s m ans p Hl Hp.
  - rewrite (Hp eq_refl) in Hl. eapply finishes_step; [by eapply step_reap_end|done|done|].
    eexists. split; [apply rtc_refl|done].
  - assert (Hact : ∀ s b, s_lock s = Reaping order (id :: todo) m ans (Some b) → finishes s).
    { intros s0 b Hl0. eapply finishes_step; [by eapply step_reap_act|done|done|].
      eapply IH; [reflexivity|done]. }
    destruct p as [b|]; [by eapply Hact|].
    eapply finishes_step; [by eapply step_reap_ask|done|done|]. by eapply Hact.
Qed.

(** A finished walk is one call of [Apply] or of [Reap]. *)
Definition one_call (r r' : Registry A) : Prop :=
  (∃ order rev specs inUse, sweep_order specs r order ∧ r' = (Apply_in order rev specs inUse r).1) ∨
  (∃ order inUse, order ≡ₚ map_ids (r_clients r) ∧ r' = (Reap_in order inUse r).1).

Lemma walk_end s s' :
  walk_inv s → step s s' → s_lock s ≠ Free → s_lock s' = Free → one_call (s_reg s) (s_reg s').
Proof.
  intros HW Hst Hn Hf. destruct Hst; cbn in *; try congruence; unfold walk_inv in HW;
    match goal with Hl : s_lock ?s = _ |- _ => rewrite Hl in HW end.
  - left. destruct HW as (Ho & done_ & Hd & ->). rewrite app_nil_r in Hd. subst done_.
    by exists order, rev, specs, (answer ans).
  - right. destruct HW as (Ho & done_ & Hd & ->). rewrite app_nil_r in Hd. subst done_.
    by exists order, (answer ans).
Qed.

Lemma one_call_wf r r' : one_call r r' → wf_registry r → wf_registry r'.
Proof.
  intros [(order & rev & specs & inUse & Ho & ->)|(order & inUse & Ho & ->)] Hw; [by apply Apply_in_wf|].
  apply Reap_in_wf; [rewrite Ho; apply map_ids_NoDup|done].
Qed.

Lemma boot_wf (r : Registry A) : boot_registry r → wf_registry r.
Proof. induction 1; [apply (NewRegistry_wf [])|by apply AddEnv_wf]. Qed.

Lemma step_registry s s' :
  walk_inv s → step s s' →
  s_reg s' = s_reg s ∨ (∃ id c, Lease id (s_reg s) = Ok (c, s_reg s')) ∨ (∃ id, s_reg s' = release id (s_reg s)) ∨
  one_call (s_reg s) (s_reg s').
Proof.
  intros HW Hst. pose proof (walk_end s s' HW Hst) as He. destruct Hst; cbn in *; try (by left).
  - right; left. by exists id, c.
  - right; right; left. by exists id.
  - right; right; right. apply He; [congruence|done].
  - right; right; right. apply He; [congruence|done].
Qed.

Lemma reachable_registry s : reachable s → wf_registry (s_reg s).
Proof.
  induction 1 as [r Hb|s s' Hr IH Hst]; [by apply boot_wf|].
  destruct (step_registry s s' (reachable_walk _ Hr) Hst) as [->|[(id & c & HL)|[(id & ->)|Hc]]].
  - done.
  - by eapply Lease_wf.
  - by apply release_wf.
  - by eapply one_call_wf.
Qed.

(** ** Properties *)

(** When the registry has no client for a polled job, no job of that client is tracked any more, and
    nobody is adding to it. *)
Lemma poll_without_client s job :
  reachable s → s_lock s = Free → colon_free (t_adapter job) → Get (t_adapter job) (s_reg s) = None →
  hasJobs (s_jobs s) (t_adapter job) = false ∧ holders (s_hold s) (t_adapter job) = 0%nat ∧
  untrack (t_adapter job) (t_clientJobID job) (s_jobs s) = s_jobs s.
Proof.
  intros Hr Hf Hcf Hg. destruct (reachable_inv s Hr) as [Hw Hj Hh Hl Hi _].
  unfold cur_clients in Hj, Hh, Hi. rewrite Hf in Hj, Hh, Hi.
  assert (Hno : ¬ is_Some (r_clients (s_reg s) !! t_adapter job)).
  { intros [e He]. unfold Get in Hg. by rewrite He in Hg. }
  split_and!.
  - apply hasJobs_false. intros k t Hk E. apply Hno. rewrite <- E. by eapply Hj.
  - unfold holders. destruct (filter _ _) as [|[tid id] l] eqn:E; [done|]. exfalso. apply Hno.
    assert (Hin : (tid, id) ∈ filter (λ th, th.2 = t_adapter job) (map_to_list (s_hold s))) by (rewrite E; by left).
    apply list_elem_of_filter in Hin as [Hid Hin]. apply elem_of_map_to_list in Hin. cbn in Hid. subst id. by eapply Hh.
  - unfold untrack. apply delete_id. destruct (s_jobs s !! key _ _) as [t|] eqn:E; [|done]. exfalso. apply Hno.
    pose proof (Hw _ _ E) as Hk. apply key_inj in Hk as [Ha _]; [rewrite Ha; by eapply Hj|done|by eapply Hi, Hj].
Qed.

(** C1: a tracked job never loses its client.  However adds, adoptions, polls, removals, pushes and
    reapings interleave, and although a push asks about a client's jobs before it acts on the
    answer, whenever the registry's lock is free every tracked job's client is registered, and
    so is every client an add or an adoption works on, with exactly its holders counted as
    leases.  So the branch of a poll that finds no client drops no job: only a stale snapshot leads
    there, no job of that client is tracked any more, and the branch's [untrack] leaves the table as
    it is. *)
Theorem tracked_client_present s :
  reachable s → s_lock s = Free →
  (∀ k t, s_jobs s !! k = Some t → ∃ ad, Get (t_adapter t) (s_reg s) = Some ad) ∧
  (∀ tid id, s_hold s !! tid = Some id → ∃ ad, Get id (s_reg s) = Some ad) ∧
  (∀ id, leases_of id (s_reg s) = Z.of_nat (holders (s_hold s) id)) ∧
  (∀ job, colon_free (t_adapter job) → Get (t_adapter job) (s_reg s) = None →
     hasJobs (s_jobs s) (t_adapter job) = false ∧ holders (s_hold s) (t_adapter job) = 0%nat ∧
     untrack (t_adapter job) (t_clientJobID job) (s_jobs s) = s_jobs s).
Proof.
  intros Hr Hf. pose proof (λ job, poll_without_client s job Hr Hf) as Hpoll. destruct (reachable_inv s Hr) as [_ Hj Hh Hl _ _].
  unfold cur_clients in Hj, Hh. rewrite Hf in Hj, Hh.
  assert (Hg : ∀ id, is_Some (r_clients (s_reg s) !! id) → ∃ ad, Get id (s_reg s) = Some ad).
  { intros id [e He]. exists (e_adapter e). unfold Get. by rewrite He. }
  split_and!; [|intros tid id Ht; by eapply Hg, Hh|done|done]. intros k t Hk. by eapply Hg, Hj.
Qed.


(** The registry's lock is always released: from every reachable state its holder reaches the
    end of its walk by steps of its own, waiting for nobody and touching no job and no lease. *)
Lemma lock_released s : reachable s → finishes s.
Proof.
  intros Hr. pose proof (reachable_pending s Hr) as Hp. unfold pending_inv in Hp.
  destruct (s_lock s) eqn:E.
  - exists s. split; [apply rtc_refl|done].
  - by eapply sweeping_finishes.
  - by eapply reaping_finishes.
Qed.
End system.

Section witnesses.
#[local] Existing Instance RegistrySpec.demo_quote.
#[local] Existing Instance RegistrySpec.demo_factory.

(** Boot with one environment client. *)
Definition sys0 : sys (A := nat * ClientSpec) := MkSys demo_env ∅ ∅ Free.

Lemma sys0_reachable : reachable sys0.
Proof.
  apply reach_boot. apply (boot_env empty_spec (0%nat, demo_raw "nzbget" "http://n")); [apply boot_empty|].
  apply (bool_decide_eq_true_1 (colon_free _)). vm_compute. reflexivity.
Qed.

Definition demo_t : tracked :=
  MkTracked "nzbget" "nzbget" "7" "T" EmptyString StatusQueued NewJobView 0 None None.

Definition demo_leased_reg : Registry (nat * ClientSpec) :=
  match Lease "nzbget" demo_env with Ok (_, r) => r | Err _ => demo_env end.

(** An add: thread 1 leases the client and tracks its job. *)
Definition sys1 : sys (A := nat * ClientSpec) := MkSys demo_leased_reg ∅ {[1%nat := "nzbget"]} Free.
Definition sys2 : sys (A := nat * ClientSpec) := with_jobs (track demo_t ∅) sys1.

Lemma sys2_reachable : reachable sys2.
Proof.
  apply (reach_step sys1); [apply (reach_step sys0); [apply sys0_reachable|]|].
  - assert (HL : ∃ c, Lease "nzbget" demo_env = Ok (c, demo_leased_reg)) by (eexists; vm_compute; reflexivity).
    destruct HL as [c HL]. exact (step_lease sys0 1 "nzbget" c demo_leased_reg eq_refl eq_refl HL).
  - exact (step_track sys1 1 demo_t eq_refl).
Qed.

Definition demo_stale : tracked :=
  MkTracked "gone" "nzbget" "7" "T" EmptyString StatusQueued NewJobView 0 None None.

Lemma tracked_client_present_witness :
  (∃ ad, Get "nzbget" (s_reg sys2) = Some ad) ∧ leases_of "nzbget" (s_reg sys2) = 1%Z ∧
  untrack "gone" "7" (s_jobs sys2) = s_jobs sys2.
Proof.
  destruct (tracked_client_present sys2 sys2_reachable eq_refl) as (Hj & _ & Hl & Hp). split_and!.
  - apply (Hj "nzbget:7" demo_t). vm_compute. reflexivity.
  - rewrite Hl. vm_compute. reflexivity.
  - apply (Hp demo_stale); [|vm_compute; reflexivity]. apply (bool_decide_eq_true_1 (colon_free _)). vm_compute. reflexivity.
Defined.

(** A reaping of the one client: asked, acted on, done. *)
Definition reap_state (todo : list string) (ans : gmap string bool) (p : option bool) : sys (A := nat * ClientSpec) :=
  with_lock (Reaping ["nzbget"] todo (r_clients (s_reg sys2), []) ans p) sys2.

Lemma reap1_reachable : reachable (reap_state ["nzbget"] ∅ None).
Proof.
  apply (reach_step sys2); [apply sys2_reachable|]. apply (step_reap sys2 ["nzbget"] eq_refl).
  assert (E : map_ids (r_clients (s_reg sys2)) = ["nzbget"]) by (vm_compute; reflexivity). by rewrite E.
Qed.

Lemma reap3_reachable : reachable (reap_state [] {["nzbget" := true]} None).
Proof.
  apply (reach_step (reap_state ["nzbget"] ∅ (Some true))).
  - apply (reach_step (reap_state ["nzbget"] ∅ None)); [apply reap1_reachable|].
    exact (step_reap_ask (reap_state ["nzbget"] ∅ None) _ _ _ _ _ eq_refl).
  - exact (step_reap_act (reap_state ["nzbget"] ∅ (Some true)) _ _ _ _ _ _ eq_refl).
Qed.


Lemma lock_released_witness : finishes (reap_state ["nzbget"] ∅ None).
Proof. apply (lock_released (reap_state ["nzbget"] ∅ None)), reap1_reachable. Defined.
End witnesses.
