(* ===== verification/Netip.v ===== *)
(** * internal/adapters/endpoint.go: the dialer's check

    [refuseDial] sees the address a pushed client connects to as text: it cuts the host out of
    [host:port] ([net.SplitHostPort]), parses it ([netip.ParseAddr]) and asks [RefusedAddr].  This file
    has the texts of net/netip, the parser and the printer, and shows that the parser reads back what
    the printer writes, so that the check decides on the very address that is dialled. *)

From S2P Require Import Prelude GoStrings GoUrl Responses Endpoint Json.
From Stdlib Require Import Ascii.

(** ** [net.SplitHostPort], [net.JoinHostPort] *)

Definition last_index_byte (c : ascii) (l : list ascii) : option nat :=
  match after_last (λ x, bool_decide (x = c)) l with O => None | S i => Some i end.

(** [None] is one of its errors. *)
Definition SplitHostPort (hostport : string) : option (string * string) :=
  let l := chars hostport in
  match last_index_byte ":" l with
  | None => None (* missing port in address *)
  | Some i =>
      let port := str (drop (S i) l) in
      let brackets (host : list ascii) (j k : nat) :=
        match index_byte "[" (drop j l), index_byte "]" (drop k l) with
        | None, None => Some (str host, port)
        | _, _ => None
        end in
      match l with
      | "["%char :: _ =>
          match index_byte "]" l with
          | None => None
          | Some e => if (S e =? i)%nat then brackets (drop 1 (take e l)) 1 (S e) else None
          end
      | _ =>
          let host := take i l in
          match index_byte ":" host with Some _ => None | None => brackets host 0 0 end
      end
  end.

Definition JoinHostPort (host port : string) : string :=
  if contains_byte host ":" then "[" +:+ host +:+ "]:" +:+ port else host +:+ ":" +:+ port.

(** ** [netip.ParseAddr] *)

(** [parseIPv4Fields]: [start] says that nothing or a dot comes before, [val] and [digLen] are the octet
    being read, [fields] the octets before it. *)
Fixpoint v4_fields (s : list ascii) (start : bool) (val digLen : Z) (fields : list Z) : option (list Z) :=
  match s with
  | [] => if (length fields <? 3)%nat then None else Some (fields ++ [val])
  | c :: s =>
      match digit_val c with
      | Some d =>
          if (digLen =? 1)%Z && (val =? 0)%Z then None
          else if (255 <? val * 10 + d)%Z then None
          else v4_fields s false (val * 10 + d) (digLen + 1) fields
      | None =>
          if negb (bool_decide (c = "."%char)) then None
          else if start || match s with [] => true | _ => false end then None
          else if (length fields =? 3)%nat then None
          else v4_fields s true 0 0 (fields ++ [val])
      end
  end.

Definition parseIPv4Fields (s : list ascii) : option (list Z) := v4_fields s true 0 0 [].

Definition parseIPv4 (s : list ascii) : option Addr :=
  match parseIPv4Fields s with
  | Some [a; b; c; d] => Some (Addr4 (ip4 a b c d))
  | _ => None
  end.

(** The hexadecimal digits a group starts with. *)
Fixpoint hex_span (s : list ascii) : list Z * list ascii :=
  match s with
  | [] => ([], [])
  | c :: t => match unhex c with
              | Some d => let (ds, rest) := hex_span t in (d :: ds, rest)
              | None => ([], s)
              end
  end.

Definition hex_value (ds : list Z) : Z := foldl (λ acc d, acc * 16 + d)%Z 0%Z ds.

(** The loop of [parseIPv6]: [room] groups may still follow, [acc] are those read, [ell] is where the
    ellipsis stands; what is left of the text when the loop ends. *)
Fixpoint v6_groups (room : nat) (s : list ascii) (acc : list Z) (ell : option nat) :
    option (list Z * option nat * list ascii) :=
  match room with
  | O => Some (acc, ell, s)
  | S room' =>
      let (ds, rest) := hex_span s in
      if (4 <? length ds)%nat then None
      else if (length ds =? 0)%nat then None
      else
        match rest with
        | "."%char :: _ =>
            if negb (bool_decide (is_Some ell)) && negb (room =? 2)%nat then None
            else if (room <? 2)%nat then None
            else match parseIPv4Fields s with
                 | Some [a; b; c; d] => Some (acc ++ [a * 256 + b; c * 256 + d]%Z, ell, [])
                 | _ => None
                 end
        | [] => Some (acc ++ [hex_value ds], ell, [])
        | ":"%char :: [] => None
        | ":"%char :: ":"%char :: rest =>
            match ell with
            | Some _ => None
            | None =>
                let acc := acc ++ [hex_value ds] in
                match rest with
                | [] => Some (acc, Some (length acc), [])
                | _ => v6_groups room' rest acc (Some (length acc))
                end
            end
        | ":"%char :: rest => v6_groups room' rest (acc ++ [hex_value ds]) ell
        | _ => None
        end
  end.

(** What the loop read, with its ellipsis filled with zeros. *)
Definition v6_expand (r : list Z * option nat * list ascii) : option (list Z) :=
  let '(gs, ell, rest) := r in
  match rest with
  | _ :: _ => None (* trailing garbage *)
  | [] =>
      if (length gs <? 8)%nat then
        match ell with
        | None => None (* too short *)
        | Some e => Some (take e gs ++ replicate (8 - length gs) 0%Z ++ drop e gs)
        end
      else match ell with Some _ => None | None => Some gs end
  end.

(** The text before the zone, with the zone. *)
Definition v6_zoned (s : list ascii) (zone : string) : option Addr :=
  match s with
  | ":"%char :: ":"%char :: s =>
      match s with
      | [] => Some (Addr6 0 zone)
      | _ => (λ gs, Addr6 (ip6 gs) zone) <$> (v6_groups 8 s [] (Some O) ≫= v6_expand)
      end
  | _ => (λ gs, Addr6 (ip6 gs) zone) <$> (v6_groups 8 s [] None ≫= v6_expand)
  end.

Definition parseIPv6 (text : list ascii) : option Addr :=
  match index_byte "%" text with
  | None => v6_zoned text EmptyString
  | Some i => match drop (S i) text with
              | [] => None (* zone must be a non-empty string *)
              | zone => v6_zoned (take i text) (str zone)
              end
  end.

(** The first of [.], [:] and [%] decides the family. *)
Fixpoint family_scan (l : list ascii) : option ascii :=
  match l with
  | [] => None
  | c :: l => if bool_decide (c ∈ [".";":";"%"]%char) then Some c else family_scan l
  end.

Definition ParseAddr (s : string) : option Addr :=
  match family_scan (chars s) with
  | Some "."%char => parseIPv4 (chars s)
  | Some ":"%char => parseIPv6 (chars s)
  | _ => None
  end.

(** ** [Addr.String] *)

(** [appendDecimal], [appendHex]. *)
Definition octet_text (x : Z) : list ascii :=
  (if (100 <=? x)%Z then [digit (x / 100)] else []) ++ (if (10 <=? x)%Z then [digit (x / 10 mod 10)] else []) ++
  [digit (x mod 10)].

Definition group_text (x : Z) : list ascii :=
  (if (0x1000 <=? x)%Z then [hex_digit (x / 0x1000)] else []) ++
  (if (0x100 <=? x)%Z then [hex_digit (x / 0x100 mod 16)] else []) ++
  (if (0x10 <=? x)%Z then [hex_digit (x / 0x10 mod 16)] else []) ++ [hex_digit (x mod 16)].

(** The elements, with a separator between them. *)
Fixpoint sep_by (c : ascii) (l : list (list ascii)) : list ascii :=
  match l with
  | [] => []
  | [x] => x
  | x :: l => x ++ c :: sep_by c l
  end.

Definition octets (ip : Z) : list Z := [ip / 2 ^ 24; ip / 2 ^ 16 mod 256; ip / 2 ^ 8 mod 256; ip mod 256]%Z.
Definition groups (ip : Z) : list Z :=
  (λ i, ip / 2 ^ (16 * i) mod 65536)%Z <$> [7; 6; 5; 4; 3; 2; 1; 0]%Z.

Definition string4 (ip : Z) : list ascii := sep_by "." (octet_text <$> octets ip).

(** The zeros a list starts with. *)
Fixpoint zero_run (l : list Z) : nat :=
  match l with
  | 0%Z :: l => S (zero_run l)
  | _ => O
  end.

(** The first longest run of two zeros or more: where it starts and ends. *)
Definition longest_run (l : list Z) : option (nat * nat) :=
  foldl (λ best i,
    let n := zero_run (drop i l) in
    if (2 <=? n)%nat && (match best with Some (s, e) => e - s | None => 0 end <? n)%nat then Some (i, (i + n)%nat) else best)
  None (seq 0 (length l)).

Definition string6 (ip : Z) : list ascii :=
  let gs := groups ip in
  match longest_run gs with
  | None => sep_by ":" (group_text <$> gs)
  | Some (s, e) => sep_by ":" (group_text <$> take s gs) ++ [":"; ":"]%char ++ sep_by ":" (group_text <$> drop e gs)
  end.

Definition zone_text (zone : string) : list ascii :=
  if bool_decide (zone = EmptyString) then [] else "%"%char :: chars zone.

Definition Addr_String (a : Addr) : string :=
  match a with
  | AddrZero => "invalid IP"
  | Addr4 ip => str (string4 ip)
  | Addr6 ip zone =>
      if Is4In6 a then str (chars "::ffff:" ++ string4 (Z.land ip (2 ^ 32 - 1)) ++ zone_text zone)
      else str (string6 ip ++ zone_text zone)
  end.

(** ** The hook *)

(** [refuseDial(_, address, _)]: [None] lets the dial through. *)
Definition refuseDial (address : string) : option error :=
  let host := match SplitHostPort address with Some (host, _) => host | None => address end in
  match ParseAddr host with
  | Some a =>
      if RefusedAddr a
      then Some (ErrorString ("refusing to connect to " +:+ Addr_String a +:+ ": link-local or metadata address"))
      else None
  | None => None
  end.

(** ** Reading back what [Addr.String] writes *)

Lemma unhex_hex_digit n : (0 ≤ n < 16)%Z → unhex (hex_digit n) = Some n.
Proof.
  intros Hn. assert (Hc : n ∈ seqZ 0 16) by (apply elem_of_seqZ; lia). vm_compute in Hc.
  repeat (apply elem_of_cons in Hc as [->|Hc]; [by vm_compute|]). by apply elem_of_nil in Hc.
Qed.

Lemma unhex_digit n : (0 ≤ n < 10)%Z → unhex (digit n) = Some n.
Proof.
  intros Hn. unfold unhex, in_range. rewrite byte_digit by done.
  rewrite (proj2 (Z.leb_le _ _)), (proj2 (Z.leb_le _ _)) by lia. cbn [andb]. f_equal. lia.
Qed.

(** *** IPv4 *)

Lemma v4_digit s start val digLen fields d :
  (0 ≤ d < 10)%Z → (digLen = 1 → val ≠ 0)%Z → (val * 10 + d ≤ 255)%Z →
  v4_fields (digit d :: s) start val digLen fields = v4_fields s false (val * 10 + d) (digLen + 1) fields.
Proof.
  intros Hd Hz Hv. cbn [v4_fields]. rewrite digit_val_digit by done.
  destruct (Z.eqb_spec digLen 1) as [E|E], (Z.eqb_spec val 0) as [E'|E']; cbn [andb]; try (by destruct (Hz E));
    by rewrite (proj2 (Z.ltb_ge _ _)) by lia.
Qed.

Lemma v4_octet x rest fields :
  (0 ≤ x < 256)%Z →
  ∃ n, v4_fields (octet_text x ++ rest) true 0 0 fields = v4_fields rest false x n fields.
Proof.
  intros Hx. unfold octet_text. pose proof (Z.mod_pos_bound x 10 ltac:(lia)). pose proof (Z.mod_pos_bound (x / 10) 10 ltac:(lia)).
  destruct (Z.leb_spec 100 x) as [H1|H1]; [|destruct (Z.leb_spec 10 x) as [H2|H2]].
  - rewrite (proj2 (Z.leb_le 10 x)) by lia. exists 3%Z. cbn [app].
    assert (0 ≤ x / 100 < 3)%Z by (Z.to_euclidean_division_equations; lia).
    rewrite !v4_digit; try done; try lia; try (Z.to_euclidean_division_equations; lia).
    f_equal. Z.to_euclidean_division_equations; lia.
  - exists 2%Z. cbn [app]. assert (E : (x / 10 mod 10 = x / 10)%Z) by (Z.to_euclidean_division_equations; lia). rewrite E in *.
    rewrite !v4_digit; try done; try lia; try (Z.to_euclidean_division_equations; lia).
    f_equal. Z.to_euclidean_division_equations; lia.
  - exists 1%Z. cbn [app]. rewrite v4_digit; try done; try lia. f_equal. Z.to_euclidean_division_equations; lia.
Qed.

Lemma v4_dot s val digLen fields :
  s ≠ [] → length fields < 3 → v4_fields ("."%char :: s) false val digLen fields = v4_fields s true 0 0 (fields ++ [val]).
Proof. intros Hs Hl. cbn [v4_fields]. rewrite (proj2 (Nat.eqb_neq _ 3)) by lia. by destruct s. Qed.

Lemma octet_text_ne x : octet_text x ≠ [].
Proof. unfold octet_text. intros E. apply app_eq_nil in E as [_ E]. by apply app_eq_nil in E as [_ E]. Qed.

Lemma sep_by_cons c x y l : sep_by c (x :: y :: l) = x ++ c :: sep_by c (y :: l).
Proof. done. Qed.

Lemma v4_read a b c d :
  Forall (λ x, 0 ≤ x < 256)%Z [a; b; c; d] →
  parseIPv4Fields (sep_by "." (octet_text <$> [a; b; c; d])) = Some [a; b; c; d].
Proof.
  rewrite !Forall_cons. intros (Ha & Hb & Hc & Hd & _). unfold parseIPv4Fields. cbn [fmap list_fmap]. rewrite !sep_by_cons. cbn [sep_by].
  assert (Hne : ∀ x l, octet_text x ++ l ≠ []) by (intros x l E; apply app_eq_nil in E as [E _]; by apply octet_text_ne in E).
  destruct (v4_octet a ("."%char :: octet_text b ++ "."%char :: octet_text c ++ "."%char :: octet_text d) [] Ha) as [n1 ->].
  rewrite v4_dot by (cbn; auto with lia). cbn [app].
  destruct (v4_octet b ("."%char :: octet_text c ++ "."%char :: octet_text d) [a] Hb) as [n2 ->].
  rewrite v4_dot by (cbn; auto with lia). cbn [app].
  destruct (v4_octet c ("."%char :: octet_text d) [a; b] Hc) as [n3 ->].
  rewrite v4_dot by (cbn; auto using octet_text_ne with lia). cbn [app].
  destruct (v4_octet d [] [a; b; c] Hd) as [n4 E]. rewrite app_nil_r in E. by rewrite E.
Qed.

Lemma octets_range ip : (0 ≤ ip < 2 ^ 32)%Z → Forall (λ x, 0 ≤ x < 256)%Z (octets ip).
Proof.
  intros Hi. unfold octets. change (2 ^ 32)%Z with 4294967296%Z in Hi. change (2 ^ 24)%Z with 16777216%Z.
  change (2 ^ 16)%Z with 65536%Z. change (2 ^ 8)%Z with 256%Z.
  repeat constructor; Z.to_euclidean_division_equations; lia.
Qed.

Lemma ip4_octets ip : (0 ≤ ip < 2 ^ 32)%Z → match octets ip with [a; b; c; d] => ip4 a b c d = ip | _ => False end.
Proof.
  intros Hi. pose proof (octets_range ip Hi) as Hr. unfold octets in *. rewrite !Forall_cons in Hr. destruct Hr as (Ha & Hb & Hc & Hd & _).
  unfold ip4.
  assert (E1 : (Z.lor (Z.shiftl (ip / 2 ^ 8 mod 256) 8) (ip mod 256) = ip mod 2 ^ 16)%Z).
  { rewrite lor_shiftl by (change (2 ^ 8)%Z with 256%Z; lia).
    change (2 ^ 8)%Z with 256%Z. change (2 ^ 16)%Z with 65536%Z. Z.to_euclidean_division_equations; lia. }
  assert (E2 : (Z.lor (Z.shiftl (ip / 2 ^ 16 mod 256) 16) (ip mod 2 ^ 16) = ip mod 2 ^ 24)%Z).
  { rewrite lor_shiftl by (try apply Z.mod_pos_bound; lia).
    change (2 ^ 16)%Z with 65536%Z. change (2 ^ 24)%Z with 16777216%Z. Z.to_euclidean_division_equations; lia. }
  rewrite E1, E2, lor_shiftl by (try apply Z.mod_pos_bound; lia).
  change (2 ^ 24)%Z with 16777216%Z. Z.to_euclidean_division_equations; lia.
Qed.

Lemma parseIPv4_string4 ip : (0 ≤ ip < 2 ^ 32)%Z → parseIPv4 (string4 ip) = Some (Addr4 ip).
Proof.
  intros Hi. pose proof (ip4_octets ip Hi) as Hip. pose proof (octets_range ip Hi) as Hr. unfold parseIPv4, string4.
  destruct (octets ip) as [|a [|b [|c [|d [|]]]]] eqn:E; try done. rewrite v4_read by done. by rewrite Hip.
Qed.

(** *** IPv6 *)

(** Where a group may end. *)
Definition stops (s : list ascii) : Prop := match s with [] => True | c :: _ => unhex c = None end.

Lemma hex_span_app l s :
  Forall (λ c, is_Some (unhex c)) l → stops s → hex_span (l ++ s) = (omap unhex l, s).
Proof.
  intros Hl Hs. induction Hl as [|c l [d Hd] _ IH].
  - cbn. destruct s as [|c s]; [done|]. cbn in Hs |- *. by rewrite Hs.
  - cbn. rewrite Hd, IH. done.
Qed.

Lemma group_text_hex x : (0 ≤ x < 65536)%Z → Forall (λ c, is_Some (unhex c)) (group_text x).
Proof.
  intros Hx. unfold group_text. rewrite !Forall_app.
  assert (Hd : ∀ n, (0 ≤ n < 16)%Z → is_Some (unhex (hex_digit n))) by (intros n Hn; rewrite unhex_hex_digit by done; by eexists).
  split_and!; try (match goal with |- context [if ?b then _ else _] => destruct b eqn:E; [|by constructor] end);
    constructor; try constructor; apply Hd; bool_to_prop; Z.to_euclidean_division_equations; lia.
Qed.

Lemma group_text_value x :
  (0 ≤ x < 65536)%Z →
  hex_value (omap unhex (group_text x)) = x ∧ 1 ≤ length (omap unhex (group_text x)) ≤ 4.
Proof.
  intros Hx. unfold group_text.
  pose proof (Z.mod_pos_bound x 16 ltac:(lia)). pose proof (Z.mod_pos_bound (x / 16) 16 ltac:(lia)).
  pose proof (Z.mod_pos_bound (x / 256) 16 ltac:(lia)).
  destruct (Z.leb_spec 0x1000 x) as [G1|G1]; [|destruct (Z.leb_spec 0x100 x) as [G2|G2]; [|destruct (Z.leb_spec 0x10 x) as [G3|G3]]].
  - rewrite (proj2 (Z.leb_le 0x100 x)), (proj2 (Z.leb_le 0x10 x)) by lia. cbn [app omap list_omap].
    rewrite !unhex_hex_digit by (done || Z.to_euclidean_division_equations; lia). cbn [length hex_value foldl].
    split; [unfold hex_value; cbn [foldl]; Z.to_euclidean_division_equations; lia|lia].
  - rewrite (proj2 (Z.leb_le 0x10 x)) by lia. cbn [app omap list_omap].
    rewrite !unhex_hex_digit by (done || Z.to_euclidean_division_equations; lia). cbn [length hex_value foldl].
    split; [unfold hex_value; cbn [foldl]; Z.to_euclidean_division_equations; lia|lia].
  - cbn [app omap list_omap]. rewrite !unhex_hex_digit by (done || Z.to_euclidean_division_equations; lia). cbn [length hex_value foldl].
    split; [unfold hex_value; cbn [foldl]; Z.to_euclidean_division_equations; lia|lia].
  - cbn [app omap list_omap]. rewrite !unhex_hex_digit by (done || Z.to_euclidean_division_equations; lia). cbn [length hex_value foldl].
    split; [unfold hex_value; cbn [foldl]; Z.to_euclidean_division_equations; lia|lia].
Qed.

Lemma group_text_ne x : group_text x ≠ [].
Proof. unfold group_text. intros E. repeat (apply app_eq_nil in E as [_ E]). done. Qed.

(** A text that goes on with a group starts with no colon and no dot. *)
Lemma group_text_head x l : (0 ≤ x < 65536)%Z → ∃ c t, group_text x ++ l = c :: t ∧ is_Some (unhex c).
Proof.
  intros Hx. pose proof (group_text_hex x Hx) as Hh. pose proof (group_text_ne x) as Hne.
  destruct (group_text x) as [|c t]; [done|]. apply Forall_cons in Hh as [Hc _]. by exists c, (t ++ l).
Qed.

Lemma v6_last room x acc ell :
  (0 ≤ x < 65536)%Z → v6_groups (S room) (group_text x) acc ell = Some (acc ++ [x], ell, []).
Proof.
  intros Hx. cbn [v6_groups]. destruct (group_text_value x Hx) as [Hv Hl].
  pose proof (hex_span_app (group_text x) [] (group_text_hex x Hx) I) as Hs. rewrite app_nil_r in Hs. rewrite Hs.
  rewrite (proj2 (Nat.ltb_ge _ _)) by lia. rewrite (proj2 (Nat.eqb_neq _ _)) by lia. by rewrite Hv.
Qed.

Lemma v6_next room x s acc ell :
  (0 ≤ x < 65536)%Z → (∃ c t, s = c :: t ∧ is_Some (unhex c)) →
  v6_groups (S room) (group_text x ++ ":"%char :: s) acc ell = v6_groups room s (acc ++ [x]) ell.
Proof.
  intros Hx (c & t & -> & Hc). cbn [v6_groups]. destruct (group_text_value x Hx) as [Hv Hl].
  rewrite (hex_span_app (group_text x) (":"%char :: c :: t) (group_text_hex x Hx)) by done.
  rewrite (proj2 (Nat.ltb_ge _ _)) by lia. rewrite (proj2 (Nat.eqb_neq _ _)) by lia. rewrite Hv.
  destruct Hc as [d Hd]. destruct (decide (c = ":"%char)) as [->|Hne]; [done|].
  destruct c as [[] [] [] [] [] [] [] []]; done.
Qed.

Lemma v6_gap room x s acc :
  (0 ≤ x < 65536)%Z →
  v6_groups (S room) (group_text x ++ ":"%char :: ":"%char :: s) acc None =
  match s with
  | [] => Some (acc ++ [x], Some (length acc + 1)%nat, [])
  | _ => v6_groups room s (acc ++ [x]) (Some (length acc + 1)%nat)
  end.
Proof.
  intros Hx. cbn [v6_groups]. destruct (group_text_value x Hx) as [Hv Hl].
  rewrite (hex_span_app (group_text x) (":"%char :: ":"%char :: s) (group_text_hex x Hx)) by done.
  rewrite (proj2 (Nat.ltb_ge _ _)) by lia. rewrite (proj2 (Nat.eqb_neq _ _)) by lia. rewrite Hv.
  rewrite length_app. by destruct s.
Qed.

Abbreviation group := (λ x, 0 ≤ x < 65536)%Z.

Lemma sep_by_head gs l : gs ≠ [] → Forall group gs → ∃ c t, sep_by ":" (group_text <$> gs) ++ l = c :: t ∧ is_Some (unhex c).
Proof.
  intros Hne Hg. destruct gs as [|x gs]; [done|]. apply Forall_cons in Hg as [Hx _].
  destruct gs as [|y gs]; cbn [fmap list_fmap sep_by]; [|rewrite <- app_assoc]; by apply group_text_head.
Qed.

(** A text without an ellipsis. *)
Lemma v6_read gs : ∀ room acc ell,
  gs ≠ [] → Forall group gs → length gs ≤ room →
  v6_groups room (sep_by ":" (group_text <$> gs)) acc ell = Some (acc ++ gs, ell, []).
Proof.
  induction gs as [|x gs IH]; intros room acc ell Hne Hg Hl; [done|]. apply Forall_cons in Hg as [Hx Hg].
  destruct room as [|room]; [cbn in Hl; lia|]. cbn in Hl. destruct gs as [|y gs]; [by apply v6_last|].
  cbn [fmap list_fmap]. rewrite sep_by_cons, v6_next; [|done|].
  - change (group_text y :: _) with (group_text <$> y :: gs).
    rewrite IH by (done || cbn in *; lia). by rewrite <- app_assoc.
  - destruct (sep_by_head (y :: gs) [] ltac:(done) Hg) as (c & t & E & Hc). rewrite app_nil_r in E. exists c, t. by rewrite <- E.
Qed.

(** A text with one, after some group. *)
Lemma v6_read_gap pre post : ∀ room acc,
  pre ≠ [] → Forall group pre → Forall group post → length pre + length post ≤ room →
  v6_groups room (sep_by ":" (group_text <$> pre) ++ [":"; ":"]%char ++ sep_by ":" (group_text <$> post)) acc None =
  Some (acc ++ pre ++ post, Some (length acc + length pre)%nat, []).
Proof.
  induction pre as [|x pre IH]; intros room acc Hne Hg Hp Hl; [done|]. apply Forall_cons in Hg as [Hx Hg].
  destruct room as [|room]; [cbn in Hl; lia|]. cbn [length] in Hl. destruct pre as [|y pre].
  - cbn [fmap list_fmap sep_by app]. rewrite v6_gap by done. destruct post as [|z post].
    + cbn. by rewrite ?app_nil_r.
    + destruct (sep_by_head (z :: post) [] ltac:(done) Hp) as (c & t & E & _). rewrite app_nil_r in E. rewrite E.
      rewrite <- E, v6_read by (done || cbn in *; lia). by rewrite <- app_assoc.
  - cbn [fmap list_fmap]. rewrite sep_by_cons, <- app_assoc. rewrite <- app_comm_cons. rewrite v6_next; [|done|].
    + change (group_text y :: _) with (group_text <$> y :: pre).
      rewrite IH by (done || cbn in *; lia). rewrite <- app_assoc, length_app. cbn [length app].
      replace (length acc + S (S (length pre)))%nat with (length acc + 1 + S (length pre))%nat by lia. done.
    + by apply (sep_by_head (y :: pre)).
Qed.

(** *** An address as eight groups *)

Lemma groups_range ip : Forall group (groups ip).
Proof. unfold groups. apply Forall_fmap, Forall_forall. intros i _. cbn. apply Z.mod_pos_bound. lia. Qed.

Lemma ip6_groups_cons g l acc : group g → ip6_groups (g :: l) acc = ip6_groups l (acc * 65536 + g)%Z.
Proof. intros Hg. cbv beta in Hg. cbn [ip6_groups]. by rewrite lor_shiftl by (change (2 ^ 16)%Z with 65536%Z; lia). Qed.

Lemma group_shift ip i j : j = (i + 1)%Z → (0 ≤ i)%Z →
  (ip / 2 ^ (16 * j) * 65536 + ip / 2 ^ (16 * i) mod 65536 = ip / 2 ^ (16 * i))%Z.
Proof.
  intros -> Hi. replace (16 * (i + 1))%Z with (16 * i + 16)%Z by lia.
  rewrite Z.pow_add_r, <- Z.div_div by lia. change (2 ^ 16)%Z with 65536%Z. pose proof (Z.div_mod (ip / 2 ^ (16 * i)) 65536 ltac:(lia)). lia.
Qed.

Lemma ip6_of_groups ip : (0 ≤ ip < 2 ^ 128)%Z → ip6 (groups ip) = ip.
Proof.
  intros Hi. unfold ip6, groups. cbn [fmap list_fmap]. rewrite !ip6_groups_cons by (cbv beta; apply Z.mod_pos_bound; lia). cbn [ip6_groups].
  assert (E : (0 * 65536 + ip / 2 ^ (16 * 7) mod 65536 = ip / 2 ^ (16 * 7))%Z).
  { rewrite <- (group_shift ip 7 8) at 2 by lia. change (16 * 8)%Z with 128%Z. by rewrite (Z.div_small ip (2 ^ 128)). }
  rewrite E. clear E.
  rewrite (group_shift ip 6 7), (group_shift ip 5 6), (group_shift ip 4 5), (group_shift ip 3 4), (group_shift ip 2 3),
    (group_shift ip 1 2), (group_shift ip 0 1) by lia.
  change (2 ^ (16 * 0))%Z with 1%Z. by rewrite Z.div_1_r.
Qed.

Lemma zero_run_spec l : l = replicate (zero_run l) 0%Z ++ drop (zero_run l) l.
Proof. induction l as [|[| |] l IH]; cbn; try done. by rewrite <- IH. Qed.

Lemma zero_run_le l : zero_run l ≤ length l.
Proof. induction l as [|[| |] l IH]; cbn; lia. Qed.

(** The gap holds at least two groups, all zero. *)
Lemma longest_run_spec l s e :
  longest_run l = Some (s, e) → l = take s l ++ replicate (e - s) 0%Z ++ drop e l ∧ s + 2 ≤ e ≤ length l.
Proof.
  unfold longest_run. set (f := λ best i, _).
  assert (Hf : ∀ js best, Forall (λ i, i < length l) js →
    (∀ s e, best = Some (s, e) → l = take s l ++ replicate (e - s) 0%Z ++ drop e l ∧ s + 2 ≤ e ≤ length l) →
    ∀ s e, foldl f best js = Some (s, e) → l = take s l ++ replicate (e - s) 0%Z ++ drop e l ∧ s + 2 ≤ e ≤ length l).
  { induction js as [|i js IH]; intros best Hall Hb s' e'; cbn [foldl]; [apply Hb|]. apply Forall_cons in Hall as [Hi Hall].
    apply IH; [done|]. intros s2 e2. unfold f at 1.
    destruct (2 <=? zero_run (drop i l))%nat eqn:E1; [|apply Hb]. destruct (match best with Some _ => _ | None => _ end <? _)%nat; [|apply Hb].
    intros [= <- <-]. apply Nat.leb_le in E1. pose proof (zero_run_le (drop i l)) as Hle. rewrite length_drop in Hle.
    split; [|lia]. replace (i + zero_run (drop i l) - i)%nat with (zero_run (drop i l)) by lia.
    rewrite <- drop_drop, <- zero_run_spec. by rewrite take_drop. }
  apply Hf; [|done]. apply Forall_forall. intros i Hi. apply elem_of_seq in Hi. lia.
Qed.

(** *** The texts of IPv6 addresses *)

Lemma v6_zoned_plain s zone :
  (∃ c t, s = c :: t ∧ is_Some (unhex c)) →
  v6_zoned s zone = (λ gs, Addr6 (ip6 gs) zone) <$> (v6_groups 8 s [] None ≫= v6_expand).
Proof. intros (c & t & -> & [d Hd]). destruct c as [[] [] [] [] [] [] [] []]; done. Qed.

Lemma v6_zoned_lead s zone :
  s ≠ [] → v6_zoned (":" :: ":" :: s)%char zone = (λ gs, Addr6 (ip6 gs) zone) <$> (v6_groups 8 s [] (Some O) ≫= v6_expand).
Proof. by destruct s. Qed.

Lemma v6_expand_gap pre post :
  length pre + length post < 8 →
  v6_expand (pre ++ post, Some (length pre), []) = Some (pre ++ replicate (8 - (length pre + length post)) 0%Z ++ post).
Proof.
  intros Hl. unfold v6_expand. rewrite length_app, (proj2 (Nat.ltb_lt _ _)) by lia. by rewrite take_app_length, drop_app_length.
Qed.

Lemma v6_zoned_string6 ip zone : (0 ≤ ip < 2 ^ 128)%Z → v6_zoned (string6 ip) zone = Some (Addr6 ip zone).
Proof.
  intros Hi. pose proof (groups_range ip) as Hg. assert (Hlen : length (groups ip) = 8) by done.
  rewrite <- (ip6_of_groups ip Hi) at 2. unfold string6.
  assert (Hne : ∀ gs, gs ≠ [] → sep_by ":" (group_text <$> gs) ≠ []).
  { intros [|x gs] Hn E; [done|]. destruct gs as [|y gs]; cbn in E; [by apply group_text_ne in E|].
    apply app_eq_nil in E as [E _]. by apply group_text_ne in E. }
  destruct (longest_run (groups ip)) as [[s e]|] eqn:Hrun.
  - destruct (longest_run_spec _ _ _ Hrun) as (Hsplit & Hse). rewrite Hlen in Hse.
    set (pre := take s (groups ip)) in *. set (post := drop e (groups ip)) in *.
    assert (Hpre : length pre = s) by (unfold pre; rewrite length_take; lia).
    assert (Hpost : length post = (8 - e)%nat) by (unfold post; rewrite length_drop; lia).
    assert (Hgpre : Forall group pre) by (by apply Forall_take). assert (Hgpost : Forall group post) by (by apply Forall_drop).
    assert (Hgap : (8 - (length pre + length post) = e - s)%nat) by lia.
    assert (Hexp : v6_expand (pre ++ post, Some (length pre), []) = Some (groups ip)).
    { rewrite v6_expand_gap by lia. by rewrite Hgap, <- Hsplit. }
    destruct pre as [|x pre'] eqn:Ep.
    + cbn [fmap list_fmap sep_by app]. destruct post as [|y post'] eqn:Epo.
      * cbn [fmap list_fmap sep_by v6_zoned]. f_equal.
        assert (Hz : groups ip = replicate 8 0%Z).
        { rewrite Hsplit. cbn [length] in Hpre, Hpost. replace (e - s)%nat with 8 by lia. done. }
        rewrite Hz. vm_compute. reflexivity.
      * rewrite v6_zoned_lead by by apply Hne. rewrite v6_read by (done || lia). cbn [app mbind option_bind]. cbn [app length] in Hexp.
        by rewrite Hexp.
    + rewrite v6_zoned_plain by (by apply (sep_by_head (x :: pre'))). rewrite v6_read_gap by (done || lia).
      cbn [mbind option_bind app]. cbn [app length] in Hexp. change (length (@nil Z) + ?n)%nat with n. cbn [length].
      by rewrite Hexp.
  - rewrite v6_zoned_plain.
    + rewrite v6_read by (done || lia). cbn [app mbind option_bind v6_expand]. by rewrite Hlen.
    + destruct (sep_by_head (groups ip) [] ltac:(done) Hg) as (c & t & E & Hc). rewrite app_nil_r in E. by exists c, t.
Qed.

(** An IPv4 address mapped to IPv6, in the form with dots. *)
Lemma octet_text_hex x : (0 ≤ x < 256)%Z → Forall (λ c, is_Some (unhex c)) (octet_text x).
Proof.
  intros Hx. unfold octet_text. rewrite !Forall_app.
  assert (Hd : ∀ n, (0 ≤ n < 10)%Z → is_Some (unhex (digit n))) by (intros n Hn; rewrite unhex_digit by done; by eexists).
  split_and!; try (match goal with |- context [if ?b then _ else _] => destruct b eqn:E; [|by constructor] end);
    constructor; try constructor; apply Hd; bool_to_prop; Z.to_euclidean_division_equations; lia.
Qed.

Lemma octet_text_length x : 1 ≤ length (omap unhex (octet_text x)) ≤ 3 ∨ ¬ (0 ≤ x < 256)%Z.
Proof.
  destruct (decide (0 ≤ x < 256)%Z) as [Hx|]; [left|by right]. unfold octet_text.
  destruct (100 <=? x)%Z eqn:E1, (10 <=? x)%Z eqn:E2; bool_to_prop; cbn [app omap list_omap];
    rewrite ?unhex_digit by (Z.to_euclidean_division_equations; lia); cbn [length]; lia.
Qed.

(** The dotted tail of an address with an ellipsis. *)
Lemma v6_dotted room text acc e a rest fields :
  (0 ≤ a < 256)%Z → text = octet_text a ++ "."%char :: rest → parseIPv4Fields text = Some fields →
  v6_groups (S (S room)) text acc (Some e) =
  match fields with
  | [a; b; c; d] => Some (acc ++ [a * 256 + b; c * 256 + d]%Z, Some e, [])
  | _ => None
  end.
Proof.
  intros Ha Htext Hread. remember (S room) as room' eqn:Eroom. cbn [v6_groups]. rewrite Hread, Htext.
  rewrite (hex_span_app (octet_text a)) by (done || by apply octet_text_hex).
  destruct (octet_text_length a) as [Hl|Hl]; [|by destruct Hl].
  rewrite (proj2 (Nat.ltb_ge _ _)) by lia. rewrite (proj2 (Nat.eqb_neq _ _)) by lia.
  rewrite bool_decide_true by by eexists. cbn [negb andb]. by rewrite (proj2 (Nat.ltb_ge _ _)) by lia.
Qed.

Lemma v6_zoned_mapped v zone :
  (0 ≤ v < 2 ^ 32)%Z → v6_zoned (chars "::ffff:" ++ string4 v) zone = Some (Addr6 (0xFFFF * 2 ^ 32 + v) zone).
Proof.
  intros Hv. pose proof (octets_range v Hv) as Hr. pose proof (ip4_octets v Hv) as Hip. unfold string4.
  destruct (octets v) as [|a [|b [|c [|d [|]]]]] eqn:E; try done.
  pose proof (v4_read a b c d Hr) as Hread. rewrite !Forall_cons in Hr. destruct Hr as (Ha & Hb & Hc & Hd & _).
  set (text := sep_by "." (octet_text <$> [a; b; c; d])) in *.
  change (chars "::ffff:" ++ text) with (":" :: ":" :: group_text 0xFFFF ++ ":" :: text)%char.
  assert (Htext : ∃ rest, text = octet_text a ++ "."%char :: rest) by (eexists; reflexivity). destruct Htext as [rest Htext].
  assert (Hhead : ∃ c t, text = c :: t ∧ is_Some (unhex c)).
  { rewrite Htext. pose proof (octet_text_hex a Ha) as Hh. pose proof (octet_text_ne a) as Hne.
    destruct (octet_text a) as [|x t]; [done|]. apply Forall_cons in Hh as [Hx _]. by exists x, (t ++ "."%char :: rest). }
  rewrite v6_zoned_lead by by destruct Hhead as (? & ? & -> & _). rewrite v6_next by (done || lia).
  change ([] ++ [65535%Z]) with [65535%Z]. rewrite (v6_dotted 5 text [65535]%Z 0 a rest _ Ha Htext Hread). cbn [app mbind option_bind].
  change (v6_expand ([65535; a * 256 + b; c * 256 + d]%Z, Some 0, [])) with (Some [0; 0; 0; 0; 0; 65535; a * 256 + b; c * 256 + d]%Z).
  cbn [fmap option_fmap option_map].
  do 2 f_equal. unfold ip6. rewrite !ip6_groups_cons by (cbv beta; lia). cbn [ip6_groups]. rewrite <- Hip. unfold ip4.
  assert (E1 : Z.lor (Z.shiftl c 8) d = (c * 256 + d)%Z) by (rewrite lor_shiftl; [done|lia|change (2 ^ 8)%Z with 256%Z; lia]).
  assert (E2 : Z.lor (Z.shiftl b 16) (c * 256 + d) = (b * 65536 + (c * 256 + d))%Z)
    by (rewrite lor_shiftl; [done|lia|change (2 ^ 16)%Z with 65536%Z; lia]).
  rewrite E1, E2, lor_shiftl by (change (2 ^ 24)%Z with 16777216%Z; lia).
  change (2 ^ 24)%Z with 16777216%Z. change (2 ^ 32)%Z with 4294967296%Z. lia.
Qed.

(** *** Printed addresses are read back *)

(** The characters of an address without its zone. *)
Definition addr_char (c : ascii) : Prop := is_Some (unhex c) ∨ c = ":"%char ∨ c = "."%char.

Lemma sep_by_Forall (P : ascii → Prop) c l : P c → Forall (Forall P) l → Forall P (sep_by c l).
Proof.
  intros Hc Hl. induction Hl as [|x l Hx Hl IH]; [constructor|]. destruct l as [|y l]; [done|].
  rewrite sep_by_cons. apply Forall_app. split; [done|]. by constructor.
Qed.

Lemma hex_addr_char l : Forall (λ c, is_Some (unhex c)) l → Forall addr_char l.
Proof. intros Hl. eapply Forall_impl; [exact Hl|]. intros c Hc. by left. Qed.

Lemma string4_chars ip : (0 ≤ ip < 2 ^ 32)%Z → Forall addr_char (string4 ip).
Proof.
  intros Hi. apply sep_by_Forall; [by right; right|]. apply Forall_fmap. eapply Forall_impl; [by apply octets_range|].
  intros x Hx. by apply hex_addr_char, octet_text_hex.
Qed.

Lemma groups_chars gs : Forall group gs → Forall addr_char (sep_by ":" (group_text <$> gs)).
Proof.
  intros Hg. apply sep_by_Forall; [by right; left|]. apply Forall_fmap. eapply Forall_impl; [exact Hg|].
  intros x Hx. by apply hex_addr_char, group_text_hex.
Qed.

Lemma string6_chars ip : Forall addr_char (string6 ip).
Proof.
  pose proof (groups_range ip) as Hg. unfold string6. destruct (longest_run (groups ip)) as [[s e]|]; [|by apply groups_chars].
  apply Forall_app. split; [by apply groups_chars, Forall_take|]. apply Forall_app.
  split; [repeat constructor; by right; left|by apply groups_chars, Forall_drop].
Qed.

Lemma addr_char_not l c : Forall addr_char l → unhex c = None → c ≠ ":"%char → c ≠ "."%char → c ∉ l.
Proof.
  rewrite Forall_forall. intros Hl Hu H1' H2' Hin. destruct (Hl c Hin) as [[d Hd]|[Hc|Hc]]; congruence.
Qed.

Lemma parseIPv6_zone s zone : "%"%char ∉ s → parseIPv6 (s ++ zone_text zone) = v6_zoned s zone.
Proof.
  intros Hs. unfold parseIPv6, zone_text. case_bool_decide as Hz.
  - subst zone. rewrite app_nil_r. by rewrite (proj2 (index_byte_None _ _) Hs).
  - rewrite index_byte_app by done. rewrite take_app_length.
    change (S (length s)) with (1 + length s). rewrite Nat.add_comm, <- drop_drop, drop_app_length. cbn [drop].
    rewrite <- (str_chars zone) at 2. destruct (chars zone) as [|c t] eqn:E; [|done]. destruct Hz. by rewrite <- (str_chars zone), E.
Qed.

Lemma family_scan_hex l s : Forall (λ c, is_Some (unhex c)) l → family_scan (l ++ s) = family_scan s.
Proof.
  induction 1 as [|c l Hc _ IH]; [done|]. cbn. rewrite bool_decide_false; [done|]. intros Hin.
  destruct Hc as [d Hd]. repeat (apply elem_of_cons in Hin as [->|Hin]; [by vm_compute in Hd|]). by apply elem_of_nil in Hin.
Qed.

Lemma string4_family ip : (0 ≤ ip < 2 ^ 32)%Z → family_scan (string4 ip) = Some "."%char.
Proof.
  intros Hi. pose proof (octets_range ip Hi) as Hr. unfold octets in Hr. apply Forall_cons in Hr as [Ha _].
  unfold string4, octets. cbn [fmap list_fmap]. rewrite sep_by_cons, family_scan_hex by by apply octet_text_hex. done.
Qed.

Lemma string6_family ip s : family_scan (string6 ip ++ s) = Some ":"%char.
Proof.
  pose proof (groups_range ip) as Hg.
  assert (Hone : ∀ gs s, gs ≠ [] → Forall group gs →
    family_scan (sep_by ":" (group_text <$> gs) ++ ":"%char :: s) = Some ":"%char).
  { intros [|x gs] s' Hne Hgs; [done|]. apply Forall_cons in Hgs as [Hx _]. cbn [fmap list_fmap].
    destruct gs as [|y gs]; cbn [fmap list_fmap sep_by]; rewrite <- ?app_assoc, family_scan_hex by (by apply group_text_hex); done. }
  unfold string6. destruct (longest_run (groups ip)) as [[st e]|].
  - rewrite <- app_assoc. cbn [app]. destruct (take st (groups ip)) as [|x gs] eqn:E; [done|].
    rewrite Hone; [done|done|]. rewrite <- E. by apply Forall_take.
  - unfold groups in *. cbn [fmap list_fmap] in *. rewrite sep_by_cons, <- app_assoc.
    apply Forall_cons in Hg as [Hx _]. by rewrite family_scan_hex by by apply group_text_hex.
Qed.

Lemma mapped_split ip zone :
  (0 ≤ ip < 2 ^ 128)%Z → Is4In6 (Addr6 ip zone) = true →
  ip = (0xFFFF * 2 ^ 32 + Z.land ip (2 ^ 32 - 1))%Z ∧ (0 ≤ Z.land ip (2 ^ 32 - 1) < 2 ^ 32)%Z.
Proof.
  intros Hi Hm%Is4In6_spec. change (2 ^ 32 - 1)%Z with (Z.ones 32). rewrite Z.land_ones by lia.
  change (2 ^ 32)%Z with 4294967296%Z. split; [|by apply Z.mod_pos_bound]. Z.to_euclidean_division_equations. lia.
Qed.

Lemma ParseAddr_String a : wf_addr a → a ≠ AddrZero → ParseAddr (Addr_String a) = Some a.
Proof.
  destruct a as [|ip|ip zone]; intros Hwf Hne; [done| |]; cbn [wf_addr] in Hwf; unfold ParseAddr; cbn [Addr_String].
  - rewrite chars_str, string4_family by done. by apply parseIPv4_string4.
  - destruct (Is4In6 (Addr6 ip zone)) eqn:E.
    + destruct (mapped_split ip zone Hwf E) as [Hip Hv]. set (v := Z.land ip (2 ^ 32 - 1)) in *.
      rewrite chars_str, (app_assoc (chars "::ffff:")), parseIPv6_zone.
      * change (family_scan _) with (Some ":"%char). cbn iota. rewrite (v6_zoned_mapped v zone Hv). by rewrite <- Hip.
      * intros [Hin|Hin]%elem_of_app; revert Hin; [apply (bool_decide_eq_true_1 (_ ∉ _)); reflexivity|]. apply addr_char_not; [by apply string4_chars|done..].
    + rewrite chars_str, string6_family, parseIPv6_zone by (apply addr_char_not; [apply string6_chars|done..]).
      by apply v6_zoned_string6.
Qed.

(** *** Host and port *)

Lemma after_last_nil f l : Forall (λ c, f c = false) l → after_last f l = O.
Proof. induction 1 as [|c l Hc _ IH]; [done|]. cbn. by rewrite IH, Hc. Qed.

Lemma after_last_app f l c t : f c = true → Forall (λ c, f c = false) t → after_last f (l ++ c :: t) = S (length l).
Proof.
  intros Hc Ht. induction l as [|x l IH]; cbn; [by rewrite (after_last_nil f t Ht), Hc|]. by rewrite IH.
Qed.

Lemma last_index_app c l t : c ∉ t → last_index_byte c (l ++ c :: t) = Some (length l).
Proof.
  intros Ht. unfold last_index_byte. rewrite after_last_app; [done|by apply bool_decide_true|].
  apply Forall_forall. intros x Hx. apply bool_decide_false. by intros ->.
Qed.

(** A text without brackets. *)
Definition unbracketed (s : string) : Prop := "["%char ∉ chars s ∧ "]"%char ∉ chars s.

Lemma SplitHostPort_Join host port :
  unbracketed host → unbracketed port → ":"%char ∉ chars port → SplitHostPort (JoinHostPort host port) = Some (host, port).
Proof.
  intros [Ho Hc] [Hpo Hpc] Hp. unfold JoinHostPort. destruct (contains_byte host ":") eqn:E; unfold SplitHostPort.
  - change ("[" +:+ host +:+ "]:" +:+ port) with (String "["%char (host +:+ "]:" +:+ port)).
    change (chars (String ?c ?s)) with (c :: chars s). rewrite !chars_app. change (chars "]:") with ["]"; ":"]%char.
    set (h := chars host) in *. set (p := chars port) in *.
    assert (El : ("["%char :: h ++ ["]"; ":"]%char ++ p) = ("["%char :: h ++ ["]"%char]) ++ ":"%char :: p)
      by (cbn; by rewrite <- app_assoc).
    rewrite El at 1. rewrite last_index_app by done.
    assert (Ei : index_byte "]" ("["%char :: h ++ ["]"; ":"]%char ++ p) = Some (S (length h))).
    { cbn [index_byte]. rewrite decide_False by done. cbn [app]. by rewrite index_byte_app. }
    rewrite Ei. cbn [length]. rewrite length_app. cbn [length]. rewrite (proj2 (Nat.eqb_eq _ _)) by lia.
    cbn [drop]. rewrite drop_0. rewrite (proj2 (index_byte_None "[" _)).
    + replace (drop (S (length h)) (h ++ ["]"; ":"]%char ++ p)) with (":"%char :: p).
      * rewrite (proj2 (index_byte_None "]" _)); [|by apply not_elem_of_cons].
        cbn [take drop]. rewrite take_app_length. rewrite drop_0.
        replace (drop (S (length h + 1)) (h ++ ["]"; ":"]%char ++ p)) with p; [unfold h, p; by rewrite !str_chars|].
        replace (S (length h + 1)) with (2 + length h) by lia. by rewrite Nat.add_comm, <- drop_drop, drop_app_length.
      * change (S (length h)) with (1 + length h). by rewrite Nat.add_comm, <- drop_drop, drop_app_length.
    + rewrite !not_elem_of_app, !not_elem_of_cons. split_and!; try done. apply not_elem_of_nil.
  - unfold contains_byte in E. apply bool_decide_eq_false in E. rewrite !chars_app. change (chars ":") with [":"%char].
    cbn [app]. rewrite last_index_app by done. rewrite (proj2 (index_byte_None ":" _)).
    + rewrite drop_0, !(proj2 (index_byte_None _ _)) by (rewrite not_elem_of_app, not_elem_of_cons; by split_and!).
      rewrite take_app_length, str_chars. change (S (length (chars host))) with (1 + length (chars host)).
      rewrite Nat.add_comm, <- drop_drop, drop_app_length. cbn [drop]. rewrite drop_0, str_chars.
      destruct (chars host) as [|c t] eqn:Eh; [done|]. cbn [app].
      destruct (decide (c = "["%char)) as [->|Hne]; [destruct Ho; by left|].
      destruct c as [[] [] [] [] [] [] [] []]; done.
    + by rewrite take_app_length.
Qed.

Lemma Addr_String_unbracketed a : wf_addr a → unbracketed (zone_of a) → unbracketed (Addr_String a).
Proof.
  intros Hwf [Hzo Hzc]. unfold unbracketed.
  assert (Hz : ∀ c, c ≠ "%"%char → c ∉ chars (zone_of a) → c ∉ zone_text (zone_of a)).
  { intros c Hc Hn. unfold zone_text. case_bool_decide; [apply not_elem_of_nil|]. by apply not_elem_of_cons. }
  assert (Hgen : ∀ c, unhex c = None → c ≠ ":"%char → c ≠ "."%char → c ≠ "%"%char → c ∉ chars "invalid IP" → c ∉ chars "::ffff:" →
    c ∉ chars (zone_of a) → c ∉ chars (Addr_String a)).
  { intros c Hu H1' H2' H3' Hinv Hpre Hcz. destruct a as [|ip|ip zone]; cbn [Addr_String wf_addr] in *; [done| |].
    - rewrite chars_str. by apply addr_char_not; [apply string4_chars|..].
    - destruct (Is4In6 (Addr6 ip zone)) eqn:E; rewrite chars_str, !not_elem_of_app.
      + destruct (mapped_split ip zone Hwf E) as [_ Hv]. split_and!; [done|by apply addr_char_not; [apply string4_chars|..]|by apply Hz].
      + split; [by apply addr_char_not; [apply string6_chars|..]|by apply Hz]. }
  split; apply Hgen; done || (apply (bool_decide_eq_true_1 (_ ∉ _)); reflexivity).
Qed.

(** ** Properties *)

(** C29: the dialer's check decides on the very address that is dialled: for every IP address (and port), the
    hook, which only sees the text [host:port], refuses exactly when [RefusedAddr] refuses
    the address, and names it; that is, exactly when the address is one of those the README
    promises a pushed client never connects to (169.254.0.0/16, fe80::/10, 100.100.100.200,
    fd00:ec2::254, or an IPv6 address mapping one of the IPv4 ones) and carries no zone, which a
    mapped address drops: a zone lets every other IPv6 one through, since [Prefix.Contains] and [==]
    both tell it apart.  A host that is no IP address is let through. *)
Theorem refuseDial_exact a port :
  wf_addr a → a ≠ AddrZero → unbracketed (zone_of a) → unbracketed port → ":"%char ∉ chars port →
  let answer := refuseDial (JoinHostPort (Addr_String a) port) in
  (answer = Some (ErrorString ("refusing to connect to " +:+ Addr_String a +:+ ": link-local or metadata address")) ↔
     metadata_or_link_local a ∧ (zone_of a = EmptyString ∨ Is4In6 a = true)) ∧
  (answer = None ↔ ¬ (metadata_or_link_local a ∧ (zone_of a = EmptyString ∨ Is4In6 a = true))) ∧
  ∀ host, unbracketed host → ParseAddr host = None → refuseDial (JoinHostPort host port) = None.
Proof.
  intros Hwf Hne Hz Hp Hcolon answer. unfold answer, refuseDial.
  rewrite SplitHostPort_Join by (done || by apply Addr_String_unbracketed). rewrite ParseAddr_String by done.
  pose proof (RefusedAddr_iff a Hwf) as Hi. destruct (RefusedAddr a) eqn:E.
  - assert (Hy : metadata_or_link_local a ∧ (zone_of a = EmptyString ∨ Is4In6 a = true)) by by apply Hi.
    split; [done|]. split; [by split; [|intros Hno; destruct Hno]|]. intros host Hh Hn. by rewrite SplitHostPort_Join, Hn.
  - assert (Hy : ¬ (metadata_or_link_local a ∧ (zone_of a = EmptyString ∨ Is4In6 a = true))) by (intros Hy; apply Hi in Hy; congruence).
    split; [by split|]. split; [done|]. intros host Hh Hn. by rewrite SplitHostPort_Join, Hn.
Qed.

(** The cloud metadata address is refused, a link-local address with a zone is not, nor is an IPv4 text
    that carries one. *)
Lemma refuseDial_exact_witness :
  refuseDial "169.254.169.254:80" =
    Some (ErrorString "refusing to connect to 169.254.169.254: link-local or metadata address") ∧
  refuseDial "[fe80::1%eth0]:443" = None ∧ refuseDial "169.254.169.254%eth0:80" = None.
Proof.
  assert (Hport : ∀ s, bool_decide ("["%char ∉ chars s ∧ "]"%char ∉ chars s) = true → unbracketed s)
    by (intros s Hs; by apply bool_decide_eq_true in Hs).
  destruct (refuseDial_exact (Addr4 (ip4 169 254 169 254)) "80") as (H4 & _ & Hno).
  { vm_compute. split; congruence. } { discriminate. } { by apply Hport. } { by apply Hport. }
  { apply (bool_decide_eq_true_1 (_ ∉ _)). reflexivity. }
  destruct (refuseDial_exact (Addr6 (ip6 [0xfe80; 0; 0; 0; 0; 0; 0; 1]%Z) "eth0") "443") as (_ & H6 & _).
  { vm_compute. split; congruence. } { discriminate. } { by apply Hport. } { by apply Hport. }
  { apply (bool_decide_eq_true_1 (_ ∉ _)). reflexivity. }
  split_and!.
  - change "169.254.169.254:80" with (JoinHostPort "169.254.169.254" "80").
    replace "169.254.169.254" with (Addr_String (Addr4 (ip4 169 254 169 254))) by (vm_compute; reflexivity). apply H4.
    split; [constructor; vm_compute; split; congruence|by left].
  - assert (E : "[fe80::1%eth0]:443" = JoinHostPort (Addr_String (Addr6 (ip6 [0xfe80; 0; 0; 0; 0; 0; 0; 1]%Z) "eth0")) "443")
      by (vm_compute; reflexivity).
    rewrite E. apply H6. intros [_ [Hz|Hz]]; vm_compute in Hz; discriminate.
  - change "169.254.169.254%eth0:80" with (JoinHostPort "169.254.169.254%eth0" "80").
    apply Hno; [by apply Hport|vm_compute; reflexivity].
Defined.
