(* ===== verification/Http.v ===== *)
(** * net/http as the adapters use it, and [decodeCapped] of internal/adapters/responses.go

    An adapter's call to its client is a computation [M W A]: it takes the world (the clients behind
    their endpoints, the cookie jars), and returns a result or an error with the world after it.
    [Do], the cookies of a jar and the decoding of a JSON value are not the program's own: the
    classes [HttpWorld] and [Decodes] carry them; Answers.v has the instances of [Decodes] for the
    structs the adapters declare. *)

From S2P Require Import Prelude GoStrings GoUrl Responses Endpoint Base64.
From Stdlib Require Import Ascii.

(** ** Computations *)

Definition M (W A : Type) : Type := W → result error A * W.

Definition mret_ {W A} (x : A) : M W A := λ w, (Ok x, w).
Definition mfail {W A} (e : error) : M W A := λ w, (Err e, w).
Definition mbind_ {W A B} (m : M W A) (k : A → M W B) : M W B :=
  λ w, match m w with (Ok x, w) => k x w | (Err e, w) => (Err e, w) end.

(** A result computed without the world. *)
Definition mlift {W A} (r : result error A) : M W A := λ w, (r, w).

Notation "'let!' x := m 'in' k" := (mbind_ m (λ x, k))
  (at level 10, x pattern, m at level 100, k at level 200) : gw_scope.

(** [(x, err)] without leaving the function: the error becomes a value. *)
Definition mtry {W A} (m : M W A) : M W (result error A) := λ w, let (r, w) := m w in (Ok r, w).

(** ** Requests and responses *)

Record Request := MkRequest {
  rq_Method : string;
  rq_URL : string;
  rq_Header : list (string * string);
  rq_Body : string;
  rq_ContentLength : Z
}.

(** A response body: its bytes, and the error that ends it when the connection breaks. *)
Record Body := MkBody { b_data : string; b_err : option error }.

Record Response := MkResponse { rs_StatusCode : Z; rs_Body : Body }.

(** Bytes that can be decoded as a JSON value of [T], with how many were read, and a whole text. *)
Class Decodes (T : Type) := {
  Decode : Body → result error T * Z;
  Unmarshal : string → result error T
}.

Class HttpWorld (W : Type) := {
  Do : HttpClient → Request → W → result error Response * W;
  Cookies : HttpClient → URL → W → list (string * string);
  parse_cause : string → error     (* why [url.Parse] refuses a string it refuses *)
}.

Definition StatusOK : Z := 200.
Definition StatusForbidden : Z := 403.
Definition StatusNotFound : Z := 404.

Section http.
Context {W : Type} `{HttpWorld W}.

(** [http.NewRequestWithContext]: it fails when the URL does not parse. *)
Definition NewRequest (method url : string) (header : list (string * string)) (body : string) : result error Request :=
  match Parse url with
  | None => Err (UrlError "parse" url (parse_cause url))
  | Some _ => Ok (MkRequest method url header body (len body))
  end.

Definition send_request (c : HttpClient) (method url : string) (header : list (string * string)) (body : string) :
    M W Response :=
  match NewRequest method url header body with
  | Err e => mfail e
  | Ok req => Do c req
  end.
End http.

(** [io.LimitReader(body, n)]. *)
Definition LimitReader (n : nat) (b : Body) : Body :=
  if (n <=? length (chars (b_data b)))%nat then MkBody (str (take n (chars (b_data b)))) None else b.

(** [b, _ := io.ReadAll(io.LimitReader(resp.Body, maxErrorDetail))]. *)
Definition read_excerpt (b : Body) : string := b_data (LimitReader maxErrorDetail b).

(** [newStatusError(op, resp)]. *)
Definition status_error (op : string) (resp : Response) : error :=
  newStatusError op (rs_StatusCode resp) (b_data (rs_Body resp)).

Definition err_capped (limit : Z) : error :=
  ErrorString ("response exceeds " +:+ Itoa (Z.shiftr limit 20) +:+ " MiB").

(** [decodeCapped(r, limit, v)]. *)
Definition decodeCapped {T} `{Decodes T} (b : Body) (limit : Z) : result error T :=
  match Decode (LimitReader (Z.to_nat (limit + 1)) b) with
  | (Ok v, _) => Ok v
  | (Err e, read) => if (limit + 1 - read <=? 0)%Z then Err (err_capped limit) else Err e
  end.

(** [SetBasicAuth]. *)
Definition basic_auth (user pass : string) : string * string :=
  ("Authorization", "Basic " +:+ EncodeToString (user +:+ ":" +:+ pass)).
