(* ===== verification/NZBGet.v ===== *)
(** * internal/adapters/nzbget.go: the NZBGet adapter

    JSON-RPC over HTTP: [call] and [send], the streamed upload ([appendContent], [base64Reader]),
    the folds of the queue and of the history into a [JobView], and every operation of the adapter.
    What NZBGet answers is decoded by the instances of [Decodes]. *)

From S2P Require Import Prelude GoStrings GoUrl Adapters Responses Endpoint Base64 Json Http.
From Stdlib Require Import Ascii.
#[local] Open Scope gw_scope.

Record NZBGet := MkNZBGet {
  nz_BaseURL : string;
  nz_Username : string;
  nz_Password : string;
  nz_Category : string;
  nz_HTTP : HttpClient
}.

(** [ptr] is the address of the new [http.Client]. *)
Definition NewNZBGet (ptr : nat) (baseURL user pass category : string) : NZBGet :=
  MkNZBGet (TrimRightByte baseURL "/"%char) user pass category
    (MkHttpClient ptr 30 false DefaultTransport DefaultRedirect).

Definition NZBGet_Name : string := "nzbget".

(** ** What NZBGet answers *)

Record rpc_reply := MkRpcReply { rpc_Result : string; rpc_Error : option string }.

Record nzbGroup := MkNzbGroup {
  g_NZBID : Z;
  g_NZBName : string;
  g_Status : string;
  g_FileSizeMB : Z; g_FileSizeLo : Z; g_FileSizeHi : Z;
  g_DownloadedSizeMB : Z; g_DownloadedSizeLo : Z; g_DownloadedSizeHi : Z;
  g_RemainingSizeMB : Z; g_RemainingSizeLo : Z; g_RemainingSizeHi : Z;
  g_DownloadRate : Z;
  g_Health : Z;
  g_CriticalHealth : Z;
  g_PostStageProgress : Z
}.

Record nzbHistory := MkNzbHistory {
  h_NZBID : Z;
  h_Name : string;
  h_Status : string;
  h_DestDir : string;
  h_FileSizeMB : Z
}.

Record nzbOwned := MkNzbOwned { o_NZBID : Z; o_NZBName : string; o_Category : string }.

Record nzbStatus := MkNzbStatus {
  ns_DownloadRate : Z;
  ns_ServerPaused : bool;
  ns_Download2Paused : bool;
  ns_FreeDiskSpaceLo : Z;
  ns_FreeDiskSpaceHi : Z;
  ns_FreeDiskSpaceMB : Z;
  ns_RemainingSizeMB : Z;
  ns_PostJobCount : Z;
  ns_ArticleCacheMB : Z;
  ns_QuotaReached : bool;
  ns_NewsServers : list (Z * bool)     (* id, active *)
}.

(** ** Folds *)

Definition exact64 (lo hi mb : Z) : Z :=
  let v := Z.lor (int64 (Z.shiftl hi 32)) (Z.land lo 0xFFFFFFFF) in
  if (0 <? v)%Z then v else int64 (int64 (mb * 1024) * 1024).

Definition foldNZBGroup (g : nzbGroup) : JobView :=
  let remaining := exact64 (g_RemainingSizeLo g) (g_RemainingSizeHi g) (g_RemainingSizeMB g) in
  let eta := if (0 <? g_DownloadRate g)%Z then go_div remaining (g_DownloadRate g) else (-1)%Z in
  let state := if bool_decide (g_Status g = "QUEUED") || bool_decide (g_Status g = "PAUSED")
               then StatusQueued else StatusDownloading in
  MkJobView state (g_Status g) (g_NZBName g)
    (exact64 (g_DownloadedSizeLo g) (g_DownloadedSizeHi g) (g_DownloadedSizeMB g))
    (exact64 (g_FileSizeLo g) (g_FileSizeHi g) (g_FileSizeMB g))
    (g_DownloadRate g) eta [] EmptyString (-1) (-1) (g_Health g).

Definition foldNZBHistory (h : nzbHistory) : JobView :=
  let total := int64 (int64 (h_FileSizeMB h * 1024) * 1024) in
  if HasPrefix (h_Status h) "SUCCESS" then
    MkJobView StatusCompleted (h_Status h) (h_Name h) total total 0 (-1)
      (if bool_decide (h_DestDir h = EmptyString) then [] else [h_DestDir h]) EmptyString (-1) (-1) (-1)
  else if HasPrefix (h_Status h) "DELETED" then
    MkJobView StatusFailed (h_Status h) (h_Name h) 0 total 0 (-1) [] ("removed: " +:+ h_Status h) (-1) (-1) (-1)
  else
    MkJobView StatusFailed (h_Status h) (h_Name h) 0 total 0 (-1) [] ("nzbget: " +:+ h_Status h) (-1) (-1) (-1).

(** ** [base64Reader] *)

Record base64Reader := MkBase64Reader { br_src : list ascii; br_out : list ascii }.

Definition base64Chunk : Z := Z.shiftl 48 10.

(** [Read(p)] with a buffer of [p] bytes: the bytes copied, [None] at the end. *)
Definition Read (p : nat) (r : base64Reader) : option (list ascii * base64Reader) :=
  match br_out r, br_src r with
  | [], [] => None
  | [], src =>
      let n := Nat.min (length src) (Z.to_nat base64Chunk) in
      let out := b64 (take n src) in
      Some (take p out, MkBase64Reader (drop n src) (drop p out))
  | out, src => Some (take p out, MkBase64Reader src (drop p out))
  end.

(** Reading to the end with buffers of [sizes i], [sizes (i + 1)], ... bytes. *)
Fixpoint drain (fuel : nat) (sizes : nat → nat) (i : nat) (r : base64Reader) : option (list ascii) :=
  match fuel with
  | O => None
  | S fuel =>
      match Read (sizes i) r with
      | None => Some []
      | Some (got, r') => (λ rest, got ++ rest) <$> drain fuel sizes (S i) r'
      end
  end.

(** ** Calls *)

(** The text [json.Marshal] gives for [map[string]any{"method": ..., "params": ..., "id": 1}]; a call
    without arguments has nil [params]. *)
Definition rpc_body (method : string) (params : list json) : string :=
  json_text (JObj [("id", JInt 1); ("method", JStr method);
                   ("params", match params with [] => JNull | _ => JArr params end)]).

Section nzbget.
Context {W : Type} `{HttpWorld W} `{Quote}.
Context `{Decodes rpc_reply} `{Decodes Z} `{Decodes string} `{Decodes (list nzbGroup)} `{Decodes (list nzbHistory)}
  `{Decodes (list nzbOwned)} `{Decodes nzbStatus}.

(** [send(method, length, body)]: [body] is what the readers the caller hands over give. *)
Definition send (n : NZBGet) (method : string) (length_ : Z) (body : string) : M W string :=
  let header := ("Content-Type", "application/json") ::
                (if bool_decide (nz_Username n = EmptyString) then []
                 else [basic_auth (nz_Username n) (nz_Password n)]) in
  match NewRequest "POST" (nz_BaseURL n +:+ "/jsonrpc") header body with
  | Err e => mfail e
  | Ok req =>
      let! resp := Do (nz_HTTP n) (MkRequest (rq_Method req) (rq_URL req) (rq_Header req) (rq_Body req) length_) in
      if negb (rs_StatusCode resp =? StatusOK)%Z then mfail (status_error ("nzbget " +:+ method) resp)
      else
        let limit := if bool_decide (method = "listgroups") || bool_decide (method = "history")
                     then maxListResponse else maxResponse in
        let! rpc := mlift (decodeCapped (T := rpc_reply) (rs_Body resp) limit) in
        match rpc_Error rpc with
        | Some msg => mfail (ErrorString ("nzbget " +:+ method +:+ ": " +:+ truncate msg maxErrorDetail))
        | None => mret_ (rpc_Result rpc)
        end
  end.

Definition call (n : NZBGet) (method : string) (params : list json) : M W string :=
  let body := rpc_body method params in
  send n method (len body) body.

(** [appendContent]: [head], the content through [base64Reader] with the transport's buffers, [end]. *)
Definition append_head (filename : string) : string :=
  str (["{"; quote_char; "i"; "d"; quote_char; ":"; "1"; ","; quote_char; "m"; "e"; "t"; "h"; "o"; "d"; quote_char; ":";
        quote_char; "a"; "p"; "p"; "e"; "n"; "d"; quote_char; ","; quote_char; "p"; "a"; "r"; "a"; "m"; "s"; quote_char;
        ":"; "["] ++ chars (json_string filename) ++ [","; quote_char])%char.

Definition append_end (rest : list json) : string :=
  str ([quote_char; ","%char] ++ drop 1 (chars (json_text (JArr rest))) ++ ["}"%char]).

Definition appendContent (sizes : nat → nat) (n : NZBGet) (filename content : string) (rest : list json) : M W string :=
  let head := append_head filename in
  let end_ := append_end rest in
  let length_ := (len head + EncodedLen (len content) + len end_)%Z in
  let encoded := default [] (drain (S (length (b64 (chars content)))) sizes 0 (MkBase64Reader (chars content) [])) in
  send n "append" length_ (head +:+ str encoded +:+ end_).

Definition Add (sizes : nat → nat) (n : NZBGet) (j : Job) : M W string :=
  let name := TrimSpace (Job_Title j) in
  let name := if bool_decide (name = EmptyString) then "download" else name in
  let category := if bool_decide (Job_Category j = EmptyString) then nz_Category n else Job_Category j in
  let rest := [JStr category; JInt 0; JBool false; JBool false; JStr EmptyString; JInt 0; JStr "FORCE"] in
  let! res :=
    (if (0 <? len (Job_Payload j))%Z
     then appendContent sizes n (payloadFileName (Job_PayloadName j) name ".nzb") (Job_Payload j) rest
     else call n "append" (JStr (name +:+ ".nzb") :: JStr (Job_Source j) :: rest)) in
  match Unmarshal (T := Z) res with
  | Err _ => mfail (ErrorString ("nzbget append: bad result " +:+ res))
  | Ok nzbID =>
      if (nzbID <=? 0)%Z then mfail (ErrorString ("nzbget append rejected the source (id=" +:+ Itoa nzbID +:+ ")"))
      else mret_ (Itoa nzbID)
  end.

(** One list of [Describe]: its error, or the entries. *)
Definition fetch {T} `{Decodes T} (n : NZBGet) (method : string) (arg : json) : M W T :=
  let! res := call n method [arg] in mlift (Unmarshal (T := T) res).

Definition Describe (n : NZBGet) (id : string) : M W JobView :=
  let want := (Atoi id).1 in
  let! groups := mtry (fetch (T := list nzbGroup) n "listgroups" (JInt 0)) in
  match (match groups with Ok gs => List.find (λ g, g_NZBID g =? want)%Z gs | Err _ => None end) with
  | Some g => mret_ (foldNZBGroup g)
  | None =>
      let! hist := mtry (fetch (T := list nzbHistory) n "history" (JBool false)) in
      match (match hist with Ok hs => List.find (λ h, h_NZBID h =? want)%Z hs | Err _ => None end) with
      | Some h => mret_ (foldNZBHistory h)
      | None =>
          match groups, hist with
          | Err e, _ | Ok _, Err e => mfail (WrapError ("nzbget describe " +:+ id) e)
          | Ok _, Ok _ => mret_ NotFoundView
          end
      end
  end.

Definition Status_ (n : NZBGet) (id : string) : M W Status :=
  let! v := Describe n id in mret_ (v_State v).

Definition edit (n : NZBGet) (id command : string) : M W unit :=
  match Atoi id with
  | (_, Some _) => mfail (ErrorString ("nzbget " +:+ command +:+ ": bad id " +:+ quote id))
  | (want, None) =>
      let! _ := call n "editqueue" [JStr command; JInt 0; JStr EmptyString; JArr [JInt want]] in mret_ tt
  end.

Definition Pause (n : NZBGet) (id : string) : M W unit := edit n id "GroupPause".
Definition Resume (n : NZBGet) (id : string) : M W unit := edit n id "GroupResume".

Definition err_not_nzbget : error := ErrorString "nzbget version: the endpoint did not answer like NZBGet".

Definition bad_version_rune (r : Z) : bool :=
  (r <=? 0x20)%Z || (r =? 0x3C)%Z || (r =? 0x3E)%Z || (r =? 0x7B)%Z.

Definition Probe (n : NZBGet) : M W string :=
  let! res := call n "version" [] in
  match Unmarshal (T := string) res with
  | Err _ => mfail err_not_nzbget
  | Ok version =>
      if bool_decide (version = EmptyString) || (32 <? len version)%Z || ContainsFunc version bad_version_rune
      then mfail err_not_nzbget else mret_ version
  end.

Definition status_view (st : nzbStatus) : ClientStatus :=
  let free := exact64 (ns_FreeDiskSpaceLo st) (ns_FreeDiskSpaceHi st) (ns_FreeDiskSpaceMB st) in
  let active := Z.of_nat (length (List.filter snd (ns_NewsServers st))) in
  let detail : gmap string string :=
    <["news_servers_active" := Itoa active +:+ "/" +:+ Itoa (Z.of_nat (length (ns_NewsServers st)))]>
      (<["post_jobs" := Itoa (ns_PostJobCount st)]> ∅) in
  MkClientStatus EmptyString EmptyString NZBGet_Name true EmptyString (ns_DownloadRate st) 0
    (ns_ServerPaused st || ns_Download2Paused st) (Some free)
    (if ns_QuotaReached st then <["quota" := "reached"]> detail else detail).

Definition failed_status (name err : string) : ClientStatus :=
  MkClientStatus EmptyString EmptyString name false err 0 0 false None ∅.

(** [ClientStatus] never fails: an error is reported in the status. *)
Definition ClientStatus_ (n : NZBGet) (w : W) : ClientStatus * W :=
  match call n "status" [] w with
  | (Err e, w) => (failed_status NZBGet_Name (PublicError (Some e)), w)
  | (Ok res, w) =>
      match Unmarshal (T := nzbStatus) res with
      | Err e => (failed_status NZBGet_Name (Error_text e), w)
      | Ok st => (status_view st, w)
      end
  end.

Definition Adopt (n : NZBGet) : M W (list AdoptedJob) :=
  if bool_decide (nz_Category n = EmptyString) then mret_ []
  else
    let! groups := fetch (T := list nzbOwned) n "listgroups" (JInt 0) in
    mret_ ((λ g, MkAdoptedJob (Itoa (o_NZBID g)) (o_NZBName g)) <$>
             filter (λ g, o_Category g = nz_Category n) groups).

Definition Remove (n : NZBGet) (id : string) : M W unit :=
  match Atoi id with
  | (_, Some _) => mfail (ErrorString ("nzbget remove: bad id " +:+ quote id))
  | (want, None) =>
      let params command := [JStr command; JInt 0; JStr EmptyString; JArr [JInt want]] in
      let! first := mtry (call n "editqueue" (params "GroupFinalDelete")) in
      match first with
      | Ok _ => mret_ tt
      | Err _ => let! _ := call n "editqueue" (params "HistoryDelete") in mret_ tt
      end
  end.
End nzbget.

(** ** Facts about the streamed upload *)

Lemma chunk_mod3 : (Z.to_nat base64Chunk mod 3 = 0)%nat.
Proof. apply Nat2Z.inj. rewrite Nat2Z.inj_mod, Z2Nat.id by done. reflexivity. Qed.

Lemma chunk_pos : (0 < Z.to_nat base64Chunk)%nat.
Proof. change base64Chunk with 49152%Z. lia. Qed.

(** What a reader has still to give. *)
Definition content_of (r : base64Reader) : list ascii := br_out r ++ b64 (br_src r).

Lemma b64_nil_inv l : b64 l = [] → l = [].
Proof. by destruct l as [|? [|? [|? ?]]]. Qed.

(** One chunk: the encoding of the source splits after it. *)
Lemma b64_chunk src :
  let n := Nat.min (length src) (Z.to_nat base64Chunk) in b64 src = b64 (take n src) ++ b64 (drop n src).
Proof.
  cbn zeta. set (n := Nat.min _ _). rewrite <- (take_drop n src) at 1.
  destruct (decide (length src ≤ Z.to_nat base64Chunk)%nat) as [Hle|Hgt].
  - assert (n = length src) as -> by lia. by rewrite drop_all, !app_nil_r, firstn_all.
  - apply b64_app. rewrite length_take. replace (Nat.min n (length src)) with (Z.to_nat base64Chunk) by lia.
    apply chunk_mod3.
Qed.

(** A read with a non-empty buffer makes progress and loses nothing. *)
Lemma Read_step p r :
  (0 < p)%nat → content_of r ≠ [] →
  ∃ got r', Read p r = Some (got, r') ∧ got ≠ [] ∧ content_of r = got ++ content_of r'.
Proof.
  intros Hp Hne. destruct r as [src out]. unfold content_of in *. cbn [br_src br_out] in *. unfold Read. cbn [br_src br_out].
  destruct out as [|c out].
  - destruct src as [|a src]; [done|]. eexists _, _. split; [reflexivity|]. cbn [br_src br_out].
    pose proof (b64_chunk (a :: src)) as Hb. cbn zeta in Hb. pose proof chunk_pos.
    assert (Hn : (0 < Nat.min (length (a :: src)) (Z.to_nat base64Chunk))%nat) by (cbn [length]; lia).
    set (n := Nat.min _ _) in *. clearbody n. split.
    + destruct n as [|n]; [lia|]. cbn [take]. destruct p as [|p]; [lia|].
      destruct (b64 (a :: take n src)) as [|x l] eqn:E; [|done]. by apply b64_nil_inv in E.
    + cbn [app]. by rewrite app_assoc, take_drop.
  - eexists _, _. split; [reflexivity|]. cbn [br_src br_out]. split; [by destruct p; [lia|]|].
    by rewrite app_assoc, take_drop.
Qed.

Lemma Read_end p r : content_of r = [] → Read p r = None.
Proof.
  destruct r as [src out]. unfold content_of. cbn. intros [-> Hb]%app_eq_nil. apply b64_nil_inv in Hb as ->. done.
Qed.

Lemma drain_content fuel sizes : (∀ i, 0 < sizes i)%nat → ∀ i r,
  (length (content_of r) < fuel)%nat → drain fuel sizes i r = Some (content_of r).
Proof.
  intros Hs. induction fuel as [|fuel IH]; intros i r Hf; [lia|]. cbn [drain].
  destruct (content_of r) as [|c l] eqn:E; [by rewrite Read_end|].
  destruct (Read_step (sizes i) r (Hs i)) as (got & r' & -> & Hg & Hc); [by rewrite E|].
  rewrite E in Hc. rewrite (IH (S i) r').
  - cbn. by rewrite Hc.
  - apply (f_equal length) in Hc. rewrite length_app in Hc. destruct got; [done|]. simpl in *. lia.
Qed.

Lemma drain_all sizes src :
  (∀ i, 0 < sizes i)%nat → drain (S (length (b64 src))) sizes 0 (MkBase64Reader src []) = Some (b64 src).
Proof. intros Hs. rewrite (drain_content _ _ Hs); unfold content_of; cbn; [done|lia]. Qed.

Lemma Join_cons a b l sep : Join (a :: b :: l) sep = a +:+ sep +:+ Join (b :: l) sep.
Proof. reflexivity. Qed.

Lemma json_arr_text l : chars (json_text (JArr l)) = "["%char :: chars (Join (json_text <$> l) ",") ++ ["]"%char].
Proof.
  change (json_text (JArr l)) with ("[" +:+ Join (json_text <$> l) "," +:+ "]"). by rewrite !chars_app.
Qed.

(** The text of the three parts is the text [json.Marshal] gives. *)
Lemma append_parts filename content rest :
  rest ≠ [] →
  chars (rpc_body "append" (JStr filename :: JStr (EncodeToString content) :: rest)) =
  chars (append_head filename) ++ b64 (chars content) ++ chars (append_end rest).
Proof.
  intros Hr. destruct rest as [|x rest]; [done|]. unfold rpc_body, append_head, append_end.
  rewrite !chars_str, (json_arr_text (x :: rest)), skipn_cons, drop_0.
  set (params := JArr (JStr filename :: JStr (EncodeToString content) :: x :: rest)).
  change (json_text (JObj [("id", JInt 1); ("method", JStr "append"); ("params", params)])) with
    ("{" +:+ ((json_string "id" +:+ ":" +:+ Itoa 1) +:+ "," +:+ ((json_string "method" +:+ ":" +:+ json_string "append") +:+
     "," +:+ (json_string "params" +:+ ":" +:+ json_text params))) +:+ "}").
  rewrite !chars_app. unfold params. rewrite json_arr_text.
  change (json_text <$> JStr filename :: JStr (EncodeToString content) :: x :: rest) with
    (json_string filename :: json_string (EncodeToString content) :: (json_text <$> x :: rest)).
  rewrite Join_cons. change (json_text <$> x :: rest) with (json_text x :: (json_text <$> rest)) at 1.
  rewrite Join_cons. change (json_text x :: (json_text <$> rest)) with (json_text <$> x :: rest).
  set (J := Join (json_text <$> x :: rest) ","). clearbody J.
  assert (E1 : chars (json_string "id") = [quote_char; "i"; "d"; quote_char]%char) by (vm_compute; reflexivity).
  assert (E2 : chars (json_string "method") = [quote_char; "m"; "e"; "t"; "h"; "o"; "d"; quote_char]%char) by (vm_compute; reflexivity).
  assert (E3 : chars (json_string "params") = [quote_char; "p"; "a"; "r"; "a"; "m"; "s"; quote_char]%char) by (vm_compute; reflexivity).
  assert (E4 : chars (json_string "append") = [quote_char; "a"; "p"; "p"; "e"; "n"; "d"; quote_char]%char) by (vm_compute; reflexivity).
  assert (E5 : chars (Itoa 1) = ["1"%char]) by (vm_compute; reflexivity).
  rewrite !chars_app, E1, E2, E3, E4, E5, json_string_b64.
  change (chars "{") with ["{"%char]. change (chars ":") with [":"%char]. change (chars ",") with [","%char].
  change (chars "}") with ["}"%char].
  repeat (rewrite <- !app_assoc; cbn [app]). reflexivity.
Qed.

(** ** Facts about [Describe] *)

Lemma find_some_spec {A} (f : A → bool) l x : List.find f l = Some x → x ∈ l ∧ f x = true.
Proof. intros Hf. apply List.find_some in Hf as [Hin Hx]. split; [by apply list_elem_of_In|done]. Qed.

Lemma find_none_spec {A} (f : A → bool) l x : List.find f l = None → x ∈ l → f x = false.
Proof. intros Hf Hin. eapply List.find_none; [exact Hf|by apply list_elem_of_In]. Qed.

(** A state the gateway stops tracking a job at. *)
Definition ended_state (s : Status) : bool :=
  match s with StatusCompleted | StatusFailed => true | _ => false end.

Lemma foldNZBGroup_known g : foldNZBGroup g ≠ NotFoundView.
Proof.
  intros E. pose proof (f_equal v_State E) as Es. pose proof (f_equal v_NativeState E) as En. unfold foldNZBGroup in *. cbn in Es, En.
  rewrite En in Es. by vm_compute in Es.
Qed.

Lemma foldNZBGroup_running g : ended_state (v_State (foldNZBGroup g)) = false.
Proof. unfold foldNZBGroup. cbn [v_State]. by destruct (_ || _). Qed.

Lemma foldNZBHistory_ended h : ended_state (v_State (foldNZBHistory h)) = true.
Proof. unfold foldNZBHistory. destruct (HasPrefix _ "SUCCESS"); [done|]. by destruct (HasPrefix _ "DELETED"). Qed.

Section nzbget_facts.
Context {W : Type} `{HttpWorld W} `{Quote}.
Context `{Decodes rpc_reply} `{Decodes Z} `{Decodes string} `{Decodes (list nzbGroup)} `{Decodes (list nzbHistory)}
  `{Decodes (list nzbOwned)} `{Decodes nzbStatus}.

(** What the two lists say about a job, [None] where a list could not be had. *)
Definition described (want : Z) (groups : result error (list nzbGroup)) (hist : result error (list nzbHistory))
    (v : JobView) : Prop :=
  (∃ gs hs, groups = Ok gs ∧ hist = Ok hs ∧ v = NotFoundView ∧
     (∀ g, g ∈ gs → g_NZBID g ≠ want) ∧ (∀ h, h ∈ hs → h_NZBID h ≠ want)) ∨
  (∃ hs h, hist = Ok hs ∧ h ∈ hs ∧ h_NZBID h = want ∧ v = foldNZBHistory h ∧
     (∀ gs g, groups = Ok gs → g ∈ gs → g_NZBID g ≠ want)).

Lemma Describe_cases n id w :
  let want := (Atoi id).1 in
  let (groups, w1) := fetch (T := list nzbGroup) n "listgroups" (JInt 0) w in
  let (hist, w2) := fetch (T := list nzbHistory) n "history" (JBool false) w1 in
  (∃ gs g, groups = Ok gs ∧ g ∈ gs ∧ g_NZBID g = want ∧ Describe n id w = (Ok (foldNZBGroup g), w1)) ∨
  (∃ v, described want groups hist v ∧ Describe n id w = (Ok v, w2)) ∨
  (∃ e, (groups = Err e ∨ hist = Err e) ∧ Describe n id w = (Err (WrapError ("nzbget describe " +:+ id) e), w2)).
Proof.
  cbn zeta. unfold Describe, mbind_, mtry, mret_, mfail.
  destruct (fetch (T := list nzbGroup) n "listgroups" (JInt 0) w) as [groups w1].
  destruct (match groups with Ok gs => List.find (λ g, g_NZBID g =? (Atoi id).1)%Z gs | Err _ => None end) as [g|] eqn:Hg.
  - destruct (fetch n "history" (JBool false) w1) as [hist w2]. left. destruct groups as [gs|]; [|done].
    apply find_some_spec in Hg as [Hin Hid]. apply Z.eqb_eq in Hid. by exists gs, g.
  - destruct (fetch n "history" (JBool false) w1) as [hist w2]. right.
    assert (Hng : ∀ gs g, groups = Ok gs → g ∈ gs → g_NZBID g ≠ (Atoi id).1).
    { intros gs g -> Hin E. apply (find_none_spec _ _ _ Hg) in Hin. apply Z.eqb_neq in Hin. congruence. }
    destruct (match hist with Ok hs => List.find (λ h, h_NZBID h =? (Atoi id).1)%Z hs | Err _ => None end) as [h|] eqn:Hh.
    + left. destruct hist as [hs|]; [|done]. apply find_some_spec in Hh as [Hin Hid]. apply Z.eqb_eq in Hid.
      exists (foldNZBHistory h). split; [|done]. right. by exists hs, h.
    + destruct groups as [gs|e]; [|right; exists e; by auto]. destruct hist as [hs|e]; [|right; exists e; by auto].
      left. exists NotFoundView. split; [|done]. left. exists gs, hs. split_and!; try done.
      * intros g Hin. by apply (Hng gs).
      * intros h Hin E. apply (find_none_spec _ _ _ Hh) in Hin. apply Z.eqb_neq in Hin. congruence.
Qed.

(** An outage never looks like a deleted job.  [Describe] answers that NZBGet does not know the job
    only when both the queue and the history were had and neither lists it; a job in the queue is
    never reported as ended, a job in the history always is; when a list that could have held the
    job was not had, the answer is an error naming the job. *)
Lemma Describe_sound n id w :
  let want := (Atoi id).1 in
  let (groups, w1) := fetch (T := list nzbGroup) n "listgroups" (JInt 0) w in
  let (hist, w2) := fetch (T := list nzbHistory) n "history" (JBool false) w1 in
  (∃ gs g, groups = Ok gs ∧ g ∈ gs ∧ g_NZBID g = want ∧ Describe n id w = (Ok (foldNZBGroup g), w1) ∧
     ended_state (v_State (foldNZBGroup g)) = false) ∨
  (∃ v, described want groups hist v ∧ Describe n id w = (Ok v, w2) ∧
     (ended_state (v_State v) = false → v = NotFoundView)) ∨
  (∃ e, (groups = Err e ∨ hist = Err e) ∧ Describe n id w = (Err (WrapError ("nzbget describe " +:+ id) e), w2)).
Proof.
  pose proof (Describe_cases n id w) as Hc. cbn zeta in *.
  destruct (fetch n "listgroups" (JInt 0) w) as [groups w1]. destruct (fetch n "history" (JBool false) w1) as [hist w2].
  destruct Hc as [(gs & g & Hc)|[(v & Hd & Hc)|Hc]]; [left|right; left|by right; right].
  - exists gs, g. destruct Hc as (? & ? & ? & ?). by rewrite foldNZBGroup_running.
  - exists v. split_and!; [done|done|]. destruct Hd as [(gs & hs & _ & _ & -> & _)|(hs & h & _ & _ & _ & -> & _)]; [done|].
    by rewrite foldNZBHistory_ended.
Qed.

(** An answer that says the job is not known was made from both lists, and neither has its number. *)
Lemma Describe_unknown n id w w' :
  Describe n id w = (Ok NotFoundView, w') →
  ∃ gs hs w1, fetch (T := list nzbGroup) n "listgroups" (JInt 0) w = (Ok gs, w1) ∧
    fetch (T := list nzbHistory) n "history" (JBool false) w1 = (Ok hs, w') ∧
    Forall (λ g, g_NZBID g ≠ (Atoi id).1) gs ∧ Forall (λ h, h_NZBID h ≠ (Atoi id).1) hs.
Proof.
  intros Hd. pose proof (Describe_cases n id w) as Hc. cbn zeta in Hc. rewrite Hd in Hc.
  destruct (fetch n "listgroups" (JInt 0) w) as [groups w1] eqn:Eg. destruct (fetch n "history" (JBool false) w1) as [hist w2] eqn:Eh.
  destruct Hc as [(gs & g & _ & _ & _ & E)|[(v & Hs & E)|(e & _ & E)]]; [|assert (v = NotFoundView ∧ w2 = w') as [-> ->] by (split; congruence); clear E|done].
  { destruct (foldNZBGroup_known g). congruence. }
  destruct Hs as [(gs & hs & -> & -> & _ & Hgs & Hhs)|(hs & h & _ & _ & _ & Ev & _)].
  - exists gs, hs, w1. by rewrite Eh, !Forall_forall.
  - pose proof (foldNZBHistory_ended h) as He. by rewrite <- Ev in He.
Qed.

(** ** Properties *)

(** C27: streaming changes nothing on the wire: whatever the sizes of the transport's buffers, the
    upload that encodes the content while it is sent is the very request that marshalling the whole
    call would send, with the same body and the same Content-Length. *)
Theorem appendContent_streams sizes n filename content rest :
  (∀ i, 0 < sizes i)%nat → rest ≠ [] →
  appendContent sizes n filename content rest =
  call n "append" (JStr filename :: JStr (EncodeToString content) :: rest).
Proof.
  intros Hs Hr. unfold appendContent, call. rewrite (drain_all sizes (chars content) Hs). cbn [default].
  set (whole := rpc_body _ _). set (parts := append_head filename +:+ str (b64 (chars content)) +:+ append_end rest).
  assert (E : parts = whole).
  { apply chars_inj. unfold parts, whole. rewrite !chars_app, chars_str. symmetry. by apply append_parts. }
  rewrite <- E. unfold Datatypes.id. fold parts. f_equal. unfold parts. rewrite !len_app.
  assert (EL : len (str (b64 (chars content))) = EncodedLen (len content)).
  { rewrite !len_chars, chars_str. apply b64_length. }
  rewrite EL. lia.
Qed.
End nzbget_facts.

(** Sizes reported as a Lo/Hi pair are exact: every size up to 2^63 - 1 bytes is rebuilt from its
    two halves, also when NZBGet prints the low half as a signed 32-bit number, and the rounded
    megabytes are only used when the pair is absent. *)
Lemma exact64_exact size mb :
  (0 < size < 2 ^ 63)%Z → (0 ≤ mb < 2 ^ 43)%Z →
  exact64 (size mod 2 ^ 32) (size / 2 ^ 32) mb = size ∧
  exact64 (size mod 2 ^ 32 - 2 ^ 32) (size / 2 ^ 32) mb = size ∧
  exact64 0 0 mb = (mb * 2 ^ 20)%Z.
Proof.
  intros Hs Hm.
  assert (Hlow : ∀ lo, (lo mod 2 ^ 32 = size mod 2 ^ 32)%Z →
    Z.lor (int64 (Z.shiftl (size / 2 ^ 32) 32)) (Z.land lo 0xFFFFFFFF) = size).
  { intros lo Hlo. assert (Hhi : (0 ≤ size / 2 ^ 32 < 2 ^ 31)%Z).
    { split; [apply Z.div_pos; lia|]. apply Z.div_lt_upper_bound; lia. }
    rewrite Z.shiftl_mul_pow2 by lia. rewrite int64_id by (unfold fits; lia).
    change 0xFFFFFFFF%Z with (Z.ones 32). rewrite Z.land_ones, Hlo by lia.
    rewrite <- Z.shiftl_mul_pow2 by lia.
    assert (Hz : Z.land (Z.shiftl (size / 2 ^ 32) 32) (size mod 2 ^ 32) = 0%Z).
    { apply Z.bits_inj'. intros k Hk. rewrite Z.land_spec, Z.bits_0, Z.shiftl_spec by done.
      destruct (Z.lt_ge_cases k 32) as [Hlt|Hge].
      - rewrite Z.testbit_neg_r by lia. done.
      - rewrite (Z.mod_pow2_bits_high size 32 k) by lia. apply andb_false_r. }
    pose proof (Z.add_lor_land (Z.shiftl (size / 2 ^ 32) 32) (size mod 2 ^ 32)) as Ha.
    rewrite Hz, Z.shiftl_mul_pow2 in Ha by lia. rewrite Z.shiftl_mul_pow2 by lia.
    pose proof (Z.div_mod size (2 ^ 32)). lia. }
  unfold exact64. rewrite !Hlow.
  - rewrite (proj2 (Z.ltb_lt 0 size)) by lia. split_and!; [done|done|].
    change (Z.lor (int64 (Z.shiftl 0 32)) (Z.land 0 0xFFFFFFFF)) with 0%Z. cbn [Z.ltb Z.compare].
    rewrite (int64_id (mb * 1024)), int64_id by (unfold fits; lia). lia.
  - replace (size mod 2 ^ 32 - 2 ^ 32)%Z with (size mod 2 ^ 32 + (-1) * 2 ^ 32)%Z by lia.
    rewrite Z.mod_add by lia. by rewrite Z.mod_mod by lia.
  - by rewrite Z.mod_mod by lia.
Qed.

Section witnesses.
#[local] Instance demo_http : HttpWorld unit := {|
  Do := λ _ _ w, (Ok (MkResponse 200 (MkBody "{}" None)), w);
  Cookies := λ _ _ _, [];
  parse_cause := λ s, ErrorString "parse"
|}.
#[local] Instance demo_nz_quote : Quote := λ s, s.
#[local] Instance demo_rpc : Decodes rpc_reply := {| Decode := λ _, (Ok (MkRpcReply "1" None), 2%Z); Unmarshal := λ _, Ok (MkRpcReply "1" None) |}.

Definition demo_nz : NZBGet := NewNZBGet 0 "http://nzbget:6789/" "u" "p" "tv".

Lemma appendContent_streams_witness :
  appendContent (λ _, 2%nat) demo_nz "a.nzb" "foobar" [JInt 0] tt =
  call demo_nz "append" [JStr "a.nzb"; JStr "Zm9vYmFy"; JInt 0] tt ∧
  (appendContent (λ _, 2%nat) demo_nz "a.nzb" "foobar" [JInt 0] tt).1 = Ok "1".
Proof.
  rewrite (appendContent_streams (λ _, 2%nat) demo_nz "a.nzb" "foobar" [JInt 0]); [|lia|done].
  split; vm_compute; reflexivity.
Defined.

Lemma exact64_exact_witness : exact64 (6 * 2 ^ 30 mod 2 ^ 32) (6 * 2 ^ 30 / 2 ^ 32) 0 = (6 * 2 ^ 30)%Z.
Proof. apply (exact64_exact (6 * 2 ^ 30) 0); split; reflexivity || discriminate. Defined.
End witnesses.
