(* ===== verification/ODownloader.v ===== *)
(** * internal/adapters/odownloader.go

    The oDownloader adapter: its requests, the fold of a package's links into one [JobView], and its
    operations. *)

From S2P Require Import Prelude GoStrings GoUrl Adapters Responses Endpoint Json Http.
#[local] Open Scope gw_scope.

Record ODownloader := MkODownloader {
  od_BaseURL : string;
  od_Token : string;
  od_HTTP : HttpClient
}.

Definition NewODownloader (ptr : nat) (baseURL token : string) : ODownloader :=
  MkODownloader baseURL token (MkHttpClient ptr 20 false DefaultTransport DefaultRedirect).

Definition ODownloader_Name : string := "odownloader".

Record odlAddResult := MkOdlAddResult {
  oar_PackageID : string;
  oar_DownloadIDs : list string;
  oar_Rejected : list string
}.

Record odlDownloadView := MkOdlDownloadView {
  odl_ID : string;
  odl_PackageID : string;
  odl_Name : string;
  odl_BytesDone : Z;
  odl_BytesTotal : Z;
  odl_SpeedBytesPerSecond : Z;
  odl_EtaSeconds : option Z;
  odl_State : string;
  odl_Message : string;
  odl_OutputPath : string
}.

Record odlPage := MkOdlPage { odl_Content : list odlDownloadView }.

(** ** The fold *)

(** The locals of the loop: the view built so far, the four flags and the files. *)
Record odl_acc := MkOdlAcc {
  oa_BytesDone : Z; oa_BytesTotal : Z; oa_SpeedBps : Z;
  oa_Title : string; oa_Message : string; oa_NativeState : string;
  oa_allFinished : bool; oa_anyRunning : bool; oa_anyFailed : bool; oa_anyStarted : bool;
  oa_files : list string
}.

Definition link_running (s : string) : bool :=
  bool_decide (s = "RUNNING") || bool_decide (s = "PAUSED") || bool_decide (s = "WAITING_FOR_CHALLENGE").

Definition link_failed (s : string) : bool := bool_decide (s = "FAILED") || bool_decide (s = "CANCELLED").

Definition odl_step (a : odl_acc) (l : odlDownloadView) : odl_acc :=
  let finished := bool_decide (odl_State l = "FINISHED") in
  let running := negb finished && link_running (odl_State l) in
  let failed := negb finished && negb running && link_failed (odl_State l) in
  MkOdlAcc
    (int64 (oa_BytesDone a + odl_BytesDone l)) (int64 (oa_BytesTotal a + odl_BytesTotal l))
    (int64 (oa_SpeedBps a + odl_SpeedBytesPerSecond l))
    (if bool_decide (oa_Title a = EmptyString) then odl_Name l else oa_Title a)
    (if bool_decide (odl_Message l = EmptyString) then oa_Message a else odl_Message l)
    (if bool_decide (oa_NativeState a = EmptyString) then odl_State l else oa_NativeState a)
    (oa_allFinished a && finished) (oa_anyRunning a || running) (oa_anyFailed a || failed)
    (oa_anyStarted a || finished || running)
    (if bool_decide (odl_OutputPath l = EmptyString) then oa_files a else oa_files a ++ [odl_OutputPath l]).

Definition odl_init : odl_acc :=
  MkOdlAcc 0 0 0 EmptyString EmptyString EmptyString true false false false [].

Definition foldODL (links : list odlDownloadView) : JobView :=
  match links with
  | [] => NotFoundView
  | _ =>
      let a := foldl odl_step odl_init links in
      let view state files :=
        MkJobView state (oa_NativeState a) (oa_Title a) (oa_BytesDone a) (oa_BytesTotal a) (oa_SpeedBps a) (-1)
          files (oa_Message a) (-1) (-1) (-1) in
      if oa_allFinished a then view StatusCompleted (oa_files a)
      else if oa_anyFailed a && negb (oa_anyRunning a) then view StatusFailed []
      else if oa_anyStarted a then view StatusDownloading []
      else view StatusQueued []
  end.

(** ** Operations *)

Section odownloader.
Context {W : Type} `{HttpWorld W}.
Context `{Decodes odlAddResult} `{Decodes odlPage}.

(** [do(method, path, body)]. *)
Definition do_ (o : ODownloader) (method path : string) (body : option json) : M W Response :=
  let header :=
    (match body with Some _ => [("Content-Type", "application/json")] | None => [] end) ++
    (if bool_decide (od_Token o = EmptyString) then [] else [("Authorization", "Bearer " +:+ od_Token o)]) ++
    [("Accept", "application/json")] in
  send_request (od_HTTP o) method (od_BaseURL o +:+ path) header
    (match body with Some v => json_text v | None => EmptyString end).

Definition not_2xx (resp : Response) : bool := negb (Z.quot (rs_StatusCode resp) 100 =? 2)%Z.

Definition err_probe : error := ErrorString "odownloader probe: the endpoint did not answer like the daemon API".

Definition Probe (o : ODownloader) : M W string :=
  let! resp := do_ o "GET" "/api/v1/downloads?size=1" None in
  if not_2xx resp then mfail (status_error "odownloader probe" resp)
  else match decodeCapped (T := odlPage) (rs_Body resp) maxResponse with
       | Err _ => mfail err_probe
       | Ok _ => mret_ EmptyString
       end.

(** [json.Marshal(odlAddRequest{...})]: a blank package name is omitted. *)
Definition odl_add_json (source title : string) : json :=
  JObj (("urls", JArr [JStr source]) ::
        (if bool_decide (title = EmptyString) then [] else [("packageName", JStr title)]) ++
        [("autostart", JBool true)]).

(** [fmt] prints a []string as its elements between blanks and brackets. *)
Definition print_strings (l : list string) : string := "[" +:+ Join l " " +:+ "]".

Definition Add (o : ODownloader) (j : Job) : M W string :=
  if (0 <? len (Job_Payload j))%Z then mfail ErrPayloadUnsupported
  else
    let! resp := do_ o "POST" "/api/v1/links/add" (Some (odl_add_json (Job_Source j) (Job_Title j))) in
    if not_2xx resp then mfail (status_error "odownloader add" resp)
    else
      let! out := mlift (decodeCapped (T := odlAddResult) (rs_Body resp) maxResponse) in
      if bool_decide (oar_PackageID out = EmptyString)
      then mfail (ErrorString ("odownloader add: empty packageId (rejected=" +:+ print_strings (oar_Rejected out) +:+ ")"))
      else mret_ (oar_PackageID out).

Definition describe_path (packageID : string) : string :=
  "/api/v1/downloads?packageId=" +:+ QueryEscape packageID +:+ "&size=1000".

Definition Describe (o : ODownloader) (packageID : string) : M W JobView :=
  let! resp := do_ o "GET" (describe_path packageID) None in
  if not_2xx resp then mfail (status_error "odownloader describe" resp)
  else
    let! page := mlift (decodeCapped (T := odlPage) (rs_Body resp) maxListResponse) in
    mret_ (foldODL (odl_Content page)).

Definition Status_ (o : ODownloader) (packageID : string) : M W Status :=
  let! v := Describe o packageID in mret_ (v_State v).

Definition remove_path (packageID : string) : string := "/api/v1/packages/" +:+ PathEscape packageID.

Definition Remove (o : ODownloader) (packageID : string) : M W unit :=
  let! resp := do_ o "DELETE" (remove_path packageID) None in
  if not_2xx resp && negb (rs_StatusCode resp =? StatusNotFound)%Z
  then mfail (status_error "odownloader remove" resp)
  else mret_ tt.
End odownloader.

(** ** Facts about the fold *)

Definition finished (l : odlDownloadView) : bool := bool_decide (odl_State l = "FINISHED").
Definition running (l : odlDownloadView) : bool := link_running (odl_State l).
Definition failed (l : odlDownloadView) : bool := link_failed (odl_State l).

Lemma running_not_finished l : running l = true → finished l = false.
Proof.
  unfold running, finished, link_running. rewrite !orb_true_iff, !bool_decide_eq_true, bool_decide_eq_false.
  by intros [[->| ->]| ->].
Qed.

Lemma failed_alone l : failed l = true → finished l = false ∧ running l = false.
Proof.
  unfold failed, running, finished, link_failed, link_running.
  rewrite !orb_true_iff, !orb_false_iff, !bool_decide_eq_true, !bool_decide_eq_false.
  by intros [->| ->].
Qed.

(** The flags of the loop are quantifications over the links. *)
Lemma odl_flags links a :
  let b := foldl odl_step a links in
  oa_allFinished b = oa_allFinished a && forallb finished links ∧
  oa_anyRunning b = oa_anyRunning a || existsb running links ∧
  oa_anyFailed b = oa_anyFailed a || existsb failed links ∧
  oa_anyStarted b = oa_anyStarted a || existsb (λ l, finished l || running l) links.
Proof.
  revert a. induction links as [|l links IH]; intros a; cbn zeta.
  - cbn. by rewrite andb_true_r, !orb_false_r.
  - cbn [foldl]. destruct (IH (odl_step a l)) as (-> & -> & -> & ->). cbn [forallb existsb].
    unfold odl_step. cbn [oa_allFinished oa_anyRunning oa_anyFailed oa_anyStarted].
    assert (Er : negb (bool_decide (odl_State l = "FINISHED")) && link_running (odl_State l) = running l).
    { change (negb (finished l) && running l = running l). destruct (running l) eqn:E; [|by rewrite andb_false_r].
      by rewrite (running_not_finished l E). }
    rewrite Er.
    assert (Ef : negb (bool_decide (odl_State l = "FINISHED")) && negb (running l) && link_failed (odl_State l) = failed l).
    { change (negb (finished l) && negb (running l) && failed l = failed l).
      destruct (failed l) eqn:E; [|by rewrite andb_false_r]. by destruct (failed_alone l E) as [-> ->]. }
    rewrite Ef. change (bool_decide (odl_State l = "FINISHED")) with (finished l).
    split_and!; by rewrite ?andb_assoc, ?orb_assoc.
Qed.

(** The counters wrap around like [int64] sums do. *)
Lemma odl_sum links a :
  let b := foldl odl_step a links in
  fits64 (oa_BytesTotal a) → fits64 (oa_BytesDone a) → fits64 (oa_SpeedBps a) →
  oa_BytesTotal b = int64 (oa_BytesTotal a + foldr Z.add 0%Z (odl_BytesTotal <$> links)) ∧
  oa_BytesDone b = int64 (oa_BytesDone a + foldr Z.add 0%Z (odl_BytesDone <$> links)) ∧
  oa_SpeedBps b = int64 (oa_SpeedBps a + foldr Z.add 0%Z (odl_SpeedBytesPerSecond <$> links)).
Proof.
  revert a. induction links as [|l links IH]; intros a; cbn zeta; intros Ht Hd Hs.
  - cbn. rewrite !Z.add_0_r, !int64_id by done. done.
  - cbn [foldl]. destruct (IH (odl_step a l)) as (-> & -> & ->); unfold odl_step; cbn [oa_BytesTotal oa_BytesDone oa_SpeedBps]; auto with gw.
    csimpl. rewrite !int64_add_l. split_and!; f_equal; lia.
Qed.

(** The first of a list of texts that is not blank. *)
Definition first_text (l : list string) : string := default EmptyString (head (filter (λ s, s ≠ EmptyString) l)).

(** The last one. *)
Definition last_text (l : list string) : string := default EmptyString (last (filter (λ s, s ≠ EmptyString) l)).

Lemma first_text_cons x l : first_text (x :: l) = if bool_decide (x = EmptyString) then first_text l else x.
Proof. unfold first_text. rewrite filter_cons. by case_bool_decide; case_decide. Qed.

Lemma last_text_cons x l :
  last_text (x :: l) = if bool_decide (last_text l = EmptyString) then x else last_text l.
Proof.
  unfold last_text. rewrite filter_cons. destruct (decide (x ≠ EmptyString)) as [Hx|Hx].
  - rewrite last_cons. destruct (last (filter _ l)) as [y|] eqn:E; cbn; [|by rewrite bool_decide_eq_true_2].
    apply last_Some_elem_of, list_elem_of_filter in E as [Hy _]. by rewrite bool_decide_eq_false_2.
  - apply dec_stable in Hx. subst x. by case_bool_decide.
Qed.

Lemma odl_texts links a :
  let b := foldl odl_step a links in
  oa_Title b = (if bool_decide (oa_Title a = EmptyString) then first_text (odl_Name <$> links) else oa_Title a) ∧
  oa_NativeState b = (if bool_decide (oa_NativeState a = EmptyString) then first_text (odl_State <$> links) else oa_NativeState a) ∧
  oa_Message b = (if bool_decide (last_text (odl_Message <$> links) = EmptyString) then oa_Message a
                  else last_text (odl_Message <$> links)).
Proof.
  revert a. induction links as [|l links IH]; intros a; cbn zeta.
  - cbn. by repeat case_bool_decide.
  - cbn [foldl]. destruct (IH (odl_step a l)) as (-> & -> & ->). csimpl. rewrite !first_text_cons, last_text_cons.
    unfold odl_step. cbn [oa_Title oa_NativeState oa_Message].
    repeat case_bool_decide; split_and!; congruence.
Qed.

Lemma odl_files links a :
  oa_files (foldl odl_step a links) = oa_files a ++ filter (λ p, p ≠ EmptyString) (odl_OutputPath <$> links).
Proof.
  revert a. induction links as [|l links IH]; intros a; [by rewrite app_nil_r|].
  cbn [foldl]. rewrite IH. csimpl. rewrite filter_cons. unfold odl_step. cbn [oa_files].
  destruct (decide (odl_OutputPath l = EmptyString)) as [E|E].
  - by rewrite bool_decide_eq_true_2, decide_False by (done || by intros ?).
  - rewrite bool_decide_eq_false_2, decide_True by done. by rewrite <- app_assoc.
Qed.

(** ** Properties *)

(** The state of a package, as the comment on [foldODL] words it. *)
Definition package_state (links : list odlDownloadView) : Status :=
  if forallb finished links then StatusCompleted
  else if existsb failed links && negb (existsb running links) then StatusFailed
  else if existsb (λ l, finished l || running l) links then StatusDownloading
  else StatusQueued.

Lemma forallb_perm {A} (f : A → bool) l1 l2 : l1 ≡ₚ l2 → forallb f l1 = forallb f l2.
Proof.
  intros Hp. apply eq_iff_eq_true. rewrite !forallb_forall.
  setoid_rewrite <- list_elem_of_In. by setoid_rewrite Hp.
Qed.

Lemma existsb_perm {A} (f : A → bool) l1 l2 : l1 ≡ₚ l2 → existsb f l1 = existsb f l2.
Proof.
  intros Hp. apply eq_iff_eq_true. rewrite !existsb_exists.
  setoid_rewrite <- list_elem_of_In. by setoid_rewrite Hp.
Qed.

Lemma sum_perm (l1 l2 : list Z) : l1 ≡ₚ l2 → foldr Z.add 0%Z l1 = foldr Z.add 0%Z l2.
Proof. induction 1; simpl; [done| |lia|]; congruence. Qed.

(** Every field of the view. *)
Lemma foldODL_fields l :
  l ≠ [] →
  foldODL l =
    MkJobView (package_state l) (first_text (odl_State <$> l)) (first_text (odl_Name <$> l))
      (int64 (foldr Z.add 0%Z (odl_BytesDone <$> l))) (int64 (foldr Z.add 0%Z (odl_BytesTotal <$> l)))
      (int64 (foldr Z.add 0%Z (odl_SpeedBytesPerSecond <$> l))) (-1)
      (if forallb finished l then filter (λ p, p ≠ EmptyString) (odl_OutputPath <$> l) else [])
      (last_text (odl_Message <$> l)) (-1) (-1) (-1).
Proof.
  intros Hl. destruct (odl_flags l odl_init) as (E1 & E2 & E3 & E4).
  destruct (odl_sum l odl_init) as (E5 & E6 & E7); [unfold fits; cbn; lia..|].
  destruct (odl_texts l odl_init) as (E8 & E9 & E10). pose proof (odl_files l odl_init) as E11.
  unfold foldODL, package_state. destruct l as [|x l]; [done|].
  rewrite E1, E2, E3, E4, E5, E6, E7, E8, E9, E10, E11. cbn [odl_init oa_allFinished oa_anyRunning oa_anyFailed oa_anyStarted
    oa_BytesTotal oa_BytesDone oa_SpeedBps oa_files oa_Title oa_NativeState oa_Message andb orb app].
  rewrite !Z.add_0_l, !bool_decide_eq_true_2 by done.
  replace (if bool_decide (last_text (odl_Message <$> x :: l) = EmptyString) then EmptyString
           else last_text (odl_Message <$> x :: l)) with (last_text (odl_Message <$> x :: l)) by (by case_bool_decide).
  destruct (forallb finished (x :: l)), (existsb failed (x :: l) && negb (existsb running (x :: l))),
    (existsb (λ l, finished l || running l) (x :: l)); reflexivity.
Qed.

Lemma package_state_spec links :
  let has states := ∃ l, l ∈ links ∧ odl_State l ∈ states in
  let busy := ["RUNNING"; "PAUSED"; "WAITING_FOR_CHALLENGE"] in
  let completed := ∀ l, l ∈ links → odl_State l = "FINISHED" in
  let failed_ := ¬ completed ∧ has ["FAILED"; "CANCELLED"] ∧ ¬ has busy in
  (package_state links = StatusCompleted ↔ completed) ∧
  (package_state links = StatusFailed ↔ failed_) ∧
  (package_state links = StatusDownloading ↔ ¬ completed ∧ ¬ failed_ ∧ has ("FINISHED" :: busy)) ∧
  (package_state links = StatusQueued ↔ ¬ completed ∧ ¬ failed_ ∧ ¬ has ("FINISHED" :: busy)).
Proof.
  intros has busy completed failed_.
  assert (Hex : ∀ (f : odlDownloadView → bool) states, (∀ l, f l = true ↔ odl_State l ∈ states) → existsb f links = true ↔ has states).
  { intros f states Hf. rewrite existsb_exists. unfold has. setoid_rewrite <- list_elem_of_In. by setoid_rewrite Hf. }
  assert (Hc : forallb finished links = true ↔ completed).
  { rewrite forallb_forall. unfold completed, finished. setoid_rewrite <- list_elem_of_In. by setoid_rewrite bool_decide_eq_true. }
  assert (Hrun : ∀ l, running l = true ↔ odl_State l ∈ busy).
  { intros l. unfold running, link_running, busy. rewrite !orb_true_iff, !bool_decide_eq_true. set_solver. }
  assert (Hf : existsb failed links = true ↔ has ["FAILED"; "CANCELLED"]).
  { apply Hex. intros l. unfold failed, link_failed. rewrite !orb_true_iff, !bool_decide_eq_true. set_solver. }
  assert (Hs : existsb (λ l, finished l || running l) links = true ↔ has ("FINISHED" :: busy)).
  { apply Hex. intros l. rewrite orb_true_iff, Hrun. unfold finished. rewrite bool_decide_eq_true. set_solver. }
  apply Hex in Hrun as Hr. clear Hex Hrun. unfold package_state, failed_.
  destruct (forallb finished links), (existsb failed links), (existsb running links),
    (existsb (λ l, finished l || running l) links); cbn [andb negb]; naive_solver.
Qed.

(** C26: how the links of a package make up its view, field by field.  The state: completed when every
    link is finished; else failed when one failed or was cancelled and none is running, paused or
    waiting for a challenge; else downloading when one is any of these or finished; else queued.
    Bytes done, bytes in all and speed are the sums over the links, wrapping around 64 bits.  The
    title is the first name and the native state the first state that is not blank, the message the
    last one; a completed package names every output path, in order, and no other names any;
    estimate, peers and health are unknown.  An empty answer is the not-found view.  State, counts
    and speed do not depend on the order the daemon lists the links in. *)
Theorem foldODL_rule links links' :
  links ≠ [] → links' ≡ₚ links →
  let v := foldODL links in
  let sum (f : odlDownloadView → Z) := foldr Z.add 0%Z (f <$> links) in
  let has states := ∃ l, l ∈ links ∧ odl_State l ∈ states in
  let busy := ["RUNNING"; "PAUSED"; "WAITING_FOR_CHALLENGE"] in
  let completed := ∀ l, l ∈ links → odl_State l = "FINISHED" in
  let failed_ := ¬ completed ∧ has ["FAILED"; "CANCELLED"] ∧ ¬ has busy in
  ((v_State v = StatusCompleted ↔ completed) ∧
   (v_State v = StatusFailed ↔ failed_) ∧
   (v_State v = StatusDownloading ↔ ¬ completed ∧ ¬ failed_ ∧ has ("FINISHED" :: busy)) ∧
   (v_State v = StatusQueued ↔ ¬ completed ∧ ¬ failed_ ∧ ¬ has ("FINISHED" :: busy))) ∧
  (v_BytesDone v = int64 (sum odl_BytesDone) ∧ v_BytesTotal v = int64 (sum odl_BytesTotal) ∧
   v_SpeedBps v = int64 (sum odl_SpeedBytesPerSecond)) ∧
  (v_Title v = first_text (odl_Name <$> links) ∧ v_NativeState v = first_text (odl_State <$> links) ∧
   v_Message v = last_text (odl_Message <$> links)) ∧
  ((completed → v_Files v = filter (λ p, p ≠ EmptyString) (odl_OutputPath <$> links)) ∧ (¬ completed → v_Files v = [])) ∧
  (v_EtaSec v = -1 ∧ v_Seeders v = -1 ∧ v_Leechers v = -1 ∧ v_Health v = -1)%Z ∧
  (v_State (foldODL links') = v_State v ∧ v_BytesTotal (foldODL links') = v_BytesTotal v ∧
   v_BytesDone (foldODL links') = v_BytesDone v ∧ v_SpeedBps (foldODL links') = v_SpeedBps v) ∧
  foldODL [] = NotFoundView.
Proof.
  intros Hne Hp.
  assert (Hne' : links' ≠ []) by (intros ->; apply Hne; by apply Permutation_nil in Hp).
  intros v sum has busy completed failed_. unfold v. rewrite (foldODL_fields _ Hne), (foldODL_fields _ Hne').
  cbn [v_State v_NativeState v_Title v_BytesDone v_BytesTotal v_SpeedBps v_EtaSec v_Files v_Message v_Seeders v_Leechers v_Health].
  split; [apply package_state_spec|]. split; [done|]. split; [done|]. split; [|split; [done|split; [|done]]].
  - assert (Hc : forallb finished links = true ↔ completed).
    { rewrite forallb_forall. unfold completed, finished. setoid_rewrite <- list_elem_of_In. by setoid_rewrite bool_decide_eq_true. }
    destruct (forallb finished links); naive_solver.
  - unfold package_state. rewrite (forallb_perm _ _ _ Hp), !(existsb_perm _ _ _ Hp).
    split_and!; [done|f_equal; by apply sum_perm, fmap_Permutation..].
Qed.

Definition demo_link (name state path msg : string) : odlDownloadView :=
  MkOdlDownloadView name "p" name 5 10 1 None state msg path.

Lemma foldODL_rule_witness :
  let links := [demo_link "a" "FINISHED" "/d/a" "slow"; demo_link "b" "FAILED" EmptyString "gone";
                demo_link "c" "RUNNING" EmptyString EmptyString] in
  v_State (foldODL links) = StatusDownloading ∧ v_BytesTotal (foldODL links) = 30%Z ∧ v_BytesDone (foldODL links) = 15%Z ∧
  v_Title (foldODL links) = "a" ∧ v_Message (foldODL links) = "gone" ∧
  v_State (foldODL (reverse links)) = v_State (foldODL links).
Proof.
  intros links.
  destruct (foldODL_rule links (reverse links)) as ((_ & _ & Hd & _) & (Hdone & Htotal & _) & (Ht & _ & Hm) & _ & _ & (Hr & _) & _);
    [done|apply reverse_Permutation|].
  split_and!; [|rewrite Htotal; vm_compute; reflexivity|rewrite Hdone; vm_compute; reflexivity|rewrite Ht; vm_compute; reflexivity
              |rewrite Hm; vm_compute; reflexivity|exact Hr].
  apply Hd. split_and!.
  - intros Hc. specialize (Hc (demo_link "c" "RUNNING" EmptyString EmptyString)).
    assert (Hin : demo_link "c" "RUNNING" EmptyString EmptyString ∈ links) by (apply list_elem_of_further, list_elem_of_further, list_elem_of_here).
    apply Hc in Hin. discriminate Hin.
  - intros (_ & _ & Hb). apply Hb. exists (demo_link "c" "RUNNING" EmptyString EmptyString).
    split; [apply list_elem_of_further, list_elem_of_further, list_elem_of_here|apply list_elem_of_here].
  - exists (demo_link "a" "FINISHED" "/d/a" "slow"). split; apply list_elem_of_here.
Defined.
