(* ===== verification/JDownloader.v ===== *)
(** * internal/adapters/jdownloader.go

    The JDownloader stub, which no catalog entry and no environment variable wires: it accepts
    everything and asks nobody. *)

From S2P Require Import Prelude GoStrings Adapters Responses Http.

Record JDownloader := MkJDownloader { jd_BaseURL : string; jd_Username : string; jd_Password : string }.

Definition Name (j : JDownloader) : string := "jdownloader".
Definition Add {W} (j : JDownloader) (job : Job) : M W string := mret_ ("stub-" +:+ Job_ID job).
Definition Status_ {W} (j : JDownloader) (id : string) : M W Status := mret_ StatusQueued.

(** [JobView{State: StatusQueued, EtaSec: -1}]: the counters are zero here, not "not reported". *)
Definition Describe {W} (j : JDownloader) (id : string) : M W JobView :=
  mret_ (MkJobView StatusQueued EmptyString EmptyString 0 0 0 (-1) [] EmptyString 0 0 0).

Definition Remove {W} (j : JDownloader) (id : string) : M W unit := mret_ tt.
