(* ===== verification/QBittorrent.v ===== *)
(** * internal/adapters/qbittorrent.go: the qBittorrent adapter

    Requests with their form bodies, the session handling ([hasSession], [login], [authed]), the fold
    of a torrent into a [JobView], and every operation.  The multipart upload follows
    mime/multipart; the boundary it draws, and the header [mime.FormatMediaType] writes for the file
    name, are the class [Multipart]'s. *)

From S2P Require Import Prelude GoStrings GoUrl Adapters Responses Endpoint Json Http GoFloat.
From Stdlib Require Import Ascii SpecFloat.
#[local] Open Scope gw_scope.

Record QBittorrent := MkQBittorrent {
  qb_BaseURL : string;
  qb_Username : string;
  qb_Password : string;
  qb_Category : string;
  qb_HTTP : HttpClient
}.

Definition NewQBittorrent (ptr : nat) (baseURL user pass : string) : QBittorrent :=
  MkQBittorrent (TrimRightByte baseURL "/"%char) user pass EmptyString
    (MkHttpClient ptr 30 true DefaultTransport DefaultRedirect).

Definition QBittorrent_Name : string := "qbittorrent".

Record qbTorrent := MkQbTorrent {
  qt_Hash : string;
  qt_Name : string;
  qt_State : string;
  qt_Progress : spec_float;
  qt_DlSpeed : Z;
  qt_Eta : Z;
  qt_Size : Z;
  qt_Completed : Z;
  qt_ContentPath : string;
  qt_SavePath : string;
  qt_NumSeeds : Z;
  qt_NumLeechs : Z;
  qt_Tags : string;
  qt_Category : string
}.

Record qbInfo := MkQbInfo { qi_DlSpeed : Z; qi_UpSpeed : Z; qi_ConnectionStatus : string }.

(** ** Folds *)

Definition contentFiles (t : qbTorrent) : list string :=
  if negb (bool_decide (qt_ContentPath t = EmptyString)) then [qt_ContentPath t]
  else if negb (bool_decide (qt_SavePath t = EmptyString)) then [qt_SavePath t]
  else [].

Definition qb_failed_states : list string := ["error"; "missingFiles"].
Definition qb_seeding_states : list string :=
  ["uploading"; "pausedUP"; "queuedUP"; "stalledUP"; "checkingUP"; "forcedUP"].

Definition foldQB (t : qbTorrent) : JobView :=
  let eta := if (8640000 <=? qt_Eta t)%Z || (qt_Eta t <? 0)%Z then (-1)%Z else qt_Eta t in
  let view state files msg :=
    MkJobView state (qt_State t) (qt_Name t) (qt_Completed t) (qt_Size t) (qt_DlSpeed t) eta files msg
      (qt_NumSeeds t) (qt_NumLeechs t) (-1) in
  if bool_decide (qt_State t ∈ qb_failed_states)
  then view StatusFailed [] ("qbittorrent state: " +:+ qt_State t)
  else if bool_decide (qt_State t ∈ qb_seeding_states) then view StatusCompleted (contentFiles t) EmptyString
  else if SFleb (float64 1) (qt_Progress t) then view StatusCompleted (contentFiles t) EmptyString
  else view StatusDownloading [] EmptyString.

Definition jobTagPrefix : string := "dlg-".

Definition hex_bytes (l : list ascii) : string :=
  str (concat ((λ c, [hex_digit (Z.shiftr (byte c) 4); hex_digit (Z.land (byte c) 15)]) <$> l)).

(** [fmt] prints a positive integer in hexadecimal ([%x]). *)
Fixpoint hex_fuel (fuel : nat) (n : Z) (acc : list ascii) : list ascii :=
  match fuel with
  | O => acc
  | S fuel =>
      let acc := hex_digit (n mod 16) :: acc in
      if (n <? 16)%Z then acc else hex_fuel fuel (n / 16) acc
  end.

Definition hex_int (n : Z) : string :=
  if (n <? 0)%Z then "-" +:+ str (hex_fuel 16 (- n) []) else str (hex_fuel 16 n []).

(** [newJobTag]: the 8 random bytes [rand.Read] gave, or else the clock's nanoseconds. *)
Definition newJobTag (rand : option (list ascii)) (now : Z) : string :=
  match rand with
  | Some b => jobTagPrefix +:+ hex_bytes b
  | None => jobTagPrefix +:+ hex_int now
  end.

(** ** Request bodies *)

(** [url.Values] with one value per key, as an association list. *)
Abbreviation Values := (list (string * string)).

(** [Values.Encode]: sorted by key. *)
Definition Encode (v : Values) : string :=
  Join ((λ kv, QueryEscape kv.1 +:+ "=" +:+ QueryEscape kv.2) <$> sort_by fst v) "&".

(** [Values.Set]. *)
Definition Set_ (k x : string) (v : Values) : Values :=
  filter (λ kv, kv.1 ≠ k) v ++ [(k, x)].

Class Multipart := {
  boundary : string;
  torrents_disposition : string → string
}.

Definition crlf : string := str ["013"; "010"]%char.

Definition dquoted (s : string) : string := str (quote_char :: chars s ++ [quote_char]).

(** One part: its delimiter, its header lines and its content; [mime/multipart] puts the line break
    that ends a part before the next delimiter. *)
Definition part `{Multipart} (first : bool) (header : list (string * string)) (content : string) : string :=
  (if first then "--" else crlf +:+ "--") +:+ boundary +:+ crlf +:+
  foldr (λ kv acc, kv.1 +:+ ": " +:+ kv.2 +:+ crlf +:+ acc) crlf header +:+ content.

Fixpoint field_parts `{Multipart} (first : bool) (fields : Values) : string :=
  match fields with
  | [] => EmptyString
  | (k, v) :: fields =>
      part first [("Content-Disposition", "form-data; name=" +:+ dquoted k)] v +:+ field_parts false fields
  end.

(** [torrentUpload(fields, filename, content)], the fields in the order Go ranges over the map. *)
Definition torrentUpload `{Multipart} (fields : Values) (filename content : string) : string * string :=
  (field_parts true fields +:+
   part (match fields with [] => true | _ => false end)
     [("Content-Disposition", torrents_disposition filename); ("Content-Type", "application/x-bittorrent")] content +:+
   crlf +:+ "--" +:+ boundary +:+ "--" +:+ crlf,
   "multipart/form-data; boundary=" +:+ boundary).

(** ** Operations *)

Section qbittorrent.
Context {W : Type} `{HttpWorld W} `{Multipart}.
Context `{Decodes (list qbTorrent)} `{Decodes qbInfo}.

Definition postBody (q : QBittorrent) (path body contentType : string) : M W Response :=
  send_request (qb_HTTP q) "POST" (qb_BaseURL q +:+ path)
    [("Content-Type", contentType); ("Referer", qb_BaseURL q)] body.

Definition post (q : QBittorrent) (path : string) (form : Values) : M W Response :=
  postBody q path (Encode form) "application/x-www-form-urlencoded".

Definition get (q : QBittorrent) (path : string) (query : Values) : M W Response :=
  send_request (qb_HTTP q) "GET"
    (qb_BaseURL q +:+ path +:+ match query with [] => EmptyString | _ => "?" +:+ Encode query end)
    [("Referer", qb_BaseURL q)] EmptyString.

Definition is_2xx (resp : Response) : bool := (200 <=? rs_StatusCode resp)%Z && (rs_StatusCode resp <? 300)%Z.

Definition login (q : QBittorrent) : M W unit :=
  let! r := mtry (post q "/api/v2/auth/login" [("username", qb_Username q); ("password", qb_Password q)]) in
  match r with
  | Err e => mfail (WrapError "qbittorrent login" e)
  | Ok resp => if is_2xx resp then mret_ tt else mfail (status_error "qbittorrent login failed" resp)
  end.

Definition hasSession (q : QBittorrent) (w : W) : bool :=
  match Parse (qb_BaseURL q) with
  | Some u =>
      hc_Jar (qb_HTTP q) &&
      existsb (λ c, bool_decide (c.1 = "SID") && negb (bool_decide (c.2 = EmptyString))) (Cookies (qb_HTTP q) u w)
  | None => false
  end.

Definition authed (q : QBittorrent) (fn : M W Response) : M W Response :=
  let! _ := (λ w, if hasSession q w then (Ok tt, w) else login q w) in
  let! resp := fn in
  if (rs_StatusCode resp =? StatusForbidden)%Z then let! _ := login q in fn
  else mret_ resp.

(** The form of an add. *)
Definition add_form (q : QBittorrent) (tag : string) (j : Job) : Values :=
  let form := [("tags", tag)] in
  let form := if bool_decide (Job_SavePath j = EmptyString) then form
              else Set_ "autoTMM" "false" (Set_ "savepath" (Job_SavePath j) form) in
  let category := if bool_decide (Job_Category j = EmptyString) then qb_Category q else Job_Category j in
  if bool_decide (category = EmptyString) then form else Set_ "category" category form.

(** [Add] with the tag drawn and the order Go ranges over the form in. *)
Definition Add (tag : string) (order : Values → Values) (q : QBittorrent) (j : Job) : M W string :=
  let form := add_form q tag j in
  let send :=
    if (0 <? len (Job_Payload j))%Z then
      let (body, contentType) :=
        torrentUpload (order form) (payloadFileName (Job_PayloadName j) (Job_Title j) ".torrent") (Job_Payload j) in
      postBody q "/api/v2/torrents/add" body contentType
    else post q "/api/v2/torrents/add" (Set_ "urls" (Job_Source j) form) in
  let! resp := authed q send in
  let body := read_excerpt (rs_Body resp) in
  if negb (rs_StatusCode resp =? StatusOK)%Z
  then mfail (StatusError "qbittorrent add" (rs_StatusCode resp) (TrimSpace body))
  else if bool_decide (TrimSpace body = "Fails.") then mfail (ErrorString "qbittorrent add rejected the source")
  else mret_ tag.

Definition byTag (q : QBittorrent) (tag : string) : M W (option qbTorrent) :=
  let! resp := authed q (get q "/api/v2/torrents/info" [("tag", tag)]) in
  if negb (rs_StatusCode resp =? StatusOK)%Z then mfail (status_error "qbittorrent info" resp)
  else match decodeCapped (T := list qbTorrent) (rs_Body resp) maxListResponse with
       | Err e => mfail (WrapError "qbittorrent info decode" e)
       | Ok l => mret_ (head l)
       end.

Definition Describe (q : QBittorrent) (tag : string) : M W JobView :=
  let! t := byTag q tag in
  match t with
  | None => mret_ NotFoundView
  | Some t => mret_ (foldQB t)
  end.

Definition Status_ (q : QBittorrent) (tag : string) : M W Status :=
  let! v := Describe q tag in mret_ (v_State v).

Definition Remove (q : QBittorrent) (tag : string) : M W unit :=
  let! t := byTag q tag in
  match t with
  | None => mret_ tt
  | Some t =>
      let! resp := authed q (post q "/api/v2/torrents/delete" [("hashes", qt_Hash t); ("deleteFiles", "false")]) in
      if negb (rs_StatusCode resp =? StatusOK)%Z then mfail (status_error "qbittorrent delete" resp) else mret_ tt
  end.

(** The loop of [control] over the verbs; [last] is [lastErr]. *)
Fixpoint try_verbs (q : QBittorrent) (hash : string) (verbs : list string) (last : option error) : M W unit :=
  match verbs with
  | [] => match last with Some e => mfail e | None => mret_ tt end
  | verb :: verbs =>
      let! r := mtry (authed q (post q ("/api/v2/torrents/" +:+ verb) [("hashes", hash)])) in
      match r with
      | Err e => try_verbs q hash verbs (Some e)
      | Ok resp => if is_2xx resp then mret_ tt
                   else try_verbs q hash verbs (Some (status_error ("qbittorrent " +:+ verb) resp))
      end
  end.

Definition control (q : QBittorrent) (tag : string) (verbs : list string) : M W unit :=
  let! t := byTag q tag in
  match t with
  | None => mfail (ErrorString ("qbittorrent: no torrent for job " +:+ tag))
  | Some t => try_verbs q (qt_Hash t) verbs None
  end.

Definition Pause (q : QBittorrent) (tag : string) : M W unit := control q tag ["stop"; "pause"].
Definition Resume (q : QBittorrent) (tag : string) : M W unit := control q tag ["start"; "resume"].

Definition version_stops : string := str [" "; "009"; "013"; "010"; "<"; ">"; "{"]%char.

Definition err_not_qb : error :=
  ErrorString "qbittorrent version: the endpoint did not answer like a qBittorrent WebUI".

Definition Probe (q : QBittorrent) : M W string :=
  let! resp := authed q (get q "/api/v2/app/version" []) in
  let body := read_excerpt (rs_Body resp) in
  if negb (rs_StatusCode resp =? StatusOK)%Z
  then mfail (StatusError "qbittorrent version" (rs_StatusCode resp) (TrimSpace body))
  else
    let version := TrimSpace body in
    if bool_decide (version = EmptyString) || (32 <? len version)%Z || ContainsAny version version_stops
    then mfail err_not_qb else mret_ version.

Definition qb_status (reachable : bool) (err : string) (down up : Z) (detail : gmap string string) : ClientStatus :=
  MkClientStatus EmptyString EmptyString QBittorrent_Name reachable err down up false None detail.

Definition ClientStatus_ `{Quote} (q : QBittorrent) (w : W) : ClientStatus * W :=
  match authed q (get q "/api/v2/transfer/info" []) w with
  | (Err e, w) => (qb_status false (PublicError (Some e)) 0 0 ∅, w)
  | (Ok resp, w) =>
      if negb (rs_StatusCode resp =? StatusOK)%Z
      then (qb_status false ("transfer/info: " +:+ Itoa (rs_StatusCode resp)) 0 0 ∅, w)
      else match decodeCapped (T := qbInfo) (rs_Body resp) maxResponse with
           | Err e => (qb_status false (PublicError (Some e)) 0 0 ∅, w)
           | Ok i =>
               (qb_status true EmptyString (qi_DlSpeed i) (qi_UpSpeed i)
                  (if bool_decide (qi_ConnectionStatus i = EmptyString) then ∅
                   else <["connection" := truncate (qi_ConnectionStatus i) 32]> ∅), w)
           end
  end.

(** The first tag of ours a torrent carries. *)
Definition own_tag (t : qbTorrent) : option string :=
  head (filter (λ tag, HasPrefix tag jobTagPrefix = true) (TrimSpace <$> Split (qt_Tags t) ","%char)).

(** What [Adopt] makes of one torrent. *)
Definition adopt_one (q : QBittorrent) (t : qbTorrent) : option AdoptedJob :=
  match v_State (foldQB t) with
  | StatusCompleted | StatusFailed => None
  | _ =>
      if negb (bool_decide (qb_Category q = EmptyString)) && negb (bool_decide (qt_Category t = EmptyString)) &&
         negb (bool_decide (qt_Category t = qb_Category q))
      then None
      else (λ tag, MkAdoptedJob tag (qt_Name t)) <$> own_tag t
  end.

Definition Adopt (q : QBittorrent) : M W (list AdoptedJob) :=
  let! resp := authed q (get q "/api/v2/torrents/info" []) in
  if negb (rs_StatusCode resp =? StatusOK)%Z then mfail (status_error "qbittorrent info" resp)
  else
    let! l := mlift (decodeCapped (T := list qbTorrent) (rs_Body resp) maxListResponse) in
    mret_ (omap (adopt_one q) l).
End qbittorrent.

(** ** Adoption, in the words of the documentation *)

(** A torrent that is neither failed nor seeding nor complete. *)
Definition unfinished (t : qbTorrent) : Prop :=
  qt_State t ∉ ["error"; "missingFiles"; "uploading"; "pausedUP"; "queuedUP"; "stalledUP"; "checkingUP"; "forcedUP"] ∧
  SFleb (float64 1) (qt_Progress t) = false.

(** A torrent that is not filed under another category than the client's. *)
Definition not_anothers (q : QBittorrent) (t : qbTorrent) : Prop :=
  qb_Category q = EmptyString ∨ qt_Category t = EmptyString ∨ qt_Category t = qb_Category q.

(** [tag] is the first of the torrent's tags that is the gateway's. *)
Definition first_own_tag (t : qbTorrent) (tag : string) : Prop :=
  ∃ before after_, TrimSpace <$> Split (qt_Tags t) ","%char = before ++ tag :: after_ ∧
    (∃ rest, tag = "dlg-" +:+ rest) ∧ ∀ x rest, x ∈ before → x ≠ "dlg-" +:+ rest.

(** What is adopted of a list of torrents: each torrent that is to be, in the order of the list, with
    its tag as the job's id and its name as the title, and nothing else. *)
Inductive adopted (q : QBittorrent) : list qbTorrent → list AdoptedJob → Prop :=
  | adopted_nil : adopted q [] []
  | adopted_take t l tag jobs :
      unfinished t → not_anothers q t → first_own_tag t tag → adopted q l jobs →
      adopted q (t :: l) (MkAdoptedJob tag (qt_Name t) :: jobs)
  | adopted_skip t l jobs :
      ¬ (unfinished t ∧ not_anothers q t ∧ ∃ tag, first_own_tag t tag) → adopted q l jobs → adopted q (t :: l) jobs.

(** ** Facts *)

Lemma foldQB_state t :
  v_State (foldQB t) = StatusDownloading ∨ v_State (foldQB t) = StatusCompleted ∨ v_State (foldQB t) = StatusFailed.
Proof. unfold foldQB. repeat case_bool_decide; cbn [v_State]; auto. destruct (SFleb _ _); cbn; auto. Qed.

Lemma foldQB_unfinished t : v_State (foldQB t) = StatusDownloading ↔ unfinished t.
Proof.
  unfold foldQB, unfinished, qb_failed_states, qb_seeding_states.
  repeat case_bool_decide; cbn [v_State]; [split; [done|]; intros [Hn _]; set_solver..|].
  destruct (SFleb _ _); cbn [v_State]; [split; [done|]; by intros [_ ?]|]. split; [|done]. intros _. split; [set_solver|done].
Qed.

Lemma own_tag_first t : match own_tag t with Some tag => first_own_tag t tag | None => ∀ tag, ¬ first_own_tag t tag end.
Proof.
  unfold own_tag, first_own_tag. induction (TrimSpace <$> Split (qt_Tags t) ","%char) as [|x l IH].
  { intros tag (before & ? & E & _). by destruct before. }
  rewrite filter_cons. destruct (decide (HasPrefix x jobTagPrefix = true)) as [Hp|Hp]; cbn.
  - exists [], l. split_and!; [done|by apply HasPrefix_spec|]. intros ? ? Hin. by apply not_elem_of_nil in Hin.
  - assert (Hx : ∀ rest, x ≠ "dlg-" +:+ rest) by (intros rest ->; by rewrite HasPrefix_app in Hp).
    destruct (head _) as [tag|].
    + destruct IH as (before & after_ & -> & Ht & Hb). exists (x :: before), after_. split_and!; [done|done|].
      intros y rest [->|Hy]%elem_of_cons; [apply Hx|by apply Hb].
    + intros tag ([|y before] & after_ & E & (rest & ->) & Hb); cbn in E; [injection E as -> _; by destruct (Hx rest)|].
      injection E as -> ->. apply (IH ("dlg-" +:+ rest)). exists before, after_. split_and!; [done|by exists rest|].
      intros z r Hz. apply Hb. by right.
Qed.

Lemma other_category q t :
  negb (bool_decide (qb_Category q = EmptyString)) && negb (bool_decide (qt_Category t = EmptyString)) &&
  negb (bool_decide (qt_Category t = qb_Category q)) = false ↔ not_anothers q t.
Proof. unfold not_anothers. rewrite !andb_false_iff, !negb_false_iff, !bool_decide_eq_true. tauto. Qed.

Lemma adopt_one_spec q t :
  match adopt_one q t with
  | Some j => unfinished t ∧ not_anothers q t ∧ first_own_tag t (aj_ClientJobID j) ∧ aj_Title j = qt_Name t
  | None => ¬ (unfinished t ∧ not_anothers q t ∧ ∃ tag, first_own_tag t tag)
  end.
Proof.
  pose proof (foldQB_unfinished t) as Hl. pose proof (own_tag_first t) as Ht. unfold adopt_one.
  destruct (foldQB_state t) as [Hs|[Hs|Hs]]; rewrite Hs in *; [|by intros [[=]%Hl _]..].
  destruct (negb _ && negb _ && negb _) eqn:Hc.
  - intros (_ & Hn%other_category & _). congruence.
  - apply other_category in Hc. destruct (own_tag t) as [tag|]; cbn; [|by intros (_ & _ & tag & ?%Ht)].
    split_and!; [by apply Hl|done|done|done].
Qed.

Lemma omap_adopted q l : adopted q l (omap (adopt_one q) l).
Proof.
  induction l as [|t l IH]; cbn; [constructor|]. pose proof (adopt_one_spec q t) as Ht.
  destruct (adopt_one q t) as [[tag title]|]; [|by constructor].
  destruct Ht as (Hu & Hn & Hf & Htitle). cbn in Hf, Htitle. subst title. by constructor.
Qed.

(** ** Properties *)

(** C25: which torrents are adopted after a restart, exactly.  The client is asked for its torrents
    once, with the session of [authed]; an error of the request, a status other than 200 and an answer
    that cannot be read are the error of the adoption.  Of the torrents listed, those are handed back, in
    their order, that are not finished, that are not filed under another client's category (a
    torrent without one is adopted, and so is any by a client without one), and that carry a tag with
    the gateway's prefix: the first such tag is the job's id, the torrent's name its title.  A
    torrent handed back folds to downloading, so the next poll of it replays no end. *)
Theorem Adopt_live {W} `{HttpWorld W} `{Decodes (list qbTorrent)} (q : QBittorrent) (w : W) :
  (match authed q (get q "/api/v2/torrents/info" []) w with
   | (Err e, w') => Adopt q w = (Err e, w')
   | (Ok resp, w') =>
       if decide (rs_StatusCode resp = 200%Z) then
         match decodeCapped (T := list qbTorrent) (rs_Body resp) (32 * 2 ^ 20) with
         | Err e => Adopt q w = (Err e, w')
         | Ok l => ∃ jobs, Adopt q w = (Ok jobs, w') ∧ adopted q l jobs
         end
       else ∃ detail, Adopt q w = (Err (StatusError "qbittorrent info" (rs_StatusCode resp) detail), w')
   end) ∧
  (∀ t, unfinished t → v_State (foldQB t) = StatusDownloading).
Proof.
  split; [|by intros t Ht; apply foldQB_unfinished]. unfold Adopt, mbind_, mlift, mret_, mfail.
  destruct (authed q _ w) as [[resp|e] w1]; [|done]. unfold StatusOK. case_decide as Hs.
  - rewrite (proj2 (Z.eqb_eq _ _) Hs). cbn [negb]. change (32 * 2 ^ 20)%Z with maxListResponse.
    destruct (decodeCapped _ _) as [l|e]; [|done]. eexists. split; [done|apply omap_adopted].
  - rewrite (proj2 (Z.eqb_neq _ _) Hs). cbn [negb]. unfold status_error, newStatusError. by eexists.
Qed.

Section witnesses.
#[local] Instance demo_qb_world : HttpWorld unit := {|
  Do := λ _ _ w, (Ok (MkResponse 200 (MkBody "[]" None)), w);
  Cookies := λ _ _ _, [("SID", "x")];
  parse_cause := λ s, ErrorString "parse"
|}.

Definition demo_torrent (state tags category : string) : qbTorrent :=
  MkQbTorrent "h" "A" state (float64 0) 1 10 100 50 EmptyString "/d" 1 1 tags category.

(** A seeding torrent, one of ours, one of another client, one without a category, one without our tag. *)
#[local] Instance demo_list : Decodes (list qbTorrent) := {|
  Decode := λ _, (Ok [demo_torrent "stalledUP" "dlg-0" "tv"; demo_torrent "downloading" "tv, dlg-1,dlg-2" "tv";
                      demo_torrent "downloading" "dlg-3" "film"; demo_torrent "metaDL" "dlg-4" EmptyString;
                      demo_torrent "downloading" "tv" "tv"], 2%Z);
  Unmarshal := λ _, Ok []
|}.

Definition demo_qb : QBittorrent :=
  MkQBittorrent "http://qb:8080" "u" "p" "tv" (MkHttpClient 0 30 true DefaultTransport DefaultRedirect).

Lemma Adopt_live_witness :
  ∃ jobs, Adopt demo_qb tt = (Ok jobs, tt) ∧ jobs = [MkAdoptedJob "dlg-1" "A"; MkAdoptedJob "dlg-4" "A"] ∧
    adopted demo_qb [demo_torrent "stalledUP" "dlg-0" "tv"; demo_torrent "downloading" "tv, dlg-1,dlg-2" "tv";
                     demo_torrent "downloading" "dlg-3" "film"; demo_torrent "metaDL" "dlg-4" EmptyString;
                     demo_torrent "downloading" "tv" "tv"] jobs.
Proof.
  destruct (Adopt_live demo_qb tt) as [(jobs & Ha & Hj) _]. exists jobs. split; [exact Ha|]. split; [|exact Hj].
  vm_compute in Ha. injection Ha as <-. reflexivity.
Defined.
End witnesses.
