(* ===== verification/Answers.v ===== *)
(** * internal/adapters: what clients answer, on bytes

    The instances of [Decodes] for the structs the adapters decode: their fields and tags, read by
    [encoding/json].  The texts of its errors, and how far its decoder had read ahead when it refused a
    text, are the class [JsonErrors].  [capped_answers]: what [decodeCapped] makes of any stream of bytes;
    [nzbget_describes]: NZBGet's Describe, from the bytes of its two lists; Views.v has the others. *)

From S2P Require Import Prelude GoStrings GoUrl GoFloat Base64 Json JsonText JsonTextSpec JsonTypes JsonTypesSpec Adapters Responses.
From S2P Require Import Endpoint Http.
From S2P Require NZBGet ODownloader QBittorrent.
From Stdlib Require Import Ascii SpecFloat.

(** ** Decoding *)

(** [SyntaxError] and the errors of values that do not fit, as far as the text and the type determine them; and how
    many bytes of a reader the decoder has in its buffer when it stops before the end of the text. *)
Class JsonErrors := {
  syntax_error : list ascii → error;
  fault_error : gotype → list ascii → fault → error;
  read_ahead : list ascii → Z
}.

Definition err_EOF : error := ErrorString "EOF".
Definition err_UnexpectedEOF : error := ErrorString "unexpected EOF".

Section decoding.
Context `{JsonErrors}.

(** [json.NewDecoder(body).Decode(&v)], and how many bytes of the body were read: all of them when the value is
    not over before their end. *)
Definition Decode_body (t : gotype) (b : Body) : result error goval * Z :=
  let data := chars (b_data b) in
  (match Decoder_Decode t data (b_err b) with
   | Ok v => Ok v
   | Err (JRead e) => Err e
   | Err JEOF => Err err_EOF
   | Err JUnexpectedEOF => Err err_UnexpectedEOF
   | Err JSyntax => Err (syntax_error data)
   | Err (JFault f) => Err (fault_error t data f)
   end,
   if unfinished data then len (b_data b) else read_ahead data).

(** [json.Unmarshal([]byte(text), &v)]. *)
Definition Unmarshal_text (t : gotype) (text : string) : result error goval :=
  match json_Unmarshal t text with
  | Ok v => Ok v
  | Err EEnd => Err (ErrorString "unexpected end of JSON input")
  | Err ESyntax => Err (syntax_error (chars text))
  | Err (EFault f) => Err (fault_error t (chars text) f)
  end.

Definition answer_decodes {T} (t : gotype) (build : goval → T) : Decodes T := {|
  Decode b := let (r, n) := Decode_body t b in (rmap build r, n);
  Unmarshal text := rmap build (Unmarshal_text t text)
|}.
End decoding.

(** ** The structs *)

Definition rpc_fields : list (string * bool * gotype) :=
  [("result", false, TRaw); ("error", false, TPtr (TStruct [("message", false, TString)]))].
Definition rpc_type : gotype := TStruct rpc_fields.

(** A nil [json.RawMessage] has no bytes. *)
Definition as_raw (x : goval) : string := match x with GRaw (Some l) => str l | _ => EmptyString end.

Definition of_rpc (x : goval) : NZBGet.rpc_reply :=
  NZBGet.MkRpcReply (as_raw (field 0 x)) (as_opt (λ e, as_string (field 0 e)) (field 1 x)).

Definition nzbGroup_type : gotype := TStruct [
  ("NZBID", false, TInt true 64); ("NZBName", false, TString); ("Status", false, TString);
  ("FileSizeMB", false, TInt true 64); ("FileSizeLo", false, TInt true 64); ("FileSizeHi", false, TInt true 64);
  ("DownloadedSizeMB", false, TInt true 64); ("DownloadedSizeLo", false, TInt true 64); ("DownloadedSizeHi", false, TInt true 64);
  ("RemainingSizeMB", false, TInt true 64); ("RemainingSizeLo", false, TInt true 64); ("RemainingSizeHi", false, TInt true 64);
  ("DownloadRate", false, TInt true 64); ("Health", false, TInt true 32); ("CriticalHealth", false, TInt true 32);
  ("PostStageProgress", false, TInt true 32)].

Definition of_nzbGroup (x : goval) : NZBGet.nzbGroup :=
  let f i := field i x in
  NZBGet.MkNzbGroup (as_int (f 0)) (as_string (f 1)) (as_string (f 2)) (as_int (f 3)) (as_int (f 4)) (as_int (f 5))
    (as_int (f 6)) (as_int (f 7)) (as_int (f 8)) (as_int (f 9)) (as_int (f 10)) (as_int (f 11)) (as_int (f 12))
    (as_int (f 13)) (as_int (f 14)) (as_int (f 15)).

Definition nzbHistory_type : gotype := TStruct [
  ("NZBID", false, TInt true 64); ("Name", false, TString); ("Status", false, TString); ("DestDir", false, TString);
  ("FileSizeMB", false, TInt true 64)].

Definition of_nzbHistory (x : goval) : NZBGet.nzbHistory :=
  let f i := field i x in
  NZBGet.MkNzbHistory (as_int (f 0)) (as_string (f 1)) (as_string (f 2)) (as_string (f 3)) (as_int (f 4)).

Definition nzbOwned_type : gotype := TStruct [
  ("NZBID", false, TInt true 64); ("NZBName", false, TString); ("Category", false, TString)].

Definition of_nzbOwned (x : goval) : NZBGet.nzbOwned :=
  NZBGet.MkNzbOwned (as_int (field 0 x)) (as_string (field 1 x)) (as_string (field 2 x)).

Definition nzbServer_type : gotype := TStruct [("ID", false, TInt true 64); ("Active", false, TBool)].

Definition nzbStatus_type : gotype := TStruct [
  ("DownloadRate", false, TInt true 64); ("ServerPaused", false, TBool); ("Download2Paused", false, TBool);
  ("FreeDiskSpaceLo", false, TInt true 64); ("FreeDiskSpaceHi", false, TInt true 64); ("FreeDiskSpaceMB", false, TInt true 64);
  ("RemainingSizeMB", false, TInt true 64); ("PostJobCount", false, TInt true 32); ("ArticleCacheMB", false, TInt true 64);
  ("QuotaReached", false, TBool); ("NewsServers", false, TSlice nzbServer_type)].

Definition of_nzbStatus (x : goval) : NZBGet.nzbStatus :=
  let f i := field i x in
  NZBGet.MkNzbStatus (as_int (f 0)) (as_bool (f 1)) (as_bool (f 2)) (as_int (f 3)) (as_int (f 4)) (as_int (f 5)) (as_int (f 6))
    (as_int (f 7)) (as_int (f 8)) (as_bool (f 9)) (as_list (λ s, (as_int (field 0 s), as_bool (field 1 s))) (f 10)).

Definition odlAddResult_type : gotype := TStruct [
  ("packageId", false, TString); ("downloadIds", false, TSlice TString); ("rejected", false, TSlice TString)].

Definition of_odlAddResult (x : goval) : ODownloader.odlAddResult :=
  ODownloader.MkOdlAddResult (as_string (field 0 x)) (as_list as_string (field 1 x)) (as_list as_string (field 2 x)).

Definition odlDownloadView_type : gotype := TStruct [
  ("id", false, TString); ("packageId", false, TString); ("name", false, TString); ("bytesDone", false, TInt true 64);
  ("bytesTotal", false, TInt true 64); ("speedBytesPerSecond", false, TInt true 64); ("etaSeconds", false, TPtr (TInt true 64));
  ("state", false, TString); ("message", false, TString); ("outputPath", false, TString)].

Definition of_odlDownloadView (x : goval) : ODownloader.odlDownloadView :=
  let f i := field i x in
  ODownloader.MkOdlDownloadView (as_string (f 0)) (as_string (f 1)) (as_string (f 2)) (as_int (f 3)) (as_int (f 4)) (as_int (f 5))
    (as_opt as_int (f 6)) (as_string (f 7)) (as_string (f 8)) (as_string (f 9)).

Definition odlPage_type : gotype := TStruct [("content", false, TSlice odlDownloadView_type)].

Definition of_odlPage (x : goval) : ODownloader.odlPage := ODownloader.MkOdlPage (as_list of_odlDownloadView (field 0 x)).

Definition qbTorrent_type : gotype := TStruct [
  ("hash", false, TString); ("name", false, TString); ("state", false, TString); ("progress", false, TFloat);
  ("dlspeed", false, TInt true 64); ("eta", false, TInt true 64); ("size", false, TInt true 64); ("completed", false, TInt true 64);
  ("content_path", false, TString); ("save_path", false, TString); ("num_seeds", false, TInt true 32);
  ("num_leechs", false, TInt true 32); ("tags", false, TString); ("category", false, TString)].

Definition of_qbTorrent (x : goval) : QBittorrent.qbTorrent :=
  let f i := field i x in
  QBittorrent.MkQbTorrent (as_string (f 0)) (as_string (f 1)) (as_string (f 2)) (as_float (f 3)) (as_int (f 4)) (as_int (f 5))
    (as_int (f 6)) (as_int (f 7)) (as_string (f 8)) (as_string (f 9)) (as_int (f 10)) (as_int (f 11)) (as_string (f 12))
    (as_string (f 13)).

Definition qbInfo_type : gotype := TStruct [
  ("dl_info_speed", false, TInt true 64); ("up_info_speed", false, TInt true 64); ("connection_status", false, TString)].

Definition of_qbInfo (x : goval) : QBittorrent.qbInfo :=
  QBittorrent.MkQbInfo (as_int (field 0 x)) (as_int (field 1 x)) (as_string (field 2 x)).

Section instances.
Context `{JsonErrors}.

#[export] Instance rpc_decodes : Decodes NZBGet.rpc_reply := answer_decodes rpc_type of_rpc.
#[export] Instance int_decodes : Decodes Z := answer_decodes (TInt true 64) as_int.
#[export] Instance string_decodes : Decodes string := answer_decodes TString as_string.
#[export] Instance groups_decodes : Decodes (list NZBGet.nzbGroup) := answer_decodes (TSlice nzbGroup_type) (as_list of_nzbGroup).
#[export] Instance history_decodes : Decodes (list NZBGet.nzbHistory) := answer_decodes (TSlice nzbHistory_type) (as_list of_nzbHistory).
#[export] Instance owned_decodes : Decodes (list NZBGet.nzbOwned) := answer_decodes (TSlice nzbOwned_type) (as_list of_nzbOwned).
#[export] Instance status_decodes : Decodes NZBGet.nzbStatus := answer_decodes nzbStatus_type of_nzbStatus.
#[export] Instance odl_added_decodes : Decodes ODownloader.odlAddResult := answer_decodes odlAddResult_type of_odlAddResult.
#[export] Instance odl_page_decodes : Decodes ODownloader.odlPage := answer_decodes odlPage_type of_odlPage.
#[export] Instance torrents_decodes : Decodes (list QBittorrent.qbTorrent) := answer_decodes (TSlice qbTorrent_type) (as_list of_qbTorrent).
#[export] Instance qb_info_decodes : Decodes QBittorrent.qbInfo := answer_decodes qbInfo_type of_qbInfo.
End instances.

(** ** [decodeCapped] *)

Section capped.
Context `{JsonErrors}.

(** The bytes [decodeCapped] looks at. *)
Definition capped_head (b : Body) (limit : Z) : list ascii := take (Z.to_nat (limit + 1)) (chars (b_data b)).

Lemma LimitReader_long n b :
  (n ≤ length (chars (b_data b)))%nat → LimitReader n b = MkBody (str (take n (chars (b_data b)))) None.
Proof. intros Hl. unfold LimitReader. by rewrite (proj2 (Nat.leb_le _ _)). Qed.

Lemma LimitReader_short n b : (length (chars (b_data b)) < n)%nat → LimitReader n b = b.
Proof. intros Hl. unfold LimitReader. by rewrite (proj2 (Nat.leb_gt _ _)). Qed.

(** What is limited has its first bytes. *)
Lemma LimitReader_head limit b : chars (b_data (LimitReader (Z.to_nat (limit + 1)) b)) = capped_head b limit.
Proof.
  unfold capped_head, LimitReader. destruct (Nat.leb_spec (Z.to_nat (limit + 1)) (length (chars (b_data b)))) as [Hl|Hl].
  - cbn [b_data]. by rewrite chars_str.
  - rewrite take_ge by lia. done.
Qed.

Context {T : Type} (t : gotype) (build : goval → T).
#[local] Instance capped_decodes : Decodes T := answer_decodes t build.

Lemma decodeCapped_result b limit :
  decodeCapped b limit =
  let (r, n) := Decode_body t (LimitReader (Z.to_nat (limit + 1)) b) in
  match r with
  | Ok v => Ok (build v)
  | Err e => if (limit + 1 - n <=? 0)%Z then Err (err_capped limit) else Err e
  end.
Proof. unfold decodeCapped, capped_decodes, answer_decodes. cbn [Decode]. by destruct (Decode_body t (LimitReader (Z.to_nat (limit + 1)) b)) as [[v|e] n]. Qed.

Lemma decodeCapped_Ok b limit x :
  decodeCapped b limit = Ok x ↔ ∃ v, Decoder_Decode t (capped_head b limit) (b_err (LimitReader (Z.to_nat (limit + 1)) b)) = Ok v ∧ x = build v.
Proof.
  rewrite decodeCapped_result. unfold Decode_body. rewrite LimitReader_head.
  destruct (Decoder_Decode _ _ _) as [v|[]]; repeat case_match; naive_solver.
Qed.

(** A value that was over within the cap stays read, whatever comes after the bytes given. *)
Lemma decodeCapped_more b limit x more e :
  (0 ≤ limit)%Z → unfinished (capped_head b limit) = false → decodeCapped b limit = Ok x →
  decodeCapped (MkBody (b_data b +:+ more) e) limit = Ok x.
Proof.
  rewrite !decodeCapped_Ok. intros Hl Hu (v & Hd & ->). exists v. split; [|done]. rewrite <- Hd.
  assert (Hh : capped_head (MkBody (b_data b +:+ more) e) limit =
    capped_head b limit ++ take (Z.to_nat (limit + 1) - length (chars (b_data b))) (chars more)).
  { unfold capped_head. cbn [b_data]. by rewrite chars_app, take_app. }
  rewrite Hh. by apply Decoder_Decode_extend.
Qed.

(** A stream longer than the cap is cut there. *)
Lemma decodeCapped_long b limit more e :
  (0 ≤ limit < len (b_data b))%Z →
  decodeCapped (MkBody (str (capped_head b limit) +:+ more) e) limit = decodeCapped b limit.
Proof.
  intros Hl. rewrite len_chars in Hl.
  assert (Hlen : length (capped_head b limit) = Z.to_nat (limit + 1)) by (unfold capped_head; rewrite length_take; lia).
  rewrite !decodeCapped_result. rewrite !LimitReader_long; cbn [b_data]; rewrite ?chars_app, ?chars_str, ?length_app; try lia.
  fold (capped_head b limit). by rewrite take_app_le, <- Hlen, firstn_all by lia.
Qed.

(** No value is over within the cap: what more there may be does not matter. *)
Lemma decodeCapped_open b limit :
  (0 ≤ limit < len (b_data b))%Z → scan (capped_head b limit) = SMore → decodeCapped b limit = Err (err_capped limit).
Proof.
  intros Hl Hs. rewrite len_chars in Hl. rewrite decodeCapped_result, LimitReader_long by lia. fold (capped_head b limit).
  unfold Decode_body, Decoder_Decode, unfinished. cbn [b_data b_err]. rewrite chars_str, Hs, len_chars, chars_str.
  rewrite (proj2 (Z.leb_le _ 0)); [by destruct (skip_space _)|]. unfold capped_head. rewrite length_take. lia.
Qed.

(** The connection breaks, or the text ends, before the value is over. *)
Lemma decodeCapped_cut b limit :
  (len (b_data b) ≤ limit)%Z → scan (chars (b_data b)) = SMore →
  decodeCapped b limit =
  Err (match b_err b with
       | Some e => e
       | None => match skip_space (chars (b_data b)) with [] => err_EOF | _ => err_UnexpectedEOF end
       end).
Proof.
  intros Hl Hs. rewrite len_chars in Hl. rewrite decodeCapped_result, LimitReader_short by lia.
  unfold Decode_body, Decoder_Decode, unfinished. rewrite Hs, len_chars, (proj2 (Z.leb_gt _ 0)) by lia.
  destruct (b_err b) as [e|]; [done|]. by destruct (skip_space _).
Qed.

(** What a client writes of a value is read as that value. *)
Lemma decodeCapped_text b limit x j more e :
  go_ok t x → (Z.of_nat (depth t) ≤ maxNestingDepth)%Z → encode t x = Some j → needs_next (jtree j) = false →
  (len (json_text j) ≤ limit + 1)%Z → b = MkBody (json_text j +:+ more) e → decodeCapped b limit = Ok (build (norm t x)).
Proof.
  intros Hok Hd He Hn Hl ->. apply decodeCapped_Ok. exists (norm t x). split; [|done].
  rewrite len_chars in Hl. fold (jtext j) in Hl. unfold capped_head. cbn [b_data]. rewrite chars_app. fold (jtext j).
  rewrite take_app_ge by lia. by apply Decoder_Decode_text.
Qed.

(** C15: what an adapter makes of the stream of bytes a client answers, for every type it decodes.  It looks at no more
    than one byte beyond the cap: a longer stream is as good as its head, so an endpoint that never stops
    costs the cap and no more.  Without a whole value by then, the answer is refused as too long; one that
    ends earlier is refused with the reason it ended for.  Once a value is over, neither the bytes after it
    nor a connection that breaks take it back.  And a value a client writes is read as that value. *)
Theorem capped_answers b limit :
  (0 ≤ limit)%Z →
  (∀ more e, (limit < len (b_data b))%Z →
     decodeCapped (MkBody (str (capped_head b limit) +:+ more) e) limit = decodeCapped b limit) ∧
  ((limit < len (b_data b))%Z → scan (capped_head b limit) = SMore → decodeCapped b limit = Err (err_capped limit)) ∧
  ((len (b_data b) ≤ limit)%Z → scan (chars (b_data b)) = SMore →
     decodeCapped b limit =
     Err (match b_err b with
          | Some e => e
          | None => match skip_space (chars (b_data b)) with [] => err_EOF | _ => err_UnexpectedEOF end
          end)) ∧
  (∀ x more e, unfinished (capped_head b limit) = false → decodeCapped b limit = Ok x →
     decodeCapped (MkBody (b_data b +:+ more) e) limit = Ok x) ∧
  (∀ x j more e, go_ok t x → (Z.of_nat (depth t) ≤ maxNestingDepth)%Z → encode t x = Some j → needs_next (jtree j) = false →
     (len (json_text j) ≤ limit + 1)%Z → decodeCapped (MkBody (json_text j +:+ more) e) limit = Ok (build (norm t x))).
Proof.
  intros Hl. split_and!.
  - intros more e Hlt. by apply decodeCapped_long.
  - intros Hlt. by apply decodeCapped_open.
  - apply decodeCapped_cut.
  - intros x more e Hu Hd. by apply decodeCapped_more.
  - intros x j more e Hok Hd He Hn Hlen. by eapply decodeCapped_text.
Qed.
End capped.

(** ** NZBGet's answers *)

Definition nzbGroup_go (g : NZBGet.nzbGroup) : goval := GStruct [
  GInt (NZBGet.g_NZBID g); GString (NZBGet.g_NZBName g); GString (NZBGet.g_Status g);
  GInt (NZBGet.g_FileSizeMB g); GInt (NZBGet.g_FileSizeLo g); GInt (NZBGet.g_FileSizeHi g);
  GInt (NZBGet.g_DownloadedSizeMB g); GInt (NZBGet.g_DownloadedSizeLo g); GInt (NZBGet.g_DownloadedSizeHi g);
  GInt (NZBGet.g_RemainingSizeMB g); GInt (NZBGet.g_RemainingSizeLo g); GInt (NZBGet.g_RemainingSizeHi g);
  GInt (NZBGet.g_DownloadRate g); GInt (NZBGet.g_Health g); GInt (NZBGet.g_CriticalHealth g); GInt (NZBGet.g_PostStageProgress g)].

Definition nzbHistory_go (h : NZBGet.nzbHistory) : goval := GStruct [
  GInt (NZBGet.h_NZBID h); GString (NZBGet.h_Name h); GString (NZBGet.h_Status h); GString (NZBGet.h_DestDir h);
  GInt (NZBGet.h_FileSizeMB h)].

(** Integers in the range of their fields. *)
Definition group_ok (g : NZBGet.nzbGroup) : Prop :=
  Forall (fits 64) [NZBGet.g_NZBID g; NZBGet.g_FileSizeMB g; NZBGet.g_FileSizeLo g; NZBGet.g_FileSizeHi g;
    NZBGet.g_DownloadedSizeMB g; NZBGet.g_DownloadedSizeLo g; NZBGet.g_DownloadedSizeHi g;
    NZBGet.g_RemainingSizeMB g; NZBGet.g_RemainingSizeLo g; NZBGet.g_RemainingSizeHi g; NZBGet.g_DownloadRate g] ∧
  Forall (fits 32) [NZBGet.g_Health g; NZBGet.g_CriticalHealth g; NZBGet.g_PostStageProgress g].

Definition history_ok (h : NZBGet.nzbHistory) : Prop := fits 64 (NZBGet.h_NZBID h) ∧ fits 64 (NZBGet.h_FileSizeMB h).

(** With the invalid bytes of their strings replaced. *)
Definition sanitize_group (g : NZBGet.nzbGroup) : NZBGet.nzbGroup :=
  NZBGet.MkNzbGroup (NZBGet.g_NZBID g) (sanitize (NZBGet.g_NZBName g)) (sanitize (NZBGet.g_Status g))
    (NZBGet.g_FileSizeMB g) (NZBGet.g_FileSizeLo g) (NZBGet.g_FileSizeHi g)
    (NZBGet.g_DownloadedSizeMB g) (NZBGet.g_DownloadedSizeLo g) (NZBGet.g_DownloadedSizeHi g)
    (NZBGet.g_RemainingSizeMB g) (NZBGet.g_RemainingSizeLo g) (NZBGet.g_RemainingSizeHi g)
    (NZBGet.g_DownloadRate g) (NZBGet.g_Health g) (NZBGet.g_CriticalHealth g) (NZBGet.g_PostStageProgress g).

Definition sanitize_history (h : NZBGet.nzbHistory) : NZBGet.nzbHistory :=
  NZBGet.MkNzbHistory (NZBGet.h_NZBID h) (sanitize (NZBGet.h_Name h)) (sanitize (NZBGet.h_Status h))
    (sanitize (NZBGet.h_DestDir h)) (NZBGet.h_FileSizeMB h).

Lemma nzbGroup_ok g : group_ok g → go_ok nzbGroup_type (nzbGroup_go g).
Proof.
  intros [H64 H32]. repeat (apply Forall_cons in H64 as [? H64]). repeat (apply Forall_cons in H32 as [? H32]).
  split; [vm_compute; reflexivity|]. repeat match goal with |- _ ∧ _ => split end; try done; eauto with gw lia.
Qed.

Lemma nzbHistory_ok h : history_ok h → go_ok nzbHistory_type (nzbHistory_go h).
Proof.
  intros [H1 H2]. split; [vm_compute; reflexivity|]. repeat match goal with |- _ ∧ _ => split end; try done; eauto with gw lia.
Qed.

(** An answer of JSON-RPC with a result, as NZBGet writes it. *)
Definition rpc_answer (result : json) : string := json_text (JObj [("version", JStr "1.1"); ("result", result)]).

Lemma decode_raw v raw old : decode v raw TRaw old = (GRaw (Some raw), None).
Proof. by destruct v. Qed.

Section nzbget.
Context `{JsonErrors} {W : Type} `{HttpWorld W} `{Quote}.

(** The request [call] makes. *)
Definition rpc_request (n : NZBGet.NZBGet) (method : string) (params : list json) : Request :=
  let body := NZBGet.rpc_body method params in
  MkRequest "POST" (NZBGet.nz_BaseURL n +:+ "/jsonrpc")
    (("Content-Type", "application/json") ::
     (if bool_decide (NZBGet.nz_Username n = EmptyString) then []
      else [basic_auth (NZBGet.nz_Username n) (NZBGet.nz_Password n)]))
    body (len body).

Lemma decode_rpc_answer j d rest (e : option error) :
  json_ok d j → (Z.of_nat (S d) ≤ maxNestingDepth)%Z →
  Decoder_Decode rpc_type (chars (rpc_answer j) ++ rest) e = Ok (GStruct [GRaw (Some (jtext j)); GPtr None]).
Proof.
  intros Hj Hd. unfold Decoder_Decode. change (chars (rpc_answer j)) with (jtext (JObj [("version", JStr "1.1"); ("result", j)])).
  rewrite (scan_json _ (S d)) by done. change (needs_next (jtree (JObj [("version", JStr "1.1"); ("result", j)]))) with false.
  change (decode (jtree (JObj [("version", JStr "1.1"); ("result", j)])) (jtext (JObj [("version", JStr "1.1"); ("result", j)]))
    rpc_type (zero_value rpc_type)) with
    (decode_members rpc_fields [(chars (sanitize "version"), (jtext (JStr "1.1"), jtree (JStr "1.1")));
       (chars (sanitize "result"), (jtext j, jtree j))] [GRaw None; GPtr None] None).
  assert (E1 : find_field rpc_fields (chars (sanitize "version")) = None) by (vm_compute; reflexivity).
  assert (E2 : find_field rpc_fields (chars (sanitize "result")) = Some (0%nat, TRaw)) by (vm_compute; reflexivity).
  cbn [decode_members]. rewrite E1, E2. rewrite decode_raw.
  by destruct e, rest.
Qed.

(** A list, from the bytes of the answer to its call. *)
Lemma fetch_text {A} t (f : A → goval) (g : goval → A) (h : A → A) n method arg l j more e (w w' : W) :
  is_Some (Parse (NZBGet.nz_BaseURL n +:+ "/jsonrpc")) → method ∈ ["listgroups"; "history"] →
  is_uint8 t = false → (∀ x, g (norm t (f x)) = h x) →
  go_ok (TSlice t) (go_slice f l) → (Z.of_nat (depth (TSlice t)) < maxNestingDepth)%Z → encode (TSlice t) (go_slice f l) = Some j →
  (len (rpc_answer j) ≤ maxListResponse)%Z →
  Do (NZBGet.nz_HTTP n) (rpc_request n method [arg]) w = (Ok (MkResponse 200 (MkBody (rpc_answer j +:+ more) e)), w') →
  @NZBGet.fetch W _ _ (list A) (answer_decodes (TSlice t) (as_list g)) n method arg w = (Ok (h <$> l), w').
Proof.
  intros [u Hu] Hm H8 Hg Hok Hd He Hl Hdo. destruct (round_all _ _ _ Hok He) as (Hr & Hj & _).
  unfold NZBGet.fetch, NZBGet.call, NZBGet.send, NewRequest, mbind_, mlift, mret_, mfail. rewrite Hu. cbn [rq_Method rq_URL rq_Header rq_Body].
  unfold rpc_request in Hdo. rewrite Hdo. cbn [rs_StatusCode rs_Body]. change (negb (200 =? StatusOK)%Z) with false. cbv iota.
  assert (Hlim : (if bool_decide (method = "listgroups") || bool_decide (method = "history") then maxListResponse else maxResponse) = maxListResponse).
  { apply elem_of_cons in Hm as [->|Hm%list_elem_of_singleton]; [done|by subst]. }
  rewrite Hlim. assert (Hc : decodeCapped (T := NZBGet.rpc_reply) (MkBody (rpc_answer j +:+ more) e) maxListResponse = Ok (NZBGet.MkRpcReply (json_text j) None)).
  { apply decodeCapped_Ok. exists (GStruct [GRaw (Some (jtext j)); GPtr None]). split; [|unfold of_rpc; cbn; unfold jtext; by rewrite str_chars].
    unfold capped_head. cbn [b_data]. rewrite chars_app, take_app_ge by (rewrite len_chars in Hl; lia).
    apply (decode_rpc_answer j (depth (TSlice t))); [done|lia]. }
  rewrite Hc. cbn [NZBGet.rpc_Error NZBGet.rpc_Result Unmarshal answer_decodes]. unfold Unmarshal_text.
  rewrite (json_Unmarshal_Marshal (TSlice t) (go_slice f l)); [|done|lia|unfold json_Marshal; by rewrite He].
  cbn [rmap]. by rewrite (as_list_round t f g h).
Qed.

Lemma nzbGroup_read g : of_nzbGroup (norm nzbGroup_type (nzbGroup_go g)) = sanitize_group g.
Proof. by destruct g. Qed.

Lemma nzbHistory_read h : of_nzbHistory (norm nzbHistory_type (nzbHistory_go h)) = sanitize_history h.
Proof. by destruct h. Qed.

(** The answers a queue and a history are written as. *)
Definition queue_answer (gs : list NZBGet.nzbGroup) : string :=
  rpc_answer (default JNull (encode (TSlice nzbGroup_type) (go_slice nzbGroup_go gs))).
Definition history_answer (hs : list NZBGet.nzbHistory) : string :=
  rpc_answer (default JNull (encode (TSlice nzbHistory_type) (go_slice nzbHistory_go hs))).

Lemma fetch_queue n arg gs more e (w w' : W) :
  is_Some (Parse (NZBGet.nz_BaseURL n +:+ "/jsonrpc")) → Forall group_ok gs → (len (queue_answer gs) ≤ maxListResponse)%Z →
  Do (NZBGet.nz_HTTP n) (rpc_request n "listgroups" [arg]) w = (Ok (MkResponse 200 (MkBody (queue_answer gs +:+ more) e)), w') →
  NZBGet.fetch (T := list NZBGet.nzbGroup) n "listgroups" arg w = (Ok (sanitize_group <$> gs), w').
Proof.
  unfold queue_answer. intros Hu Hgs. assert (Hok : go_ok (TSlice nzbGroup_type) (go_slice nzbGroup_go gs)).
  { apply go_ok_slice. eapply Forall_impl; [exact Hgs|apply nzbGroup_ok]. }
  destruct (encode_total _ _ Hok) as [j Hj]. rewrite Hj. cbn [from_option id]. intros Hl Hd.
  apply (fetch_text nzbGroup_type nzbGroup_go of_nzbGroup sanitize_group n "listgroups" arg gs j more e w w'); first [done|set_solver|apply nzbGroup_read].
Qed.

Lemma fetch_history n arg hs more e (w w' : W) :
  is_Some (Parse (NZBGet.nz_BaseURL n +:+ "/jsonrpc")) → Forall history_ok hs → (len (history_answer hs) ≤ maxListResponse)%Z →
  Do (NZBGet.nz_HTTP n) (rpc_request n "history" [arg]) w = (Ok (MkResponse 200 (MkBody (history_answer hs +:+ more) e)), w') →
  NZBGet.fetch (T := list NZBGet.nzbHistory) n "history" arg w = (Ok (sanitize_history <$> hs), w').
Proof.
  unfold history_answer. intros Hu Hhs. assert (Hok : go_ok (TSlice nzbHistory_type) (go_slice nzbHistory_go hs)).
  { apply go_ok_slice. eapply Forall_impl; [exact Hhs|apply nzbHistory_ok]. }
  destruct (encode_total _ _ Hok) as [j Hj]. rewrite Hj. cbn [from_option id]. intros Hl Hd.
  apply (fetch_text nzbHistory_type nzbHistory_go of_nzbHistory sanitize_history n "history" arg hs j more e w w'); first [done|set_solver|apply nzbHistory_read].
Qed.

Lemma find_map {A} (f : A → A) (p : A → bool) l :
  (∀ x, p (f x) = p x) → List.find p (f <$> l) = f <$> List.find p l.
Proof.
  intros Hp. induction l as [|x l IH]; [done|]. rewrite fmap_cons. cbn [List.find]. rewrite Hp. by destruct (p x).
Qed.

(** NZBGet's Describe, from the bytes it answers. *)
Lemma nzbget_describes n id gs hs more1 more2 e1 e2 (w w1 w2 : W) :
  is_Some (Parse (NZBGet.nz_BaseURL n +:+ "/jsonrpc")) → Forall group_ok gs → Forall history_ok hs →
  (len (queue_answer gs) ≤ maxListResponse)%Z → (len (history_answer hs) ≤ maxListResponse)%Z →
  Do (NZBGet.nz_HTTP n) (rpc_request n "listgroups" [JInt 0]) w = (Ok (MkResponse 200 (MkBody (queue_answer gs +:+ more1) e1)), w1) →
  Do (NZBGet.nz_HTTP n) (rpc_request n "history" [JBool false]) w1 = (Ok (MkResponse 200 (MkBody (history_answer hs +:+ more2) e2)), w2) →
  NZBGet.Describe n id w =
  match List.find (λ g, NZBGet.g_NZBID g =? (Atoi id).1)%Z gs with
  | Some g => (Ok (NZBGet.foldNZBGroup (sanitize_group g)), w1)
  | None =>
      (Ok (match List.find (λ h, NZBGet.h_NZBID h =? (Atoi id).1)%Z hs with
           | Some h => NZBGet.foldNZBHistory (sanitize_history h)
           | None => NotFoundView
           end), w2)
  end.
Proof.
  intros Hu Hgs Hhs Hl1 Hl2 Hd1 Hd2. unfold NZBGet.Describe, mbind_, mtry, mret_, mfail.
  rewrite (fetch_queue n _ gs more1 e1 w w1) by done. rewrite (find_map sanitize_group) by done.
  destruct (List.find _ gs) as [g|]; [done|]. cbn [fmap option_fmap option_map].
  rewrite (fetch_history n _ hs more2 e2 w1 w2) by done. rewrite (find_map sanitize_history) by done.
  by destruct (List.find _ hs).
Qed.
End nzbget.

Section witnesses.
#[local] Instance demo_json : JsonErrors := {|
  syntax_error := λ _, ErrorString "invalid character";
  fault_error := λ _ _ _, ErrorString "json: cannot unmarshal";
  read_ahead := λ data, Z.of_nat (length data)
|}.

(** A page of a megabyte of open brackets, a page cut off, and one the connection breaks after. *)
Lemma capped_answers_witness :
  decodeCapped (T := list NZBGet.nzbGroup) (MkBody "[[[[" None) 2 = Err (err_capped 2) ∧
  decodeCapped (T := list NZBGet.nzbGroup) (MkBody "[ " None) 2 = Err err_UnexpectedEOF ∧
  decodeCapped (T := list NZBGet.nzbGroup) (MkBody ("[]" +:+ "[1]") (Some (ErrorString "reset"))) 2 = Ok [].
Proof.
  pose proof (capped_answers (TSlice nzbGroup_type) (as_list of_nzbGroup)) as H. split_and!.
  - destruct (H (MkBody "[[[[" None) 2%Z) as (_ & Hc & _); [done|]. apply Hc; reflexivity.
  - destruct (H (MkBody "[ " None) 2%Z) as (_ & _ & Hc & _); [done|]. exact (Hc ltac:(discriminate) eq_refl).
  - destruct (H (MkBody "[]" None) 2%Z) as (_ & _ & _ & Hc & _); [done|].
    exact (Hc [] "[1]" (Some (ErrorString "reset")) eq_refl eq_refl).
Defined.
End witnesses.
