(* ===== verification/Views.v ===== *)
(** * What [Describe] makes of the bytes a client answers

    The list each client answers a question about one job with, as it writes it, and the view the gateway
    has of the job then: NZBGet's queue and history (Answers.v), a page of oDownloader's links, and
    qBittorrent's torrents of a tag. *)

From S2P Require Import Prelude GoStrings GoFloat GoUrl Json JsonText JsonTextSpec GoFloatSpec JsonTypes JsonTypesSpec Adapters Responses Http.
From S2P Require Import NZBGet ODownloader QBittorrent Answers.
From Stdlib Require Import Ascii SpecFloat.

(** ** oDownloader's page *)

Definition odlDownloadView_go (d : odlDownloadView) : goval := GStruct [
  GString (odl_ID d); GString (odl_PackageID d); GString (odl_Name d); GInt (odl_BytesDone d); GInt (odl_BytesTotal d);
  GInt (odl_SpeedBytesPerSecond d); go_opt (odl_EtaSeconds d); GString (odl_State d); GString (odl_Message d); GString (odl_OutputPath d)].

Definition odlPage_go (p : odlPage) : goval := GStruct [go_slice odlDownloadView_go (odl_Content p)].

(** Integers in the range of their fields. *)
Definition link_ok (d : odlDownloadView) : Prop :=
  fits 64 (odl_BytesDone d) ∧ fits 64 (odl_BytesTotal d) ∧ fits 64 (odl_SpeedBytesPerSecond d) ∧ opt_fits 64 (odl_EtaSeconds d).

Definition sanitize_link (d : odlDownloadView) : odlDownloadView :=
  MkOdlDownloadView (sanitize (odl_ID d)) (sanitize (odl_PackageID d)) (sanitize (odl_Name d)) (odl_BytesDone d) (odl_BytesTotal d)
    (odl_SpeedBytesPerSecond d) (odl_EtaSeconds d) (sanitize (odl_State d)) (sanitize (odl_Message d)) (sanitize (odl_OutputPath d)).

Definition page_answer (ds : list odlDownloadView) : string :=
  json_text (default JNull (encode odlPage_type (odlPage_go (MkOdlPage ds)))).

Lemma odlDownloadView_ok d : link_ok d → go_ok odlDownloadView_type (odlDownloadView_go d).
Proof.
  intros (? & ? & ? & ?). split; [vm_compute; reflexivity|]. repeat match goal with |- _ ∧ _ => split end; try done; eauto with gw lia.
Qed.

Lemma odlDownloadView_read d : of_odlDownloadView (norm odlDownloadView_type (odlDownloadView_go d)) = sanitize_link d.
Proof. destruct d as [? ? ? ? ? ? [] ? ? ?]; reflexivity. Qed.

Lemma odlPage_read ds : of_odlPage (norm odlPage_type (odlPage_go (MkOdlPage ds))) = MkOdlPage (sanitize_link <$> ds).
Proof.
  unfold of_odlPage, odlPage_type, odlPage_go. cbn [norm odl_Content]. cbn [field lookup list_lookup from_option default andb].
  f_equal. apply (as_list_round odlDownloadView_type odlDownloadView_go of_odlDownloadView sanitize_link); [done|apply odlDownloadView_read].
Qed.

(** ** qBittorrent's torrents *)

Definition qbTorrent_go (t : qbTorrent) : goval := GStruct [
  GString (qt_Hash t); GString (qt_Name t); GString (qt_State t); GFloat (qt_Progress t); GInt (qt_DlSpeed t); GInt (qt_Eta t);
  GInt (qt_Size t); GInt (qt_Completed t); GString (qt_ContentPath t); GString (qt_SavePath t); GInt (qt_NumSeeds t);
  GInt (qt_NumLeechs t); GString (qt_Tags t); GString (qt_Category t)].

Definition torrent_ok (t : qbTorrent) : Prop :=
  float_finite (qt_Progress t) = true ∧ fits 64 (qt_DlSpeed t) ∧ fits 64 (qt_Eta t) ∧ fits 64 (qt_Size t) ∧ fits 64 (qt_Completed t) ∧
  fits 32 (qt_NumSeeds t) ∧ fits 32 (qt_NumLeechs t).

Definition sanitize_torrent (t : qbTorrent) : qbTorrent :=
  MkQbTorrent (sanitize (qt_Hash t)) (sanitize (qt_Name t)) (sanitize (qt_State t)) (qt_Progress t) (qt_DlSpeed t) (qt_Eta t)
    (qt_Size t) (qt_Completed t) (sanitize (qt_ContentPath t)) (sanitize (qt_SavePath t)) (qt_NumSeeds t) (qt_NumLeechs t)
    (sanitize (qt_Tags t)) (sanitize (qt_Category t)).

Definition torrents_answer (ts : list qbTorrent) : string :=
  json_text (default JNull (encode (TSlice qbTorrent_type) (go_slice qbTorrent_go ts))).

Lemma qbTorrent_ok t : torrent_ok t → go_ok qbTorrent_type (qbTorrent_go t).
Proof.
  intros (? & ? & ? & ? & ? & ? & ?). split; [vm_compute; reflexivity|]. repeat match goal with |- _ ∧ _ => split end; try done; eauto with gw lia.
Qed.

Lemma qbTorrent_read t : of_qbTorrent (norm qbTorrent_type (qbTorrent_go t)) = sanitize_torrent t.
Proof. by destruct t. Qed.

Section describe.
Context `{JsonErrors} {W : Type} `{HttpWorld W} `{Quote}.

(** The request [do_] makes of a GET. *)
Definition odl_request (o : ODownloader) (path : string) : Request :=
  MkRequest "GET" (od_BaseURL o +:+ path)
    ((if bool_decide (od_Token o = EmptyString) then [] else [("Authorization", "Bearer " +:+ od_Token o)]) ++ [("Accept", "application/json")])
    EmptyString 0.

Definition qb_request (q : QBittorrent) (path : string) (query : Values) : Request :=
  MkRequest "GET" (qb_BaseURL q +:+ path +:+ match query with [] => EmptyString | _ => "?" +:+ Encode query end)
    [("Referer", qb_BaseURL q)] EmptyString 0.

(** A value a client writes, read by [decodeCapped] under the instance of its type. *)
Lemma decode_written {T} (t : gotype) (build : goval → T) x more e limit :
  go_ok t x → (Z.of_nat (depth t) ≤ maxNestingDepth)%Z → (∀ j, encode t x = Some j → needs_next (jtree j) = false) →
  (len (json_text (default JNull (encode t x))) ≤ limit + 1)%Z →
  @decodeCapped T (answer_decodes t build) (MkBody (json_text (default JNull (encode t x)) +:+ more) e) limit = Ok (build (norm t x)).
Proof.
  intros Hok Hd Hn. destruct (encode_total t x Hok) as [j Hj]. rewrite Hj. cbn [default from_option id]. intros Hl.
  by eapply decodeCapped_text; try done; apply Hn.
Qed.

Lemma odl_describes o id ds more e (w w' : W) :
  is_Some (Parse (od_BaseURL o +:+ describe_path id)) → Forall link_ok ds → (len (page_answer ds) ≤ maxListResponse)%Z →
  Do (od_HTTP o) (odl_request o (describe_path id)) w = (Ok (MkResponse 200 (MkBody (page_answer ds +:+ more) e)), w') →
  ODownloader.Describe o id w = (Ok (foldODL (sanitize_link <$> ds)), w').
Proof.
  intros [u Hu] Hds Hl Hdo. unfold ODownloader.Describe, do_, send_request, NewRequest, mbind_, mlift, mret_, mfail. rewrite Hu.
  unfold odl_request in Hdo. cbn [app]. change (len EmptyString) with 0%Z. rewrite Hdo. change (not_2xx _) with false. cbv iota. cbn [rs_Body].
  rewrite (decode_written odlPage_type of_odlPage (odlPage_go (MkOdlPage ds))).
  - by rewrite odlPage_read.
  - split; [vm_compute; reflexivity|]. split; [|done]. apply go_ok_slice. eapply Forall_impl; [exact Hds|apply odlDownloadView_ok].
  - by vm_compute.
  - intros j. apply encode_struct_closed.
  - fold (page_answer ds). lia.
Qed.

Lemma qb_describes q tag ts more e (w w' : W) :
  hasSession q w = true → is_Some (Parse (qb_BaseURL q +:+ "/api/v2/torrents/info" +:+ "?" +:+ Encode [("tag", tag)])) →
  Forall torrent_ok ts → (len (torrents_answer ts) ≤ maxListResponse)%Z →
  Do (qb_HTTP q) (qb_request q "/api/v2/torrents/info" [("tag", tag)]) w = (Ok (MkResponse 200 (MkBody (torrents_answer ts +:+ more) e)), w') →
  QBittorrent.Describe q tag w = (Ok (match ts with [] => NotFoundView | t :: _ => foldQB (sanitize_torrent t) end), w').
Proof.
  intros Hs [u Hu] Hts Hl Hdo. unfold QBittorrent.Describe, byTag, authed, QBittorrent.get, send_request, NewRequest, mbind_, mret_, mfail.
  rewrite Hs, Hu. unfold qb_request in Hdo. change (len EmptyString) with 0%Z. rewrite Hdo. cbn [rs_StatusCode rs_Body].
  change (200 =? StatusForbidden)%Z with false. change (negb (200 =? StatusOK)%Z) with false. cbv iota. cbn [rs_StatusCode rs_Body].
  change (negb (200 =? StatusOK)%Z) with false. cbv iota.
  rewrite (decode_written (TSlice qbTorrent_type) (as_list of_qbTorrent) (go_slice qbTorrent_go ts)).
  - rewrite (as_list_round qbTorrent_type qbTorrent_go of_qbTorrent sanitize_torrent); [by destruct ts|done|apply qbTorrent_read].
  - apply go_ok_slice. eapply Forall_impl; [exact Hts|apply qbTorrent_ok].
  - by vm_compute.
  - intros j. cbn. destruct (mapM _ _); [|done]. by intros [= <-].
  - fold (torrents_answer ts). lia.
Qed.
(** ** Properties *)

(** C24: what is known of a job, from the bytes its client answers, whatever it sends after its lists.  NZBGet: the entry of
    the queue with the job's number, and else the entry of the history, and else the job is not found; an outage never looks
    like a deleted job, as a job is said to be unknown only when both lists were had and neither has its number.
    oDownloader: the fold of the links of the page.  qBittorrent, with a session: the first torrent of the job's tag, and not found
    without one.  Each entry is read as the client wrote it, field by field, invalid bytes of its strings replaced. *)
Theorem Describe_bytes :
  (∀ (n : NZBGet) id gs hs more1 more2 e1 e2 (w w1 w2 : W),
     is_Some (Parse (nz_BaseURL n +:+ "/jsonrpc")) → Forall group_ok gs → Forall history_ok hs →
     (len (queue_answer gs) ≤ maxListResponse)%Z → (len (history_answer hs) ≤ maxListResponse)%Z →
     Do (nz_HTTP n) (rpc_request n "listgroups" [JInt 0]) w = (Ok (MkResponse 200 (MkBody (queue_answer gs +:+ more1) e1)), w1) →
     Do (nz_HTTP n) (rpc_request n "history" [JBool false]) w1 = (Ok (MkResponse 200 (MkBody (history_answer hs +:+ more2) e2)), w2) →
     NZBGet.Describe n id w =
     match List.find (λ g, g_NZBID g =? (Atoi id).1)%Z gs with
     | Some g => (Ok (foldNZBGroup (sanitize_group g)), w1)
     | None =>
         (Ok (match List.find (λ h, h_NZBID h =? (Atoi id).1)%Z hs with
              | Some h => foldNZBHistory (sanitize_history h)
              | None => NotFoundView
              end), w2)
     end) ∧
  (∀ (n : NZBGet) id (w w' : W), NZBGet.Describe n id w = (Ok NotFoundView, w') →
     ∃ gs hs w1, fetch (T := list nzbGroup) n "listgroups" (JInt 0) w = (Ok gs, w1) ∧
       fetch (T := list nzbHistory) n "history" (JBool false) w1 = (Ok hs, w') ∧
       Forall (λ g, g_NZBID g ≠ (Atoi id).1) gs ∧ Forall (λ h, h_NZBID h ≠ (Atoi id).1) hs) ∧
  (∀ o id ds more e (w w' : W),
     is_Some (Parse (od_BaseURL o +:+ describe_path id)) → Forall link_ok ds → (len (page_answer ds) ≤ maxListResponse)%Z →
     Do (od_HTTP o) (odl_request o (describe_path id)) w = (Ok (MkResponse 200 (MkBody (page_answer ds +:+ more) e)), w') →
     ODownloader.Describe o id w = (Ok (foldODL (sanitize_link <$> ds)), w')) ∧
  (∀ q tag ts more e (w w' : W),
     hasSession q w = true → is_Some (Parse (qb_BaseURL q +:+ "/api/v2/torrents/info" +:+ "?" +:+ Encode [("tag", tag)])) →
     Forall torrent_ok ts → (len (torrents_answer ts) ≤ maxListResponse)%Z →
     Do (qb_HTTP q) (qb_request q "/api/v2/torrents/info" [("tag", tag)]) w = (Ok (MkResponse 200 (MkBody (torrents_answer ts +:+ more) e)), w') →
     QBittorrent.Describe q tag w = (Ok (match ts with [] => NotFoundView | t :: _ => foldQB (sanitize_torrent t) end), w')).
Proof.
  split_and!.
  - intros. by eapply nzbget_describes.
  - intros n id w w'. apply NZBGet.Describe_unknown.
  - intros. by eapply odl_describes.
  - intros. by eapply qb_describes.
Qed.
End describe.

Section witnesses.
#[local] Instance demo_json : JsonErrors := {|
  syntax_error := λ _, ErrorString "invalid character";
  fault_error := λ _ _ _, ErrorString "json: cannot unmarshal";
  read_ahead := λ data, Z.of_nat (length data)
|}.

Definition demo_group : nzbGroup :=
  MkNzbGroup 7 (str ["a"; "255"]%char) "DOWNLOADING" 6144 2147483648 1 0 0 0 6144 2147483648 1 1048576 1000 850 0.
Definition demo_history : nzbHistory := MkNzbHistory 5 "b" "SUCCESS/ALL" "/data/b" 10.
Definition demo_link : odlDownloadView := MkOdlDownloadView "1" "p" "a.bin" 10 20 5 (Some 2%Z) "RUNNING" EmptyString "/data/a.bin".
Definition demo_torrent : qbTorrent :=
  MkQbTorrent "h" "A" "downloading" (fdiv (float64 1) (float64 3)) 1 10 100 50 EmptyString "/d" 1 1 "tag" "tv".

(** One job at each client, over the number of requests made. *)
#[local] Instance demo_clients : HttpWorld nat := {|
  Do := λ _ req w,
    (Ok (MkResponse 200
       (if bool_decide (rq_Body req = rpc_body "listgroups" [JInt 0]) then MkBody (queue_answer [demo_group] +:+ "and more") None
        else if bool_decide (rq_Method req = "POST") then MkBody (history_answer [demo_history] +:+ EmptyString) (Some (ErrorString "reset"))
        else if HasPrefix (rq_URL req) "http://odl" then MkBody (page_answer [demo_link] +:+ EmptyString) None
        else MkBody (torrents_answer [demo_torrent] +:+ "]") None)), S w);
  Cookies := λ _ _ _, [("SID", "s")];
  parse_cause := λ s, ErrorString "parse"
|}.
#[local] Instance demo_view_quote : Quote := λ s, s.

Definition demo_nzbget : NZBGet := NewNZBGet 0 "http://nzbget:6789/" "u" "p" "tv".
Definition demo_odl : ODownloader := NewODownloader 0 "http://odl:8080" "t".
Definition demo_qb : QBittorrent := NewQBittorrent 0 "http://qb:8080" "u" "p".

Lemma Describe_bytes_witness :
  NZBGet.Describe demo_nzbget "7" 0%nat = (Ok (foldNZBGroup (sanitize_group demo_group)), 1%nat) ∧
  NZBGet.Describe demo_nzbget "5" 0%nat = (Ok (foldNZBHistory demo_history), 2%nat) ∧
  ODownloader.Describe demo_odl "p" 0%nat = (Ok (foldODL [demo_link]), 1%nat) ∧
  QBittorrent.Describe demo_qb "tag" 0%nat = (Ok (foldQB demo_torrent), 1%nat).
Proof.
  assert (Hg : Forall group_ok [demo_group]).
  { apply Forall_singleton. split; repeat (apply Forall_cons; split; [split; done|]); apply Forall_nil; exact I. }
  assert (Hh : Forall history_ok [demo_history]) by (apply Forall_singleton; split; split; done).
  assert (Hl1 : (len (queue_answer [demo_group]) ≤ maxListResponse)%Z) by (apply Z.leb_le; vm_compute; reflexivity).
  assert (Hl2 : (len (history_answer [demo_history]) ≤ maxListResponse)%Z) by (apply Z.leb_le; vm_compute; reflexivity).
  destruct (Describe_bytes (W := nat)) as (Hn & _ & Ho & Hq). split_and!.
  - rewrite (Hn demo_nzbget "7" [demo_group] [demo_history] "and more" EmptyString None (Some (ErrorString "reset")) 0%nat 1%nat 2%nat);
      [vm_compute; reflexivity|eexists; vm_compute; reflexivity|exact Hg|exact Hh|exact Hl1|exact Hl2|vm_compute; reflexivity|vm_compute; reflexivity].
  - rewrite (Hn demo_nzbget "5" [demo_group] [demo_history] "and more" EmptyString None (Some (ErrorString "reset")) 0%nat 1%nat 2%nat);
      [vm_compute; reflexivity|eexists; vm_compute; reflexivity|exact Hg|exact Hh|exact Hl1|exact Hl2|vm_compute; reflexivity|vm_compute; reflexivity].
  - rewrite (Ho demo_odl "p" [demo_link] EmptyString None 0%nat 1%nat);
      [vm_compute; reflexivity|eexists; vm_compute; reflexivity| |apply Z.leb_le; vm_compute; reflexivity|vm_compute; reflexivity].
    apply Forall_singleton. split_and!; split; done.
  - rewrite (Hq demo_qb "tag" [demo_torrent] "]" None 0%nat 1%nat);
      [vm_compute; reflexivity|vm_compute; reflexivity|eexists; vm_compute; reflexivity| |apply Z.leb_le; vm_compute; reflexivity|vm_compute; reflexivity].
    apply Forall_singleton. split_and!; [vm_compute; reflexivity|split; done..].
Defined.
End witnesses.
