(* ===== verification/Auth.v ===== *)
(** * internal/auth/oidc.go: optional bearer validation

    [Verifier], how it is built from the environment, the lazily built provider ([ensure]), the
    middleware and [allows], which reads the claims of a token by encoding/json.  Discovery and signature checks are
    go-oidc's: the class [Oidc].  Issuer.v has the issuer of the tests, whose tokens this middleware is asked about. *)

From S2P Require Import Prelude GoStrings Responses Json JsonText JsonTypes.
From Stdlib Require Import Ascii.

(** go-oidc over a world [W]: verifiers [V] and tokens [T]. *)
Class Oidc (V T W : Type) := {
  NewProvider : string → W → result error V * W;         (* oidc.NewProvider, then p.Verifier *)
  Verify : V → string → W → result error T * W;
  raw_claims : T → string                                (* the payload of a verified token *)
}.

(** The struct [allows] reads the claims into. *)
Definition claims_type : gotype := TStruct [("azp", false, TString); ("client_id", false, TString)].
Definition of_claims (x : goval) : string * string := (as_string (field 0 x), as_string (field 1 x)).

(** [IDToken.Claims] unmarshals the payload. *)
Definition Claims {V T W} `{Oidc V T W} (tok : T) : result unmarshal_error (string * string) :=
  rmap of_claims (json_Unmarshal claims_type (raw_claims tok)).

Record Verifier (V : Type) := MkVerifier {
  ve_issuer : string;
  ve_allowed : gset string;
  ve_verifier : option V;
  ve_ready : bool
}.
Arguments MkVerifier {V} _ _ _ _.
Arguments ve_issuer {V} _.
Arguments ve_allowed {V} _.
Arguments ve_verifier {V} _.
Arguments ve_ready {V} _.

(** The non-blank ids of a list, trimmed. *)
Definition trimmed_ids (ids : list string) : list string :=
  filter (λ id, id ≠ EmptyString) (TrimSpace <$> ids).

Definition NewVerifier {V} (issuer : string) (allowedClients : list string) : Verifier V :=
  let issuer := TrimSpace issuer in
  let allowed : gset string := list_to_set (trimmed_ids allowedClients) in
  MkVerifier issuer (if bool_decide (issuer = EmptyString) then ∅ else allowed) None false.

Definition ParseClientList (s : string) : list string := trimmed_ids (Split s ","%char).

(** The allowed ids as the log line at startup shows them. *)
Definition keys (m : gset string) : list string := sort_strings (elements m).

Definition Enabled {V} (v : Verifier V) : bool := negb (bool_decide (ve_issuer v = EmptyString)).

Definition Restricted {V} (v : Verifier V) : bool :=
  negb (bool_decide (ve_issuer v = EmptyString)) && negb (bool_decide (ve_allowed v = ∅)).

(** What the middleware does with a request: call the next handler, or answer itself. *)
Inductive outcome :=
  | Next
  | Answer (code : Z) (msg : string).

Section middleware.
Context {V T W : Type} `{Oidc V T W} `{Quote}.

(** [ensure]: under the verifier's mutex. *)
Definition ensure (v : Verifier V) (w : W) : option error * Verifier V * W :=
  if ve_ready v then (None, v, w)
  else match NewProvider (ve_issuer v) w with
       | (Err e, w) => (Some e, v, w)
       | (Ok p, w) => (None, MkVerifier (ve_issuer v) (ve_allowed v) (Some p) true, w)
       end.

Definition allows (v : Verifier V) (tok : T) : bool :=
  match Claims tok with
  | Err _ => false
  | Ok (azp, client_id) =>
      (negb (bool_decide (azp = EmptyString)) && bool_decide (azp ∈ ve_allowed v)) ||
      (negb (bool_decide (client_id = EmptyString)) && bool_decide (client_id ∈ ve_allowed v))
  end.

(** [Middleware]; [authz] is the request's Authorization header.  A nil verifier, which [Verify]
    would dereference, cannot be there once [ensure] succeeded; it is the last case. *)
Definition Middleware (v : Verifier V) (authz : string) (w : W) : outcome * Verifier V * W :=
  if negb (Enabled v) then (Next, v, w)
  else if negb (HasPrefix authz "Bearer ") then (Answer 401 "missing bearer token", v, w)
  else
    let raw := TrimPrefix authz "Bearer " in
    match ensure v w with
    | (Some _, v, w) => (Answer 503 "oidc provider unavailable", v, w)
    | (None, v, w) =>
        match ve_verifier v with
        | None => (Answer 500 EmptyString, v, w)
        | Some p =>
            match Verify p raw w with
            | (Err e, w) => (Answer 401 ("invalid token: " +:+ Error_text e), v, w)
            | (Ok tok, w) =>
                if Restricted v && negb (allows v tok)
                then (Answer 403 "this client is not allowed to call the gateway", v, w)
                else (Next, v, w)
            end
        end
    end.

(** ** Facts *)

(** A verifier that is ready has one. *)
Definition wf_verifier (v : Verifier V) : Prop := ve_ready v = true → is_Some (ve_verifier v).

Lemma NewVerifier_wf issuer ids : wf_verifier (NewVerifier issuer ids).
Proof. done. Qed.

Lemma ensure_spec v w :
  wf_verifier v →
  match ensure v w with
  | (Some e, v', w') => v' = v ∧ ve_ready v = false ∧ NewProvider (ve_issuer v) w = (Err e, w')
  | (None, v', w') => wf_verifier v' ∧ ve_ready v' = true ∧ ve_issuer v' = ve_issuer v ∧ ve_allowed v' = ve_allowed v ∧
                      is_Some (ve_verifier v')
  end.
Proof.
  intros Hw. unfold ensure. destruct (ve_ready v) eqn:Hr.
  - split_and!; try done. by apply Hw.
  - destruct (NewProvider (ve_issuer v) w) as [[p|e] w']; [|done]. cbn. split_and!; try done. intros _. by eexists.
Qed.

(** The clients a token may be issued to. *)
Definition issued_to_allowed (v : Verifier V) (tok : T) : Prop :=
  ∃ azp client_id, Claims tok = Ok (azp, client_id) ∧
    ((azp ≠ EmptyString ∧ azp ∈ ve_allowed v) ∨ (client_id ≠ EmptyString ∧ client_id ∈ ve_allowed v)).

Lemma allows_spec v tok : allows v tok = true ↔ issued_to_allowed v tok.
Proof.
  unfold allows, issued_to_allowed. destruct (Claims tok) as [[azp cid]|e]; [|naive_solver].
  rewrite orb_true_iff, !andb_true_iff, !negb_true_iff, !bool_decide_eq_true, !bool_decide_eq_false.
  split; [by exists azp, cid|]. by intros (a & c & [= <- <-] & Hac).
Qed.

Lemma bearer_inj raw raw' : "Bearer " +:+ raw = "Bearer " +:+ raw' → raw = raw'.
Proof. intros E. apply (f_equal chars) in E. rewrite !chars_app in E. apply app_inv_head in E. by apply chars_inj. Qed.

Lemma refused_spec v tok :
  ve_issuer v ≠ EmptyString →
  Restricted v && negb (allows v tok) = false ↔ (ve_allowed v ≠ ∅ → issued_to_allowed v tok).
Proof.
  intros Hi. unfold Restricted. rewrite (bool_decide_eq_false_2 _ Hi). cbn [negb andb].
  rewrite <- allows_spec, andb_false_iff, !negb_false_iff, bool_decide_eq_true.
  destruct (decide (ve_allowed v = ∅)); tauto.
Qed.

(** A token of this request that the provider accepts and the allow list admits. *)
Definition admitted (v : Verifier V) (authz : string) (w : W) : Prop :=
  ∃ raw v1 w1 p tok w2, authz = "Bearer " +:+ raw ∧ ensure v w = (None, v1, w1) ∧ ve_verifier v1 = Some p ∧
    Verify p raw w1 = (Ok tok, w2) ∧ (ve_allowed v ≠ ∅ → issued_to_allowed v tok).

Lemma Middleware_Next v authz w :
  wf_verifier v → ve_issuer v ≠ EmptyString → (Middleware v authz w).1.1 = Next ↔ admitted v authz w.
Proof.
  intros Hw Hi. unfold Middleware, Enabled, admitted. rewrite (bool_decide_eq_false_2 _ Hi). cbn [negb].
  pose proof (ensure_spec v w Hw) as He.
  destruct (HasPrefix authz "Bearer ") eqn:Hp; cbn [negb].
  2:{ split; [done|]. intros (raw & v1 & w1 & p & tok & w2 & -> & _). by rewrite HasPrefix_app in Hp. }
  apply HasPrefix_spec in Hp as [raw ->].
  rewrite TrimPrefix_app. destruct (ensure v w) as [[[e|] v1] w1] eqn:Hens.
  { split; [done|]. by intros (? & ? & ? & ? & ? & ? & _ & ? & _). }
  destruct He as (Hw1 & _ & Hi1 & Ha1 & [p Hp1]). rewrite Hp1.
  assert (Hal : ∀ tok, Restricted v1 && negb (allows v1 tok) = false ↔ (ve_allowed v ≠ ∅ → issued_to_allowed v tok)).
  { intros tok. rewrite refused_spec by (by rewrite Hi1). unfold issued_to_allowed. by rewrite Ha1. }
  destruct (Verify p raw w1) as [[tok|e] w2] eqn:Hv.
  2:{ split; [done|]. intros (r & v2 & w3 & p2 & t2 & w4 & Er%bearer_inj & Hen & Hp2 & Hv2 & _). congruence. }
  split.
  - destruct (Restricted v1 && negb (allows v1 tok)) eqn:Hra; [done|]. intros _.
    exists raw, v1, w1, p, tok, w2. split_and!; try done. by apply Hal.
  - intros (r & v2 & w3 & p2 & t2 & w4 & <-%bearer_inj & Hen & Hp2 & Hv2 & Hok).
    assert (t2 = tok) as -> by congruence. by rewrite (proj2 (Hal tok) Hok).
Qed.

(** ** Properties *)

(** The verifiers a gateway configured with [issuer] and [ids] comes to have: as built, and as each
    request leaves it. *)
Inductive reached (issuer : string) (ids : list string) : Verifier V → Prop :=
  | reached_new : reached issuer ids (NewVerifier issuer ids)
  | reached_request v authz w : reached issuer ids v → reached issuer ids (Middleware v authz w).1.2.

(** The token was issued to one of [ids], by its azp or its client_id claim. *)
Definition issued_to (ids : list string) (tok : T) : Prop :=
  ∃ azp client_id, Claims tok = Ok (azp, client_id) ∧
    ((azp ≠ EmptyString ∧ azp ∈ ids) ∨ (client_id ≠ EmptyString ∧ client_id ∈ ids)).

(** The verifier a request is checked with: the one kept since the provider answered, or the one it
    answers with now. *)
Definition provided (v : Verifier V) (w : W) (p : V) (w1 : W) : Prop :=
  (ve_ready v = true ∧ ve_verifier v = Some p ∧ w1 = w) ∨
  (ve_ready v = false ∧ NewProvider (ve_issuer v) w = (Ok p, w1)).

Lemma ensure_provided v w p w1 :
  provided v w p w1 → ensure v w = (None, MkVerifier (ve_issuer v) (ve_allowed v) (Some p) true, w1).
Proof.
  unfold ensure. intros [(Hr & Hp & ->)|(Hr & Hp)]; rewrite Hr; [by destruct v; cbn in *; subst|by rewrite Hp].
Qed.

(** [Middleware] with a bearer token and a provider. *)
Lemma Middleware_checked v raw w p w1 :
  ve_issuer v ≠ EmptyString → provided v w p w1 →
  let v1 := MkVerifier (ve_issuer v) (ve_allowed v) (Some p) true in
  Middleware v ("Bearer " +:+ raw) w =
    match Verify p raw w1 with
    | (Err e, w2) => (Answer 401 ("invalid token: " +:+ Error_text e), v1, w2)
    | (Ok tok, w2) =>
        (if Restricted v1 && negb (allows v1 tok)
         then Answer 403 "this client is not allowed to call the gateway" else Next, v1, w2)
    end.
Proof.
  intros Hi Hp v1. unfold Middleware, Enabled. rewrite (bool_decide_eq_false_2 _ Hi), HasPrefix_app, TrimPrefix_app.
  cbn [negb]. rewrite (ensure_provided v w p w1 Hp). cbn [ve_verifier]. fold v1.
  destruct (Verify p raw w1) as [[tok|e] w2]; [|done]. by destruct (_ && _).
Qed.

Lemma Middleware_outage v raw w e w1 :
  ve_issuer v ≠ EmptyString → ve_ready v = false → NewProvider (ve_issuer v) w = (Err e, w1) →
  Middleware v ("Bearer " +:+ raw) w = (Answer 503 "oidc provider unavailable", v, w1).
Proof.
  intros Hi Hr Hp. unfold Middleware, Enabled, ensure. by rewrite (bool_decide_eq_false_2 _ Hi), HasPrefix_app, Hr, Hp.
Qed.

Lemma Middleware_missing v authz w :
  ve_issuer v ≠ EmptyString → (∀ raw, authz ≠ "Bearer " +:+ raw) →
  Middleware v authz w = (Answer 401 "missing bearer token", v, w).
Proof.
  intros Hi Hb. unfold Middleware, Enabled. rewrite (bool_decide_eq_false_2 _ Hi).
  destruct (HasPrefix authz "Bearer ") eqn:E; [|done]. apply HasPrefix_spec in E as [raw ->]. by destruct (Hb raw).
Qed.

Lemma Middleware_off v authz w : ve_issuer v = EmptyString → Middleware v authz w = (Next, v, w).
Proof. intros E. unfold Middleware, Enabled. by rewrite (bool_decide_eq_true_2 _ E). Qed.

(** A request changes nothing of the verifier but, once, that the provider has answered. *)
Lemma Middleware_verifier v authz w :
  let v' := (Middleware v authz w).1.2 in
  v' = v ∨ (ve_ready v = false ∧ ∃ p w1, NewProvider (ve_issuer v) w = (Ok p, w1) ∧
            v' = MkVerifier (ve_issuer v) (ve_allowed v) (Some p) true).
Proof.
  unfold Middleware, ensure. destruct (Enabled v); cbn [negb]; [|by left].
  destruct (HasPrefix authz "Bearer "); cbn [negb]; [|by left].
  destruct (ve_ready v) eqn:Hr.
  - left. destruct (ve_verifier v) as [p|]; [|done]. destruct (Verify p _ w) as [[tok|e] w2]; [|done]. by destruct (_ && _).
  - destruct (NewProvider (ve_issuer v) w) as [[p|e] w1] eqn:Hp; [|by left]. right. split; [done|]. exists p, w1.
    split; [done|]. cbn [ve_verifier]. destruct (Verify p _ w1) as [[tok|e] w2]; [|done]. by destruct (_ && _).
Qed.

(** Configuration stays; a verifier that is ready is one the configured issuer answered with. *)
Lemma reached_inv issuer ids v :
  reached issuer ids v →
  ve_issuer v = TrimSpace issuer ∧
  ve_allowed v = (if decide (TrimSpace issuer = EmptyString) then ∅ else list_to_set (trimmed_ids ids)) ∧
  if ve_ready v then ∃ p w0 w1, ve_verifier v = Some p ∧ NewProvider (TrimSpace issuer) w0 = (Ok p, w1)
  else ve_verifier v = None.
Proof.
  induction 1 as [|v authz w _ (Hi & Ha & Hr)].
  - unfold NewVerifier. cbn. split_and!; [done| |done]. by case_bool_decide; case_decide.
  - destruct (Middleware_verifier v authz w) as [->|(_ & p & w1 & Hp & ->)]; [done|].
    cbn. split_and!; [done|done|]. exists p, w, w1. split; [done|]. by rewrite <- Hi.
Qed.

Lemma listed_spec v ids tok :
  ve_issuer v ≠ EmptyString → ve_allowed v = list_to_set (trimmed_ids ids) →
  Restricted v && negb (allows v tok) = false ↔ trimmed_ids ids = [] ∨ issued_to (trimmed_ids ids) tok.
Proof.
  intros Hi Ha. rewrite refused_spec by done. unfold issued_to_allowed, issued_to. rewrite Ha.
  assert (He : (list_to_set (trimmed_ids ids) : gset string) = ∅ ↔ trimmed_ids ids = []).
  { destruct (trimmed_ids ids) as [|x l]; [done|]. split; [|done]. intros E. exfalso.
    apply (not_elem_of_empty (C := gset string) x). rewrite <- E. set_solver. }
  setoid_rewrite elem_of_list_to_set. destruct (trimmed_ids ids) as [|x l]; [naive_solver|].
  assert (Hne : (list_to_set (x :: l) : gset string) ≠ ∅) by (intros E; by apply He in E).
  split; [intros Hx; right; by apply Hx|intros [?|?]; done].
Qed.

(** C21: what the bearer middleware does with each request, whatever requests came before.  Without
    an issuer every request goes through.  With one, a request without a bearer is answered 401.  As
    long as the provider has never answered, each request asks it again; while it is down the
    request is answered 503 and the verifier stays as it was, issuer and list included.  Once it
    has answered, its verifier is kept and it is not asked again: a token that fails verification is
    answered 401, one that was not issued to a listed client 403, and any other goes through, every
    verified one when no clients are listed. *)
Theorem Middleware_admits issuer ids v authz w :
  reached issuer ids v →
  let out := Middleware v authz w in
  let clients := trimmed_ids ids in
  (TrimSpace issuer = EmptyString → out = (Next, v, w)) ∧
  (TrimSpace issuer ≠ EmptyString →
    ((∀ raw, authz ≠ "Bearer " +:+ raw) → out = (Answer 401 "missing bearer token", v, w)) ∧
    (∀ raw e w1, authz = "Bearer " +:+ raw → ve_ready v = false → NewProvider (TrimSpace issuer) w = (Err e, w1) →
      out = (Answer 503 "oidc provider unavailable", v, w1)) ∧
    (∀ raw p w1, authz = "Bearer " +:+ raw →
      (ve_ready v = true ∧ ve_verifier v = Some p ∧ w1 = w) ∨
      (ve_ready v = false ∧ NewProvider (TrimSpace issuer) w = (Ok p, w1)) →
      let v1 := MkVerifier (TrimSpace issuer) (list_to_set clients) (Some p) true in
      match Verify p raw w1 with
      | (Err e, w2) => out = (Answer 401 ("invalid token: " +:+ Error_text e), v1, w2)
      | (Ok tok, w2) =>
          (clients = [] ∨ issued_to clients tok → out = (Next, v1, w2)) ∧
          (¬ (clients = [] ∨ issued_to clients tok) →
            out = (Answer 403 "this client is not allowed to call the gateway", v1, w2))
      end)) ∧
  (if ve_ready v then ∃ p w0 w1, ve_verifier v = Some p ∧ NewProvider (TrimSpace issuer) w0 = (Ok p, w1)
   else ve_verifier v = None).
Proof.
  intros Hv out clients. destruct (reached_inv issuer ids v Hv) as (Hi & Ha & Hr).
  split_and!; [|intros Hne|exact Hr].
  - intros E. apply Middleware_off. by rewrite Hi.
  - rewrite decide_False in Ha by done. rewrite <- Hi in *. split_and!.
    + intros Hb. by apply Middleware_missing.
    + intros raw e w1 -> Hnr Hp. by apply (Middleware_outage v raw w e w1).
    + intros raw p w1 -> Hp v1. subst out. rewrite (Middleware_checked v raw w p w1 Hne Hp). rewrite Ha. fold clients. fold v1.
      destruct (Verify p raw w1) as [[tok|e] w2]; [|done].
      pose proof (listed_spec v1 ids tok Hne eq_refl) as Hl. fold clients in Hl.
      destruct (Restricted v1 && negb (allows v1 tok)); split; intros Hc; try done; [by apply Hl in Hc|by destruct Hc; apply Hl].
Qed.
End middleware.

Section witnesses.
#[local] Instance demo_auth_quote : Quote := λ s, s.

(** encoding/json matches a claim to a field whatever its case. *)
Example claims_fold :
  rmap of_claims (json_Unmarshal claims_type (json_text (JObj [("AZP", JStr "acquire")]))) = Ok ("acquire", EmptyString).
Proof. vm_compute. reflexivity. Qed.

(** A provider that is down at first: the world counts the times it was asked.  Tokens are the client
    ids they were issued to, in their azp claim; anything but "bad" verifies. *)
#[local] Instance demo_outage : Oidc unit string nat := {|
  NewProvider := λ _ n, (if (n =? 0)%nat then Err (ErrorString "no route") else Ok tt, S n);
  Verify := λ _ raw n, (if bool_decide (raw = "bad") then Err (ErrorString "signature") else Ok raw, n);
  raw_claims := λ t, json_text (JObj [("azp", JStr t)])
|}.

Lemma Middleware_admits_witness :
  let v := NewVerifier "https://idp" ["acquire"; " "; "console"] in
  let out := Middleware v "Bearer acquire" 0%nat in
  out = (Answer 503 "oidc provider unavailable", v, 1%nat) ∧
  (Middleware out.1.2 "Bearer acquire" 1%nat).1.1 = Next ∧
  (Middleware out.1.2 "Bearer other" 1%nat).1.1 = Answer 403 "this client is not allowed to call the gateway".
Proof.
  intros v out. pose proof (reached_new "https://idp" ["acquire"; " "; "console"] : reached _ _ v) as H0.
  pose proof (reached_request _ _ v "Bearer acquire" 0%nat H0 : reached _ _ out.1.2) as H1.
  assert (Hi : TrimSpace "https://idp" ≠ EmptyString) by (vm_compute; discriminate).
  assert (Ho : out = (Answer 503 "oidc provider unavailable", v, 1%nat)).
  { destruct (Middleware_admits "https://idp" ["acquire"; " "; "console"] v "Bearer acquire" 0%nat H0) as (_ & Hon & _).
    destruct (Hon Hi) as (_ & Hdown & _). by apply (Hdown "acquire" (ErrorString "no route") 1%nat). }
  split; [exact Ho|]. rewrite Ho in H1 |- *. cbn [fst snd] in *. split.
  - destruct (Middleware_admits "https://idp" ["acquire"; " "; "console"] v "Bearer acquire" 1%nat H1) as (_ & Hon & _).
    destruct (Hon Hi) as (_ & _ & Hup).
    destruct (Hup "acquire" tt 2%nat eq_refl) as [Hnext _]; [right; by split|]. rewrite Hnext; [done|].
    right. exists "acquire", EmptyString. split; [vm_compute; reflexivity|]. left. split; [done|].
    apply (bool_decide_eq_true_1 _). vm_compute. reflexivity.
  - destruct (Middleware_admits "https://idp" ["acquire"; " "; "console"] v "Bearer other" 1%nat H1) as (_ & Hon & _).
    destruct (Hon Hi) as (_ & _ & Hup).
    destruct (Hup "other" tt 2%nat eq_refl) as [_ Hno]; [right; by split|]. rewrite Hno; [done|].
    intros [E|(azp & cid & E & Hin)]; [vm_compute in E; discriminate E|].
    assert (Ec : Claims "other" = Ok ("other", EmptyString)) by (vm_compute; reflexivity).
    rewrite Ec in E. injection E as <- <-. destruct Hin as [[_ Hin]|[? _]]; [|done].
    revert Hin. apply (bool_decide_eq_true_1 (¬ _)). vm_compute. reflexivity.
Defined.
End witnesses.
