(* ===== verification/Issuer.v ===== *)
(** * internal/auth/authtest/issuer.go: the issuer of the tests

    [Issuer], its endpoints and [Token], down to the bytes: the discovery document, the key set and a
    compact JWS, whose signature alone is a parameter ([Rsa]).  The theorem is about the middleware of
    Auth.v: which tokens of the issuer it lets through. *)

From S2P Require Import Prelude GoStrings Base64 Sha256 Json JsonText JsonTextSpec JsonTypes JsonTypesSpec Responses Auth.
From Stdlib Require Import Ascii.

Definition keyID : string := "authtest".

Record Issuer (K : Type) := MkIssuer { iss_URL : string; iss_key : K }.
Arguments MkIssuer {K} _ _.
Arguments iss_URL {K} _.
Arguments iss_key {K} _.

(** crypto/rsa over a world [W]: a key, its public half, and PKCS #1 v1.5 signatures of a SHA-256 digest. *)
Class Rsa (K W : Type) := {
  GenerateKey : Z → W → result error K * W;
  key_N : K → Z;
  key_E : K → Z;
  SignPKCS1v15 : K → list Z → result error string
}.

(** [t.Fatalf]: the test ends there. *)
Inductive fatal := Fatalf (format : string) (err : error).

(** A value of type [any]: what encoding/json writes of it, or why it cannot. *)
Abbreviation any := (result error json).

Definition b64 (b : string) : string := RawURL_EncodeToString b.

(** [big.Int.Bytes]: the absolute value, the most significant byte first. *)
Fixpoint big_bytes_fuel (n : nat) (z : Z) (acc : list ascii) : list ascii :=
  match n with
  | O => acc
  | S n => if (z =? 0)%Z then acc else big_bytes_fuel n (z / 256)%Z (of_byte (z mod 256) :: acc)
  end.
Definition big_bytes (z : Z) : string := str (big_bytes_fuel (S (Z.to_nat (Z.log2 (Z.abs z)))) (Z.abs z) []).

(** [json.Marshal] of a [map[string]any]: the members by their keys, and the first error. *)
Fixpoint marshal_members (l : list (string * any)) : result error (list (string * json)) :=
  match l with
  | [] => Ok []
  | (_, Err e) :: _ => Err e
  | (k, Ok j) :: l => rmap (cons (k, j)) (marshal_members l)
  end.
Definition marshal_any (m : gmap string any) : result error json :=
  rmap JObj (marshal_members (sort_by fst (map_to_list m))).

(** The value of a [map[string]string]. *)
Definition string_map (m : gmap string string) : json :=
  JObj ((λ kv, (kv.1, JStr kv.2)) <$> sort_by fst (map_to_list m)).

Definition any_string (s : string) : any := Ok (JStr s).
Definition any_int (n : Z) : any := Ok (JInt n).

(** A recorded answer: its content type and its body.  [writeJSON] drops the encoder's error. *)
Record document := MkDocument { content_type : string; doc_body : string }.
Definition writeJSON (v : result error json) : document :=
  MkDocument "application/json" (match v with Ok j => json_text j +:+ String "010" EmptyString | Err _ => EmptyString end).

Section issuer.
Context {K W : Type} `{Rsa K W}.

(** The handlers [NewIssuer] registers. *)
Definition discovery (i : Issuer K) : document :=
  writeJSON (marshal_any (list_to_map [
    ("issuer", any_string (iss_URL i));
    ("jwks_uri", any_string (iss_URL i +:+ "/jwks"));
    ("authorization_endpoint", any_string (iss_URL i +:+ "/auth"));
    ("token_endpoint", any_string (iss_URL i +:+ "/token"));
    ("id_token_signing_alg_values_supported", Ok (JArr [JStr "RS256"]))])).

Definition jwks (i : Issuer K) : document :=
  writeJSON (marshal_any {["keys" := Ok (JArr [string_map (list_to_map [
    ("kty", "RSA"); ("use", "sig"); ("alg", "RS256"); ("kid", keyID);
    ("n", b64 (big_bytes (key_N (iss_key i))));
    ("e", b64 (big_bytes (key_E (iss_key i))))])])]}).

(** The mux: what is served at a path. *)
Definition serve (i : Issuer K) (path : string) : option document :=
  if bool_decide (path = "/.well-known/openid-configuration") then Some (discovery i)
  else if bool_decide (path = "/jwks") then Some (jwks i)
  else None.

(** [NewIssuer]; [url] is the address the test server got. *)
Definition NewIssuer (url : string) (w : W) : result fatal (Issuer K) * W :=
  match GenerateKey 2048 w with
  | (Err e, w) => (Err (Fatalf "authtest: generate key: %v" e), w)
  | (Ok key, w) => (Ok (MkIssuer url key), w)
  end.

(** The claims of a token: the test's own over the defaults, which [now1] and [now2], the two calls of
    [time.Now] in seconds, are for. *)
Definition token_defaults (i : Issuer K) (now1 now2 : Z) : gmap string any :=
  list_to_map [("iss", any_string (iss_URL i)); ("sub", any_string "service-account");
               ("iat", any_int now1); ("exp", any_int (now2 + 3600))].
Definition token_body (i : Issuer K) (now1 now2 : Z) (claims : gmap string any) : gmap string any :=
  claims ∪ token_defaults i now1 now2.

Definition token_header : string :=
  json_text (string_map (list_to_map [("alg", "RS256"); ("typ", "JWT"); ("kid", keyID)])).

Definition Token (i : Issuer K) (now1 now2 : Z) (claims : gmap string any) : result fatal string :=
  match marshal_any (token_body i now1 now2 claims) with
  | Err e => Err (Fatalf "authtest: claims: %v" e)
  | Ok payload =>
      let signingInput := b64 token_header +:+ "." +:+ b64 (json_text payload) in
      match SignPKCS1v15 (iss_key i) (sha256 signingInput) with
      | Err e => Err (Fatalf "authtest: sign: %v" e)
      | Ok sig => Ok (signingInput +:+ "." +:+ b64 sig)
      end
  end.
End issuer.

(** ** What a token holds *)

Lemma marshal_members_spec l ms : marshal_members l = Ok ms → l = prod_map id Ok <$> ms.
Proof.
  revert ms. induction l as [|[k [j|e]] l IH]; intros ms; cbn [marshal_members]; [by intros [= <-]| |done].
  destruct (marshal_members l) as [ms'|] eqn:E; [|done]. intros [= <-]. by rewrite (IH ms' eq_refl).
Qed.

(** A written map is an object of its keys, each once, whose members are the map's values. *)
Lemma marshal_any_spec m j :
  marshal_any m = Ok j → ∃ ms, j = JObj ms ∧ NoDup ms.*1 ∧ m = Ok <$> (list_to_map ms : gmap string json).
Proof.
  unfold marshal_any. destruct (marshal_members _) as [ms|] eqn:E; [|done]. intros [= <-]. apply marshal_members_spec in E.
  exists ms. split; [done|].
  assert (Hk : (sort_by fst (map_to_list m)).*1 = ms.*1) by (rewrite E, <- list_fmap_compose; done).
  assert (Hnd : NoDup (sort_by fst (map_to_list m)).*1) by (rewrite sort_by_perm; apply NoDup_fst_map_to_list).
  split; [by rewrite <- Hk|]. rewrite <- list_to_map_fmap. transitivity (list_to_map (sort_by fst (map_to_list m)) : gmap string any).
  - rewrite <- (list_to_map_to_list m) at 1. apply list_to_map_proper; [apply NoDup_fst_map_to_list|by rewrite sort_by_perm].
  - by rewrite E.
Qed.

(** ** The published key reads back *)

Definition be_value (s : string) : Z := foldl (λ v c, v * 256 + byte c)%Z 0%Z (chars s).

Lemma big_bytes_fuel_value n z acc :
  (0 ≤ z < 2 ^ (8 * Z.of_nat n))%Z →
  foldl (λ v c, v * 256 + byte c)%Z 0%Z (big_bytes_fuel n z acc) = foldl (λ v c, v * 256 + byte c)%Z z acc.
Proof.
  revert z acc. induction n as [|n IH]; intros z acc Hz; [by replace z with 0%Z by lia|]. cbn [big_bytes_fuel].
  destruct (Z.eqb_spec z 0) as [->|Hne]; [done|].
  assert (H8 : (2 ^ (8 * Z.of_nat (S n)) = 2 ^ (8 * Z.of_nat n) * 256)%Z).
  { rewrite Nat2Z.inj_succ. replace (8 * Z.succ (Z.of_nat n))%Z with (8 * Z.of_nat n + 8)%Z by lia. by rewrite Z.pow_add_r by lia. }
  rewrite IH; [|split; [apply Z.div_pos; lia|apply Z.div_lt_upper_bound; lia]].
  cbn [foldl]. rewrite byte_of_byte by (apply Z.mod_pos_bound; lia). f_equal. pose proof (Z.div_mod z 256). lia.
Qed.

Lemma big_bytes_value z : be_value (big_bytes z) = Z.abs z.
Proof.
  unfold be_value, big_bytes. rewrite chars_str, big_bytes_fuel_value; [done|]. split; [lia|].
  destruct (decide (Z.abs z = 0)%Z) as [->|Hne]; [by vm_compute|].
  pose proof (Z.log2_spec (Z.abs z) ltac:(lia)) as [_ Hl]. pose proof (Z.log2_nonneg (Z.abs z)).
  eapply Z.lt_le_trans; [exact Hl|]. apply Z.pow_le_mono_r; lia.
Qed.

(** The modulus a client decodes from the key set is the key's. *)
Lemma published_key z : be_value <$> RawURL_DecodeString (b64 (big_bytes z)) = Some (Z.abs z).
Proof. unfold b64. rewrite RawURL_round, <- big_bytes_value. done. Qed.

(** ** Which tokens the middleware lets through *)

Definition id_token_fields : list (string * bool * gotype) :=
  [("iss", false, TString); ("sub", false, TString); ("iat", false, TInt true 64); ("exp", false, TInt true 64);
   ("aud", false, TPtr TRaw); ("nbf", false, TPtr TRaw); ("nonce", false, TPtr TRaw); ("at_hash", false, TPtr TRaw);
   ("_claim_names", false, TPtr TRaw); ("_claim_sources", false, TPtr TRaw)].

Definition claims_fields : list (string * bool * gotype) := [("azp", false, TString); ("client_id", false, TString)].

(** A compact JWS. *)
Definition jws_input (payload : string) : string := b64 token_header +:+ "." +:+ b64 payload.
Definition jws (payload sig : string) : string := jws_input payload +:+ "." +:+ b64 sig.

(** Claims that are none of those go-oidc reads, and spell azp and client_id as they are. *)
Definition own_claims (claims : gmap string any) : Prop :=
  ∀ k, is_Some (claims !! k) →
    find_field id_token_fields (chars (sanitize k)) = None ∧
    (k ∈ ["azp"; "client_id"] ∨ find_field claims_fields (chars (sanitize k)) = None).

(** What the claims say of a client: nothing, a string, or what is no string. *)
Definition claim_text (claims : gmap string any) (k : string) : option string :=
  match claims !! k with
  | None | Some (Ok JNull) => Some EmptyString
  | Some (Ok (JStr s)) => Some (sanitize s)
  | _ => None
  end.

(** What the member [o], or none, leaves in a string field. *)
Definition held_member (o : option json) : goval * option fault := read_member TString (GString EmptyString) o.

Definition names_allowed (allowed : gset string) (claims : gmap string any) : bool :=
  match claim_text claims "azp", claim_text claims "client_id" with
  | Some azp, Some client_id =>
      (negb (bool_decide (azp = EmptyString)) && bool_decide (azp ∈ allowed)) ||
      (negb (bool_decide (client_id = EmptyString)) && bool_decide (client_id ∈ allowed))
  | _, _ => false
  end.

Section tokens.
Context {K V T W : Type} `{Rsa K W} `{Oidc V T W} `{Quote} (now : W → Z).

(** What go-oidc documents of a verifier built from the issuer's documents: a token signed by the
    published key is accepted when its payload names the issuer, has not expired and has none of the
    claims go-oidc looks at further, and its claims are that payload; a token whose signature is
    not the key's is refused. *)
Record verifies (i : Issuer K) (p : V) : Prop := {
  accepts payload sig w x :
    json_Unmarshal (TStruct id_token_fields) payload = Ok (GStruct x) →
    x !! 0%nat = Some (GString (iss_URL i)) → (∃ exp, x !! 3%nat = Some (GInt exp) ∧ now w < exp)%Z → drop 4 x = replicate 6 (GPtr None) →
    SignPKCS1v15 (iss_key i) (sha256 (jws_input payload)) = Ok sig →
    ∃ tok w', Verify p (jws payload sig) w = (Ok tok, w') ∧ raw_claims tok = payload;
  refuses payload sig w :
    SignPKCS1v15 (iss_key i) (sha256 (jws_input payload)) ≠ Ok sig →
    ∃ e w', Verify p (jws payload sig) w = (Err e, w')
}.

Lemma Token_jws (i : Issuer K) now1 now2 claims raw :
  Token i now1 now2 claims = Ok raw →
  ∃ ms sig, marshal_any (token_body i now1 now2 claims) = Ok (JObj ms) ∧ raw = jws (json_text (JObj ms)) sig ∧
    SignPKCS1v15 (iss_key i) (sha256 (jws_input (json_text (JObj ms)))) = Ok sig.
Proof.
  unfold Token. destruct (marshal_any _) as [j|] eqn:Hm; [|done]. destruct (marshal_any_spec _ _ Hm) as (ms & -> & _).
  fold (jws_input (json_text (JObj ms))). destruct (SignPKCS1v15 _ _) as [sig|] eqn:Hs; [|done]. intros E.
  apply (f_equal (λ r, match r with Ok x => x | Err _ => EmptyString end)) in E. cbv beta iota in E.
  exists ms, sig. split_and!; [reflexivity|symmetry; exact E|exact Hs].
Qed.

(** The body of a token, read into a struct whose fields its keys spell exactly. *)
Lemma token_members (i : Issuer K) now1 now2 claims ms :
  marshal_any (token_body i now1 now2 claims) = Ok (JObj ms) →
  NoDup ms.*1 ∧ ∀ k, token_body i now1 now2 claims !! k = Ok <$> ((list_to_map ms : gmap string json) !! k).
Proof.
  intros Hm. destruct (marshal_any_spec _ _ Hm) as (ms' & [= <-] & Hnd & E). split; [done|]. intros k. by rewrite E, lookup_fmap.
Qed.

Lemma member_key ms k : k ∈ ms.*1 → is_Some ((list_to_map ms : gmap string json) !! k).
Proof. intros Hk. apply not_eq_None_Some. intros Hn. by apply not_elem_of_list_to_map in Hn. Qed.

Definition default_keys : list string := ["iss"; "sub"; "iat"; "exp"].

Lemma token_key (i : Issuer K) now1 now2 claims k :
  is_Some (token_body i now1 now2 claims !! k) → is_Some (claims !! k) ∨ k ∈ default_keys.
Proof.
  unfold token_body. destruct (claims !! k) as [x|] eqn:Hc; [by left; eexists|]. rewrite lookup_union_r by done. intros Hs. right.
  unfold token_defaults in Hs. apply elem_of_dom in Hs. rewrite dom_list_to_map_L in Hs. set_solver.
Qed.

Lemma token_names (i : Issuer K) now1 now2 claims ms :
  own_claims claims → marshal_any (token_body i now1 now2 claims) = Ok (JObj ms) →
  exact_names id_token_fields ms.*1 ∧ exact_names claims_fields ms.*1.
Proof.
  intros Ho Hm. destruct (token_members _ _ _ _ _ Hm) as [_ Hl].
  assert (Hk : ∀ k, k ∈ ms.*1 → is_Some (claims !! k) ∨ k ∈ default_keys).
  { intros k [j Hj]%member_key. apply (token_key i now1 now2). rewrite Hl, Hj. by eexists. }
  split; intros k [Hc|Hd]%Hk.
  - right. by destruct (Ho k Hc).
  - left. unfold default_keys in Hd. cbn. set_solver.
  - destruct (Ho k Hc) as [_ [Hn|Hn]]; [left; cbn; set_solver|by right].
  - right. unfold default_keys in Hd. rewrite !elem_of_cons, elem_of_nil in Hd. by destruct_or!; subst; vm_compute.
Qed.

(** What the payload says under a name no default has, and under one the claims leave alone. *)
Lemma body_own (i : Issuer K) now1 now2 claims k : k ∉ default_keys → token_body i now1 now2 claims !! k = claims !! k.
Proof.
  intros Hk. unfold token_body. destruct (claims !! k) as [x|] eqn:Hc; [by rewrite (lookup_union_Some_l _ _ _ _ Hc)|].
  rewrite lookup_union_r by done. apply not_elem_of_list_to_map_1. cbn. unfold default_keys in Hk. set_solver.
Qed.

Lemma own_none claims f : own_claims claims → f ∈ id_token_fields → claims !! f.1.1 = None.
Proof.
  intros Ho Hf. apply eq_None_not_Some. intros Hs. destruct (Ho _ Hs) as [Hn _]. clear Hs Ho.
  unfold id_token_fields in Hf. rewrite !elem_of_cons, elem_of_nil in Hf. by destruct_or!; subst; vm_compute in Hn.
Qed.

Lemma token_ok (i : Issuer K) now1 now2 claims ms d :
  (∀ k j, claims !! k = Some (Ok j) → json_ok d j) →
  marshal_any (token_body i now1 now2 claims) = Ok (JObj ms) → json_ok (S d) (JObj ms).
Proof.
  intros Hj Hm. destruct (token_members _ _ _ _ _ Hm) as [Hnd Hl]. cbn [json_ok]. apply Forall_foldr, Forall_forall. intros [k j] Hin. cbn [snd].
  assert (Hb : token_body i now1 now2 claims !! k = Some (Ok j)) by (by rewrite Hl, (elem_of_list_to_map_1 _ _ _ Hnd Hin)).
  unfold token_body in Hb. apply lookup_union_Some_raw in Hb as [Hc|[_ Hd]]; [by eapply Hj|].
  apply elem_of_list_to_map_2 in Hd. rewrite !elem_of_cons, elem_of_nil in Hd. destruct_or!; try done; by injection Hd as -> ->.
Qed.

Lemma held_claim claims k o :
  claims !! k = Ok <$> o →
  match claim_text claims k with
  | Some s => held_member o = (GString s, None)
  | None => (held_member o).2 ≠ None
  end.
Proof.
  unfold claim_text, held_member. intros ->. destruct o as [[]|]; cbn; try done. by rewrite str_chars.
Qed.

(** What [Claims] reads of a token of the issuer. *)
Lemma minted_claims (i : Issuer K) now1 now2 claims ms d tok :
  own_claims claims → (∀ k j, claims !! k = Some (Ok j) → json_ok d j) → (Z.of_nat (S d) ≤ maxNestingDepth)%Z →
  marshal_any (token_body i now1 now2 claims) = Ok (JObj ms) → raw_claims tok = json_text (JObj ms) →
  match claim_text claims "azp", claim_text claims "client_id" with
  | Some azp, Some client_id => Claims tok = Ok (azp, client_id)
  | _, _ => ∃ e, Claims tok = Err e
  end.
Proof.
  intros Ho Hj Hd Hm Ht. destruct (token_members _ _ _ _ _ Hm) as [Hnd Hl]. destruct (token_names _ _ _ _ _ Ho Hm) as [_ Hex].
  unfold Claims. rewrite Ht. change claims_type with (TStruct claims_fields).
  destruct (json_Unmarshal_object claims_fields ms (S d) eq_refl Hnd Hex (token_ok _ _ _ _ _ _ Hj Hm) Hd) as [Hok Herr].
  assert (Ha : held (list_to_map ms) ("azp", false, TString) = held_member ((list_to_map ms : gmap string json) !! "azp")) by done.
  assert (Hc : held (list_to_map ms) ("client_id", false, TString) = held_member ((list_to_map ms : gmap string json) !! "client_id")) by done.
  pose proof (held_claim claims "azp" _ (eq_trans (eq_sym (body_own i now1 now2 claims "azp" ltac:(by vm_compute; set_solver))) (Hl "azp"))) as HA.
  pose proof (held_claim claims "client_id" _ (eq_trans (eq_sym (body_own i now1 now2 claims "client_id" ltac:(by vm_compute; set_solver))) (Hl "client_id"))) as HC.
  rewrite <- Ha in HA. rewrite <- Hc in HC. clear Ha Hc.
  destruct (claim_text claims "azp") as [azp|].
  2:{ destruct Herr as [e He]; [|exists (EFault e); by rewrite He]. exists ("azp", false, TString). split; [by left|done]. }
  destruct (claim_text claims "client_id") as [cid|].
  2:{ destruct Herr as [e He]; [|exists (EFault e); by rewrite He]. exists ("client_id", false, TString). split; [by right; left|done]. }
  rewrite Hok.
  - unfold claims_fields. rewrite !fmap_cons, HA, HC. done.
  - intros f Hf. unfold claims_fields in Hf. rewrite !elem_of_cons, elem_of_nil in Hf. destruct_or!; subst; [by rewrite HA|by rewrite HC].
Qed.

(** A member of a list that is spelled out. *)
Ltac in_fields := unfold id_token_fields; cbn [drop]; repeat first [apply list_elem_of_here | apply list_elem_of_further].

(** What go-oidc reads of it: the defaults, and none of the claims it looks at further. *)
Lemma minted_id_token (i : Issuer K) now1 now2 claims ms d :
  valid_utf8 (iss_URL i) = true → fits64 now1 → fits64 (now2 + 3600) →
  own_claims claims → (∀ k j, claims !! k = Some (Ok j) → json_ok d j) → (Z.of_nat (S d) ≤ maxNestingDepth)%Z →
  marshal_any (token_body i now1 now2 claims) = Ok (JObj ms) →
  json_Unmarshal (TStruct id_token_fields) (json_text (JObj ms)) =
    Ok (GStruct ([GString (iss_URL i); GString "service-account"; GInt now1; GInt (now2 + 3600)] ++ replicate 6 (GPtr None))).
Proof.
  intros Hu Hn1 Hn2 Ho Hj Hd Hm. destruct (token_members _ _ _ _ _ Hm) as [Hnd Hl]. destruct (token_names _ _ _ _ _ Ho Hm) as [Hex _].
  destruct (json_Unmarshal_object id_token_fields ms (S d) eq_refl Hnd Hex (token_ok _ _ _ _ _ _ Hj Hm) Hd) as [Hok _].
  set (m := list_to_map ms : gmap string json) in *.
  assert (Hdef : ∀ k o t j, (k, o, t) ∈ id_token_fields →
    token_defaults i now1 now2 !! k = Ok <$> j → m !! k = j).
  { intros k o t j Hk Hdk. pose proof (own_none claims (k, o, t) Ho Hk) as Hc. cbn [fst] in Hc. pose proof (Hl k) as Hlk.
    unfold token_body in Hlk. rewrite lookup_union_r in Hlk by done. rewrite Hdk in Hlk. fold m in Hlk.
    destruct (m !! k), j; cbn in Hlk; congruence. }
  assert (M0 : m !! "iss" = Some (JStr (iss_URL i))) by (by apply (Hdef "iss" false TString); [in_fields|]).
  assert (M1 : m !! "sub" = Some (JStr "service-account")) by (by apply (Hdef "sub" false TString); [in_fields|]).
  assert (M2 : m !! "iat" = Some (JInt now1)) by (by apply (Hdef "iat" false (TInt true 64)); [in_fields|]).
  assert (M3 : m !! "exp" = Some (JInt (now2 + 3600))) by (by apply (Hdef "exp" false (TInt true 64)); [in_fields|]).
  assert (M4 : ∀ f, f ∈ drop 4 id_token_fields → held m f = (GPtr None, None)).
  { intros f Hf. unfold id_token_fields in Hf. cbn [drop] in Hf. rewrite !elem_of_cons, elem_of_nil in Hf.
    destruct_or!; subst; try done; unfold held; cbn [fst snd]; (erewrite Hdef with (j := None); [reflexivity|in_fields|reflexivity]). }
  assert (E0 : held m ("iss", false, TString) = (GString (iss_URL i), None)).
  { unfold held. cbn [fst snd]. rewrite M0. cbn. by rewrite str_chars, sanitize_valid. }
  assert (E1 : held m ("sub", false, TString) = (GString "service-account", None)).
  { unfold held. cbn [fst snd]. rewrite M1. reflexivity. }
  assert (Hint : ∀ n, fits64 n → read_member (TInt true 64) (GInt 0) (Some (JInt n)) = (GInt n, None)).
  { intros n Hn. cbn [read_member jtree decode scalar]. rewrite parse_int_Itoa; [done|lia|]. unfold int_fits, fits in *. lia. }
  assert (E2 : held m ("iat", false, TInt true 64) = (GInt now1, None)) by (unfold held; cbn [fst snd]; rewrite M2; by apply Hint).
  assert (E3 : held m ("exp", false, TInt true 64) = (GInt (now2 + 3600), None)) by (unfold held; cbn [fst snd]; rewrite M3; by apply Hint).
  rewrite Hok.
  - unfold id_token_fields. rewrite !fmap_cons, E0, E1, E2, E3. rewrite !M4 by in_fields. reflexivity.
  - intros f Hf. unfold id_token_fields in Hf. rewrite !elem_of_cons, elem_of_nil in Hf.
    destruct Hf as [->|[->|[->|[->|Hf]]]]; [by rewrite E0|by rewrite E1|by rewrite E2|by rewrite E3|].
    rewrite M4; [done|]. unfold id_token_fields. cbn [drop]. rewrite !elem_of_cons, elem_of_nil. tauto.
Qed.

(** ** Properties *)

(** C22: whom the tokens of the test issuer let in.  When go-oidc does what it documents, a token the issuer mints for
    claims that name no claim go-oidc reads is let through before it expires exactly when no clients are listed or when
    one of azp and client_id is the text of a listed client, and both are texts (or left out); otherwise it is answered 403.
    A token another key signed is answered 401, whatever its claims say of its issuer. *)
Theorem minted_tokens (i : Issuer K) (p : V) (v v1 : Verifier V) now1 now2 claims raw d w w1 :
  verifies i p → valid_utf8 (iss_URL i) = true → fits64 now1 → fits64 (now2 + 3600) →
  own_claims claims → (∀ k j, claims !! k = Some (Ok j) → json_ok d j) → (Z.of_nat (S d) ≤ maxNestingDepth)%Z →
  wf_verifier v → ve_issuer v ≠ EmptyString → ensure v w = (None, v1, w1) → ve_verifier v1 = Some p → (now w1 < now2 + 3600)%Z →
  Token i now1 now2 claims = Ok raw →
  (Middleware v ("Bearer " +:+ raw) w).1.1 =
    (if Restricted v && negb (names_allowed (ve_allowed v) claims)
     then Answer 403 "this client is not allowed to call the gateway" else Next) ∧
  ∀ (other : Issuer K) t1 t2 claims' raw',
    (∀ sum, SignPKCS1v15 (iss_key other) sum ≠ SignPKCS1v15 (iss_key i) sum) → Token other t1 t2 claims' = Ok raw' →
    ∃ msg, (Middleware v ("Bearer " +:+ raw') w).1.1 = Answer 401 msg.
Proof.
  intros Hp Hu Hn1 Hn2 Ho Hj Hd Hw Hi Hens Hv1 Hnow Ht.
  pose proof (ensure_spec v w Hw) as Hes. rewrite Hens in Hes. destruct Hes as (_ & _ & Hi1 & Ha1 & _).
  assert (HM : ∀ r, Middleware v ("Bearer " +:+ r) w =
    match Verify p r w1 with
    | (Err e, w) => (Answer 401 ("invalid token: " +:+ Error_text e), v1, w)
    | (Ok tok, w) => if Restricted v1 && negb (allows v1 tok) then (Answer 403 "this client is not allowed to call the gateway", v1, w) else (Next, v1, w)
    end).
  { intros r. unfold Middleware, Enabled. rewrite (bool_decide_eq_false_2 _ Hi). cbn [negb]. by rewrite HasPrefix_app, TrimPrefix_app, Hens, Hv1. }
  split.
  - destruct (Token_jws _ _ _ _ _ Ht) as (ms & sig & Hm & -> & Hs). rewrite HM.
    destruct (accepts i p Hp (json_text (JObj ms)) sig w1 _ (minted_id_token i now1 now2 claims ms d Hu Hn1 Hn2 Ho Hj Hd Hm)) as (tok & w' & -> & Hraw);
      [done|by eexists|done|exact Hs|].
    pose proof (minted_claims i now1 now2 claims ms d tok Ho Hj Hd Hm Hraw) as Hc.
    assert (E : allows v1 tok = names_allowed (ve_allowed v) claims).
    { unfold allows, names_allowed. rewrite Ha1. destruct (claim_text claims "azp"); [|by destruct Hc as [e ->]].
      destruct (claim_text claims "client_id"); [by rewrite Hc|by destruct Hc as [e ->]]. }
    unfold Restricted. rewrite E, Hi1, Ha1. by destruct (_ && _).
  - intros other t1 t2 claims' raw' Hne Ht'. destruct (Token_jws _ _ _ _ _ Ht') as (ms & sig & _ & -> & Hs). rewrite HM.
    destruct (refuses i p Hp (json_text (JObj ms)) sig w1) as (e & w' & ->); [|by eexists]. rewrite <- Hs. intros E. exact (Hne _ (eq_sym E)).
Qed.
End tokens.

(** ** Witnesses *)

Lemma jws_parts payload sig : Split (jws payload sig) "." = [b64 token_header; b64 payload; b64 sig].
Proof.
  transitivity (Split (Join [b64 token_header; b64 payload; b64 sig] (String "." EmptyString)) ".").
  - apply (f_equal (λ s, Split s ".")). unfold jws, jws_input. apply chars_inj. cbn [Join]. by rewrite !chars_app, <- !app_assoc.
  - apply Split_Join; [done|]. assert (Hb : ∀ s, "."%char ∉ chars (b64 s)).
    { intros s Hin. unfold b64, RawURL_EncodeToString in Hin. rewrite chars_str in Hin.
      destruct (b64url_plain _ _ Hin) as (_ & _ & Hd). by apply Hd. }
   
    rewrite !Forall_cons, Forall_nil. split_and!; auto.
Qed.

Section witnesses.
#[local] Instance demo_quote : Quote := λ s, s.

(** A signature is the key's number before the digest; the world is the clock. *)
#[local] Instance demo_rsa : Rsa Z Z := {|
  GenerateKey := λ bits w, (Ok bits, w);
  key_N := id;
  key_E := λ _, 65537%Z;
  SignPKCS1v15 := λ k sum, Ok (str (of_byte k :: (of_byte <$> sum)))
|}.

Definition demo_error : error := ErrorString "oidc: refused".

(** A verifier that checks what a verifier does. *)
#[local] Instance demo_oidc : Oidc (Issuer Z) string Z := {|
  NewProvider := λ url w, (Ok (MkIssuer url 7%Z), w);
  Verify := λ p raw w,
    (match Split raw ".", mapM RawURL_DecodeString (Split raw ".") with
     | [h; b; _], Some [_; payload; sig] =>
         if bool_decide (SignPKCS1v15 (iss_key p) (sha256 (h +:+ "." +:+ b)) = Ok sig) then
           match json_Unmarshal (TStruct id_token_fields) payload with
           | Ok (GStruct [GString u; _; _; GInt exp; GPtr None; GPtr None; GPtr None; GPtr None; GPtr None; GPtr None]) =>
               if bool_decide (u = iss_URL p) && (w <? exp)%Z then Ok payload else Err demo_error
           | _ => Err demo_error
           end
         else Err demo_error
     | _, _ => Err demo_error
     end, w);
  raw_claims := id
|}.

Lemma demo_verifies url : verifies id (MkIssuer url 7%Z) (MkIssuer url 7%Z).
Proof.
  assert (Hm : ∀ payload sig, mapM RawURL_DecodeString [b64 token_header; b64 payload; b64 sig] = Some [token_header; payload; sig]).
  { intros payload sig. unfold b64. unfold mapM. by rewrite !RawURL_round. }
  split; intros payload sig w; cbn [Verify demo_oidc]; rewrite jws_parts, Hm; fold (jws_input payload).
  - intros x Hx Hiss (exp & Hexp & Hlt) Hdrop Hsig. rewrite bool_decide_eq_true_2 by exact Hsig. rewrite Hx.
    destruct x as [|u [|x1 [|x2 [|e x]]]]; try done. cbn in Hiss, Hexp. change (x = replicate 6 (GPtr None)) in Hdrop. injection Hiss as ->. injection Hexp as ->. rewrite Hdrop.
    cbn [replicate]. rewrite bool_decide_eq_true_2 by done. change (w < exp)%Z in Hlt. rewrite (proj2 (Z.ltb_lt w exp) Hlt). by exists payload, w.
  - intros Hsig. rewrite bool_decide_eq_false_2 by exact Hsig. by eexists _, _.
Qed.

Definition demo_verifier : Verifier (Issuer Z) := NewVerifier "http://idp" ["acquire"; "console"].

(** The documents, as a client reads them. *)
Example documents_read :
  let i := MkIssuer "http://idp" 0x10001%Z in
  rmap (λ x, [field 0 x; field 1 x]) (json_Unmarshal (TStruct [("issuer", false, TString); ("jwks_uri", false, TString)])
    (doc_body (discovery i))) = Ok [GString "http://idp"; GString "http://idp/jwks"] ∧
  rmap (λ x, as_list (λ k, (as_string (field 0 k), as_string (field 1 k))) (field 0 x))
    (json_Unmarshal (TStruct [("keys", false, TSlice (TStruct [("kid", false, TString); ("n", false, TString)]))])
    (doc_body (jwks i))) = Ok [("authtest", "AQAB")] ∧
  serve i "/other" = None.
Proof. vm_compute. split_and!; reflexivity. Qed.

(** What the middleware answers a token of the issuer of key [key] with one claim. *)
Definition demo_call (key : Z) (k : string) (v : any) : outcome :=
  match Token (W := Z) (MkIssuer "http://idp" key) 0 0 {[k := v]} with
  | Ok raw => (Middleware demo_verifier ("Bearer " +:+ raw) 0%Z).1.1
  | Err _ => Next
  end.

Lemma minted_tokens_witness :
  demo_call 7 "azp" (Ok (JStr "acquire")) = Next ∧
  demo_call 7 "azp" (Ok (JStr "someone-else")) = Answer 403 "this client is not allowed to call the gateway" ∧
  demo_call 7 "azp" (Ok (JInt 5)) = Answer 403 "this client is not allowed to call the gateway" ∧
  (∃ msg, demo_call 8 "azp" (Ok (JStr "acquire")) = Answer 401 msg).
Proof.
  set (i := MkIssuer "http://idp" 7%Z).
  assert (Hown : ∀ v, own_claims {["azp" := v]}).
  { intros v k [x [<- _]%lookup_singleton_Some]. split; [vm_compute; reflexivity|left; apply list_elem_of_here]. }
  assert (Hok : ∀ v, match v with Ok (JStr _) | Ok (JInt _) => True | _ => False end →
    ∀ k j, ({["azp" := v]} : gmap string any) !! k = Some (Ok j) → json_ok 0 j).
  { intros v Hv k j Hl. apply lookup_singleton_Some in Hl as [_ Hl]. subst v. destruct j; try (exfalso; exact Hv); exact I. }
  assert (Hgo : ∀ v raw, match v with Ok (JStr _) | Ok (JInt _) => True | _ => False end → Token (W := Z) i 0 0 {["azp" := v]} = Ok raw → _)
    by (intros v raw Hv; exact (minted_tokens id i i demo_verifier (ensure demo_verifier 0%Z).1.2 0 0 {["azp" := v]} raw 0 0%Z 0%Z
      (demo_verifies "http://idp") eq_refl ltac:(by vm_compute) ltac:(by vm_compute) (Hown v) (Hok v Hv) ltac:(by vm_compute)
      (NewVerifier_wf _ _) ltac:(discriminate) eq_refl eq_refl ltac:(by vm_compute))).
  unfold demo_call. fold i. split_and!.
  - destruct (Token i 0 0 _) as [raw|] eqn:E; [|vm_compute in E; discriminate]. destruct (Hgo (Ok (JStr "acquire")) raw I E) as [-> _]. vm_compute. reflexivity.
  - destruct (Token i 0 0 _) as [raw|] eqn:E; [|vm_compute in E; discriminate]. destruct (Hgo (Ok (JStr "someone-else")) raw I E) as [-> _]. vm_compute. reflexivity.
  - destruct (Token i 0 0 _) as [raw|] eqn:E; [|vm_compute in E; discriminate]. destruct (Hgo (Ok (JInt 5)) raw I E) as [-> _]. vm_compute. reflexivity.
  - destruct (Token i 0 0 {["azp" := Ok (JStr "acquire")]}) as [raw|] eqn:E; [|vm_compute in E; discriminate].
    destruct (Hgo (Ok (JStr "acquire")) raw I E) as [_ Hother]. destruct (Token (MkIssuer "http://idp" 8%Z) 0 0 _) as [raw'|] eqn:E'; [|vm_compute in E'; discriminate].
    apply (Hother (MkIssuer "http://idp" 8%Z) 0%Z 0%Z {["azp" := Ok (JStr "acquire")]} raw'); [|exact E']. intros sum. discriminate.
Defined.
End witnesses.
