(* ===== verification/Backends.v ===== *)
(** * internal/adapters: the catalog's clients behind the [Adapter] interface

    The adapters of this build as one type, each with the interfaces it implements: the instance of
    [AdapterOps] the gateway's theorems are proved against, and the catalog's [build] functions, the
    instance of [ClientFactory] of the registry.  What an operation draws from the process (a random
    tag, Go's map order, the transport's buffers) comes from the class [Process]. *)

From S2P Require Import Prelude GoStrings GoUrl Adapters Responses Endpoint Clients Registry RegistrySpec Interfaces Json Http.
From S2P Require NZBGet ODownloader QBittorrent JDownloader.

Inductive backend :=
  | BNzbget (n : NZBGet.NZBGet)
  | BOdownloader (o : ODownloader.ODownloader)
  | BQbittorrent (q : QBittorrent.QBittorrent)
  | BJdownloader (j : JDownloader.JDownloader).

(** [Adapter.Name]. *)
Definition backend_Name (b : backend) : string :=
  match b with
  | BNzbget _ => NZBGet.NZBGet_Name
  | BOdownloader _ => ODownloader.ODownloader_Name
  | BQbittorrent _ => QBittorrent.QBittorrent_Name
  | BJdownloader j => JDownloader.Name j
  end.

(** ** [build] *)

Definition guard_nzbget (n : NZBGet.NZBGet) : NZBGet.NZBGet :=
  NZBGet.MkNZBGet (NZBGet.nz_BaseURL n) (NZBGet.nz_Username n) (NZBGet.nz_Password n) (NZBGet.nz_Category n)
    (guard (NZBGet.nz_HTTP n)).

Definition guard_odownloader (o : ODownloader.ODownloader) : ODownloader.ODownloader :=
  ODownloader.MkODownloader (ODownloader.od_BaseURL o) (ODownloader.od_Token o) (guard (ODownloader.od_HTTP o)).

Definition guard_qbittorrent (category : string) (q : QBittorrent.QBittorrent) : QBittorrent.QBittorrent :=
  QBittorrent.MkQBittorrent (QBittorrent.qb_BaseURL q) (QBittorrent.qb_Username q) (QBittorrent.qb_Password q)
    category (guard (QBittorrent.qb_HTTP q)).

Definition build_nzbget (ptr : nat) (s : ClientSpec) : backend :=
  BNzbget (guard_nzbget (NZBGet.NewNZBGet ptr (spec_BaseURL s) (spec_Username s) (spec_Secret s) (spec_Category s))).

Definition build_odownloader (ptr : nat) (s : ClientSpec) : backend :=
  BOdownloader (guard_odownloader (ODownloader.NewODownloader ptr (spec_BaseURL s) (spec_Secret s))).

Definition build_qbittorrent (ptr : nat) (s : ClientSpec) : backend :=
  BQbittorrent (guard_qbittorrent (spec_Category s)
    (QBittorrent.NewQBittorrent ptr (spec_BaseURL s) (spec_Username s) (spec_Secret s))).

(** [buildClient]: the type's [build].  A type the catalog does not have would call a nil function;
    [PrepareSpec] lets none through, and the last case stands for it. *)
Definition buildClient (ptr : nat) (s : ClientSpec) : backend :=
  if bool_decide (spec_Type s = "nzbget") then build_nzbget ptr s
  else if bool_decide (spec_Type s = "odownloader") then build_odownloader ptr s
  else build_qbittorrent ptr s.

(** [NewClient]. *)
Definition NewClient (ptr : nat) (spec : ClientSpec) : result error (backend * ClientSpec) :=
  match PrepareSpec spec with
  | Err e => Err e
  | Ok s => Ok (buildClient ptr s, s)
  end.

#[export] Instance backend_factory : ClientFactory backend := {|
  Adapter_Name := backend_Name;
  Registry.buildClient := buildClient
|}.

(** The policies of a backend's HTTP client. *)
Definition backend_HTTP (b : backend) : option HttpClient :=
  match b with
  | BNzbget n => Some (NZBGet.nz_HTTP n)
  | BOdownloader o => Some (ODownloader.od_HTTP o)
  | BQbittorrent q => Some (QBittorrent.qb_HTTP q)
  | BJdownloader _ => None
  end.

(** ** The interface *)

(** What the process draws during a call. *)
Class Process (W : Type) := {
  draw_job_tag : W → string * W;                                  (* newJobTag *)
  form_order : W → list (string * string) → list (string * string);   (* the order of a map *)
  buffer_sizes : W → nat → nat                                        (* of the transport's reads *)
}.

Section ops.
Context {W : Type} `{HttpWorld W} `{Process W} `{Quote} `{QBittorrent.Multipart}.
Context `{Decodes NZBGet.rpc_reply} `{Decodes Z} `{Decodes string} `{Decodes (list NZBGet.nzbGroup)}
  `{Decodes (list NZBGet.nzbHistory)} `{Decodes (list NZBGet.nzbOwned)} `{Decodes NZBGet.nzbStatus}
  `{Decodes ODownloader.odlAddResult} `{Decodes ODownloader.odlPage}
  `{Decodes (list QBittorrent.qbTorrent)} `{Decodes QBittorrent.qbInfo}.

Definition backend_Add (b : backend) (j : Job) (w : W) : result error string * W :=
  match b with
  | BNzbget n => NZBGet.Add (buffer_sizes w) n j w
  | BOdownloader o => ODownloader.Add o j w
  | BQbittorrent q => let (tag, w') := draw_job_tag w in QBittorrent.Add tag (form_order w) q j w'
  | BJdownloader d => JDownloader.Add d j w
  end.

Definition backend_Status (b : backend) (id : string) : W → result error Status * W :=
  match b with
  | BNzbget n => NZBGet.Status_ n id
  | BOdownloader o => ODownloader.Status_ o id
  | BQbittorrent q => QBittorrent.Status_ q id
  | BJdownloader d => JDownloader.Status_ d id
  end.

Definition backend_Describe (b : backend) (id : string) : W → result error JobView * W :=
  match b with
  | BNzbget n => NZBGet.Describe n id
  | BOdownloader o => ODownloader.Describe o id
  | BQbittorrent q => QBittorrent.Describe q id
  | BJdownloader d => JDownloader.Describe d id
  end.

Definition backend_Remove (b : backend) (id : string) : W → result error unit * W :=
  match b with
  | BNzbget n => NZBGet.Remove n id
  | BOdownloader o => ODownloader.Remove o id
  | BQbittorrent q => QBittorrent.Remove q id
  | BJdownloader d => JDownloader.Remove d id
  end.

(** The method sets: NZBGet and qBittorrent implement every optional interface, oDownloader only
    [Prober], JDownloader none. *)
Definition backend_Controller (b : backend) : option (Controller W) :=
  match b with
  | BNzbget n => Some (MkController (NZBGet.Pause n) (NZBGet.Resume n))
  | BQbittorrent q => Some (MkController (QBittorrent.Pause q) (QBittorrent.Resume q))
  | _ => None
  end.

Definition backend_Reporter (b : backend) : option (W → ClientStatus * W) :=
  match b with
  | BNzbget n => Some (NZBGet.ClientStatus_ n)
  | BQbittorrent q => Some (QBittorrent.ClientStatus_ q)
  | _ => None
  end.

Definition backend_Rehydrator (b : backend) : option (W → result error (list AdoptedJob) * W) :=
  match b with
  | BNzbget n => Some (NZBGet.Adopt n)
  | BQbittorrent q => Some (QBittorrent.Adopt q)
  | _ => None
  end.

Definition backend_Prober (b : backend) : option (W → result error string * W) :=
  match b with
  | BNzbget n => Some (NZBGet.Probe n)
  | BOdownloader o => Some (ODownloader.Probe o)
  | BQbittorrent q => Some (QBittorrent.Probe q)
  | BJdownloader _ => None
  end.

#[export] Instance backend_ops : AdapterOps backend W := {|
  Name := backend_Name;
  Add := backend_Add;
  Status_ := backend_Status;
  Describe := backend_Describe;
  Remove := backend_Remove;
  as_Controller := backend_Controller;
  as_Reporter := backend_Reporter;
  as_Rehydrator := backend_Rehydrator;
  as_Prober := backend_Prober
|}.
End ops.

(** ** The catalog's flags *)

(** [j] with another save path. *)
Definition with_savePath (p : string) (j : Job) : Job :=
  MkJob (Job_ID j) (Job_Source j) p (Job_Title j) (Job_Category j) (Job_Payload j) (Job_PayloadName j).

Section flags.
Context {W : Type} `{HttpWorld W} `{Process W} `{Quote} `{QBittorrent.Multipart}.
Context `{Decodes NZBGet.rpc_reply} `{Decodes Z} `{Decodes string} `{Decodes (list NZBGet.nzbGroup)}
  `{Decodes (list NZBGet.nzbHistory)} `{Decodes (list NZBGet.nzbOwned)} `{Decodes NZBGet.nzbStatus}
  `{Decodes ODownloader.odlAddResult} `{Decodes ODownloader.odlPage}
  `{Decodes (list QBittorrent.qbTorrent)} `{Decodes QBittorrent.qbInfo}.

(** C32: the catalog tells the truth about the clients it builds: a type says it can pause exactly
      when its adapter implements the control interface, a type that takes no payload refuses one
      before any request leaves the process, and a type without save paths sends the same requests
      whatever save path an add names.  Every type can be probed by the configuration test. *)
Theorem catalog_truthful ptr (s : ClientSpec) (ti : TypeInfo) :
  LookupType (spec_Type s) = Some ti →
  let b := buildClient ptr s in
  (ti_CanPause ti = true ↔ is_Some (as_Controller (W := W) b)) ∧
  (ti_AcceptsPayload ti = false →
    ∀ j w, Job_Payload j ≠ EmptyString → Add b j w = (Err ErrPayloadUnsupported, w)) ∧
  (ti_SupportsSavePath ti = false → ∀ j p w, Add b (with_savePath p j) w = Add b j w) ∧
  is_Some (as_Prober (W := W) b).
Proof.
  intros Hl. apply LookupType_Some in Hl as [Hin Ht]. unfold buildClient. rewrite <- Ht. clear Ht. unfold catalog in Hin.
  repeat (apply elem_of_cons in Hin as [->|Hin]); [| | |by apply not_elem_of_nil in Hin]; cbn;
    split_and!; try done.
  - split; [done|]. by intros [? [=]].
  - intros _ j w Hp. change (ODownloader.Add (guard_odownloader (ODownloader.NewODownloader ptr (spec_BaseURL s) (spec_Secret s))) j w
      = (Err ErrPayloadUnsupported, w)).
    unfold ODownloader.Add. rewrite (proj2 (Z.ltb_lt _ _)); [done|].
    unfold len. destruct (Job_Payload j); [done|cbn; lia].
Qed.
End flags.

(** ** Facts *)

(** A client with the pushed-client endpoint policy. *)
Definition guarded (b : backend) : Prop :=
  ∃ c, backend_HTTP b = Some c ∧ hc_Transport c = pushedTransport ∧ hc_CheckRedirect c = SameOriginRedirect.

Lemma buildClient_guarded ptr s : guarded (buildClient ptr s).
Proof.
  unfold buildClient, guarded. destruct (bool_decide _); [|destruct (bool_decide _)]; (eexists; split; [reflexivity|done]).
Qed.

(** The type of a validated spec is the name of the adapter built from it. *)
Lemma buildClient_type ptr s ti :
  LookupType (spec_Type s) = Some ti → backend_Name (buildClient ptr s) = spec_Type s.
Proof.
  intros Hl. apply LookupType_Some in Hl as [Hin Ht]. rewrite <- Ht.
  unfold buildClient. rewrite <- Ht. clear Ht. unfold catalog in Hin.
  repeat (apply elem_of_cons in Hin as [->|Hin]; [reflexivity|]). by apply not_elem_of_nil in Hin.
Qed.

(** The adapter of an API client is the one [build] makes of accepted settings, which are its spec
    but for the secret. *)
Lemma pushed_clients_built `{Quote} (r : Registry backend) id e :
  reg_reachable r → r_clients r !! id = Some e → e_source e = SourceAPI →
  ∃ raw spec k, PrepareSpec raw = Ok spec ∧ e_spec e = drop_secret spec ∧ e_adapter e = buildClient k spec.
Proof.
  intros Hr He Hs. destruct (reachable_wf r Hr) as [Hwf _]. destruct (we_api _ _ _ (Hwf id e He) Hs) as (_ & raw & spec & k & _ & Hp & Hsp & _ & _ & Ha).
  by exists raw, spec, k.
Qed.

Section witnesses.
#[local] Instance demo_backend_quote : Quote := λ s, s.

(** Endpoints that never answer, over the number of requests made. *)
#[local] Instance demo_dead : HttpWorld nat := {|
  Do := λ _ req w, (Err (UrlError "Post" (rq_URL req) (ErrorString "dial")), S w);
  Cookies := λ _ _ _, [];
  parse_cause := λ _, ErrorString "parse"
|}.
#[local] Instance demo_decodes T : Decodes T := {|
  Decode := λ _, (Err (ErrorString "EOF"), 0%Z);
  Unmarshal := λ _, Err (ErrorString "EOF")
|}.
#[local] Instance demo_process : Process nat := {|
  draw_job_tag := λ w, ("tag", w);
  form_order := λ _ l, l;
  buffer_sizes := λ _ _, 1%nat
|}.
#[local] Instance demo_multipart : QBittorrent.Multipart := {|
  QBittorrent.boundary := "b";
  QBittorrent.torrents_disposition := λ s, s
|}.

Definition demo_file (path : string) : Job := MkJob "w" "http://x/y" path "t" EmptyString "nzb" "f".
Definition demo_odl : backend :=
  buildClient 0 (MkClientSpec "odl" "odownloader" "http://o" AuthNone EmptyString EmptyString EmptyString EmptyString []).

Lemma catalog_truthful_witness :
  Add demo_odl (demo_file EmptyString) 7%nat = (Err ErrPayloadUnsupported, 7%nat) ∧
  Add demo_odl (demo_file "/a") 7%nat = Add demo_odl (demo_file "/b") 7%nat.
Proof.
  pose proof (catalog_truthful (W := nat) 0
    (MkClientSpec "odl" "odownloader" "http://o" AuthNone EmptyString EmptyString EmptyString EmptyString [])
    (MkTypeInfo "odownloader" [ProtocolHTTP] [AuthToken; AuthNone] false false false) eq_refl) as (_ & Hp & Hs & _).
  split; [by apply Hp|]. exact (Hs eq_refl (demo_file "/b") "/a" 7%nat).
Defined.
End witnesses.
