(* ===== verification/Requests.v ===== *)
(** * internal/adapters: the texts the adapters send, as the other side reads them

    What a caller or a client supplies (a job id, a tag, a source, a password) is escaped into forms,
    queries and paths.  This file reads them back with [url.ParseQuery] and [url.Parse]: a form is
    read as the values it was made of, and a path and a query put after a base URL change neither its
    scheme nor its host. *)

From S2P Require Import Prelude GoStrings GoUrl Adapters Responses Endpoint Clients Json Http ODownloader QBittorrent.
From Stdlib Require Import Ascii.

(** ** [url.ParseQuery] *)

(** One [key=value] of a query; [None] is an error, [Some None] an empty piece. *)
Definition query_piece (piece : string) : option (option (string * string)) :=
  if contains_byte piece ";" then None
  else if bool_decide (piece = EmptyString) then Some None
  else
    let '(k, v, _) := cut_byte "=" piece in
    k ← unescape k encodeQueryComponent;
    v ← unescape v encodeQueryComponent;
    Some (Some (k, v)).

(** The pairs in order; [None] when it reports an error. *)
Definition ParseQuery (query : string) : option Values :=
  omap id <$> mapM query_piece (Split query "&").

(** ** What is escaped is read back *)

Lemma unescape_escape_char m m' c l :
  (m, m') ∈ [(encodeQueryComponent, encodeQueryComponent); (encodePathSegment, encodePathSegment); (encodePathSegment, encodePath)] →
  unescape_chars m' (escape_char m c ++ l) = (c ::.) <$> unescape_chars m' l.
Proof.
  intros Hm. repeat (apply elem_of_cons in Hm as [[= -> ->]|Hm]); [..|by apply elem_of_nil in Hm];
    destruct c as [[] [] [] [] [] [] [] []]; reflexivity.
Qed.

Lemma unescape_escape_chars m m' l :
  (m, m') ∈ [(encodeQueryComponent, encodeQueryComponent); (encodePathSegment, encodePathSegment); (encodePathSegment, encodePath)] →
  unescape_chars m' (escape_chars m l) = Some l.
Proof.
  intros Hm. induction l as [|c l IH]; [done|]. unfold escape_chars in *. cbn [mbind list_bind].
  rewrite (unescape_escape_char m m' c _ Hm), IH. done.
Qed.

Lemma QueryUnescape_Escape s : unescape (QueryEscape s) encodeQueryComponent = Some s.
Proof.
  unfold unescape, QueryEscape, escape. rewrite chars_str, (unescape_escape_chars encodeQueryComponent) by by left.
  cbn. by rewrite str_chars.
Qed.

Lemma PathUnescape_Escape s : unescape (PathEscape s) encodePath = Some s.
Proof.
  unfold unescape, PathEscape, escape. rewrite chars_str, (unescape_escape_chars encodePathSegment) by (right; right; by left).
  cbn. by rewrite str_chars.
Qed.

(** The bytes an escaped text is made of. *)
Definition query_char (c : ascii) : bool := is_alnum c || one_of "-_.~%+" c.
Definition segment_char (c : ascii) : bool := query_char c || one_of "$&+:=@" c.

Lemma escape_char_plain m c :
  m = encodeQueryComponent ∨ m = encodePathSegment →
  forallb (if bool_decide (m = encodeQueryComponent) then query_char else segment_char) (escape_char m c) = true.
Proof. intros [->| ->]; destruct c as [[] [] [] [] [] [] [] []]; vm_compute; reflexivity. Qed.

Lemma QueryEscape_plain s : forallb query_char (chars (QueryEscape s)) = true.
Proof.
  unfold QueryEscape, escape. rewrite chars_str. unfold escape_chars.
  induction (chars s) as [|c l IH]; [done|]. cbn [mbind list_bind]. rewrite forallb_app, IH, andb_true_r.
  by apply (escape_char_plain encodeQueryComponent); left.
Qed.

Lemma PathEscape_plain s : forallb segment_char (chars (PathEscape s)) = true.
Proof.
  unfold PathEscape, escape. rewrite chars_str. unfold escape_chars.
  induction (chars s) as [|c l IH]; [done|]. cbn [mbind list_bind]. rewrite forallb_app, IH, andb_true_r.
  by apply (escape_char_plain encodePathSegment); right.
Qed.

Lemma forallb_not (f : ascii → bool) l c : forallb f l = true → f c = false → c ∉ l.
Proof. rewrite forallb_forall. intros Hf Hc Hin. apply list_elem_of_In in Hin. rewrite (Hf c Hin) in Hc. done. Qed.

Lemma QueryEscape_free s c : query_char c = false → c ∉ chars (QueryEscape s).
Proof. intros Hc. by eapply forallb_not; [apply QueryEscape_plain|]. Qed.

(** *** Forms *)

Definition pair_text (kv : string * string) : string := QueryEscape kv.1 +:+ "=" +:+ QueryEscape kv.2.

Lemma pair_text_free kv c : query_char c = false → c ≠ "="%char → c ∉ chars (pair_text kv).
Proof.
  intros Hc He. unfold pair_text. rewrite !chars_app, !not_elem_of_app. split_and!; [by apply QueryEscape_free| |by apply QueryEscape_free].
  change (chars "=") with ["="%char]. by rewrite list_elem_of_singleton.
Qed.

Lemma query_piece_pair kv : query_piece (pair_text kv) = Some (Some kv).
Proof.
  destruct kv as [k v]. unfold query_piece, contains_byte.
  rewrite bool_decide_false by by apply pair_text_free. cbn iota.
  assert (Hch : chars (pair_text (k, v)) = chars (QueryEscape k) ++ "="%char :: chars (QueryEscape v)) by (unfold pair_text; by rewrite !chars_app).
  rewrite bool_decide_false.
  - unfold cut_byte. rewrite Hch, index_byte_app by by apply QueryEscape_free. rewrite take_app_length, str_chars.
    change (S ?n) with (1 + n). rewrite Nat.add_comm, <- drop_drop, drop_app_length.
    change (drop 1 ("="%char :: ?l)) with (drop 0 l). rewrite drop_0, str_chars, !QueryUnescape_Escape. done.
  - intros E. rewrite E in Hch. by destruct (chars (QueryEscape k)).
Qed.

Lemma mapM_pieces l : mapM query_piece (pair_text <$> l) = Some (Some <$> l).
Proof. induction l as [|kv l IH]; [done|]. rewrite !fmap_cons. cbn [mapM]. rewrite query_piece_pair. cbn [mbind option_bind]. by rewrite IH. Qed.

Lemma omap_Some (l : Values) : omap id (Some <$> l) = l.
Proof. induction l as [|kv l IH]; [done|]. csimpl. by rewrite IH. Qed.

Lemma ParseQuery_Encode v : ParseQuery (Encode v) = Some (sort_by fst v).
Proof.
  unfold ParseQuery, Encode. change (λ kv : string * string, _) with pair_text.
  destruct (decide (sort_by fst v = [])) as [->|Hne]; [done|]. rewrite Split_Join.
  - rewrite mapM_pieces. cbn. by rewrite omap_Some.
  - by destruct (sort_by fst v).
  - apply Forall_fmap, Forall_forall. intros kv _. by apply pair_text_free.
Qed.

Lemma Join_free sep l c : c ∉ chars sep → Forall (λ s, c ∉ chars s) l → c ∉ chars (Join l sep).
Proof.
  intros Hs Hl. induction Hl as [|s l Hc Hl IH]; [by apply not_elem_of_nil|]. destruct l as [|s' l]; [done|].
  change (Join (s :: s' :: l) sep) with (s +:+ sep +:+ Join (s' :: l) sep). rewrite !chars_app, !not_elem_of_app. done.
Qed.

Lemma Encode_free v c : query_char c = false → c ∉ chars "=&" → c ∉ chars (Encode v).
Proof.
  intros Hc He. change (chars "=&") with ["="; "&"]%char in He. rewrite !not_elem_of_cons in He. destruct He as (He & Ha & _).
  apply Join_free; [change (chars "&") with ["&"%char]; by rewrite list_elem_of_singleton|].
  apply Forall_fmap, Forall_forall. intros kv _. by apply pair_text_free.
Qed.

(** ** A base URL with a path and a query after it *)

Lemma HasSuffix_char s c : HasSuffix s (String c EmptyString) = true → c ∈ chars s.
Proof. intros (t & ->)%HasSuffix_spec. rewrite chars_app. apply elem_of_app. right. by left. Qed.

Lemma drop_S_app {B} (l t : list B) x : drop (S (length l)) (l ++ x :: t) = t.
Proof.
  change (S ?n) with (1 + n). rewrite Nat.add_comm, <- drop_drop, drop_app_length. apply drop_0.
Qed.

Lemma split_query_at rest q :
  "?"%char ∉ chars rest → "?"%char ∉ chars q → q ≠ EmptyString → split_query (rest +:+ "?" +:+ q) = (rest, q, false).
Proof.
  intros Hr Hq Hne. unfold split_query. destruct (HasSuffix (rest +:+ "?" +:+ q) "?") eqn:E.
  - exfalso. apply HasSuffix_spec in E as [t Ht]. apply (f_equal chars) in Ht. rewrite !chars_app in Ht.
    change (chars "?") with ["?"%char] in Ht. destruct (chars q) as [|c l] eqn:Eq using rev_ind.
    + apply Hne. by rewrite <- (str_chars q), Eq.
    + rewrite !app_assoc in Ht. apply app_inj_tail in Ht as [_ ->]. apply Hq. rewrite elem_of_app. right. by left.
  - cbn [andb]. unfold cut_byte. rewrite !chars_app. change (chars "?") with ["?"%char]. cbn [app].
    by rewrite index_byte_app, take_app_length, drop_S_app, !str_chars by done.
Qed.

Lemma parse_hier_query raw pre colon auth path q sch u host :
  hier_parts raw pre colon auth path →
  existsb ctl_byte (chars (raw +:+ "?" +:+ q)) = false → "?"%char ∉ chars raw → "?"%char ∉ chars q → q ≠ EmptyString →
  (∀ t, scheme_scan (pre ++ (colon :: t)) [] = Some (sch, t)) → sch ≠ [] →
  parseAuthority (str auth) = Some (u, host) →
  parse (raw +:+ "?" +:+ q) = setPath (MkURL (to_lower (str sch)) EmptyString u host EmptyString EmptyString false false
                             q EmptyString EmptyString) (str path).
Proof.
  intros (Hraw & Hcol & Hns & Hne & Hpath) Hctl Hq Hq' Hqne Hscan Hsch Hauth.
  set (rest := str (("/" :: "/" :: auth)%char ++ path)).
  assert (Hch : chars (raw +:+ "?" +:+ q) = pre ++ (colon :: chars (rest +:+ "?" +:+ q))).
  { rewrite !chars_app, Hraw. unfold rest. rewrite chars_str. by rewrite <- app_assoc. }
  unfold parse. rewrite Hctl. rewrite bool_decide_eq_false_2.
  2:{ intros E. rewrite E in Hch. destruct pre as [|x [|y pre]]; discriminate Hch. }
  unfold getScheme. rewrite Hch, Hscan. destruct sch as [|s0 sch]; [done|]. cbn [mbind option_bind fst snd]. rewrite str_chars.
  assert (Hrest : chars rest = "/"%char :: "/"%char :: auth ++ path) by apply chars_str.
  assert (Hqr : "?"%char ∉ chars rest) by (rewrite Hrest; intros Hin; apply Hq; rewrite Hraw; set_solver).
  rewrite (split_query_at rest q Hqr Hq' Hqne).
  assert (Hlow : to_lower (str (s0 :: sch)) ≠ EmptyString) by (unfold to_lower; by rewrite chars_str).
  rewrite (bool_decide_eq_false_2 _ Hlow).
  assert (H1 : HasPrefix rest "/" = true) by (apply HasPrefix_chars; exists ("/"%char :: auth ++ path); by rewrite Hrest).
  assert (H2 : HasPrefix rest "//" = true) by (apply HasPrefix_chars; exists (auth ++ path); by rewrite Hrest).
  rewrite H1, H2. cbn [negb andb orb].
  assert (Htp : TrimPrefix rest "//" = str (auth ++ path)) by (unfold TrimPrefix; by rewrite H2, Hrest).
  rewrite Htp, chars_str. destruct Hpath as [->|(t & ->)].
  - by rewrite app_nil_r, (proj2 (index_byte_None _ _) Hns), Hauth.
  - by rewrite index_byte_app, take_app_length, drop_app_length, Hauth by done.
Qed.

(** A complete escape is read whatever follows it. *)
Lemma unescape_chars_app m l1 l2 r :
  unescape_chars m l1 = Some r → unescape_chars m (l1 ++ l2) = (r ++.) <$> unescape_chars m l2.
Proof.
  remember (length l1) as n eqn:Hn. revert l1 r Hn. induction n as [n IH] using lt_wf_ind. intros l1 r -> Hl.
  assert (Hnext : ∀ v t, length t < length l1 → (v ::.) <$> unescape_chars m t = Some r →
    (v ::.) <$> unescape_chars m (t ++ l2) = (r ++.) <$> unescape_chars m l2).
  { intros v t Ht Hv. destruct (unescape_chars m t) as [r'|] eqn:E; [|done]. cbn in Hv. injection Hv as <-.
    rewrite (IH _ Ht t r' eq_refl E). by destruct (unescape_chars m l2). }
  destruct l1 as [|c t]; [cbn in Hl; injection Hl as <-; cbn [app]; by destruct (unescape_chars m l2)|]. cbn [unescape_chars app] in *.
  destruct (byte c =? 37)%Z.
  - destruct t as [|h1 [|h2 t]]; [done|done|]. cbn [app]. destruct (unhex h1), (unhex h2); try done.
    destruct (_ && _ && _); [done|]. destruct (_ && _ && _ && _); [done|]. apply Hnext; [cbn; lia|done].
  - destruct (_ && _); [apply Hnext; [cbn; lia|done]|]. destruct (_ && _ && _); [done|]. apply Hnext; [cbn; lia|done].
Qed.

(** A base URL the adapters can append to: it has a scheme and a host, and no query. *)
Definition base_url (base : string) (v : URL) : Prop :=
  Parse base = Some v ∧ "?"%char ∉ chars base ∧ "#"%char ∉ chars base ∧ Scheme v ≠ EmptyString ∧ Host v ≠ EmptyString.

(** Accepted settings have one. *)
Lemma valid_base raw : check_url raw = Ok raw → ∃ v, base_url raw v ∧ (Scheme v = "http" ∨ Scheme v = "https") ∧ User v = None.
Proof.
  intros (u & Hp & _ & _ & Hs & Hh & Hu & Hq & _)%check_url_ok. exists u.
  assert (Hns : Scheme u ≠ EmptyString) by (by destruct Hs as [-> | ->]).
  split; [|done]. unfold base_url. split_and!; try done; apply (ContainsAny_false _ _ _ Hq); vm_compute; set_solver.
Qed.

(** What is appended: a path, and a query or none. *)
Definition suffix_ok (path q : string) (p : string) : Prop :=
  (∃ t, chars path = "/"%char :: t) ∧ unescape path encodePath = Some p ∧
  Forall (λ c, ctl_byte c = false ∧ c ≠ "?"%char ∧ c ≠ "#"%char) (chars path ++ chars q).

Lemma base_plus base v path q p :
  base_url base v → suffix_ok path q p →
  ∃ u, Parse (base +:+ path +:+ if bool_decide (q = EmptyString) then EmptyString else "?" +:+ q) = Some u ∧
    Scheme u = Scheme v ∧ Host u = Host v ∧ User u = User v ∧ Path u = Path v +:+ p ∧ RawQuery u = q.
Proof.
  intros (Hp & Hq & Hf & Hs & Hh) ((t & Ht) & Hun & Hall). apply Forall_app in Hall as [Hall1 Hall2].
  unfold Parse in Hp. rewrite cut_byte_none in Hp by done. apply bind_Some in Hp as (w & Hw & Hv).
  rewrite bool_decide_eq_true_2 in Hv by done. injection Hv as ->.
  destruct (parse_hier_inv base v Hw Hq Hs Hh) as (pre & colon & auth & path0 & sch & u & host & Hparts & Hctl & Hscan & Hsch & Ha).
  rewrite (parse_hier base pre colon auth path0 sch u host Hparts Hctl Hq Hscan Hsch Ha) in Hw.
  unfold setPath in Hw. apply bind_Some in Hw as (p0 & Hp0 & Hw). injection Hw as <-. cbn [Scheme Host User Path].
  assert (Hnot : ∀ c, c = "?"%char ∨ c = "#"%char → c ∉ chars (base +:+ path)).
  { intros c Hc. rewrite chars_app, not_elem_of_app. split; [by destruct Hc as [->| ->]|]. intros Hin.
    rewrite Forall_forall in Hall1. destruct (Hall1 c Hin) as (_ & H1' & H2'). destruct Hc; congruence. }
  assert (Hnotq : ∀ c, c = "?"%char ∨ c = "#"%char → c ∉ chars q).
  { intros c Hc Hin. rewrite Forall_forall in Hall2. destruct (Hall2 c Hin) as (_ & H1' & H2'). destruct Hc; congruence. }
  assert (Hparts' : hier_parts (base +:+ path) pre colon auth (path0 ++ chars path)).
  { destruct Hparts as (Hraw & Hcol & Hns & Hne & Hpath). split_and!; try done.
    - rewrite chars_app, Hraw. rewrite <- app_assoc. cbn. by rewrite <- app_assoc.
    - right. destruct Hpath as [->|(t0 & ->)]; [by exists t|by eexists]. }
  assert (Hctl' : ∀ l, Forall (λ c, ctl_byte c = false ∧ c ≠ "?"%char ∧ c ≠ "#"%char) l → existsb ctl_byte l = false).
  { intros l Hl. apply not_true_is_false. rewrite existsb_exists. intros (c & Hc & Hcc). rewrite Forall_forall in Hl.
    apply list_elem_of_In in Hc. destruct (Hl c Hc) as [Hx _]. congruence. }
  assert (Hset : ∀ w, setPath w (str (path0 ++ chars path)) = (
     Some (MkURL (Scheme w) (Opaque w) (User w) (Host w) (p0 +:+ p)
              (if bool_decide (str (path0 ++ chars path) = escape (p0 +:+ p) encodePath) then EmptyString else str (path0 ++ chars path))
              (OmitHost w) (ForceQuery w) (RawQuery w) (Fragment w) (RawFragment w)))).
  { intros w. unfold setPath.
    assert (E : unescape (str (path0 ++ chars path)) encodePath = Some (p0 +:+ p)).
    { unfold unescape in *. rewrite chars_str in *. apply fmap_Some in Hp0 as (l0 & Hl0 & ->). apply fmap_Some in Hun as (l1 & Hl1 & ->).
      rewrite (unescape_chars_app _ _ _ _ Hl0), Hl1. cbn. by rewrite str_app. }
    by rewrite E. }
  unfold Parse. rewrite cut_byte_none.
  2:{ destruct (decide (q = EmptyString)) as [Hqe|Hqe]; [rewrite (bool_decide_true (q = EmptyString)) by done|rewrite (bool_decide_false (q = EmptyString)) by done]; rewrite !chars_app.
      -  change (chars EmptyString) with (@nil ascii). rewrite app_nil_r, <- chars_app. apply Hnot. by right.
      - rewrite app_assoc, <- chars_app, not_elem_of_app. split; [apply Hnot; by right|].
        change (chars "?") with ["?"%char]. cbn [app]. apply not_elem_of_cons. split; [done|]. apply Hnotq. by right. }
  destruct (decide (q = EmptyString)) as [Hqe|Hqe]; [rewrite (bool_decide_true (q = EmptyString)) by done|rewrite (bool_decide_false (q = EmptyString)) by done].
  - subst q. assert (E : base +:+ path +:+ EmptyString = base +:+ path).
    { apply chars_inj. rewrite !chars_app. change (chars EmptyString) with (@nil ascii). by rewrite app_nil_r. }
    rewrite E. rewrite (parse_hier _ pre colon auth (path0 ++ chars path) sch u host Hparts').
    + rewrite Hset. cbn. eexists. split_and!; reflexivity.
    + rewrite chars_app, existsb_app, Hctl. by apply Hctl'.
    + apply Hnot. by left.
    + done.
    + done.
    + done.
  - assert (E : base +:+ path +:+ "?" +:+ q = (base +:+ path) +:+ "?" +:+ q).
    { apply chars_inj. by rewrite !chars_app, app_assoc. }
    rewrite E. rewrite (parse_hier_query _ pre colon auth (path0 ++ chars path) q sch u host Hparts').
    + rewrite Hset. cbn. eexists. split_and!; reflexivity.
    + rewrite !chars_app, !existsb_app, Hctl, (Hctl' _ Hall1), (Hctl' _ Hall2). done.
    + apply Hnot. by left.
    + apply Hnotq. by left.
    + done.
    + done.
    + done.
    + done.
Qed.

(** What an encoded form or query holds can stand in a URL. *)
Lemma Encode_plain v : Forall (λ c, ctl_byte c = false ∧ c ≠ "?"%char ∧ c ≠ "#"%char) (chars (Encode v)).
Proof.
  apply Forall_forall. intros x Hx.
  assert (Hin : query_char x = true ∨ x ∈ chars "=&").
  { destruct (query_char x) eqn:Eq; [by left|]. destruct (decide (x ∈ chars "=&")) as [Hi|Hi]; [by right|].
    by destruct (Encode_free v x Eq Hi). }
  revert Hin. clear. intros Hin. assert (Hb : query_char x || bool_decide (x ∈ chars "=&") = true).
  { destruct Hin as [->|Hi]; [done|]. by rewrite bool_decide_true, orb_true_r. }
  clear Hin. destruct x as [[] [] [] [] [] [] [] []]; vm_compute in Hb; try discriminate Hb; by split_and!.
Qed.

Lemma Encode_ne kv v : Encode (kv :: v) ≠ EmptyString.
Proof.
  unfold Encode. intros E. assert (Hl : length (sort_by fst (kv :: v)) = S (length v)) by (by rewrite sort_by_perm).
  destruct (sort_by fst (kv :: v)) as [|x l]; [done|]. rewrite fmap_cons in E. apply (f_equal chars) in E.
  destruct ((λ kv : string * string, QueryEscape kv.1 +:+ "=" +:+ QueryEscape kv.2) <$> l) as [|y l'];
    cbn [Join] in E; rewrite !chars_app in E; by destruct (chars (QueryEscape x.1)).
Qed.

(** *** oDownloader's paths *)

Lemma describe_path_query id :
  describe_path id = "/api/v1/downloads" +:+
    if bool_decide (Encode [("packageId", id); ("size", "1000")] = EmptyString) then EmptyString
    else "?" +:+ Encode [("packageId", id); ("size", "1000")].
Proof.
  rewrite bool_decide_false by apply Encode_ne. unfold Encode.
  assert (Es : sort_by fst [("packageId", id); ("size", "1000")] = [("packageId", id); ("size", "1000")]) by reflexivity.
  rewrite Es. reflexivity.
Qed.

Lemma remove_path_ok id : suffix_ok (remove_path id) EmptyString ("/api/v1/packages/" +:+ id).
Proof.
  unfold remove_path. split_and!.
  - eexists. rewrite chars_app. reflexivity.
  - pose proof (PathUnescape_Escape id) as Hi. unfold unescape in *. apply fmap_Some in Hi as (l & Hl & ->). rewrite chars_app.
    rewrite (unescape_chars_app encodePath (chars "/api/v1/packages/") _ (chars "/api/v1/packages/")) by reflexivity.
    rewrite Hl. cbn [fmap option_fmap option_map]. by rewrite str_app, str_chars.
  - change (chars EmptyString) with (@nil ascii). rewrite app_nil_r, chars_app. apply Forall_app. split.
    + apply (bool_decide_eq_true_1 (Forall _ _)). vm_compute. reflexivity.
    + apply Forall_forall. intros x Hx. pose proof (PathEscape_plain id) as Hp. rewrite forallb_forall in Hp.
      apply list_elem_of_In, Hp in Hx. destruct x as [[] [] [] [] [] [] [] []]; vm_compute in Hx; try discriminate Hx; by split_and!.
Qed.

(** ** Properties *)

(** C30: what the adapters escape, the other side reads back: a form or a query is read as
    exactly the pairs it was made of, in the order of their keys, whatever bytes they hold; so a
    username, a password, a source or a tag is one value of its field and adds no other;
    oDownloader's listing names one package and the page size; and the path of its deletion, unescaped,
    ends in the package's id, with no question mark or fragment to cut it short. *)
Theorem forms_read_back (v : Values) (id : string) :
  ParseQuery (Encode v) = Some (sort_by fst v) ∧ sort_by fst v ≡ₚ v ∧
  (∃ query, describe_path id = "/api/v1/downloads?" +:+ query ∧
     ParseQuery query = Some [("packageId", id); ("size", "1000")]) ∧
  unescape (remove_path id) encodePath = Some ("/api/v1/packages/" +:+ id) ∧
  "?"%char ∉ chars (remove_path id) ∧ "#"%char ∉ chars (remove_path id).
Proof.
  split_and!.
  - apply ParseQuery_Encode.
  - apply sort_by_perm.
  - exists (Encode [("packageId", id); ("size", "1000")]). split; [|by rewrite ParseQuery_Encode].
    rewrite describe_path_query, bool_decide_false by apply Encode_ne. reflexivity.
  - apply (remove_path_ok id).
  - destruct (remove_path_ok id) as (_ & _ & Hall). rewrite Forall_forall in Hall. intros Hin.
    destruct (Hall "?"%char) as (_ & Hn & _); [|done]. apply elem_of_app. by left.
  - destruct (remove_path_ok id) as (_ & _ & Hall). rewrite Forall_forall in Hall. intros Hin.
    destruct (Hall "#"%char) as (_ & _ & Hn); [|done]. apply elem_of_app. by left.
Qed.
