(* ===== verification/Traffic.v ===== *)
(** * internal/adapters: what an operation sends, and where

    Each operation of an adapter is run in a world that logs the requests.  Whatever an operation is given,
    every request it sends goes over the adapter's own HTTP client to the scheme and host of its base URL
    ([requests_stay]), and a qBittorrent session is renewed at most once ([authed_requests]). *)

From S2P Require Import Prelude GoStrings GoUrl Adapters Responses Endpoint Clients Registry RegistrySpec Interfaces Base64 Json Http NZBGet ODownloader JDownloader QBittorrent Backends Requests.
From Stdlib Require Import Ascii.
#[local] Open Scope gw_scope.

(** ** A world that logs what is sent *)

Section logged.
Context {W : Type} `{HttpWorld W} `{Process W}.

Definition logged : Type := W * list (HttpClient * Request).

#[export] Instance logged_world : HttpWorld logged := {|
  Do := λ c req st, let (r, w) := Do c req st.1 in (r, (w, st.2 ++ [(c, req)]));
  Cookies := λ c u st, Cookies c u st.1;
  parse_cause := parse_cause
|}.

#[export] Instance logged_process : Process logged := {|
  draw_job_tag := λ st, let (tag, w) := draw_job_tag st.1 in (tag, (w, st.2));
  form_order := λ st, form_order st.1;
  buffer_sizes := λ st, buffer_sizes st.1
|}.
End logged.
Arguments logged : clear implicits.

(** One operation of an adapter, and the world after it. *)
Inductive operation :=
  | OpAdd (j : Job) | OpStatus (id : string) | OpDescribe (id : string) | OpRemove (id : string)
  | OpPause (id : string) | OpResume (id : string) | OpReport | OpAdopt | OpProbe.

Definition operate {A W} `{AdapterOps A W} (a : A) (o : operation) (w : W) : W :=
  match o with
  | OpAdd j => (Interfaces.Add a j w).2
  | OpStatus id => (Interfaces.Status_ a id w).2
  | OpDescribe id => (Interfaces.Describe a id w).2
  | OpRemove id => (Interfaces.Remove a id w).2
  | OpPause id => match as_Controller a with Some c => (Interfaces.Pause c id w).2 | None => w end
  | OpResume id => match as_Controller a with Some c => (Interfaces.Resume c id w).2 | None => w end
  | OpReport => match as_Reporter a with Some f => (f w).2 | None => w end
  | OpAdopt => match as_Rehydrator a with Some f => (f w).2 | None => w end
  | OpProbe => match as_Prober a with Some f => (f w).2 | None => w end
  end.

Section sends.
Context {W : Type} `{HttpWorld W}.
Context (P : HttpClient * Request → Prop).

(** [sends m]: whatever [m] logs satisfies [P]. *)
Definition sends {X} (m : logged W → X * logged W) : Prop :=
  ∀ st, ∃ new, (m st).2.2 = st.2 ++ new ∧ Forall P new.

Lemma sends_pure {X} (x : X) : sends (λ st, (x, st)).
Proof. intros st. exists []. by rewrite app_nil_r. Qed.

Lemma sends_ret {X} (x : X) : sends (mret_ (W := logged W) x).
Proof. apply sends_pure. Qed.

Lemma sends_fail {X} e : sends (mfail (W := logged W) (A := X) e).
Proof. apply sends_pure. Qed.

Lemma sends_lift {X} (r : result error X) : sends (mlift (W := logged W) r).
Proof. apply sends_pure. Qed.

Lemma sends_bind {X Y} (m : M (logged W) X) (k : X → M (logged W) Y) :
  sends m → (∀ x, sends (k x)) → sends (mbind_ m k).
Proof.
  intros Hm Hk st. unfold mbind_. destruct (Hm st) as (new & Hn & Hall). destruct (m st) as [[x|e] st']; cbn in Hn; [|by exists new].
  destruct (Hk x st') as (new' & Hn' & Hall'). exists (new ++ new'). rewrite Hn', Hn, app_assoc. split; [done|]. by apply Forall_app.
Qed.

Lemma sends_try {X} (m : M (logged W) X) : sends m → sends (mtry m).
Proof. intros Hm st. destruct (Hm st) as (new & Hn & Hall). exists new. unfold mtry. by destruct (m st). Qed.

(** What an operation makes of the answer sends nothing more. *)
Lemma sends_after {X Y} (m : logged W → X * logged W) (f : X * logged W → Y * logged W) :
  sends m → (∀ x st, (f (x, st)).2 = st) → sends (λ st, f (m st)).
Proof. intros Hm Hf st. destruct (Hm st) as (new & Hn & Hall). exists new. destruct (m st) as [x st']. by rewrite Hf. Qed.

Lemma sends_do c req : P (c, req) → sends (Do (W := logged W) c req).
Proof. intros HP st. exists [(c, req)]. cbn. destruct (Do c req st.1). by split; [|constructor]. Qed.

Lemma sends_request c method url header body :
  (is_Some (Parse url) → P (c, MkRequest method url header body (len body))) →
  sends (send_request (W := logged W) c method url header body).
Proof.
  intros HP. unfold send_request, NewRequest. destruct (Parse url) as [u|]; [|apply sends_fail]. by apply sends_do, HP.
Qed.
End sends.

(** ** Every operation stays with its client *)

Section stays.
Context {W : Type} `{HttpWorld W} `{Process W} `{Quote} `{QBittorrent.Multipart}.
Context `{Decodes NZBGet.rpc_reply} `{Decodes Z} `{Decodes string} `{Decodes (list NZBGet.nzbGroup)}
  `{Decodes (list NZBGet.nzbHistory)} `{Decodes (list NZBGet.nzbOwned)} `{Decodes NZBGet.nzbStatus}
  `{Decodes ODownloader.odlAddResult} `{Decodes ODownloader.odlPage}
  `{Decodes (list QBittorrent.qbTorrent)} `{Decodes QBittorrent.qbInfo}.
Context (base : string) (v : URL) (Hbase : base_url base v) (c : HttpClient).

(** A request over [c] to the scheme and host of [base], under its path. *)
Definition stays (cr : HttpClient * Request) : Prop :=
  cr.1 = c ∧ ∃ u p, Parse (rq_URL cr.2) = Some u ∧ Scheme u = Scheme v ∧ Host u = Host v ∧ User u = User v ∧ Path u = Path v +:+ p.

Lemma stays_at method path q header body p n :
  suffix_ok path q p →
  stays (c, MkRequest method (base +:+ path +:+ if bool_decide (q = EmptyString) then EmptyString else "?" +:+ q) header body n).
Proof.
  intros Hs. split; [done|]. destruct (base_plus base v path q p Hbase Hs) as (u & Hu & ? & ? & ? & ? & _). by exists u, p.
Qed.

Lemma append_empty s : s +:+ EmptyString = s.
Proof. apply chars_inj. rewrite chars_app. apply app_nil_r. Qed.

Lemma stays_path method path header body p n :
  suffix_ok path EmptyString p → stays (c, MkRequest method (base +:+ path) header body n).
Proof.
  intros Hs. pose proof (stays_at method path EmptyString header body p n Hs) as Hst.
  rewrite bool_decide_true, append_empty in Hst by done. done.
Qed.

Lemma stays_query method path q header body p n :
  suffix_ok path q p → q ≠ EmptyString → stays (c, MkRequest method (base +:+ path +:+ "?" +:+ q) header body n).
Proof.
  intros Hs Hq. pose proof (stays_at method path q header body p n Hs) as Hst. by rewrite bool_decide_false in Hst by done.
Qed.

(** A fixed path, checked by evaluation. *)
Definition fixed_path (path : string) : bool :=
  HasPrefix path "/" && forallb (λ c, negb (ctl_byte c) && negb (bool_decide (c ∈ ["?"; "#"; "%"]%char))) (chars path).

Lemma unescape_plain l : "%"%char ∉ l → unescape_chars encodePath l = Some l.
Proof.
  induction l as [|x l IH]; intros Hl; [done|]. apply not_elem_of_cons in Hl as [Hx Hl]. cbn [unescape_chars].
  destruct (Z.eqb_spec (byte x) 37) as [E|E].
  - exfalso. apply Hx. rewrite <- (ascii_N_embedding x). unfold byte in E. replace (Ascii.N_of_ascii x) with 37%N by lia. done.
  - rewrite bool_decide_false, andb_false_r by done. cbn. by rewrite IH.
Qed.

Lemma fixed_path_ok path q :
  fixed_path path = true → Forall (λ c, ctl_byte c = false ∧ c ≠ "?"%char ∧ c ≠ "#"%char) (chars q) → suffix_ok path q path.
Proof.
  unfold fixed_path. intros [Hp Hc]%andb_true_iff Hq. apply HasPrefix_chars in Hp as [l Hl]. rewrite forallb_forall in Hc.
  assert (Hf : ∀ x, x ∈ chars path → ctl_byte x = false ∧ x ∉ ["?"; "#"; "%"]%char).
  { intros x Hx. apply list_elem_of_In, Hc in Hx. apply andb_true_iff in Hx as [H1' H2']. apply negb_true_iff in H1', H2'.
    by apply bool_decide_eq_false in H2'. }
  split_and!; [by exists l| |].
  - unfold unescape. rewrite unescape_plain; [cbn; by rewrite str_chars|]. intros Hin. apply Hf in Hin as [_ Hn]. apply Hn. set_solver.
  - apply Forall_app. split; [|done]. apply Forall_forall. intros x Hx. apply Hf in Hx as [H1' H2']. split; [done|]. set_solver.
Qed.

Abbreviation ok m := (sends (W := W) stays m).

(** The shapes the operations are made of. *)
Ltac sends_tac :=
  repeat first
    [ apply sends_ret | apply sends_fail | apply sends_lift
    | apply sends_try
    | match goal with
      | |- sends _ (mbind_ _ _) => apply sends_bind; [|intros ?]
      | |- sends _ (match ?x with _ => _ end) => destruct x
      | |- sends _ (if ?x then _ else _) => destruct x
      end
    | solve [auto] ].

(** *** NZBGet *)

Lemma nz_send_ok n method len_ body :
  NZBGet.nz_BaseURL n = base → NZBGet.nz_HTTP n = c → ok (NZBGet.send n method len_ body).
Proof.
  intros Hb Hc. unfold NZBGet.send, NewRequest. destruct (Parse _) as [u|]; [|apply sends_fail].
  apply sends_bind; [|intros resp; sends_tac]. apply sends_do. rewrite Hb, Hc.
  apply (stays_path "POST" "/jsonrpc" _ _ "/jsonrpc"), fixed_path_ok; [vm_compute; reflexivity|constructor].
Qed.

Section nzbget.
Context (n : NZBGet.NZBGet) (Hb : NZBGet.nz_BaseURL n = base) (Hc : NZBGet.nz_HTTP n = c).

Lemma nz_call_ok method params : ok (NZBGet.call n method params).
Proof. by apply nz_send_ok. Qed.

Lemma nz_fetch_ok {T} `{Decodes T} method arg : ok (NZBGet.fetch (T := T) n method arg).
Proof. unfold NZBGet.fetch. apply sends_bind; [apply nz_call_ok|]. intros res. apply sends_lift. Qed.

Lemma nz_edit_ok id command : ok (NZBGet.edit n id command).
Proof. unfold NZBGet.edit. pose proof nz_call_ok. sends_tac. Qed.

Lemma nz_describe_ok id : ok (NZBGet.Describe n id).
Proof. unfold NZBGet.Describe. apply sends_bind; [apply sends_try, nz_fetch_ok|]. intros gs. sends_tac. apply nz_fetch_ok. Qed.

Lemma nz_add_ok sizes j : ok (NZBGet.Add sizes n j).
Proof.
  unfold NZBGet.Add. apply sends_bind; [|intros res; sends_tac].
  destruct (_ <? _)%Z; [|apply nz_call_ok]. by apply nz_send_ok.
Qed.

Lemma nz_remove_ok id : ok (NZBGet.Remove n id).
Proof. unfold NZBGet.Remove. pose proof nz_call_ok. sends_tac. Qed.

Lemma nz_probe_ok : ok (NZBGet.Probe n).
Proof. unfold NZBGet.Probe. pose proof nz_call_ok. sends_tac. Qed.

Lemma nz_adopt_ok : ok (NZBGet.Adopt n).
Proof. unfold NZBGet.Adopt. pose proof (λ m a, nz_fetch_ok (T := list NZBGet.nzbOwned) m a). sends_tac. Qed.

Lemma nz_report_ok : ok (NZBGet.ClientStatus_ n).
Proof.
  apply (sends_after _ (NZBGet.call n "status" []) (λ xs, match xs with
    | (Err e, w) => _
    | (Ok res, w) => _ end)); [apply nz_call_ok|]. intros [x|x] st; [|done]. by destruct (Unmarshal x).
Qed.
End nzbget.

(** *** oDownloader *)

Section odownloader.
Context (d : ODownloader.ODownloader) (Hb : ODownloader.od_BaseURL d = base) (Hc : ODownloader.od_HTTP d = c).

Lemma od_do_ok method path q p body :
  suffix_ok path q p →
  ok (ODownloader.do_ d method (path +:+ if bool_decide (q = EmptyString) then EmptyString else "?" +:+ q) body).
Proof. intros Hs. unfold ODownloader.do_. apply sends_request. intros _. rewrite Hb, Hc. by eapply stays_at. Qed.

Lemma od_path_ok method path body : fixed_path path = true → ok (ODownloader.do_ d method path body).
Proof.
  intros Hp. rewrite <- (append_empty path). apply (od_do_ok method path EmptyString path). apply fixed_path_ok; [done|constructor].
Qed.

Lemma od_describe_ok id : ok (ODownloader.Describe d id).
Proof.
  unfold ODownloader.Describe. apply sends_bind; [|intros resp; sends_tac]. rewrite describe_path_query.
  apply (od_do_ok "GET" "/api/v1/downloads" (Encode [("packageId", id); ("size", "1000")]) "/api/v1/downloads").
  apply fixed_path_ok; [vm_compute; reflexivity|apply Encode_plain].
Qed.

Lemma od_remove_ok id : ok (ODownloader.Remove d id).
Proof.
  unfold ODownloader.Remove. apply sends_bind; [|intros resp; sends_tac]. rewrite <- (append_empty (ODownloader.remove_path id)).
  by apply (od_do_ok "DELETE" (ODownloader.remove_path id) EmptyString ("/api/v1/packages/" +:+ id)), remove_path_ok.
Qed.

Lemma od_add_ok j : ok (ODownloader.Add d j).
Proof. unfold ODownloader.Add. pose proof (λ b, od_path_ok "POST" "/api/v1/links/add" b eq_refl). sends_tac. Qed.

Lemma od_probe_ok : ok (ODownloader.Probe d).
Proof.
  unfold ODownloader.Probe. apply sends_bind; [|intros resp; sends_tac].
  apply (od_do_ok "GET" "/api/v1/downloads" "size=1" "/api/v1/downloads").
  apply fixed_path_ok; [vm_compute; reflexivity|]. apply (Encode_plain [("size", "1")]).
Qed.
End odownloader.

(** *** qBittorrent *)

Section qbittorrent.
Context (q : QBittorrent.QBittorrent) (Hb : QBittorrent.qb_BaseURL q = base) (Hc : QBittorrent.qb_HTTP q = c).

Lemma qb_post_ok path body ct : fixed_path path = true → ok (QBittorrent.postBody q path body ct).
Proof.
  intros Hp. unfold QBittorrent.postBody. apply sends_request. intros _. rewrite Hb, Hc. apply (stays_path _ path _ _ path).
  apply fixed_path_ok; [done|constructor].
Qed.

Lemma qb_get_ok path query : fixed_path path = true → ok (QBittorrent.get q path query).
Proof.
  intros Hp. unfold QBittorrent.get. apply sends_request. intros _. rewrite Hb, Hc. destruct query as [|kv query].
  - rewrite append_empty. apply (stays_path _ path _ _ path). apply fixed_path_ok; [done|constructor].
  - apply (stays_query _ path _ _ _ path); [apply fixed_path_ok; [done|apply Encode_plain]|apply Encode_ne].
Qed.

Lemma qb_login_ok : ok (QBittorrent.login q).
Proof. unfold QBittorrent.login. apply sends_bind; [apply sends_try; by apply qb_post_ok|]. intros r. sends_tac. Qed.

Lemma qb_authed_ok fn : ok fn → ok (QBittorrent.authed q fn).
Proof.
  intros Hf. unfold QBittorrent.authed. pose proof qb_login_ok as Hl. apply sends_bind.
  - intros st. destruct (QBittorrent.hasSession q st); [apply sends_pure|apply Hl].
  - intros _. apply sends_bind; [done|]. intros resp. sends_tac.
Qed.

Lemma qb_add_ok tag order j : ok (QBittorrent.Add tag order q j).
Proof.
  unfold QBittorrent.Add. apply sends_bind; [|intros resp; sends_tac]. apply qb_authed_ok.
  destruct (_ <? _)%Z; [destruct (QBittorrent.torrentUpload _ _ _)|]; by apply qb_post_ok.
Qed.

Lemma qb_by_tag_ok tag : ok (QBittorrent.byTag q tag).
Proof. unfold QBittorrent.byTag. apply sends_bind; [by apply qb_authed_ok, qb_get_ok|]. intros resp. sends_tac. Qed.

Lemma qb_describe_ok tag : ok (QBittorrent.Describe q tag).
Proof. unfold QBittorrent.Describe. apply sends_bind; [apply qb_by_tag_ok|]. intros t. sends_tac. Qed.

Lemma qb_remove_ok tag : ok (QBittorrent.Remove q tag).
Proof.
  unfold QBittorrent.Remove. apply sends_bind; [apply qb_by_tag_ok|]. intros [t|]; [|apply sends_ret].
  apply sends_bind; [by apply qb_authed_ok, qb_post_ok|]. intros resp. sends_tac.
Qed.

Lemma qb_control_ok tag verbs :
  Forall (λ verb, fixed_path ("/api/v2/torrents/" +:+ verb) = true) verbs → ok (QBittorrent.control q tag verbs).
Proof.
  intros Hv. unfold QBittorrent.control. apply sends_bind; [apply qb_by_tag_ok|]. intros [t|]; [|apply sends_fail].
  generalize (@None error). induction Hv as [|verb verbs Hverb _ IH]; intros last; cbn [QBittorrent.try_verbs]; [destruct last; sends_tac|].
  apply sends_bind; [by apply sends_try, qb_authed_ok, qb_post_ok|]. intros [resp|e]; [|apply IH].
  destruct (QBittorrent.is_2xx resp); [apply sends_ret|apply IH].
Qed.

Lemma qb_probe_ok : ok (QBittorrent.Probe q).
Proof. unfold QBittorrent.Probe. apply sends_bind; [by apply qb_authed_ok, qb_get_ok|]. intros resp. sends_tac. Qed.

Lemma qb_adopt_ok : ok (QBittorrent.Adopt q).
Proof. unfold QBittorrent.Adopt. apply sends_bind; [by apply qb_authed_ok, qb_get_ok|]. intros resp. sends_tac. Qed.

Lemma qb_report_ok : ok (QBittorrent.ClientStatus_ q).
Proof.
  intros st. destruct (qb_authed_ok _ (qb_get_ok "/api/v2/transfer/info" [] eq_refl) st) as (new & Hn & Hall). exists new.
  unfold QBittorrent.ClientStatus_. destruct (QBittorrent.authed q _ st) as [[resp|e] st']; [|done]. cbn in Hn.
  destruct (negb _); [done|]. by destruct (decodeCapped _ _).
Qed.
End qbittorrent.
End stays.

(** ** Properties *)

Section properties.
Context {W : Type} `{HttpWorld W} `{Process W} `{Quote} `{QBittorrent.Multipart}.
Context `{Decodes NZBGet.rpc_reply} `{Decodes Z} `{Decodes string} `{Decodes (list NZBGet.nzbGroup)}
  `{Decodes (list NZBGet.nzbHistory)} `{Decodes (list NZBGet.nzbOwned)} `{Decodes NZBGet.nzbStatus}
  `{Decodes ODownloader.odlAddResult} `{Decodes ODownloader.odlPage}
  `{Decodes (list QBittorrent.qbTorrent)} `{Decodes QBittorrent.qbInfo}.

(** The world after an operation that answers. *)
Lemma sends_operate (P : HttpClient * Request → Prop) {X} (m : logged W → X * logged W) st :
  sends P m → st.2 = [] → Forall P ((m st).2.2).
Proof. intros Hm Hst. destruct (Hm st) as (new & Hn & Hall). by rewrite Hn, Hst. Qed.

Lemma operate_stays base v b c o (w : W) :
  base_url base v →
  match b with
  | BNzbget n => NZBGet.nz_BaseURL n = base ∧ NZBGet.nz_HTTP n = c
  | BOdownloader d => ODownloader.od_BaseURL d = base ∧ ODownloader.od_HTTP d = c
  | BQbittorrent q => QBittorrent.qb_BaseURL q = base ∧ QBittorrent.qb_HTTP q = c
  | BJdownloader _ => False
  end →
  Forall (stays v c) (operate b o ((w, []) : logged W)).2.
Proof.
  intros Hbase. destruct b as [n|d|q|j]; intros Hbc; try destruct Hbc as [Hb Hc].
  - destruct o; cbn [operate]; try (by constructor).
    + apply (sends_operate _ (NZBGet.Add (buffer_sizes ((w, []) : logged W)) n j)); [by eapply nz_add_ok|done].
    + apply (sends_operate _ (NZBGet.Status_ n id)); [|done]. apply sends_bind; [by eapply nz_describe_ok|]. intros ?. apply sends_ret.
    + apply (sends_operate _ (NZBGet.Describe n id)); [by eapply nz_describe_ok|done].
    + apply (sends_operate _ (NZBGet.Remove n id)); [by eapply nz_remove_ok|done].
    + apply (sends_operate _ (NZBGet.Pause n id)); [by eapply nz_edit_ok|done].
    + apply (sends_operate _ (NZBGet.Resume n id)); [by eapply nz_edit_ok|done].
    + apply (sends_operate _ (NZBGet.ClientStatus_ n)); [by eapply nz_report_ok|done].
    + apply (sends_operate _ (NZBGet.Adopt n)); [by eapply nz_adopt_ok|done].
    + apply (sends_operate _ (NZBGet.Probe n)); [by eapply nz_probe_ok|done].
  - destruct o; cbn [operate]; try (by constructor).
    + apply (sends_operate _ (ODownloader.Add d j)); [by eapply od_add_ok|done].
    + apply (sends_operate _ (ODownloader.Status_ d id)); [|done]. apply sends_bind; [by eapply od_describe_ok|]. intros ?. apply sends_ret.
    + apply (sends_operate _ (ODownloader.Describe d id)); [by eapply od_describe_ok|done].
    + apply (sends_operate _ (ODownloader.Remove d id)); [by eapply od_remove_ok|done].
    + apply (sends_operate _ (ODownloader.Probe d)); [by eapply od_probe_ok|done].
  - destruct o; cbn [operate]; try (by constructor).
    + cbn [Interfaces.Add backend_ops backend_Add draw_job_tag logged_process fst snd]. destruct (draw_job_tag w) as [tag w'].
      apply (sends_operate _ (QBittorrent.Add tag (form_order w) q j)); [by eapply qb_add_ok|done].
    + apply (sends_operate _ (QBittorrent.Status_ q id)); [|done]. apply sends_bind; [by eapply qb_describe_ok|]. intros ?. apply sends_ret.
    + apply (sends_operate _ (QBittorrent.Describe q id)); [by eapply qb_describe_ok|done].
    + apply (sends_operate _ (QBittorrent.Remove q id)); [by eapply qb_remove_ok|done].
    + apply (sends_operate _ (QBittorrent.Pause q id)); [|done]. eapply qb_control_ok; [done..|]. by repeat constructor.
    + apply (sends_operate _ (QBittorrent.Resume q id)); [|done]. eapply qb_control_ok; [done..|]. by repeat constructor.
    + apply (sends_operate _ (QBittorrent.ClientStatus_ q)); [by eapply qb_report_ok|done].
    + apply (sends_operate _ (QBittorrent.Adopt q)); [by eapply qb_adopt_ok|done].
    + apply (sends_operate _ (QBittorrent.Probe q)); [by eapply qb_probe_ok|done].
  - destruct Hbc.
Qed.

(** What an adapter built from accepted settings sends. *)
Lemma built_stays raw s ptr :
  PrepareSpec raw = Ok s →
  ∃ v, Parse (spec_BaseURL s) = Some v ∧
  ∀ o (w : W),
    Forall (λ cr : HttpClient * Request,
      (hc_Transport cr.1 = pushedTransport ∧ hc_CheckRedirect cr.1 = SameOriginRedirect) ∧
      ∃ u p, Parse (rq_URL cr.2) = Some u ∧ Scheme u = Scheme v ∧ Host u = Host v ∧ User u = None ∧ Path u = Path v +:+ p)
      (operate (Backends.buildClient ptr s) o ((w, []) : logged W)).2.
Proof.
  intros (ti & Hv)%PrepareSpec_valid_aux. pose proof (vs_url _ _ Hv) as Hurl.
  destruct (valid_base _ Hurl) as (v & Hbase & _ & Huser). exists v. split; [apply Hbase|]. intros o w.
  assert (Htrim : TrimRightByte (spec_BaseURL s) "/" = spec_BaseURL s) by (apply check_url_ok in Hurl; naive_solver).
  assert (Hmono : ∀ c l, hc_Transport c = pushedTransport ∧ hc_CheckRedirect c = SameOriginRedirect → Forall (stays v c) l →
    Forall (λ cr : HttpClient * Request,
      (hc_Transport cr.1 = pushedTransport ∧ hc_CheckRedirect cr.1 = SameOriginRedirect) ∧
      ∃ u p, Parse (rq_URL cr.2) = Some u ∧ Scheme u = Scheme v ∧ Host u = Host v ∧ User u = None ∧ Path u = Path v +:+ p) l).
  { intros c l Hg Hl. eapply Forall_impl; [exact Hl|]. intros cr (-> & u & p & Hu & Hs & Hh & Hus & Hpa). split; [done|].
    exists u, p. by rewrite Hus. }
  unfold Backends.buildClient. destruct (bool_decide (spec_Type s = "nzbget")); [|destruct (bool_decide (spec_Type s = "odownloader"))].
  - eapply Hmono; [|by eapply operate_stays; [|split; [exact Htrim|reflexivity]]]. done.
  - eapply Hmono; [|by eapply operate_stays; [|split; reflexivity]]. done.
  - eapply Hmono; [|by eapply operate_stays; [|split; [exact Htrim|reflexivity]]]. done.
Qed.

(** C28: a pushed client is under the endpoint policy, and its adapter talks to that client only.  In
    every registry the operations reach, the adapter of an API client is the one its type names;
    whatever operation it is asked for, with whatever job, id, source or payload, and whatever it is
    answered, every request it sends goes to the scheme and host of the base URL that was accepted,
    under its path, carries no user information in its URL, and goes over the transport that checks
    each address it dials, following redirects only within the client's origin. *)
Theorem requests_stay (r : Registry Backends.backend) id e :
  reg_reachable r → r_clients r !! id = Some e → e_source e = SourceAPI →
  Backends.guarded (e_adapter e) ∧ Backends.backend_Name (e_adapter e) = spec_Type (e_spec e) ∧
  ∃ v, Parse (spec_BaseURL (e_spec e)) = Some v ∧
  ∀ o (w : W),
    Forall (λ cr : HttpClient * Request,
      (hc_Transport cr.1 = pushedTransport ∧ hc_CheckRedirect cr.1 = SameOriginRedirect) ∧
      ∃ u p, Parse (rq_URL cr.2) = Some u ∧ Scheme u = Scheme v ∧ Host u = Host v ∧ User u = None ∧ Path u = Path v +:+ p)
      (operate (e_adapter e) o ((w, []) : logged W)).2.
Proof.
  intros Hr He Hs. destruct (Backends.pushed_clients_built r id e Hr He Hs) as (raw & spec & k & Hp & Hsp & Ha). rewrite Ha, Hsp.
  split_and!; [apply Backends.buildClient_guarded| |exact (built_stays raw spec k Hp)].
  destruct (PrepareSpec_valid_aux _ _ Hp) as [ti Hv]. by apply (Backends.buildClient_type k spec ti), Hv.
Qed.
End properties.

(** ** qBittorrent's session *)

Section session.
Context {W : Type} `{HttpWorld W}.

(** The request [login] makes. *)
Definition login_request (q : QBittorrent.QBittorrent) : HttpClient * Request :=
  let body := Encode [("username", QBittorrent.qb_Username q); ("password", QBittorrent.qb_Password q)] in
  (QBittorrent.qb_HTTP q,
   MkRequest "POST" (QBittorrent.qb_BaseURL q +:+ "/api/v2/auth/login")
     [("Content-Type", "application/x-www-form-urlencoded"); ("Referer", QBittorrent.qb_BaseURL q)] body (len body)).

(** How a login that was answered so failed; [None] when it succeeded. *)
Definition login_error (answer : result error Response) : option error :=
  match answer with
  | Err e => Some (WrapError "qbittorrent login" e)
  | Ok resp =>
      if decide (200 ≤ rs_StatusCode resp < 300)%Z then None
      else Some (newStatusError "qbittorrent login failed" (rs_StatusCode resp) (b_data (rs_Body resp)))
  end.

Lemma login_logs q (st : logged W) :
  is_Some (Parse (QBittorrent.qb_BaseURL q +:+ "/api/v2/auth/login")) →
  QBittorrent.login q st =
    let (answer, w) := Do (login_request q).1 (login_request q).2 st.1 in
    (match login_error answer with None => Ok tt | Some e => Err e end, (w, st.2 ++ [login_request q])).
Proof.
  intros [u Hu]. unfold QBittorrent.login, QBittorrent.post, QBittorrent.postBody, send_request, NewRequest, mbind_, mtry.
  rewrite Hu. cbn [Do logged_world login_request fst snd].
  destruct (Do (QBittorrent.qb_HTTP q) _ st.1) as [[resp|e] w]; [|done]. cbn [login_error].
  unfold QBittorrent.is_2xx. destruct (Z.leb_spec 200 (rs_StatusCode resp)), (Z.ltb_spec (rs_StatusCode resp) 300);
    cbn [andb]; case_decide; done || lia.
Qed.

(** The request itself and what follows, once the session is settled. *)
Lemma authed_after q c req (w0 : W) first r w' log :
  is_Some (Parse (QBittorrent.qb_BaseURL q +:+ "/api/v2/auth/login")) →
  mbind_ (Do c req) (λ resp, if (rs_StatusCode resp =? StatusForbidden)%Z
    then mbind_ (QBittorrent.login q) (λ _, Do c req) else mret_ resp) ((w0, first) : logged W) = (r, (w', log)) →
  let login := login_request q in
  ∀ answer w1, Do c req w0 = (answer, w1) →
  match answer with
  | Err e => (r, w', log) = (Err e, w1, first ++ [(c, req)])
  | Ok resp =>
      (rs_StatusCode resp ≠ 403%Z → (r, w', log) = (Ok resp, w1, first ++ [(c, req)])) ∧
      (rs_StatusCode resp = 403%Z → ∀ again w2, Do login.1 login.2 w1 = (again, w2) →
         match login_error again with
         | Some e => (r, w', log) = (Err e, w2, first ++ [(c, req); login])
         | None => ∀ last w3, Do c req w2 = (last, w3) → (r, w', log) = (last, w3, first ++ [(c, req); login; (c, req)])
         end)
  end.
Proof.
  intros Hparse Hrun login answer w1 Hdo. unfold mbind_ in Hrun. cbn [Do logged_world fst snd] in Hrun. rewrite Hdo in Hrun.
  destruct answer as [resp|e]; [|by injection Hrun as <- <- <-]. unfold StatusForbidden in Hrun. split; intros Hs.
  - rewrite (proj2 (Z.eqb_neq _ _) Hs) in Hrun. by injection Hrun as <- <- <-.
  - intros again w2 Hagain. rewrite (proj2 (Z.eqb_eq _ _) Hs), login_logs in Hrun by done. cbn [fst snd] in Hrun. fold login in Hrun.
    rewrite Hagain in Hrun. destruct (login_error again) as [e|].
    + injection Hrun as <- <- <-. by rewrite <- app_assoc.
    + intros last w3 Hlast. cbn [Do logged_world fst snd] in Hrun. rewrite Hlast in Hrun. injection Hrun as <- <- <-.
      by rewrite <- !app_assoc.
Qed.

Lemma hasSession_spec q (w : W) :
  QBittorrent.hasSession q w = true ↔
  hc_Jar (QBittorrent.qb_HTTP q) = true ∧ ∃ u sid, Parse (QBittorrent.qb_BaseURL q) = Some u ∧
    ("SID", sid) ∈ Cookies (QBittorrent.qb_HTTP q) u w ∧ sid ≠ EmptyString.
Proof.
  unfold QBittorrent.hasSession. destruct (Parse _) as [u|]; [|naive_solver].
  rewrite andb_true_iff, existsb_exists. setoid_rewrite <- list_elem_of_In. split.
  - intros [Hj ([n sid] & Hin & Hc)]. cbn [fst snd] in Hc.
    apply andb_true_iff in Hc as [->%bool_decide_eq_true Hne%negb_true_iff%bool_decide_eq_false]. split; [done|]. by exists u, sid.
  - intros [Hj (u' & sid & [= <-] & Hin & Hne)]. split; [done|]. exists ("SID", sid). split; [done|]. cbn [fst snd].
    apply andb_true_iff. split; [by apply bool_decide_eq_true|]. by apply negb_true_iff, bool_decide_eq_false.
Qed.

(** C31: a session is renewed at most once, and every branch of a call with it.  A client holds a
    session when its cookie jar has a non-empty SID for the base URL.  Without one the call logs in
    first; a login that fails, by an error or by any status but 2xx, is the error of the call and
    nothing more is sent.  Then the request is sent.  An error of it, and any answer but 403, is
    handed on and nothing more is sent.  After a 403 the call logs in, again or for the first time; a
    failure of that login is the error of the call and nothing more is sent; otherwise the request
    is repeated and whatever comes back is handed on.  The log lists the requests, in their order. *)
Theorem authed_requests q c req (w : W) r w' log :
  is_Some (Parse (QBittorrent.qb_BaseURL q +:+ "/api/v2/auth/login")) →
  QBittorrent.authed q (Do c req) ((w, []) : logged W) = (r, (w', log)) →
  let login := login_request q in
  (QBittorrent.hasSession q w = true ↔
   hc_Jar (QBittorrent.qb_HTTP q) = true ∧ ∃ u sid, Parse (QBittorrent.qb_BaseURL q) = Some u ∧
     ("SID", sid) ∈ Cookies (QBittorrent.qb_HTTP q) u w ∧ sid ≠ EmptyString) ∧
  (∀ answer w0 e, QBittorrent.hasSession q w = false → Do login.1 login.2 w = (answer, w0) → login_error answer = Some e →
    (r, w', log) = (Err e, w0, [login])) ∧
  (∀ w0 first,
    (QBittorrent.hasSession q w = true ∧ w0 = w ∧ first = []) ∨
    (QBittorrent.hasSession q w = false ∧ (∃ answer, Do login.1 login.2 w = (answer, w0) ∧ login_error answer = None) ∧
     first = [login]) →
    ∀ answer w1, Do c req w0 = (answer, w1) →
    match answer with
    | Err e => (r, w', log) = (Err e, w1, first ++ [(c, req)])
    | Ok resp =>
        (rs_StatusCode resp ≠ 403%Z → (r, w', log) = (Ok resp, w1, first ++ [(c, req)])) ∧
        (rs_StatusCode resp = 403%Z → ∀ again w2, Do login.1 login.2 w1 = (again, w2) →
           match login_error again with
           | Some e => (r, w', log) = (Err e, w2, first ++ [(c, req); login])
           | None => ∀ last w3, Do c req w2 = (last, w3) → (r, w', log) = (last, w3, first ++ [(c, req); login; (c, req)])
           end)
    end).
Proof.
  intros Hparse Hrun login. split; [apply hasSession_spec|].
  assert (Hsess : QBittorrent.hasSession q ((w, []) : logged W) = QBittorrent.hasSession q w) by done.
  unfold QBittorrent.authed in Hrun. unfold mbind_ at 1 in Hrun. rewrite Hsess in Hrun. split.
  - intros answer w0 e Hno Hdo He. rewrite Hno, login_logs in Hrun by done. cbn [fst snd app] in Hrun. fold login in Hrun.
    rewrite Hdo, He in Hrun. by injection Hrun as <- <- <-.
  - intros w0 first [(Hs & -> & ->)|(Hs & (answer & Hdo & He) & ->)]; rewrite Hs in Hrun.
    + by apply authed_after.
    + rewrite login_logs in Hrun by done. cbn [fst snd app] in Hrun. fold login in Hrun. rewrite Hdo, He in Hrun.
      by apply authed_after.
Qed.
End session.

(** ** Witnesses *)

Section witnesses.
#[local] Existing Instance Backends.demo_backend_quote.
#[local] Existing Instance Backends.demo_dead.
#[local] Existing Instance Backends.demo_decodes.
#[local] Existing Instance Backends.demo_process.
#[local] Existing Instance Backends.demo_multipart.

Definition demo_odl_raw : ClientSpec :=
  MkClientSpec "odl" "odownloader" "http://o:8080/x" AuthNone EmptyString EmptyString EmptyString EmptyString [].

Definition demo_log (id : string) : list string :=
  (λ cr : HttpClient * Request, rq_URL cr.2) <$>
    (operate (Backends.buildClient 0 demo_odl_raw) (OpRemove id) ((0%nat, []) : logged nat)).2.

Definition demo_odl_reg : Registry Backends.backend := (Apply 1 [demo_odl_raw] (λ _, false) (NewRegistry [])).1.

(** A job id that tries to leave the client's host and path. *)
Lemma requests_stay_witness :
  demo_log "../..?@evil/#" = ["http://o:8080/x/api/v1/packages/..%2F..%3F@evil%2F%23"] ∧
  ∃ u, Parse "http://o:8080/x/api/v1/packages/..%2F..%3F@evil%2F%23" = Some u ∧ Host u = "o:8080".
Proof.
  split; [vm_compute; reflexivity|].
  assert (He : ∃ e, r_clients demo_odl_reg !! "odl" = Some e ∧ e_source e = SourceAPI ∧ spec_BaseURL (e_spec e) = "http://o:8080/x" ∧
    e_adapter e = Backends.buildClient 0 demo_odl_raw).
  { eexists. split_and!; vm_compute; reflexivity. }
  destruct He as (e & He & Hs & Hb & Ha).
  destruct (requests_stay (W := nat) demo_odl_reg "odl" e) as (_ & _ & v & Hv & Hall); [|exact He|exact Hs|].
  { apply rr_apply; [apply rr_new|]. unfold sweep_order. reflexivity. }
  rewrite Hb in Hv. rewrite Ha in Hall.
  specialize (Hall (OpRemove "../..?@evil/#") 0%nat). apply Forall_inv in Hall as (_ & u & p & Hu & _ & Hh & _).
  assert (Hhost : Host v = "o:8080") by (vm_compute in Hv; injection Hv as <-; reflexivity).
  exists u. split; [|by rewrite Hh]. vm_compute in Hu |- *. exact Hu.
Defined.

(** A client that answers 403 to everything but logins, of which it accepts the first [w]. *)
#[local] Instance demo_forbids : HttpWorld nat := {|
  Do := λ _ req w,
    if bool_decide (rq_URL req = "http://qb:8080/api/v2/auth/login")
    then (Ok (MkResponse (if (0 <? w)%nat then 200 else 403) (MkBody EmptyString None)), pred w)
    else (Ok (MkResponse 403 (MkBody EmptyString None)), w);
  Cookies := λ _ _ _, [];
  parse_cause := λ _, ErrorString "parse"
|}.

Definition demo_call : Request := MkRequest "GET" "http://qb:8080/x" [] EmptyString 0.

(** With both logins accepted the request is sent twice; when the second is refused, once; when the
    first is, never. *)
Lemma authed_requests_witness :
  let run n := QBittorrent.authed QBittorrent.demo_qb (Do (QBittorrent.qb_HTTP QBittorrent.demo_qb) demo_call) ((n, []) : logged nat) in
  let sent n := (rq_Method ∘ snd) <$> (run n).2.2 in
  sent 2%nat = ["POST"; "GET"; "POST"; "GET"] ∧ sent 1%nat = ["POST"; "GET"; "POST"] ∧ sent 0%nat = ["POST"].
Proof.
  intros run sent.
  assert (Hp : is_Some (Parse (QBittorrent.qb_BaseURL QBittorrent.demo_qb +:+ "/api/v2/auth/login"))) by (vm_compute; by eexists).
  assert (Hs : ∀ n : nat, QBittorrent.hasSession QBittorrent.demo_qb n = false) by (intros n; vm_compute; reflexivity).
  assert (Hrun : ∀ n, let '(r, (w', log)) := run n in
    QBittorrent.authed QBittorrent.demo_qb (Do (QBittorrent.qb_HTTP QBittorrent.demo_qb) demo_call) ((n, []) : logged nat) = (r, (w', log)))
    by (intros n; unfold run; by destruct (QBittorrent.authed _ _ _) as [r [w' log]]).
  assert (Hsent : ∀ n, sent n = (rq_Method ∘ snd) <$> (run n).2.2) by done.
  split_and!; rewrite Hsent; match goal with |- context [run ?n] => specialize (Hrun n); destruct (run n) as [r [w' log]] eqn:E; clear E end;
    destruct (authed_requests _ _ _ _ _ _ _ Hp Hrun) as (_ & Hfail & Hok).
  - destruct (Hok 1%nat [login_request QBittorrent.demo_qb]) with (answer := Ok (MkResponse 403 (MkBody EmptyString None)) : result error Response) (w1 := 1%nat)
      as [_ Hforbidden]; [right; split_and!; [apply Hs|eexists; split; vm_compute; reflexivity|done]|reflexivity|].
    specialize (Hforbidden eq_refl (Ok (MkResponse 200 (MkBody EmptyString None))) 0%nat ltac:(vm_compute; reflexivity)). cbn [login_error] in Hforbidden.
    rewrite decide_True in Hforbidden by (cbn; lia).
    specialize (Hforbidden (Ok (MkResponse 403 (MkBody EmptyString None))) 0%nat ltac:(reflexivity)). injection Hforbidden as _ _ ->. reflexivity.
  - destruct (Hok 0%nat [login_request QBittorrent.demo_qb]) with (answer := Ok (MkResponse 403 (MkBody EmptyString None)) : result error Response) (w1 := 0%nat)
      as [_ Hforbidden]; [right; split_and!; [apply Hs|eexists; split; vm_compute; reflexivity|done]|reflexivity|].
    specialize (Hforbidden eq_refl (Ok (MkResponse 403 (MkBody EmptyString None))) 0%nat ltac:(vm_compute; reflexivity)). cbn [login_error] in Hforbidden.
    rewrite decide_False in Hforbidden by (cbn; lia). injection Hforbidden as _ _ ->. reflexivity.
  - specialize (Hfail (Ok (MkResponse 403 (MkBody EmptyString None))) 0%nat
      (newStatusError "qbittorrent login failed" 403 EmptyString) (Hs 0%nat) ltac:(vm_compute; reflexivity)).
    specialize (Hfail ltac:(vm_compute; reflexivity)). injection Hfail as _ _ ->. reflexivity.
Defined.
End witnesses.
