(* ===== verification/Gateway.v ===== *)
(** * cmd/server/main.go and config.go: the gateway's HTTP handlers

    The gateway's state (registry, job table, budget of large adds, the stopping flag), the budget's
    admission, adoption, and every handler, from the decoded request to the reply.  A handler
    returns the state, the reply, the events it published and the world after the calls it made to
    its clients.  Here a handler runs alone; System.v has the interleavings of the critical sections
    it is made of.

    A decoded request, or the way decoding failed, is an argument here, and so are the path
    parameters chi hands over: ApiRequests.v reads requests from the bytes of a body, and ApiReplies.v
    writes replies as bytes. *)

From S2P Require Import Prelude GoStrings Json Adapters Responses Clients Registry RegistrySpec Events Interfaces GoFloat Jobs Auth Backends.
From Stdlib Require Import SpecFloat.

(** ** State *)

Record gateway (A : Type) := MkGateway {
  gw_reg : Registry A;
  gw_jobs : job_table;
  gw_stopping : bool;
  gw_bodyInFlight : Z
}.
Arguments MkGateway {A} _ _ _ _.
Arguments gw_reg {A} _.
Arguments gw_jobs {A} _.
Arguments gw_stopping {A} _.
Arguments gw_bodyInFlight {A} _.

Definition newGateway {A} (reg : Registry A) : gateway A := MkGateway reg ∅ false 0.

Definition with_reg {A} (r : Registry A) (g : gateway A) : gateway A :=
  MkGateway r (gw_jobs g) (gw_stopping g) (gw_bodyInFlight g).
Definition with_table {A} (j : job_table) (g : gateway A) : gateway A :=
  MkGateway (gw_reg g) j (gw_stopping g) (gw_bodyInFlight g).
Definition with_inflight {A} (n : Z) (g : gateway A) : gateway A :=
  MkGateway (gw_reg g) (gw_jobs g) (gw_stopping g) n.

(** ** Admission of large adds *)

Definition maxPayload : Z := Z.shiftl 50 20.
Definition maxAddBody : Z := ((maxPayload + 2) / 3 * 4 + Z.shiftl 4 20)%Z.
Definition addBodyBudget : Z := (2 * maxAddBody)%Z.
Definition smallAddBody : Z := Z.shiftl 1 20.
Definition maxConfigBody : Z := Z.shiftl 1 20.

(** [admitAdd(n)]: [None] refuses; otherwise the room reserved, which the release gives back once,
    and the budget in use.  A small body reserves none. *)
Definition admitAdd (n inFlight : Z) : option (Z * Z) :=
  if (0 <=? n)%Z && (n <=? smallAddBody)%Z then Some (0, inFlight)%Z
  else
    let n := if (n <? 0)%Z || (maxAddBody <? n)%Z then maxAddBody else n in
    if (addBodyBudget <? inFlight + n)%Z then None else Some (n, inFlight + n)%Z.

Definition admitRelease (n inFlight : Z) : Z := (inFlight - n)%Z.

(** The adds in flight, with the room each holds: they are admitted and released in any order, and
    each release runs once. *)
Inductive admissions : list Z → Z → Prop :=
  | adm_none : admissions [] 0
  | adm_admit held f n m f' : admissions held f → admitAdd n f = Some (m, f') → admissions (m :: held) f'
  | adm_release held held' f m : admissions held f → held ≡ₚ m :: held' → admissions held' (admitRelease m f).

Definition room (held : list Z) : Z := foldr Z.add 0%Z held.

(** ** Requests and replies *)

(** The ways [decodeJSON] fails. *)
Inductive decode_error := TooLarge | CorruptBase64 | InvalidJSON.

Record addRequest := MkAddRequest {
  ar_Adapter : string;
  ar_Client : string;
  ar_Source : string;
  ar_Title : string;
  ar_SavePath : string;
  ar_WantedItemID : string;
  ar_Payload : string;
  ar_PayloadName : string;
  ar_Category : string
}.

Record jobDTO := MkJobDTO {
  jd_Adapter : string;
  jd_ClientJobID : string;
  jd_WantedItemID : string;
  jd_Title : string;
  jd_State : string;
  jd_NativeState : string;
  jd_ProgressPct : spec_float;
  jd_Downloaded : Z;
  jd_SizeBytes : option Z;
  jd_SpeedBps : Z;
  jd_EtaSec : option Z;
  jd_Seeders : option Z;
  jd_Leechers : option Z;
  jd_Health : option Z
}.

Record configPush := MkConfigPush {
  cp_Revision : option Z;
  cp_Clients : option (list ClientSpec)
}.

Record configTestResponse := MkConfigTestResponse {
  ct_Reachable : bool;
  ct_Version : string;
  ct_Error : string;
  ct_Status : ClientStatus
}.

(** What [writeJSON] is given. *)
Inductive body :=
  | BEmpty
  | BError (msg : string)
  | BMap (fields : list (string * string))
  | BNames (names : list string)
  | BJobs (jobs : list jobDTO)
  | BDescribe (job : jobDTO) (files : list string) (message : string)
  | BStatuses (l : list ClientStatus)
  | BTypes (l : list TypeInfo)
  | BConfig (revision : Z) (clients : list ClientInfo)
  | BApplied (revision : Z) (applied : list string) (errors : list ApplyError)
  | BTest (r : configTestResponse).

Record reply := MkReply { re_code : Z; re_body : body }.

Definition write_error (code : Z) (msg : string) : reply := MkReply code (BError msg).

(** The reply [decodeJSON] writes itself. *)
Definition decode_reply (limit : Z) (e : decode_error) : reply :=
  match e with
  | TooLarge => write_error 413 ("request body exceeds " +:+ Itoa (Z.shiftr limit 20) +:+ " MiB")
  | CorruptBase64 => write_error 400 "payload_b64 is not valid base64"
  | InvalidJSON => write_error 400 "invalid JSON body"
  end.

Definition job_dto (adapter id wanted title : string) (state : Status) (v : JobView) : jobDTO :=
  MkJobDTO adapter id wanted title (Status_string state) (v_NativeState v) (pct (v_BytesDone v) (v_BytesTotal v))
    (v_BytesDone v) (optInt64 (v_BytesTotal v)) (v_SpeedBps v) (optInt32 (v_EtaSec v))
    (optCount (v_Seeders v)) (optCount (v_Leechers v)) (optCount (v_Health v)).

Section handlers.
Context {A W : Type} `{ClientFactory A} `{AdapterOps A W} `{Quote}.

(** The result of a handler. *)
Abbreviation handled := (gateway A * reply * list Event * W)%type.

(** ** Adds *)

Definition started_event (c : Client A) (id jobID : string) (req : addRequest) : Event :=
  EvStarted (MkStarted jobID id (c_Type c) (ar_WantedItemID req) (ar_Title req) None 0).

Definition new_tracked (adapter clientType jobID title wanted : string) : tracked :=
  MkTracked adapter clientType jobID title wanted StatusQueued NewJobView 0 None None.

(** The client id of a request; [client] and [adapter] are aliases. *)
Definition add_id (req : addRequest) : string :=
  if bool_decide (ar_Client req = EmptyString) then ar_Adapter req else ar_Client req.

(** What the client's adapter is asked to add, with the client's own save path and category where the
    request names none. *)
Definition add_job (c : Client A) (req : addRequest) : Job :=
  let savePath := if bool_decide (ar_SavePath req = EmptyString) then c_SavePath c else ar_SavePath req in
  let category := if bool_decide (ar_Category req = EmptyString) then c_Category c else ar_Category req in
  MkJob (ar_WantedItemID req) (ar_Source req) savePath (ar_Title req) category (ar_Payload req) (ar_PayloadName req).

Definition err_no_payload (typ : string) : reply :=
  write_error 400 (typ +:+ " does not accept a payload; send a source link").

(** The part of [handleAdd] that holds the lease. *)
Definition add_leased (id : string) (c : Client A) (req : addRequest) (g : gateway A) (w : W) : handled :=
  let refuses_payload :=
    match LookupType (c_Type c) with
    | Some ti => (0 <? len (ar_Payload req))%Z && negb (ti_AcceptsPayload ti)
    | None => false
    end in
  if refuses_payload then (g, err_no_payload (c_Type c), [], w)
  else
    match Add (c_Adapter c) (add_job c req) w with
    | (Err ErrPayloadUnsupported, w) => (g, err_no_payload (c_Type c), [], w)
    | (Err e, w) => (g, write_error 502 (PublicError (Some e)), [], w)
    | (Ok jobID, w) =>
        (with_table (track (new_tracked id (c_Type c) jobID (ar_Title req) (ar_WantedItemID req)) (gw_jobs g)) g,
         MkReply 202 (BMap [("adapter", id); ("client", id); ("client_job_id", jobID)]),
         [started_event c id jobID req], w)
    end.

(** The part of [handleAdd] after admission, its lease released at the end. *)
Definition add_admitted (decoded : result decode_error addRequest) (g : gateway A) (w : W) : handled :=
  match decoded with
  | Err e => (g, decode_reply maxAddBody e, [], w)
  | Ok req =>
      let id := add_id req in
      if negb (bool_decide (ar_Client req = EmptyString)) && negb (bool_decide (ar_Adapter req = EmptyString)) &&
         negb (bool_decide (ar_Client req = ar_Adapter req))
      then (g, write_error 400 "client and adapter name different clients", [], w)
      else if bool_decide (id = EmptyString) ||
              (bool_decide (ar_Source req = EmptyString) && (len (ar_Payload req) =? 0)%Z)
      then (g, write_error 400 "client (or adapter) and source or payload_b64 are required", [], w)
      else
        match Lease id (gw_reg g) with
        | Err ErrUnknownClient => (g, write_error 404 ("no such client: " +:+ id), [], w)
        | Err ErrClientDraining =>
            (g, write_error 409 ("client " +:+ id +:+ " was removed and accepts no new downloads"), [], w)
        | Ok (c, r) =>
            let '(g, rep, evs, w) := add_leased id c req (with_reg r g) w in
            (with_reg (release id (gw_reg g)) g, rep, evs, w)
        end
  end.

(** [handleAdd], from the declared length of the body ([-1] when unknown). *)
Definition handleAdd (contentLength : Z) (decoded : result decode_error addRequest) (g : gateway A) (w : W) : handled :=
  match admitAdd contentLength (gw_bodyInFlight g) with
  | None => (g, write_error 429 "too many large adds in progress; retry shortly", [], w)
  | Some (n, inFlight) =>
      let '(g, rep, evs, w) := add_admitted decoded (with_inflight inFlight g) w in
      (with_inflight (admitRelease n (gw_bodyInFlight g)) g, rep, evs, w)
  end.

(** ** The other download handlers *)

Definition handleRemove (name id : string) (g : gateway A) (w : W) : handled :=
  match Get name (gw_reg g) with
  | None => (g, write_error 404 "no such client", [], w)
  | Some ad =>
      match Remove ad id w with
      | (Err e, w) => (g, write_error 502 (PublicError (Some e)), [], w)
      | (Ok _, w) => (with_table (untrack name id (gw_jobs g)) g, MkReply 204 BEmpty, [], w)
      end
  end.

(** [handleList], the table in the order Go visits it. *)
Definition handleList (order : list tracked) : reply :=
  MkReply 200 (BJobs ((λ t, job_dto (t_adapter t) (t_clientJobID t) (t_wantedItemID t) (titleOf t (t_view t))
                              (t_last t) (t_view t)) <$> order)).

Definition handleDescribe (name id : string) (g : gateway A) (w : W) : reply * W :=
  match Get name (gw_reg g) with
  | None => (write_error 404 "no such client", w)
  | Some ad =>
      match Describe ad id w with
      | (Err e, w) => (write_error 502 (PublicError (Some e)), w)
      | (Ok v, w) =>
          if bool_decide (v_NativeState v = NotFoundState)
          then (MkReply 404 (BMap [("error", name +:+ " does not know job " +:+ id); ("adapter", name);
                                   ("client_job_id", id); ("native_state", NotFoundState)]), w)
          else
            let '(wanted, title) :=
              match gw_jobs g !! key name id with
              | Some t => (t_wantedItemID t, titleOf t v)
              | None => (EmptyString, v_Title v)
              end in
            (MkReply 200 (BDescribe (job_dto name id wanted title (v_State v) v) (v_Files v) (v_Message v)), w)
      end
  end.

Definition handleControl (pause : bool) (name id : string) (g : gateway A) (w : W) : reply * W :=
  match Get name (gw_reg g) with
  | None => (write_error 404 "no such client", w)
  | Some ad =>
      match as_Controller ad with
      | None => (write_error 501 (name +:+ " cannot " +:+ if pause then "pause" else "resume"), w)
      | Some ctrl =>
          match (if pause then Pause ctrl id w else Resume ctrl id w) with
          | (Err e, w) => (write_error 502 (PublicError (Some e)), w)
          | (Ok _, w) => (MkReply 204 BEmpty, w)
          end
      end
  end.

Definition with_identity (id typ : string) (cs : ClientStatus) : ClientStatus :=
  MkClientStatus id typ (cs_Name cs) (cs_Reachable cs) (cs_Error cs) (cs_DownBps cs) (cs_UpBps cs) (cs_Paused cs)
    (cs_FreeDisk cs) (cs_Detail cs).

Definition unreported_status (name : string) : ClientStatus :=
  MkClientStatus EmptyString EmptyString name false "status not supported by this adapter" 0 0 false None ∅.

Fixpoint client_statuses (clients : list (Client A)) (w : W) : list ClientStatus * W :=
  match clients with
  | [] => ([], w)
  | c :: clients =>
      let (cs, w) := match as_Reporter (c_Adapter c) with
                     | Some rep => rep w
                     | None => (unreported_status (Name (c_Adapter c)), w)
                     end in
      let (rest, w) := client_statuses clients w in
      (with_identity (c_ID c) (c_Type c) cs :: rest, w)
  end.

Definition handleClientStatus (g : gateway A) (w : W) : reply * W :=
  let (l, w) := client_statuses (Active (gw_reg g)) w in (MkReply 200 (BStatuses l), w).

(** [handleReady]; [pubReady] is the publisher's answer. *)
Definition handleReady (pubReady : bool) (g : gateway A) : reply :=
  if gw_stopping g || negb pubReady then MkReply 503 (BMap [("status", "not ready")])
  else MkReply 200 (BMap [("status", "ready")]).

(** ** Adoption *)

Definition adopt_jobs (id typ : string) (jobs : list AdoptedJob) (table : job_table) : job_table :=
  foldl (λ table j, (trackIfAbsent (new_tracked id typ (aj_ClientJobID j) (aj_Title j) EmptyString) table).2) table jobs.

Definition adopt (id : string) (g : gateway A) (w : W) : gateway A * W :=
  match Lease id (gw_reg g) with
  | Err _ => (g, w)
  | Ok (c, r) =>
      let g := with_reg r g in
      let (g, w) :=
        match as_Rehydrator (c_Adapter c) with
        | None => (g, w)
        | Some adoptf =>
            match adoptf w with
            | (Err _, w) => (g, w)
            | (Ok jobs, w) => (with_table (adopt_jobs id (c_Type c) jobs (gw_jobs g)) g, w)
            end
        end in
      (with_reg (release id (gw_reg g)) g, w)
  end.

Definition adopt_all (ids : list string) (g : gateway A) (w : W) : gateway A * W :=
  foldl (λ gw id, adopt id gw.1 gw.2) (g, w) ids.

Definition adoptExisting (g : gateway A) (w : W) : gateway A * W := adopt_all (Names (gw_reg g)) g w.

(** ** The configuration API *)

Definition handleConfigTypes : reply := MkReply 200 (BTypes Types).

Definition handleConfigClients (g : gateway A) : reply :=
  let (revision, clients) := Registry.Config (gw_reg g) in MkReply 200 (BConfig revision clients).

(** [handleConfigApply]; the adoptions it starts in the background are the ids it returns. *)
Definition handleConfigApply (order : list ClientSpec → list string) (decoded : result decode_error configPush) (g : gateway A) :
    gateway A * reply * list string :=
  match decoded with
  | Err e => (g, decode_reply maxConfigBody e, [])
  | Ok (MkConfigPush revision clients) =>
      match revision with
      | None => (g, write_error 400 "revision is required and must not be negative", [])
      | Some revision =>
          if (revision <? 0)%Z then (g, write_error 400 "revision is required and must not be negative", [])
          else match clients with
               | None => (g, write_error 400 "clients is required; send [] to remove every client", [])
               | Some specs =>
                   let (r, res) := Apply_in (order specs) revision specs (hasJobs (gw_jobs g)) (gw_reg g) in
                   (with_reg r g, MkReply 200 (BApplied (res_Revision res) (res_Applied res) (res_Errors res)),
                    c_ID <$> res_Started res)
               end
      end
  end.
End handlers.

(** [handleConfigTest], which builds a client of this build's catalog without registering it: the
    reply depends on the registry and the job table in no way.  [ptr] is the new HTTP client. *)
Section config_test.
Context {W : Type} `{AdapterOps backend W} `{Quote}.

Definition test_reply (reachable : bool) (version err : string) (st : ClientStatus) : reply :=
  MkReply 200 (BTest (MkConfigTestResponse reachable version err st)).

Definition with_error (err : string) (cs : ClientStatus) : ClientStatus :=
  MkClientStatus (cs_ID cs) (cs_Type cs) (cs_Name cs) (cs_Reachable cs) err (cs_DownBps cs) (cs_UpBps cs)
    (cs_Paused cs) (cs_FreeDisk cs) (cs_Detail cs).

Definition config_test_status (ad : backend) (id typ version : string) (reachable : bool) (w : W) : reply * W :=
  match as_Reporter ad with
  | Some rep => let (st, w) := rep w in (test_reply reachable version EmptyString (with_identity id typ st), w)
  | None =>
      (test_reply reachable version EmptyString
         (MkClientStatus id typ (Name ad) reachable EmptyString 0 0 false None ∅), w)
  end.

Definition handleConfigTest (ptr : nat) (decoded : result decode_error ClientSpec) (w : W) : reply * W :=
  match decoded with
  | Err e => (decode_reply maxConfigBody e, w)
  | Ok spec =>
      let id := TrimSpace (spec_ID spec) in
      let typ := TrimSpace (spec_Type spec) in
      let st := MkClientStatus id typ typ false EmptyString 0 0 false None ∅ in
      let fail version msg := test_reply false version msg (with_error msg st) in
      if negb (bool_decide (id = EmptyString)) && negb (ValidClientID id) then (fail EmptyString err_id, w)
      else match NewClient ptr spec with
           | Err e => (fail EmptyString (Error_text e), w)
           | Ok (ad, _) =>
               match as_Prober ad with
               | Some probe =>
                   match probe w with
                   | (Err e, w) => (fail EmptyString (PublicError (Some e)), w)
                   | (Ok version, w) => config_test_status ad id typ version true w
                   end
               | None => config_test_status ad id typ EmptyString false w
               end
           end
  end.
End config_test.

(** ** Routes *)

Inductive route :=
  | RHealth | RReady | RMetrics
  | RClients | RClientStatus | RAdd | RRemove | RList | RDescribe | RPause | RResume
  | RConfigTypes | RConfigClients | RConfigApply | RConfigTest.

#[export] Instance route_eq_dec : EqDecision route.
Proof. solve_decision. Defined.

(** The routes [routes] registers: method, pattern, whether behind the bearer middleware. *)
Definition route_table (restricted : bool) : list (string * string * bool * route) :=
  [("GET", "/healthz", false, RHealth);
   ("GET", "/readyz", false, RReady);
   ("*", "/metrics", false, RMetrics);
   ("GET", "/api/v1/clients", true, RClients);
   ("GET", "/api/v1/clients/status", true, RClientStatus);
   ("POST", "/api/v1/downloads", true, RAdd);
   ("DELETE", "/api/v1/downloads/{adapter}/{id}", true, RRemove);
   ("GET", "/api/v1/downloads", true, RList);
   ("GET", "/api/v1/downloads/{adapter}/{id}", true, RDescribe);
   ("POST", "/api/v1/downloads/{adapter}/{id}/pause", true, RPause);
   ("POST", "/api/v1/downloads/{adapter}/{id}/resume", true, RResume)] ++
  (if restricted then
     [("GET", "/api/v1/config/types", true, RConfigTypes);
      ("GET", "/api/v1/config/clients", true, RConfigClients);
      ("PUT", "/api/v1/config/clients", true, RConfigApply);
      ("POST", "/api/v1/config/clients/test", true, RConfigTest)]
   else []).

Definition is_config (r : route) : bool :=
  match r with RConfigTypes | RConfigClients | RConfigApply | RConfigTest => true | _ => false end.

(** Whether a request routed to [r] reaches its handler: the route is registered, and behind the
    middleware the middleware lets it through. *)
Definition reaches {V T W} `{Oidc V T W} `{Quote} (v : Verifier V) (authz : string) (w : W) (r : route) : bool :=
  existsb (λ e, bool_decide (e.2 = r) &&
             (negb e.1.2 || match (Middleware v authz w).1.1 with Next => true | Answer _ _ => false end))
    (route_table (Restricted v)).

(** ** The environment *)

Definition envOr (lookup : string → option string) (key def : string) : string :=
  match lookup key with
  | Some v => if bool_decide (v = EmptyString) then def else v
  | None => def
  end.

(** [envDur]; [parse] is [time.ParseDuration]. *)
Definition envDur (Getenv : string → string) (parse : string → option Z) (key : string) (def : Z) : Z :=
  let v := Getenv key in
  if bool_decide (v = EmptyString) then def else default def (parse v).

Definition authMode (credentials : bool) (mode : string) : string := if credentials then mode else AuthNone.

(** [registerEnvClients]; the three HTTP clients built are numbered from 0. *)
Definition registerEnvClients `{Quote} (Getenv : string → string) (r : Registry backend) : Registry backend :=
  let base := Getenv "ODOWNLOADER_BASE_URL" in
  let r :=
    if bool_decide (base = EmptyString) then r
    else
      let token := Getenv "ODOWNLOADER_TOKEN" in
      AddEnv (MkClientSpec EmptyString EmptyString base (authMode (negb (bool_decide (token = EmptyString))) AuthToken)
                EmptyString token EmptyString EmptyString [])
        (BOdownloader (ODownloader.NewODownloader 0 base token)) r in
  let base := Getenv "QBITTORRENT_BASE_URL" in
  let r :=
    if bool_decide (base = EmptyString) then r
    else
      let user := Getenv "QBITTORRENT_USER" in
      let pass := Getenv "QBITTORRENT_PASS" in
      AddEnv (MkClientSpec EmptyString EmptyString base (authMode (negb (bool_decide (user = EmptyString))) AuthBasic)
                user pass EmptyString EmptyString [])
        (BQbittorrent (QBittorrent.NewQBittorrent 1 base user pass)) r in
  let base := Getenv "NZBGET_URL" in
  if bool_decide (base = EmptyString) then r
  else
    let user := Getenv "NZBGET_USER" in
    let pass := Getenv "NZBGET_PASS" in
    let category := Getenv "NZBGET_CATEGORY" in
    AddEnv (MkClientSpec EmptyString EmptyString base (authMode (negb (bool_decide (user = EmptyString))) AuthBasic)
              user pass category EmptyString [])
      (BNzbget (NZBGet.NewNZBGet 2 base user pass category)) r.

(** [main]: the state the server starts serving from, and the flag shutting down sets. *)
Definition startup {W} `{AdapterOps backend W} `{Quote} (Getenv : string → string) (w : W) : gateway backend * W :=
  adoptExisting (newGateway (registerEnvClients Getenv (NewRegistry []))) w.

Definition shutdown {A} (g : gateway A) : gateway A := MkGateway (gw_reg g) (gw_jobs g) true (gw_bodyInFlight g).

(** ** Facts *)

Section facts.
Context {A W : Type} `{ClientFactory A} `{AdapterOps A W} `{Quote}.

Lemma with_table_id (g : gateway A) : with_table (gw_jobs g) g = g.
Proof. by destruct g. Qed.

(** A lease given back leaves the registry as it was. *)
Lemma release_Lease id (r : Registry A) c r' :
  wf_registry r → Lease id r = Ok (c, r') → release id r' = r.
Proof.
  intros [_ Hl]. unfold Lease. destruct (r_clients r !! id) as [e|]; [|done]. destruct (e_draining e); [done|].
  intros [= <- <-]. unfold release, with_leases, leases_of. cbn [r_leases r_clients r_revision r_next].
  rewrite lookup_insert_eq. cbn [default from_option Datatypes.id]. destruct r as [cl ls rev nx]. cbn [r_leases] in *. f_equal.
  destruct (ls !! id) as [n|] eqn:E; cbn [default from_option Datatypes.id].
  - apply Hl in E as Hn. rewrite (proj2 (Z.leb_gt _ _)) by lia. rewrite insert_insert_eq.
    rewrite <- (insert_id ls id n E) at 2. f_equal. lia.
  - rewrite (proj2 (Z.leb_le _ _)) by lia. by rewrite delete_insert_id.
Qed.

Lemma Lease_Ok id (r : Registry A) c r' :
  Lease id r = Ok (c, r') →
  ∃ e, r_clients r !! id = Some e ∧ e_draining e = false ∧ c = entry_client e ∧ r_clients r' = r_clients r.
Proof.
  unfold Lease. destruct (r_clients r !! id) as [e|]; [|done]. destruct (e_draining e) eqn:Hd; [done|].
  intros [= <- <-]. by exists e.
Qed.

(** The adoption of jobs one by one is a lookup in the list for the keys the table lacks. *)
Definition first_adopted (id typ : string) (jobs : list AdoptedJob) (k : string) : option tracked :=
  (λ j, new_tracked id typ (aj_ClientJobID j) (aj_Title j) EmptyString) <$>
    List.find (λ j, bool_decide (key id (aj_ClientJobID j) = k)) jobs.

Lemma adopt_jobs_lookup id typ jobs table k :
  adopt_jobs id typ jobs table !! k =
  match table !! k with Some t => Some t | None => first_adopted id typ jobs k end.
Proof.
  revert table. induction jobs as [|j jobs IH]; intros table.
  { change (table !! k = match table !! k with Some t => Some t | None => None end). by destruct (table !! k). }
  unfold adopt_jobs, first_adopted in *. cbn [foldl List.find]. rewrite IH. unfold trackIfAbsent, job_key, new_tracked.
  cbn [t_adapter t_clientJobID]. destruct (decide (key id (aj_ClientJobID j) = k)) as [<-|Hne].
  - rewrite bool_decide_eq_true_2 by done. destruct (table !! key id _) as [t|] eqn:E; cbn [snd]; [by rewrite E|].
    by rewrite lookup_insert_eq.
  - rewrite bool_decide_eq_false_2 by done. destruct (table !! key id (aj_ClientJobID j)); cbn [snd]; [done|].
    by rewrite lookup_insert_ne.
Qed.
End facts.

(** *** Admission *)

(** The room a body of [n] declared bytes takes. *)
Definition declared (n : Z) : Z :=
  if (0 <=? n)%Z && (n <=? smallAddBody)%Z then 0%Z
  else if (n <? 0)%Z || (maxAddBody <? n)%Z then maxAddBody else n.

Lemma declared_bounds n : (0 ≤ declared n ≤ maxAddBody)%Z ∧ (declared n = 0%Z ↔ (0 ≤ n ≤ smallAddBody)%Z).
Proof.
  unfold declared. assert (Hm : (0 < smallAddBody < maxAddBody)%Z) by (vm_compute; by split).
  destruct (0 <=? n)%Z eqn:E1, (n <=? smallAddBody)%Z eqn:E2, (n <? 0)%Z eqn:E3, (maxAddBody <? n)%Z eqn:E4;
    cbn [andb orb]; bool_to_prop; lia.
Qed.

Lemma admitAdd_spec n f :
  (f ≤ addBodyBudget)%Z →
  admitAdd n f = if (addBodyBudget <? f + declared n)%Z then None else Some (declared n, (f + declared n)%Z).
Proof.
  intros Hf. unfold admitAdd, declared. destruct (_ && _); [|done].
  rewrite Z.add_0_r, (proj2 (Z.ltb_ge _ _)) by lia. done.
Qed.

Lemma room_cons m l : room (m :: l) = (m + room l)%Z.
Proof. done. Qed.

Lemma room_perm l l' : l ≡ₚ l' → room l = room l'.
Proof. induction 1; rewrite ?room_cons; lia. Qed.

Lemma admissions_inv held f :
  admissions held f → f = room held ∧ (f ≤ addBodyBudget)%Z ∧ Forall (λ m, 0 ≤ m ≤ maxAddBody)%Z held.
Proof.
  induction 1 as [|held f n m f' _ (IH1 & IH2 & IH3) Ha|held held' f m _ (IH1 & IH2 & IH3) Hp].
  - split_and!; [done|by vm_compute|constructor].
  - rewrite admitAdd_spec in Ha by done. destruct (_ <? _)%Z eqn:E; [done|]. injection Ha as <- <-. apply Z.ltb_ge in E.
    split_and!; [rewrite room_cons; lia|done|]. constructor; [apply declared_bounds|done].
  - rewrite Hp in IH3. apply Forall_cons in IH3 as [Hm IH3]. rewrite (room_perm _ _ Hp), room_cons in IH1.
    unfold admitRelease. split_and!; [lia|lia|done].
Qed.

Lemma room_nonneg held : Forall (λ m, 0 ≤ m ≤ maxAddBody)%Z held → (0 ≤ room held)%Z.
Proof. induction 1; rewrite ?room_cons; [done|lia]. Qed.

(** A list with at most one add that takes room. *)
Lemma room_one held :
  Forall (λ m, 0 ≤ m ≤ maxAddBody)%Z held → length (filter (λ m, m ≠ 0%Z) held) ≤ 1 → (room held ≤ maxAddBody)%Z.
Proof.
  assert (Hz : ∀ l, length (filter (λ m, m ≠ 0%Z) l) = 0%nat → room l = 0%Z).
  { induction l as [|m l IH]; [done|]. rewrite room_cons, filter_cons. case_decide; [done|]. intros Hl. rewrite IH by done. lia. }
  induction 1 as [|m l Hm _ IH]; [by vm_compute|]. rewrite filter_cons, room_cons. case_decide as Hd; cbn [length].
  - intros Hl. rewrite (Hz l) by lia. lia.
  - intros Hl. specialize (IH Hl). lia.
Qed.

(** ** Properties *)

(** The budget of large adds: however adds are admitted and released, the bytes accounted are
      exactly the room the adds in flight hold, between zero and the budget; an add is refused
      exactly when its declared room does not fit beside them, so a small body never is, nor any body
      beside at most one large add; and the sum stays far from overflowing 64 bits. *)
Lemma admission_budget held f n :
  admissions held f →
  f = room held ∧ (0 ≤ f ≤ addBodyBudget)%Z ∧ fits64 (f + declared n) ∧
  (admitAdd n f = None ↔ (addBodyBudget < f + declared n)%Z) ∧
  ((0 ≤ n ≤ smallAddBody)%Z → admitAdd n f = Some (0%Z, f)) ∧
  (length (filter (λ m, m ≠ 0%Z) held) ≤ 1 → is_Some (admitAdd n f)).
Proof.
  intros (Hf & Hb & Hall)%admissions_inv. pose proof (room_nonneg _ Hall) as Hnn. rewrite <- Hf in Hnn.
  destruct (declared_bounds n) as [Hd Hs]. rewrite (admitAdd_spec n f Hb).
  assert (Hbud : addBodyBudget = (2 * maxAddBody)%Z) by done.
  assert (Hmax : (maxAddBody < 2 ^ 40)%Z) by (vm_compute; done).
  split; [done|]. split; [lia|]. split; [unfold fits; lia|].
  destruct (Z.ltb_spec addBodyBudget (f + declared n)) as [Hlt|Hge].
  - split_and!; [done|intros Hn%Hs; lia|]. intros Hl%room_one; [lia|done].
  - split_and!; [by split; [|lia]|intros Hn%Hs; by rewrite Hn, Z.add_0_r|done].
Qed.

Section properties.
Context {A W : Type} `{ClientFactory A} `{AdapterOps A W} `{Quote}.

(** An accepted add: the client the request names is registered and takes new downloads, its adapter
    took the job, and the job is tracked under its key and announced. *)
Definition accepted (decoded : result decode_error addRequest) (g : gateway A) (w : W)
    (g' : gateway A) (evs : list Event) (w' : W) : Prop :=
  ∃ req e jobID, decoded = Ok req ∧ r_clients (gw_reg g) !! add_id req = Some e ∧ e_draining e = false ∧
    Add (e_adapter e) (add_job (entry_client e) req) w = (Ok jobID, w') ∧
    g' = with_table (<[key (add_id req) jobID :=
                         new_tracked (add_id req) (spec_Type (e_spec e)) jobID (ar_Title req) (ar_WantedItemID req)]>
                       (gw_jobs g)) g ∧
    evs = [started_event (entry_client e) (add_id req) jobID req].

(** C12: an add leaves nothing behind but its job: whatever path it takes, the budget and the leases are
      what they were; it is answered 202 exactly when the client took the job, which is then tracked
      and announced once, and every other answer (one of six codes) tracks and announces nothing and,
      unless it comes from the client (502, or 400 for a payload it has no use for), asked nothing of
      it. *)
Theorem handleAdd_effects n decoded (g : gateway A) w :
  wf_registry (gw_reg g) →
  let '(g', rep, evs, w') := handleAdd n decoded g w in
  (re_code rep = 202%Z ∧ accepted decoded g w g' evs w') ∨
  (re_code rep ∈ [400; 404; 409; 413; 429; 502]%Z ∧ g' = g ∧ evs = [] ∧
   (w' ≠ w → re_code rep = 502%Z ∨ re_code rep = 400%Z)).
Proof.
  intros Hw. unfold handleAdd. destruct (admitAdd n (gw_bodyInFlight g)) as [[m f]|] eqn:Ha; [|right; set_solver].
  assert (Hr : admitRelease m f = gw_bodyInFlight g).
  { unfold admitAdd in Ha. unfold admitRelease. repeat case_match; simplify_eq; lia. }
  destruct decoded as [req|e]; cbn [add_admitted]; [|right; cbn; rewrite Hr; destruct g, e; set_solver].
  destruct (_ && _); [right; cbn; rewrite Hr; destruct g; set_solver|].
  destruct (_ || _); [right; cbn; rewrite Hr; destruct g; set_solver|].
  cbn [gw_reg with_inflight]. destruct (Lease (add_id req) (gw_reg g)) as [[c r]|[]] eqn:Hl;
    [|right; cbn; rewrite Hr; destruct g; set_solver..].
  pose proof (release_Lease _ _ _ _ Hw Hl) as Hrel. apply Lease_Ok in Hl as (e & He & Hd & -> & _).
  unfold add_leased. cbn [c_Adapter c_Type entry_client].
  destruct (match LookupType _ with Some _ => _ | None => _ end); [right; cbn; rewrite Hr, Hrel; destruct g; set_solver|].
  destruct (Add _ _ w) as [[jobID|er] w'] eqn:Hadd.
  - left. cbn. rewrite Hr, Hrel. split; [done|]. exists req, e, jobID. split_and!; try done. 
  - destruct er; right; cbn; rewrite Hr, Hrel; destruct g; set_solver.
Qed.

(** The jobs adoption finds: what the client lists, when it is registered, takes downloads and can be
    asked. *)
Definition adoptable (id : string) (g : gateway A) (w : W) : list tracked :=
  match r_clients (gw_reg g) !! id with
  | Some e =>
      if e_draining e then []
      else match as_Rehydrator (e_adapter e) with
           | Some f => match (f w).1 with
                       | Ok jobs => (λ j, new_tracked id (spec_Type (e_spec e)) (aj_ClientJobID j) (aj_Title j) EmptyString) <$> jobs
                       | Err _ => []
                       end
           | None => []
           end
  | None => []
  end.

(** C23: adoption only fills in what is missing: the leases are what they were, a job already tracked keeps
      its record (its wanted item and last state with it), and every job the client lists, and no
      other, is tracked under its key afterwards, queued and without a wanted item. *)
Theorem adopt_keeps_live id (g : gateway A) w :
  wf_registry (gw_reg g) →
  let g' := (adopt id g w).1 in
  g' = with_table (gw_jobs g') g ∧
  (∀ k t, gw_jobs g !! k = Some t → gw_jobs g' !! k = Some t) ∧
  (∀ k, gw_jobs g !! k = None → gw_jobs g' !! k = List.find (λ t, bool_decide (job_key t = k)) (adoptable id g w)).
Proof.
  intros Hw. cbn zeta. unfold adopt, adoptable.
  destruct (Lease id (gw_reg g)) as [[c r]|e] eqn:Hl.
  2:{ cbn. rewrite with_table_id. split_and!; [done..|]. intros k ->.
      unfold Lease in Hl. destruct (r_clients (gw_reg g) !! id) as [e0|]; [|done]. by destruct (e_draining e0). }
  pose proof (release_Lease _ _ _ _ Hw Hl) as Hrel. apply Lease_Ok in Hl as (e & He & Hd & -> & _).
  rewrite He, Hd. cbn [c_Adapter c_Type entry_client].
  destruct (as_Rehydrator (e_adapter e)) as [f|]; [|cbn; rewrite Hrel; split_and!; [by destruct g|done..]].
  destruct (f w) as [[jobs|er] w']; cbn; rewrite Hrel; [|split_and!; [by destruct g|done..]].
  split_and!; [by destruct g| |]; intros k; rewrite adopt_jobs_lookup; [by intros ? ->|]. intros ->.
  unfold first_adopted. clear. induction jobs as [|j jobs IH]; [done|]. cbn. unfold job_key at 1. cbn.
  by destruct (bool_decide (key id (aj_ClientJobID j) = k)).
Qed.
End properties.

(** C20: whoever configures clients is one of the allowed callers: a request reaches a route of the
      configuration API only when callers are restricted to named clients and the request carries a
      bearer token the issuer's verifier accepts that was issued to one of them; without an issuer, or
      without a name in the list, none does, whatever it carries. *)
Theorem config_api_guarded {V T W} `{Oidc V T W} `{Quote} (v : Verifier V) authz w r :
  wf_verifier v → is_config r = true →
  reaches v authz w r = true ↔
  ve_issuer v ≠ EmptyString ∧ ve_allowed v ≠ ∅ ∧ admitted v authz w.
Proof.
  intros Hw Hr.
  assert (Hg : reaches v authz w r = true ↔ Restricted v = true ∧ (Middleware v authz w).1.1 = Next).
  { unfold reaches. destruct r; try done; destruct (Restricted v), (Middleware v authz w).1.1; cbn; naive_solver. }
  rewrite Hg. unfold Restricted. rewrite andb_true_iff, !negb_true_iff, !bool_decide_eq_false.
  pose proof (Middleware_Next v authz w Hw). tauto.
Qed.

(** ** Witnesses *)

Section witnesses.
#[local] Instance demo_gw_quote : Quote := λ s, s.

(** Clients that number the jobs they are given and list two of them. *)
#[local] Instance demo_gw_factory : ClientFactory string := {|
  Adapter_Name := λ a, a;
  Registry.buildClient := λ _ s, spec_Type s
|}.
#[local] Instance demo_gw_ops : AdapterOps string nat := {|
  Name := λ a, a;
  Add := λ _ _ w, (Ok (Itoa (Z.of_nat w)), S w);
  Status_ := λ _ _ w, (Ok StatusQueued, w);
  Describe := λ _ _ w, (Ok NewJobView, w);
  Remove := λ _ _ w, (Ok tt, w);
  as_Controller := λ _, None;
  as_Reporter := λ _, None;
  as_Rehydrator := λ _, Some (λ w, (Ok [MkAdoptedJob "1" "one"; MkAdoptedJob "2" "two"], w));
  as_Prober := λ _, None
|}.

Definition demo_gw_spec : ClientSpec :=
  MkClientSpec EmptyString EmptyString "http://n" AuthNone EmptyString EmptyString EmptyString EmptyString [].
Definition demo_gw_reg : Registry string := AddEnv demo_gw_spec "nzbget" (NewRegistry []).
Definition demo_req (client : string) : addRequest :=
  MkAddRequest client EmptyString "http://x/y.nzb" "t" EmptyString "wanted" EmptyString EmptyString EmptyString.

(** The first add, its job number 1. *)
Definition demo_gw : gateway string := (handleAdd 200 (Ok (demo_req "nzbget")) (newGateway demo_gw_reg) 1%nat).1.1.1.

Lemma demo_gw_wf : wf_registry (gw_reg demo_gw).
Proof.
  assert (E : gw_reg demo_gw = demo_gw_reg) by (vm_compute; reflexivity).
  rewrite E. apply reachable_wf, rr_add_env, rr_new.
Qed.

(** One large add of unknown length leaves room for a second, not for a third. *)
Lemma admission_budget_witness :
  is_Some (admitAdd (-1) maxAddBody) ∧ admitAdd (-1) (2 * maxAddBody) = None.
Proof.
  assert (H1 : admissions [maxAddBody] maxAddBody) by (exact (adm_admit [] 0 (-1) _ _ adm_none eq_refl)).
  assert (H2 : admissions [maxAddBody; maxAddBody] (2 * maxAddBody)%Z) by (exact (adm_admit _ _ (-1) _ _ H1 eq_refl)).
  split.
  - apply (admission_budget _ _ (-1) H1). vm_compute. lia.
  - apply (admission_budget _ _ (-1) H2). vm_compute. reflexivity.
Defined.

(** A second add is tracked as job 2; one for an unknown client is refused. *)
Lemma handleAdd_effects_witness :
  let '(g', rep, evs, w') := handleAdd (-1) (Ok (demo_req "nzbget")) demo_gw 2%nat in
  let '(g'', rep', evs', w'') := handleAdd (-1) (Ok (demo_req "sabnzbd")) demo_gw 2%nat in
  re_code rep = 202%Z ∧ length evs = 1%nat ∧ g'' = demo_gw ∧ evs' = [].
Proof.
  assert (Hc : re_code (handleAdd (-1) (Ok (demo_req "nzbget")) demo_gw 2%nat).1.1.2 = 202%Z) by (vm_compute; reflexivity).
  assert (Hc' : re_code (handleAdd (-1) (Ok (demo_req "sabnzbd")) demo_gw 2%nat).1.1.2 = 404%Z) by (vm_compute; reflexivity).
  pose proof (handleAdd_effects (-1) (Ok (demo_req "nzbget")) demo_gw 2%nat demo_gw_wf) as H1.
  pose proof (handleAdd_effects (-1) (Ok (demo_req "sabnzbd")) demo_gw 2%nat demo_gw_wf) as H2.
  destruct (handleAdd (-1) (Ok (demo_req "nzbget")) demo_gw 2%nat) as [[[g' rep] evs] w'].
  destruct (handleAdd (-1) (Ok (demo_req "sabnzbd")) demo_gw 2%nat) as [[[g'' rep'] evs'] w'']. cbn in Hc, Hc'.
  destruct H1 as [(_ & req & e & id & _ & _ & _ & _ & _ & Hev)|(Hin & _)]; [|rewrite Hc in Hin; exfalso; set_solver].
  destruct H2 as [(Hc2 & _)|(_ & Hg & Hev' & _)]; [rewrite Hc' in Hc2; discriminate|].
  split_and!; [exact Hc|by rewrite Hev|exact Hg|exact Hev'].
Defined.

(** Adopting job 1, already tracked for a wanted item, and job 2, which is new. *)
Lemma adopt_keeps_live_witness :
  let g' := (adopt "nzbget" demo_gw 5%nat).1 in
  (t_wantedItemID <$> gw_jobs g' !! "nzbget:1") = Some "wanted" ∧
  (t_title <$> gw_jobs g' !! "nzbget:2") = Some "two".
Proof.
  destruct (adopt_keeps_live "nzbget" demo_gw 5%nat demo_gw_wf) as (_ & Hkeep & Hnew). cbn zeta in *.
  assert (H1 : ∃ t, gw_jobs demo_gw !! "nzbget:1" = Some t ∧ t_wantedItemID t = "wanted")
    by (eexists; split; vm_compute; reflexivity).
  destruct H1 as (t & H1 & Hw). apply Hkeep in H1. split.
  - rewrite H1. cbn. by rewrite Hw.
  - rewrite (Hnew "nzbget:2") by (vm_compute; reflexivity). vm_compute. reflexivity.
Defined.

#[local] Instance demo_gw_oidc : Oidc unit string unit := {|
  NewProvider := λ _ w, (Ok tt, w);
  Verify := λ _ raw w, (Ok raw, w);
  raw_claims := λ t, json_text (JObj [("azp", JStr t)])
|}.

Lemma config_api_guarded_witness :
  reaches (NewVerifier "https://idp" ["acquire"]) "Bearer acquire" tt RConfigApply = true ∧
  reaches (NewVerifier "https://idp" []) "Bearer acquire" tt RConfigApply = false.
Proof.
  pose proof (NewVerifier_wf (V := unit) "https://idp" ["acquire"]) as Hw1.
  pose proof (NewVerifier_wf (V := unit) "https://idp" []) as Hw2.
  split.
  - apply (config_api_guarded _ _ tt RConfigApply Hw1 eq_refl). split_and!.
    + vm_compute. discriminate.
    + intros E. apply (f_equal size) in E. vm_compute in E. discriminate.
    + eexists "acquire", _, _, _, _, _. split_and!; [reflexivity|reflexivity|reflexivity|reflexivity|].
      intros _. exists "acquire", EmptyString. split; [reflexivity|]. left.
      split; [discriminate|]. apply (bool_decide_eq_true_1 (_ ∈ _)). vm_compute. reflexivity.
  - apply not_true_is_false. intros Hr. apply (config_api_guarded _ _ tt RConfigApply Hw2 eq_refl) in Hr as (_ & Hn & _).
    apply Hn. reflexivity.
Defined.
End witnesses.
