(* ===== verification/ApiRequests.v ===== *)
(** * cmd/server: the bodies of requests

    [decodeJSON] on bytes: the cap of [http.MaxBytesReader], the first JSON value of the body, the fields
    of the structs the handlers read it into ([addRequest], [configPush], [adapters.ClientSpec]), and
    the answers to bodies that are no use.  [add_bodies]: what becomes of the body of an add. *)

From S2P Require Import Prelude GoStrings GoFloat Base64 Json JsonText JsonTextSpec JsonTypes JsonTypesSpec Adapters Responses Http.
From S2P Require Import Clients Registry Interfaces Events Jobs Gateway.
From Stdlib Require Import Ascii.

(** ** [decodeJSON] *)

(** What a reader of the body fails with. *)
Inductive read_error := MaxBytesError | Broken (e : error).

(** [http.MaxBytesReader(w, r.Body, limit)]. *)
Definition MaxBytesReader (limit : Z) (b : Body) : list ascii * option read_error :=
  if (limit <? len (b_data b))%Z then (take (Z.to_nat limit) (chars (b_data b)), Some MaxBytesError)
  else (chars (b_data b), Broken <$> b_err b).

Definition decodeJSON (t : gotype) (limit : Z) (b : Body) : result decode_error goval :=
  let (data, ending) := MaxBytesReader limit b in
  match Decoder_Decode t data ending with
  | Ok v => Ok v
  | Err (JRead MaxBytesError) => Err TooLarge
  | Err (JFault FBase64) => Err CorruptBase64
  | Err _ => Err InvalidJSON
  end.

(** ** The structs *)

Definition addRequest_type : gotype := TStruct [
  ("adapter", false, TString); ("client", false, TString); ("source", false, TString); ("title", false, TString);
  ("save_path", false, TString); ("wanted_item_id", false, TString); ("payload_b64", false, TSlice (TInt false 8));
  ("payload_name", false, TString); ("category", false, TString)].

Definition of_addRequest (x : goval) : addRequest :=
  let f i := field i x in
  MkAddRequest (as_string (f 0)) (as_string (f 1)) (as_string (f 2)) (as_string (f 3)) (as_string (f 4)) (as_string (f 5))
    (as_bytes (f 6)) (as_string (f 7)) (as_string (f 8)).

Definition ClientSpec_type : gotype := TStruct [
  ("id", false, TString); ("type", false, TString); ("baseUrl", false, TString); ("auth", false, TString);
  ("username", false, TString); ("secret", false, TString); ("category", false, TString); ("savePath", false, TString);
  ("protocols", false, TSlice TString)].

Definition of_ClientSpec (x : goval) : ClientSpec :=
  let f i := field i x in
  MkClientSpec (as_string (f 0)) (as_string (f 1)) (as_string (f 2)) (as_string (f 3)) (as_string (f 4)) (as_string (f 5))
    (as_string (f 6)) (as_string (f 7)) (as_list as_string (f 8)).

Definition configPush_type : gotype := TStruct [
  ("revision", false, TPtr (TInt true 64)); ("clients", false, TPtr (TSlice ClientSpec_type))].

Definition of_configPush (x : goval) : configPush :=
  MkConfigPush (as_opt as_int (field 0 x)) (as_opt (as_list of_ClientSpec) (field 1 x)).

(** What the three handlers with a body decode. *)
Definition read_add (b : Body) : result decode_error addRequest := rmap of_addRequest (decodeJSON addRequest_type maxAddBody b).
Definition read_push (b : Body) : result decode_error configPush := rmap of_configPush (decodeJSON configPush_type maxConfigBody b).
Definition read_test (b : Body) : result decode_error ClientSpec := rmap of_ClientSpec (decodeJSON ClientSpec_type maxConfigBody b).

(** Bytes with single quotes for double ones. *)
Definition quoted (s : string) : string := str ((λ c, if is_byte 0x27 c then quote_char else c) <$> chars s).

Example read_push_null : read_push (MkBody (quoted "{'revision': 3, 'clients': null}") None) = Ok (MkConfigPush (Some 3%Z) None).
Proof. vm_compute. reflexivity. Qed.

Example read_push_some :
  read_push (MkBody (quoted "{'CLIENTS': [{'id':'a','Protocols':['x']}, null], 'revision': 3.0}") None) = Err InvalidJSON ∧
  read_push (MkBody (quoted "{'CLIENTS': [{'id':'a','Protocols':['x']}, null], 'other': [{}], 'revision': -3} tail") None) =
  Ok (MkConfigPush (Some (-3)%Z) (Some
    [MkClientSpec "a" EmptyString EmptyString EmptyString EmptyString EmptyString EmptyString EmptyString ["x"];
     MkClientSpec EmptyString EmptyString EmptyString EmptyString EmptyString EmptyString EmptyString EmptyString []])).
Proof. vm_compute. split; reflexivity. Qed.

Example read_add_payload :
  ar_Payload <$> (match read_add (MkBody (quoted "{'payload_b64':'Zm9vYg=='}") None) with Ok r => Some r | Err _ => None end) = Some "foob" ∧
  read_add (MkBody (quoted "{'payload_b64':'Zm9vYg='}") None) = Err CorruptBase64 ∧
  read_add (MkBody (quoted "{'title':1,'payload_b64':'Zm9vYg='}") None) = Err InvalidJSON ∧
  read_add (MkBody (quoted "{'title':'x") None) = Err InvalidJSON.
Proof. vm_compute. split_and!; reflexivity. Qed.

(** ** Facts *)

Lemma decodeJSON_too_large t limit b :
  (0 ≤ limit)%Z →
  decodeJSON t limit b = Err TooLarge ↔ (limit < len (b_data b))%Z ∧ unfinished (take (Z.to_nat limit) (chars (b_data b))) = true.
Proof.
  intros Hl. unfold decodeJSON, MaxBytesReader. destruct (Z.ltb_spec limit (len (b_data b))) as [Hlt|Hge].
  - set (data := take _ _). pose proof (Decoder_Decode_read t data MaxBytesError MaxBytesError) as Hr.
    destruct (Decoder_Decode t data (Some MaxBytesError)) as [v|[e| | | |[]]] eqn:E; try naive_solver.
    destruct e as [|e]; [naive_solver|]. exfalso. pose proof (proj1 (Decoder_Decode_read t data MaxBytesError (Broken e)) E). naive_solver.
  - split; [|lia]. destruct (Decoder_Decode t (chars (b_data b)) (Broken <$> b_err b)) as [v|[e| | | |[]]] eqn:E; try done.
    destruct e as [|e]; [|done]. exfalso. destruct (b_err b) as [e|]; cbn in E.
    + pose proof (proj1 (Decoder_Decode_read t _ (Broken e) MaxBytesError) E). naive_solver.
    + unfold Decoder_Decode in E. split_match_in E; done.
Qed.

(** What a body is read as does not depend on the bytes after its value. *)
Lemma decodeJSON_more t limit b more e :
  (len (b_data b) ≤ limit)%Z → unfinished (chars (b_data b)) = false →
  decodeJSON t limit (MkBody (b_data b +:+ more) e) = decodeJSON t limit b.
Proof.
  intros Hl Hu. unfold decodeJSON, MaxBytesReader. cbn [b_data b_err]. rewrite (proj2 (Z.ltb_ge limit (len (b_data b)))) by lia.
  destruct (limit <? len (b_data b +:+ more))%Z.
  - rewrite chars_app, take_app_ge by (rewrite len_chars in Hl; lia). by rewrite (Decoder_Decode_extend t _ _ (Broken <$> b_err b)).
  - rewrite chars_app. by rewrite (Decoder_Decode_extend t _ _ (Broken <$> b_err b)).
Qed.

(** A written value is read back from a body that has room for it. *)
Lemma decodeJSON_text t limit x j more e :
  go_ok t x → (Z.of_nat (depth t) ≤ maxNestingDepth)%Z → encode t x = Some j → needs_next (jtree j) = false →
  (len (json_text j) ≤ limit)%Z → decodeJSON t limit (MkBody (json_text j +:+ more) e) = Ok (norm t x).
Proof.
  intros Hok Hd He Hn Hl. unfold decodeJSON, MaxBytesReader. cbn [b_data b_err]. rewrite chars_app. fold (jtext j).
  rewrite len_chars in Hl. fold (jtext j) in Hl.
  destruct (limit <? len (json_text j +:+ more))%Z.
  - rewrite take_app_ge by lia. by rewrite (Decoder_Decode_text t x j).
  - by rewrite (Decoder_Decode_text t x j).
Qed.

(** The values of a request, and what is read of them. *)
Definition addRequest_go (r : addRequest) : goval := GStruct [
  GString (ar_Adapter r); GString (ar_Client r); GString (ar_Source r); GString (ar_Title r); GString (ar_SavePath r);
  GString (ar_WantedItemID r); go_slice (λ c, GInt (byte c)) (chars (ar_Payload r)); GString (ar_PayloadName r);
  GString (ar_Category r)].

(** The text [json.Marshal] gives a caller that declares the same struct. *)
Definition add_text (r : addRequest) : string := default EmptyString (json_Marshal addRequest_type (addRequest_go r)).

(** Every string with its invalid bytes replaced; the payload as it is. *)
Definition sanitize_add (r : addRequest) : addRequest :=
  MkAddRequest (sanitize (ar_Adapter r)) (sanitize (ar_Client r)) (sanitize (ar_Source r)) (sanitize (ar_Title r))
    (sanitize (ar_SavePath r)) (sanitize (ar_WantedItemID r)) (ar_Payload r) (sanitize (ar_PayloadName r)) (sanitize (ar_Category r)).

Lemma go_ok_bytes l : go_ok (TSlice (TInt false 8)) (go_slice (λ c, GInt (byte c)) l).
Proof.
  cbn. induction l as [|c l IH]; [done|]. split; [|exact IH]. split; [done|]. pose proof (byte_range c). unfold int_fits.
  change (2 ^ 8)%Z with 256%Z. lia.
Qed.

Lemma as_bytes_go_slice l : as_bytes (go_slice (λ c, GInt (byte c)) l) = str l.
Proof.
  cbn. f_equal. unfold go_bytes. rewrite <- list_fmap_compose. rewrite <- (list_fmap_id l) at 2. apply list_fmap_ext.
  intros i c _. apply of_byte_byte.
Qed.

Lemma read_add_text r more e :
  (len (add_text r) ≤ maxAddBody)%Z → read_add (MkBody (add_text r +:+ more) e) = Ok (sanitize_add r).
Proof.
  assert (Hok : go_ok addRequest_type (addRequest_go r)).
  { split; [vm_compute; reflexivity|]. repeat match goal with |- _ ∧ _ => split end; try done. apply go_ok_bytes. }
  destruct (encode_total _ _ Hok) as [j Hj]. unfold add_text, json_Marshal. rewrite Hj. cbn [fmap option_fmap option_map default from_option id].
  intros Hl. unfold read_add. erewrite decodeJSON_text; [|exact Hok|vm_compute; discriminate|exact Hj| |exact Hl].
  - cbn [rmap]. apply f_equal. unfold of_addRequest, sanitize_add. f_equal. cbn [field addRequest_go norm addRequest_type].
    change (as_bytes (go_slice (λ c, GInt (byte c)) (chars (ar_Payload r))) = ar_Payload r). by rewrite as_bytes_go_slice, str_chars.
  - by eapply encode_struct_closed.
Qed.

(** ** Properties *)

Section properties.
Context {A W : Type} `{ClientFactory A} `{AdapterOps A W} `{Quote}.

Lemma handleAdd_unread contentLength e (g : gateway A) (w : W) :
  ∃ rep, handleAdd contentLength (Err e) g w = (g, rep, [], w) ∧ (rep = decode_reply maxAddBody e ∨ re_code rep = 429%Z).
Proof.
  unfold handleAdd. destruct (admitAdd contentLength (gw_bodyInFlight g)) as [[n f]|] eqn:Ha; [|eexists; split; [done|by right]].
  exists (decode_reply maxAddBody e). split; [|by left]. cbn [add_admitted]. do 3 f_equal.
  assert (Hf : admitRelease n f = gw_bodyInFlight g).
  { unfold admitAdd, admitRelease in *. split_match_in Ha; try discriminate Ha; injection Ha as <- <-; lia. }
  destruct g. unfold with_inflight in *. cbn in *. by rewrite Hf.
Qed.

(** C13: the body of an add.  It is refused as too large exactly when it is longer than the cap and no JSON value is
    over, nor shown to be none, within the cap; the bytes after its value, and how the connection ends, do not
    matter; a body that is no use changes nothing and starts nothing, whatever is wrong with it, and is answered 413
    or 400 (or 429 before it is read); and a request that a caller marshals from the same fields is read as that
    request, its payload byte for byte, its strings with their invalid bytes replaced by U+FFFD. *)
Theorem add_bodies contentLength (b : Body) (g : gateway A) (w : W) :
  (read_add b = Err TooLarge ↔
     (maxAddBody < len (b_data b))%Z ∧ unfinished (take (Z.to_nat maxAddBody) (chars (b_data b))) = true) ∧
  (∀ more e, (len (b_data b) ≤ maxAddBody)%Z → unfinished (chars (b_data b)) = false →
     read_add (MkBody (b_data b +:+ more) e) = read_add b) ∧
  (∀ e, read_add b = Err e →
     ∃ rep, handleAdd contentLength (read_add b) g w = (g, rep, [], w) ∧
            (re_code rep = 429 ∨ re_code rep = if e is TooLarge then 413 else 400)%Z) ∧
  (∀ r more e, (len (add_text r) ≤ maxAddBody)%Z → read_add (MkBody (add_text r +:+ more) e) = Ok (sanitize_add r)).
Proof.
  split_and!.
  - rewrite <- decodeJSON_too_large with (t := addRequest_type) by done. unfold read_add. destruct (decodeJSON _ _ _); [done|]. cbn. naive_solver.
  - intros more e Hl Hu. unfold read_add. by rewrite decodeJSON_more.
  - intros e He. rewrite He. destruct (handleAdd_unread contentLength e g w) as (rep & E & Hr). exists rep. split; [done|].
    destruct Hr as [->|Hr]; [right; by destruct e|by left].
  - intros r more e. apply read_add_text.
Qed.
End properties.

#[local] Existing Instance demo_gw_factory.
#[local] Existing Instance demo_gw_ops.
#[local] Existing Instance demo_gw_quote.

Definition demo_add : addRequest :=
  MkAddRequest EmptyString "nzbget" EmptyString "A title" EmptyString "42" (str ["000"; "255"; "010"]%char) "a.nzb" EmptyString.

Lemma add_bodies_witness :
  add_text demo_add =
    quoted "{'adapter':'','client':'nzbget','source':'','title':'A title','save_path':'','wanted_item_id':'42','payload_b64':'AP8K','payload_name':'a.nzb','category':''}" ∧
  read_add (MkBody (add_text demo_add +:+ " and more") None) = Ok demo_add ∧
  ∃ rep, handleAdd 10 (read_add (MkBody "[" None)) demo_gw 0 = (demo_gw, rep, [], 0%nat) ∧ (re_code rep = 429 ∨ re_code rep = 400)%Z.
Proof.
  split; [vm_compute; reflexivity|]. split.
  - destruct (add_bodies 0 (MkBody EmptyString None) demo_gw 0) as (_ & _ & _ & Hr). rewrite Hr; vm_compute; [reflexivity|discriminate].
  - destruct (add_bodies 10 (MkBody "[" None) demo_gw 0) as (_ & _ & He & _).
    apply (He InvalidJSON). vm_compute. reflexivity.
Defined.
