(* ===== verification/ApiReplies.v ===== *)
(** * cmd/server: the bodies of replies

    [writeJSON] on bytes: the fields and tags of the structs the handlers answer with, and the text
    [json.Encoder] writes of them.  [replies_read_back]: a caller that declares the same fields reads
    the reply back. *)

From S2P Require Import Prelude GoStrings GoFloat Base64 Json JsonText JsonTextSpec JsonTypes JsonTypesSpec Adapters Responses Http.
From S2P Require Import Clients Registry Interfaces Events Jobs Gateway.
From Stdlib Require Import Ascii SpecFloat.

(** ** The structs *)

Definition jobDTO_fields : list (string * bool * gotype) := [
  ("adapter", false, TString); ("client_job_id", false, TString); ("wanted_item_id", true, TString); ("title", false, TString);
  ("state", false, TString); ("native_state", true, TString); ("progress_pct", false, TFloat);
  ("downloaded_bytes", false, TInt true 64); ("size_bytes", false, TPtr (TInt true 64)); ("speed_bps", false, TInt true 64);
  ("eta_sec", false, TPtr (TInt true 32)); ("seeders", true, TPtr (TInt true 32)); ("leechers", true, TPtr (TInt true 32));
  ("health", true, TPtr (TInt true 32))].

Definition jobDTO_values (j : jobDTO) : list goval := [
  GString (jd_Adapter j); GString (jd_ClientJobID j); GString (jd_WantedItemID j); GString (jd_Title j); GString (jd_State j);
  GString (jd_NativeState j); GFloat (jd_ProgressPct j); GInt (jd_Downloaded j); go_opt (jd_SizeBytes j); GInt (jd_SpeedBps j);
  go_opt (jd_EtaSec j); go_opt (jd_Seeders j); go_opt (jd_Leechers j); go_opt (jd_Health j)].

(** The fields of the embedded struct come first; a job without files has a nil slice. *)
Definition describeDTO_fields : list (string * bool * gotype) :=
  jobDTO_fields ++ [("files", true, TSlice TString); ("message", true, TString)].

Definition describeDTO_values (j : jobDTO) (files : list string) (message : string) : list goval :=
  jobDTO_values j ++ [go_nil_slice GString files; GString message].

Definition ClientStatus_type : gotype := TStruct [
  ("id", false, TString); ("type", false, TString); ("name", false, TString); ("reachable", false, TBool); ("error", true, TString);
  ("down_bps", false, TInt true 64); ("up_bps", false, TInt true 64); ("paused", false, TBool);
  ("free_disk_bytes", true, TPtr (TInt true 64)); ("detail", true, TMap)].

Definition ClientStatus_go (cs : ClientStatus) : goval := GStruct [
  GString (cs_ID cs); GString (cs_Type cs); GString (cs_Name cs); GBool (cs_Reachable cs); GString (cs_Error cs);
  GInt (cs_DownBps cs); GInt (cs_UpBps cs); GBool (cs_Paused cs); go_opt (cs_FreeDisk cs); GMap (Some (cs_Detail cs))].

Definition TypeInfo_type : gotype := TStruct [
  ("type", false, TString); ("protocols", false, TSlice TString); ("auth", false, TSlice TString);
  ("acceptsPayload", false, TBool); ("supportsSavePath", false, TBool); ("canPause", false, TBool)].

Definition TypeInfo_go (ti : TypeInfo) : goval := GStruct [
  GString (ti_Type ti); go_slice GString (ti_Protocols ti); go_slice GString (ti_Auth ti);
  GBool (ti_AcceptsPayload ti); GBool (ti_SupportsSavePath ti); GBool (ti_CanPause ti)].

Definition ClientInfo_type : gotype := TStruct [
  ("id", false, TString); ("type", false, TString); ("baseUrl", false, TString); ("auth", false, TString);
  ("username", false, TString); ("category", false, TString); ("savePath", false, TString);
  ("protocols", false, TSlice TString); ("source", true, TString); ("secretSet", false, TBool)].

(** [Source] is empty where the settings are not registered; [info] makes the protocols of a spec without any. *)
Definition ClientInfo_go (i : ClientInfo) : goval := GStruct [
  GString (info_ID i); GString (info_Type i); GString (info_BaseURL i); GString (info_Auth i); GString (info_Username i);
  GString (info_Category i); GString (info_SavePath i); go_slice GString (info_Protocols i);
  GString (match info_Source i with Some s => Source_string s | None => EmptyString end); GBool (info_SecretSet i)].

Definition ApplyError_type : gotype := TStruct [("id", false, TString); ("message", false, TString)].
Definition ApplyError_go (e : ApplyError) : goval := GStruct [GString (ae_ID e); GString (ae_Message e)].

Definition configClientsResponse_type : gotype := TStruct [
  ("revision", false, TInt true 64); ("clients", false, TSlice ClientInfo_type)].

Definition configApplyResponse_type : gotype := TStruct [
  ("revision", false, TInt true 64); ("applied", false, TSlice TString); ("errors", false, TSlice ApplyError_type)].

Definition configTestResponse_type : gotype := TStruct [
  ("reachable", false, TBool); ("version", false, TString); ("error", false, TString); ("status", false, ClientStatus_type)].

Definition configTestResponse_go (r : configTestResponse) : goval := GStruct [
  GBool (ct_Reachable r); GString (ct_Version r); GString (ct_Error r); ClientStatus_go (ct_Status r)].

(** ** [writeJSON] *)

(** What [writeJSON] is given; nothing where only the status is written. *)
Definition body_go (b : body) : option (gotype * goval) :=
  match b with
  | BEmpty => None
  | BError msg => Some (TMap, GMap (Some {["error" := msg]}))
  | BMap fields => Some (TMap, GMap (Some (list_to_map fields)))
  | BNames names => Some (TSlice TString, go_slice GString names)
  | BJobs jobs => Some (TSlice (TStruct jobDTO_fields), go_slice (λ j, GStruct (jobDTO_values j)) jobs)
  | BDescribe job files message => Some (TStruct describeDTO_fields, GStruct (describeDTO_values job files message))
  | BStatuses l => Some (TSlice ClientStatus_type, go_slice ClientStatus_go l)
  | BTypes l => Some (TSlice TypeInfo_type, go_slice TypeInfo_go l)
  | BConfig revision clients =>
      Some (configClientsResponse_type, GStruct [GInt revision; go_slice ClientInfo_go clients])
  | BApplied revision applied errors =>
      Some (configApplyResponse_type, GStruct [GInt revision; go_slice GString applied; go_slice ApplyError_go errors])
  | BTest r => Some (configTestResponse_type, configTestResponse_go r)
  end.

Definition newline : string := str ["010"%char].

(** The status, the headers the handlers set, and the bytes [json.NewEncoder(w).Encode] writes; its error is dropped. *)
Definition writeJSON (r : reply) : Z * list (string * string) * string :=
  match body_go (re_body r) with
  | None => (re_code r, [], EmptyString)
  | Some (t, x) =>
      (re_code r, [("Content-Type", "application/json")],
       match json_Marshal t x with Some text => text +:+ newline | None => EmptyString end)
  end.

Example writeJSON_error :
  writeJSON (write_error 404 "no such client") =
  (404%Z, [("Content-Type", "application/json")],
   str ((λ c, if is_byte 0x27 c then quote_char else c) <$> chars "{'error':'no such client'}") +:+ newline).
Proof. vm_compute. reflexivity. Qed.

(** ** What a caller reads *)

Definition of_jobDTO (x : goval) : jobDTO :=
  let f i := field i x in
  MkJobDTO (as_string (f 0)) (as_string (f 1)) (as_string (f 2)) (as_string (f 3)) (as_string (f 4)) (as_string (f 5))
    (as_float (f 6)) (as_int (f 7)) (as_opt as_int (f 8)) (as_int (f 9)) (as_opt as_int (f 10)) (as_opt as_int (f 11))
    (as_opt as_int (f 12)) (as_opt as_int (f 13)).

Definition of_ClientStatus (x : goval) : ClientStatus :=
  let f i := field i x in
  MkClientStatus (as_string (f 0)) (as_string (f 1)) (as_string (f 2)) (as_bool (f 3)) (as_string (f 4)) (as_int (f 5))
    (as_int (f 6)) (as_bool (f 7)) (as_opt as_int (f 8)) (as_map (f 9)).

Definition of_TypeInfo (x : goval) : TypeInfo :=
  let f i := field i x in
  MkTypeInfo (as_string (f 0)) (as_list as_string (f 1)) (as_list as_string (f 2)) (as_bool (f 3)) (as_bool (f 4)) (as_bool (f 5)).

Definition of_source (s : string) : option Source :=
  if bool_decide (s = "env") then Some SourceEnv else if bool_decide (s = "api") then Some SourceAPI else None.

Definition of_ClientInfo (x : goval) : ClientInfo :=
  let f i := field i x in
  MkClientInfo (as_string (f 0)) (as_string (f 1)) (as_string (f 2)) (as_string (f 3)) (as_string (f 4)) (as_string (f 5))
    (as_string (f 6)) (as_list as_string (f 7)) (of_source (as_string (f 8))) (as_bool (f 9)).

Definition of_ApplyError (x : goval) : ApplyError := MkApplyError (as_string (field 0 x)) (as_string (field 1 x)).

(** A reply of the kind of [b], from the value its text is read as. *)
Definition read_body (b : body) (x : goval) : body :=
  let f i := field i x in
  match b with
  | BEmpty => BEmpty
  | BError _ => BError (default EmptyString (as_map x !! "error"))
  | BMap _ => BMap (map_to_list (as_map x))
  | BNames _ => BNames (as_list as_string x)
  | BJobs _ => BJobs (as_list of_jobDTO x)
  | BDescribe _ _ _ => BDescribe (of_jobDTO x) (as_list as_string (f 14)) (as_string (f 15))
  | BStatuses _ => BStatuses (as_list of_ClientStatus x)
  | BTypes _ => BTypes (as_list of_TypeInfo x)
  | BConfig _ _ => BConfig (as_int (f 0)) (as_list of_ClientInfo (f 1))
  | BApplied _ _ _ => BApplied (as_int (f 0)) (as_list as_string (f 1)) (as_list of_ApplyError (f 2))
  | BTest _ => BTest (MkConfigTestResponse (as_bool (f 0)) (as_string (f 1)) (as_string (f 2)) (of_ClientStatus (f 3)))
  end.

(** The replies with the invalid bytes of their strings replaced. *)
Definition sanitize_map (m : gmap string string) : gmap string string :=
  foldl (λ m kv, <[sanitize kv.1 := sanitize kv.2]> m) ∅ (sort_by fst (map_to_list m)).

Definition sanitize_job (j : jobDTO) : jobDTO :=
  MkJobDTO (sanitize (jd_Adapter j)) (sanitize (jd_ClientJobID j)) (sanitize (jd_WantedItemID j)) (sanitize (jd_Title j))
    (sanitize (jd_State j)) (sanitize (jd_NativeState j)) (jd_ProgressPct j) (jd_Downloaded j) (jd_SizeBytes j) (jd_SpeedBps j)
    (jd_EtaSec j) (jd_Seeders j) (jd_Leechers j) (jd_Health j).

Definition sanitize_status (cs : ClientStatus) : ClientStatus :=
  MkClientStatus (sanitize (cs_ID cs)) (sanitize (cs_Type cs)) (sanitize (cs_Name cs)) (cs_Reachable cs) (sanitize (cs_Error cs))
    (cs_DownBps cs) (cs_UpBps cs) (cs_Paused cs) (cs_FreeDisk cs) (sanitize_map (cs_Detail cs)).

Definition sanitize_type (ti : TypeInfo) : TypeInfo :=
  MkTypeInfo (sanitize (ti_Type ti)) (sanitize <$> ti_Protocols ti) (sanitize <$> ti_Auth ti) (ti_AcceptsPayload ti)
    (ti_SupportsSavePath ti) (ti_CanPause ti).

Definition sanitize_info (i : ClientInfo) : ClientInfo :=
  MkClientInfo (sanitize (info_ID i)) (sanitize (info_Type i)) (sanitize (info_BaseURL i)) (sanitize (info_Auth i))
    (sanitize (info_Username i)) (sanitize (info_Category i)) (sanitize (info_SavePath i)) (sanitize <$> info_Protocols i)
    (info_Source i) (info_SecretSet i).

Definition sanitize_apply_error (e : ApplyError) : ApplyError := MkApplyError (sanitize (ae_ID e)) (sanitize (ae_Message e)).

Definition sanitize_body (b : body) : body :=
  match b with
  | BEmpty => BEmpty
  | BError msg => BError (sanitize msg)
  | BMap fields => BMap (map_to_list (sanitize_map (list_to_map fields)))
  | BNames names => BNames (sanitize <$> names)
  | BJobs jobs => BJobs (sanitize_job <$> jobs)
  | BDescribe job files message => BDescribe (sanitize_job job) (sanitize <$> files) (sanitize message)
  | BStatuses l => BStatuses (sanitize_status <$> l)
  | BTypes l => BTypes (sanitize_type <$> l)
  | BConfig revision clients => BConfig revision (sanitize_info <$> clients)
  | BApplied revision applied errors => BApplied revision (sanitize <$> applied) (sanitize_apply_error <$> errors)
  | BTest r => BTest (MkConfigTestResponse (ct_Reachable r) (sanitize (ct_Version r)) (sanitize (ct_Error r)) (sanitize_status (ct_Status r)))
  end.

(** Integers are in the range of their fields, and percentages are numbers. *)
Definition job_ok (j : jobDTO) : Prop :=
  float_finite (jd_ProgressPct j) = true ∧ fits 64 (jd_Downloaded j) ∧ opt_fits 64 (jd_SizeBytes j) ∧ fits 64 (jd_SpeedBps j) ∧
  opt_fits 32 (jd_EtaSec j) ∧ opt_fits 32 (jd_Seeders j) ∧ opt_fits 32 (jd_Leechers j) ∧ opt_fits 32 (jd_Health j).

Definition status_ok (cs : ClientStatus) : Prop := fits 64 (cs_DownBps cs) ∧ fits 64 (cs_UpBps cs) ∧ opt_fits 64 (cs_FreeDisk cs).

Definition body_ok (b : body) : Prop :=
  match b with
  | BJobs jobs => Forall job_ok jobs
  | BDescribe job _ _ => job_ok job
  | BStatuses l => Forall status_ok l
  | BConfig revision _ | BApplied revision _ _ => fits 64 revision
  | BTest r => status_ok (ct_Status r)
  | _ => True
  end.

(** *** Of the types *)

(** The conditions on a struct's fields, one by one. *)
Ltac fields_ok :=
  unfold ClientStatus_type, ClientStatus_go, TypeInfo_type, TypeInfo_go, ClientInfo_type, ClientInfo_go, ApplyError_type, ApplyError_go,
    describeDTO_fields, describeDTO_values, jobDTO_fields, jobDTO_values; cbn [app];
  split; [vm_compute; reflexivity|]; repeat match goal with |- _ ∧ _ => split end; try done; destruct_and?; eauto with gw lia.

Lemma jobDTO_ok j : job_ok j → go_ok (TStruct jobDTO_fields) (GStruct (jobDTO_values j)).
Proof. unfold job_ok. intros H. fields_ok. Qed.

Lemma describeDTO_ok j files message : job_ok j → go_ok (TStruct describeDTO_fields) (GStruct (describeDTO_values j files message)).
Proof. unfold job_ok. intros H. fields_ok. Qed.

Lemma ClientStatus_ok cs : status_ok cs → go_ok ClientStatus_type (ClientStatus_go cs).
Proof. unfold status_ok. intros H. fields_ok. Qed.

Lemma TypeInfo_ok ti : go_ok TypeInfo_type (TypeInfo_go ti).
Proof. fields_ok. Qed.

Lemma ClientInfo_ok i : go_ok ClientInfo_type (ClientInfo_go i).
Proof. fields_ok. Qed.

Lemma ApplyError_ok e : go_ok ApplyError_type (ApplyError_go e).
Proof. fields_ok. Qed.

#[local] Hint Resolve jobDTO_ok describeDTO_ok ClientStatus_ok TypeInfo_ok ClientInfo_ok ApplyError_ok : gw.

Lemma go_ok_each {A} t (f : A → goval) l : (∀ x, go_ok t (f x)) → go_ok (TSlice t) (go_slice f l).
Proof. intros Hf. apply go_ok_slice, Forall_true, Hf. Qed.

Lemma go_ok_all {A} (P : A → Prop) t f l : (∀ x, P x → go_ok t (f x)) → Forall P l → go_ok (TSlice t) (go_slice f l).
Proof. intros Hf Hl. apply go_ok_slice. eapply Forall_impl; eauto. Qed.

#[local] Hint Resolve go_ok_each go_ok_all : gw.

Lemma body_go_ok b t x : body_ok b → body_go b = Some (t, x) → go_ok t x ∧ (Z.of_nat (depth t) ≤ maxNestingDepth)%Z.
Proof.
  intros Hok Hb. destruct b; cbn [body_go body_ok] in *; try discriminate Hb; injection Hb as <- <-; (split; [|vm_compute; discriminate]);
    eauto with gw; try done;
    unfold configClientsResponse_type, configApplyResponse_type, configTestResponse_type, configTestResponse_go; fields_ok.
Qed.

(** *** What is read *)

(** The fields of a struct that was read, one by one: strings, integers that may be absent, lists of strings. *)
Ltac fields_read :=
  f_equal; try done; first
    [apply omitted_string | cbn; match goal with |- _ = ?o => destruct o; reflexivity end | apply as_list_strings | apply as_list_nil_strings].

Lemma jobDTO_read j : of_jobDTO (norm (TStruct jobDTO_fields) (GStruct (jobDTO_values j))) = sanitize_job j.
Proof. destruct j. unfold of_jobDTO, sanitize_job, jobDTO_fields, jobDTO_values. cbv zeta. fields_read. Qed.

Lemma as_omitted_map m :
  as_map (if is_empty (GMap (Some m)) then GMap None else norm TMap (GMap (Some m))) = sanitize_map m.
Proof. cbn. case_bool_decide as Hm; [subst m|done]. unfold sanitize_map. by rewrite map_to_list_empty. Qed.

Lemma ClientStatus_read cs : of_ClientStatus (norm ClientStatus_type (ClientStatus_go cs)) = sanitize_status cs.
Proof.
  destruct cs. unfold of_ClientStatus, sanitize_status, ClientStatus_type, ClientStatus_go. cbv zeta.
  f_equal; try done; [apply omitted_string|cbn; by destruct cs_FreeDisk|apply as_omitted_map].
Qed.

Lemma TypeInfo_read ti : of_TypeInfo (norm TypeInfo_type (TypeInfo_go ti)) = sanitize_type ti.
Proof. destruct ti. unfold of_TypeInfo, sanitize_type, TypeInfo_type, TypeInfo_go. cbv zeta. fields_read. Qed.

Lemma ClientInfo_read i : of_ClientInfo (norm ClientInfo_type (ClientInfo_go i)) = sanitize_info i.
Proof.
  destruct i. unfold of_ClientInfo, sanitize_info, ClientInfo_type, ClientInfo_go. cbv zeta.
  f_equal; try done; [apply as_list_strings|]. by destruct info_Source as [[]|].
Qed.

Lemma ApplyError_read e : of_ApplyError (norm ApplyError_type (ApplyError_go e)) = sanitize_apply_error e.
Proof. by destruct e. Qed.

Lemma describeDTO_read j files message :
  read_body (BDescribe j files message) (norm (TStruct describeDTO_fields) (GStruct (describeDTO_values j files message))) =
  sanitize_body (BDescribe j files message).
Proof.
  cbn [read_body sanitize_body]. f_equal; [|destruct files; [done|apply as_list_strings]|apply omitted_string].
  rewrite <- jobDTO_read. done.
Qed.

Lemma error_read msg : read_body (BError msg) (norm TMap (GMap (Some {["error" := msg]}))) = sanitize_body (BError msg).
Proof. cbn [read_body sanitize_body norm as_map]. rewrite map_to_list_singleton. done. Qed.

Lemma body_read b t x : body_go b = Some (t, x) → read_body b (norm t x) = sanitize_body b.
Proof.
  intros Hb. destruct b; cbn [body_go] in *; try discriminate Hb; injection Hb as <- <-.
  - apply error_read.
  - done.
  - cbn [read_body sanitize_body]. by rewrite as_list_strings.
  - cbn [read_body sanitize_body]. by rewrite (as_list_round _ _ _ sanitize_job) by (done || apply jobDTO_read).
  - apply describeDTO_read.
  - cbn [read_body sanitize_body]. by rewrite (as_list_round _ _ _ sanitize_status) by (done || apply ClientStatus_read).
  - cbn [read_body sanitize_body]. by rewrite (as_list_round _ _ _ sanitize_type) by (done || apply TypeInfo_read).
  - cbn [read_body sanitize_body]. f_equal. apply (as_list_round ClientInfo_type); [done|apply ClientInfo_read].
  - cbn [read_body sanitize_body]. f_equal; [apply as_list_strings|apply (as_list_round ApplyError_type); [done|apply ApplyError_read]].
  - cbn [read_body sanitize_body]. do 2 f_equal. apply ClientStatus_read.
Qed.

(** A value and the line end after it. *)
Lemma json_Unmarshal_line t x text :
  go_ok t x → (Z.of_nat (depth t) ≤ maxNestingDepth)%Z → json_Marshal t x = Some text →
  json_Unmarshal t (text +:+ newline) = Ok (norm t x).
Proof.
  intros Hok Hd. unfold json_Marshal. destruct (encode t x) as [j|] eqn:He; [|done]. intros [= <-].
  destruct (round_all t x j Hok He) as (Hr & Hj & _). unfold json_Unmarshal. rewrite chars_app. fold (jtext j).
  rewrite (scan_json j (depth t) (chars newline) Hj Hd); [|apply number_stop_follows, number_stop_cons; set_solver].
  change (skip_space (chars newline)) with (@nil ascii). cbv iota. unfold typed. by rewrite Hr.
Qed.

(** What a job's answer is made of. *)
Lemma job_dto_ok adapter id wanted title state v : view_ok v → job_ok (job_dto adapter id wanted title state v).
Proof.
  intros (H1 & H2 & H3 & H4 & H5 & H6 & H7). unfold job_ok, job_dto.
  cbn [jd_ProgressPct jd_Downloaded jd_SizeBytes jd_SpeedBps jd_EtaSec jd_Seeders jd_Leechers jd_Health].
  split_and!; auto using pct_finite, optInt64_fits, optInt32_fits, optCount_fits.
Qed.

(** ** Properties *)

(** C14: the bytes of an answer.  Only a handler that gives no value answers without a body; every other answer is
    announced as JSON and is one JSON text and a line end, which a caller that declares the same fields reads back
    as the handler's value, every number, flag, list and absent field as it was, invalid bytes of a string
    replaced by U+FFFD.  So no reply of the gateway is lost for a name, a message or a list it holds, provided
    its integers are in the range of their fields and its percentages are numbers, as they are for every job of
    which the client reported numbers of their types. *)
Theorem replies_read_back (r : reply) :
  body_ok (re_body r) →
  (let '(code, headers, bytes) := writeJSON r in
  code = re_code r ∧
  match body_go (re_body r) with
  | None => re_body r = BEmpty ∧ headers = [] ∧ bytes = EmptyString
  | Some (t, _) =>
      headers = [("Content-Type", "application/json")] ∧
      ∃ text v, bytes = text +:+ newline ∧ json_Unmarshal t bytes = Ok v ∧ read_body (re_body r) v = sanitize_body (re_body r)
  end) ∧
  ∀ adapter id wanted title state v, view_ok v → job_ok (job_dto adapter id wanted title state v).
Proof.
  intros Hok. split; [|exact job_dto_ok]. unfold writeJSON. destruct (body_go (re_body r)) as [[t x]|] eqn:Hb.
  - destruct (body_go_ok _ _ _ Hok Hb) as [Hg Hd]. destruct (json_round t x Hg Hd) as (text & Hm & _). rewrite Hm.
    split_and!; [done|done|]. exists text, (norm t x). split_and!; [done|by apply json_Unmarshal_line|by apply body_read].
  - split; [done|]. by destruct (re_body r).
Qed.

(** A paused client with a name that is not UTF-8, and how it is read. *)
Definition demo_reply : reply := MkReply 200 (BTest (MkConfigTestResponse true "21.1" EmptyString
  (MkClientStatus "n" "nzbget" (str ["a"; "255"]%char) true EmptyString 1048576 0 true (Some 5000000000%Z)
     {["servers" := "2/2 <active>"]}))).

Lemma replies_read_back_witness :
  body_ok (re_body demo_reply) ∧
  ∃ v, json_Unmarshal configTestResponse_type (writeJSON demo_reply).2 = Ok v ∧
       read_body (re_body demo_reply) v = sanitize_body (re_body demo_reply).
Proof.
  assert (Hok : body_ok (re_body demo_reply)) by (cbn; unfold status_ok, fits, opt_fits; cbn; unfold fits; lia).
  split; [exact Hok|]. destruct (replies_read_back demo_reply Hok) as [(_ & _ & text & v & _ & Hu & Hr) _].
  exists v. split; [exact Hu|exact Hr].
Defined.
