(* ===== verification/Programs.v ===== *)
(** * cmd/server: the gateway's goroutines as programs over its critical sections

    Gateway.v has each handler as one function from state to state.  Here the same code is a program:
    a sequence of the atomic actions it is made of (a critical section of a mutex, one call to a
    client, one event), in the order the source takes them and with the control flow between them, so
    that Threads.v can interleave them.  [handleAdd_run] and its companions show that a program run
    alone does what Gateway.v and Jobs.v say.

    A program is a free monad over [action], with the result of each action as the type [res] gives. *)

From S2P Require Import Prelude GoStrings Adapters Responses Clients Registry RegistrySpec Events Interfaces GoFloat Jobs Gateway.

(** ** Programs *)

Section free.
Context {action : Type} {res : action → Type}.

Inductive prog (T : Type) : Type :=
  | Ret (x : T)
  | Act (a : action) (k : res a → prog T).
Arguments Ret {T} _.
Arguments Act {T} _ _.

Fixpoint bind {S T : Type} (p : prog S) (f : S → prog T) : prog T :=
  match p with
  | Ret x => f x
  | Act a k => Act a (λ r, bind (k r) f)
  end.

(** Running a program alone, given what each action does to the state. *)
Fixpoint interp {T St : Type} (h : ∀ a : action, St → res a * St) (p : prog T) (st : St) : T * St :=
  match p with
  | Ret x => (x, st)
  | Act a k => let (r, st) := h a st in interp h (k r) st
  end.

Lemma interp_bind {S T St : Type} (h : ∀ a, St → res a * St) (p : prog S) (f : S → prog T) st :
  interp h (bind p f) st = let (x, st) := interp h p st in interp h (f x) st.
Proof.
  revert st. induction p as [x|a k IH]; intros st; cbn; [done|]. destruct (h a st) as [r st']. apply IH.
Qed.
End free.
Arguments prog {action} res T.
Arguments Ret {action res T} _.
Arguments Act {action res T} _ _.

(** [let* x := p in q] runs [p], then [q] with its result. *)
#[local] Notation "'let*' x := p 'in' q" := (bind p (λ x, q)) (at level 10, x pattern, p at level 100, q at level 200).

(** The state a program runs on: the gateway, the events published so far, the world. *)
Abbreviation world_state A W := (gateway A * list Event * W)%type.

Section programs.
Context {A W : Type} `{ClientFactory A} `{AdapterOps A W} `{Quote} `{FloatConv}.

(** What a goroutine is started for: the adoption of a client after a push, one poll of one job with
    the clock readings it will make. *)
Inductive task :=
  | GoAdopt (id : string)
  | GoPoll (clk : Clock) (job : tracked).

(** The actions.  The first group takes [bodyMu], the second the registry's lock, the third the job
    table's; the fourth calls a client; then events, goroutines, the wait group and the semaphore. *)
Inductive action :=
  | AdmitAdd (n : Z)
  | ReleaseBody (m : Z)
  | LeaseClient (id : string)
  | ReleaseClient (id : string)
  | GetClient (id : string)
  | ActiveClients
  | ConfigClients
  | ApplyPush (rev : Z) (specs : list ClientSpec)
  | ReapClients
  | Track (t : tracked)
  | TrackIfAbsent (t : tracked)
  | Untrack (adapter id : string)
  | Tracked (adapter id : string)
  | Snapshot
  | MarkMissing (now : Z) (job : tracked)
  | ClearMissing (job : tracked)
  | PrevSample (job : tracked)
  | Observe (now : Z) (job : tracked) (v : JobView)
  | CallAdd (ad : A) (j : Job)
  | CallDescribe (ad : A) (id : string)
  | CallRemove (ad : A) (id : string)
  | CallControl (f : string → W → result error unit * W) (id : string)
  | CallStatus (f : W → ClientStatus * W)
  | CallAdopt (f : W → result error (list AdoptedJob) * W)
  | Emit (ev : Event)
  | Go (t : task)
  | Wait (tid : nat)
  | Acquire
  | Free_slot.

Definition res (a : action) : Type :=
  match a with
  | AdmitAdd _ => option Z
  | LeaseClient _ => result lease_error (Client A)
  | GetClient _ => option A
  | ActiveClients => list (Client A)
  | ConfigClients => Z * list ClientInfo
  | ApplyPush _ _ => ApplyResult A
  | ReapClients => list string
  | TrackIfAbsent _ | MarkMissing _ _ => bool
  | Tracked _ _ => option tracked
  | Snapshot => list tracked
  | PrevSample _ => Z * option Z
  | CallAdd _ _ => result error string
  | CallDescribe _ _ => result error JobView
  | CallRemove _ _ | CallControl _ _ => result error unit
  | CallStatus _ => ClientStatus
  | CallAdopt _ => result error (list AdoptedJob)
  | Go _ => nat
  | _ => unit
  end.

(** One action. *)
Definition act (a : action) : prog res (res a) := Act a Ret.

(** ** Adds *)

(** [handleAdd] once the lease is held, up to its deferred [release]. *)
Definition add_leased_prog (id : string) (c : Client A) (req : addRequest) : prog res reply :=
  let refuses_payload :=
    match LookupType (c_Type c) with
    | Some ti => (0 <? len (ar_Payload req))%Z && negb (ti_AcceptsPayload ti)
    | None => false
    end in
  if refuses_payload then Ret (err_no_payload (c_Type c))
  else
    let* r := act (CallAdd (c_Adapter c) (add_job c req)) in
    match r with
    | Err ErrPayloadUnsupported => Ret (err_no_payload (c_Type c))
    | Err e => Ret (write_error 502 (PublicError (Some e)))
    | Ok jobID =>
        let* _ := act (Track (new_tracked id (c_Type c) jobID (ar_Title req) (ar_WantedItemID req))) in
        let* _ := act (Emit (started_event c id jobID req)) in
        Ret (MkReply 202 (BMap [("adapter", id); ("client", id); ("client_job_id", jobID)]))
    end.

(** [handleAdd] once admitted, up to its deferred [admitted]. *)
Definition add_admitted_prog (decoded : result decode_error addRequest) : prog res reply :=
  match decoded with
  | Err e => Ret (decode_reply maxAddBody e)
  | Ok req =>
      let id := add_id req in
      if negb (bool_decide (ar_Client req = EmptyString)) && negb (bool_decide (ar_Adapter req = EmptyString)) &&
         negb (bool_decide (ar_Client req = ar_Adapter req))
      then Ret (write_error 400 "client and adapter name different clients")
      else if bool_decide (id = EmptyString) ||
              (bool_decide (ar_Source req = EmptyString) && (len (ar_Payload req) =? 0)%Z)
      then Ret (write_error 400 "client (or adapter) and source or payload_b64 are required")
      else
        let* l := act (LeaseClient id) in
        match l with
        | Err ErrUnknownClient => Ret (write_error 404 ("no such client: " +:+ id))
        | Err ErrClientDraining =>
            Ret (write_error 409 ("client " +:+ id +:+ " was removed and accepts no new downloads"))
        | Ok c =>
            let* rep := add_leased_prog id c req in
            let* _ := act (ReleaseClient id) in
            Ret rep
        end
  end.

Definition handleAdd_prog (contentLength : Z) (decoded : result decode_error addRequest) : prog res reply :=
  let* a := act (AdmitAdd contentLength) in
  match a with
  | None => Ret (write_error 429 "too many large adds in progress; retry shortly")
  | Some n =>
      let* rep := add_admitted_prog decoded in
      let* _ := act (ReleaseBody n) in
      Ret rep
  end.

(** ** The other download handlers *)

Definition handleRemove_prog (name id : string) : prog res reply :=
  let* ad := act (GetClient name) in
  match ad with
  | None => Ret (write_error 404 "no such client")
  | Some ad =>
      let* r := act (CallRemove ad id) in
      match r with
      | Err e => Ret (write_error 502 (PublicError (Some e)))
      | Ok _ => let* _ := act (Untrack name id) in Ret (MkReply 204 BEmpty)
      end
  end.

Definition handleList_prog : prog res reply :=
  let* jobs := act Snapshot in Ret (handleList jobs).

Definition handleDescribe_prog (name id : string) : prog res reply :=
  let* ad := act (GetClient name) in
  match ad with
  | None => Ret (write_error 404 "no such client")
  | Some ad =>
      let* r := act (CallDescribe ad id) in
      match r with
      | Err e => Ret (write_error 502 (PublicError (Some e)))
      | Ok v =>
          if bool_decide (v_NativeState v = NotFoundState)
          then Ret (MkReply 404 (BMap [("error", name +:+ " does not know job " +:+ id); ("adapter", name);
                                       ("client_job_id", id); ("native_state", NotFoundState)]))
          else
            let* t := act (Tracked name id) in
            let '(wanted, title) :=
              match t with
              | Some t => (t_wantedItemID t, titleOf t v)
              | None => (EmptyString, v_Title v)
              end in
            Ret (MkReply 200 (BDescribe (job_dto name id wanted title (v_State v) v) (v_Files v) (v_Message v)))
      end
  end.

Definition handleControl_prog (pause : bool) (name id : string) : prog res reply :=
  let* ad := act (GetClient name) in
  match ad with
  | None => Ret (write_error 404 "no such client")
  | Some ad =>
      match as_Controller ad with
      | None => Ret (write_error 501 (name +:+ " cannot " +:+ if pause then "pause" else "resume"))
      | Some ctrl =>
          let* r := act (CallControl (if pause then Pause ctrl else Resume ctrl) id) in
          match r with
          | Err e => Ret (write_error 502 (PublicError (Some e)))
          | Ok _ => Ret (MkReply 204 BEmpty)
          end
      end
  end.

Fixpoint client_statuses_prog (clients : list (Client A)) : prog res (list ClientStatus) :=
  match clients with
  | [] => Ret []
  | c :: clients =>
      let* cs := match as_Reporter (c_Adapter c) with
                 | Some rep => act (CallStatus rep)
                 | None => Ret (unreported_status (Name (c_Adapter c)))
                 end in
      let* rest := client_statuses_prog clients in
      Ret (with_identity (c_ID c) (c_Type c) cs :: rest)
  end.

Definition handleClientStatus_prog : prog res reply :=
  let* clients := act ActiveClients in
  let* l := client_statuses_prog clients in
  Ret (MkReply 200 (BStatuses l)).

Definition handleConfigClients_prog : prog res reply :=
  let* c := act ConfigClients in Ret (MkReply 200 (BConfig c.1 c.2)).
(** [GET /api/v1/clients]. *)
Definition handleNames_prog : prog res reply :=
  let* clients := act ActiveClients in Ret (MkReply 200 (BNames (c_ID <$> clients))).

(** ** Adoption *)

Fixpoint adopt_jobs_prog (id typ : string) (jobs : list AdoptedJob) : prog res unit :=
  match jobs with
  | [] => Ret tt
  | j :: jobs =>
      let* _ := act (TrackIfAbsent (new_tracked id typ (aj_ClientJobID j) (aj_Title j) EmptyString)) in
      adopt_jobs_prog id typ jobs
  end.

(** [adopt] once the lease is held, up to its deferred [release]. *)
Definition adopt_leased_prog (id : string) (c : Client A) : prog res unit :=
  match as_Rehydrator (c_Adapter c) with
  | None => Ret tt
  | Some f =>
      let* r := act (CallAdopt f) in
      match r with
      | Err _ => Ret tt
      | Ok jobs => adopt_jobs_prog id (c_Type c) jobs
      end
  end.

Definition adopt_prog (id : string) : prog res unit :=
  let* l := act (LeaseClient id) in
  match l with
  | Err _ => Ret tt
  | Ok c =>
      let* _ := adopt_leased_prog id c in
      act (ReleaseClient id)
  end.

Fixpoint adopt_all_prog (ids : list string) : prog res unit :=
  match ids with
  | [] => Ret tt
  | id :: ids => let* _ := adopt_prog id in adopt_all_prog ids
  end.

Definition adoptExisting_prog : prog res unit :=
  let* clients := act ActiveClients in adopt_all_prog (c_ID <$> clients).

(** ** A push *)

(** The adoptions a push starts in the background. *)
Fixpoint go_adopts (ids : list string) : prog res unit :=
  match ids with
  | [] => Ret tt
  | id :: ids => let* _ := act (Go (GoAdopt id)) in go_adopts ids
  end.

Definition handleConfigApply_prog (decoded : result decode_error configPush) : prog res reply :=
  match decoded with
  | Err e => Ret (decode_reply maxConfigBody e)
  | Ok (MkConfigPush revision clients) =>
      match revision with
      | None => Ret (write_error 400 "revision is required and must not be negative")
      | Some revision =>
          if (revision <? 0)%Z then Ret (write_error 400 "revision is required and must not be negative")
          else match clients with
               | None => Ret (write_error 400 "clients is required; send [] to remove every client")
               | Some specs =>
                   let* r := act (ApplyPush revision specs) in
                   let* _ := go_adopts (c_ID <$> res_Started r) in
                   Ret (MkReply 200 (BApplied (res_Revision r) (res_Applied r) (res_Errors r)))
               end
      end
  end.

(** ** The poll loop *)

(** [pollOne] once the client answered [v]. *)
Definition poll_progress_prog (clk : Clock) (job : tracked) (v : JobView) : prog res unit :=
  let* p := act (PrevSample job) in
  let v := fillDerived (clk_rate clk) v p.1 p.2 in
  let* _ := act (Emit (progress_event job v)) in
  act (Observe (clk_observe clk) job v).

Definition poll_view_prog (clk : Clock) (job : tracked) (v : JobView) : prog res unit :=
  match v_State v with
  | StatusCompleted =>
      let* _ := act (Emit (completed_event job v)) in act (Untrack (t_adapter job) (t_clientJobID job))
  | StatusFailed =>
      let* _ := act (Emit (failed_event job (titleOf job v) (v_Message v))) in
      act (Untrack (t_adapter job) (t_clientJobID job))
  | _ =>
      if bool_decide (v_NativeState v = NotFoundState) then
        let* lost := act (MarkMissing (clk_missing clk) job) in
        if lost then
          let* _ := act (Emit (failed_event job (t_title job) ("job is no longer known to " +:+ t_adapter job))) in
          act (Untrack (t_adapter job) (t_clientJobID job))
        else poll_progress_prog clk job v
      else
        let* _ := act (ClearMissing job) in poll_progress_prog clk job v
  end.

Definition pollOne_prog (clk : Clock) (job : tracked) : prog res unit :=
  let* ad := act (GetClient (t_adapter job)) in
  match ad with
  | None => act (Untrack (t_adapter job) (t_clientJobID job))
  | Some ad =>
      let* r := act (CallDescribe ad (t_clientJobID job)) in
      match r with
      | Err _ => Ret tt
      | Ok v => poll_view_prog clk job v
      end
  end.

(** [pollAll]'s loop: a slot of the semaphore, then a goroutine that gives it back; the goroutines
    started, which [wg.Wait] waits for. *)
Fixpoint go_polls (clk : tracked → Clock) (jobs : list tracked) : prog res (list nat) :=
  match jobs with
  | [] => Ret []
  | job :: jobs =>
      let* _ := act Acquire in
      let* tid := act (Go (GoPoll (clk job) job)) in
      let* tids := go_polls clk jobs in
      Ret (tid :: tids)
  end.

Fixpoint wait_all (tids : list nat) : prog res unit :=
  match tids with
  | [] => Ret tt
  | tid :: tids => let* _ := act (Wait tid) in wait_all tids
  end.

Definition pollAll_prog (clk : tracked → Clock) : prog res unit :=
  let* jobs := act Snapshot in
  let* tids := go_polls clk jobs in
  let* _ := wait_all tids in
  let* _ := act ReapClients in
  Ret tt.

(** What a goroutine runs. *)
Definition task_prog (t : task) : prog res unit :=
  match t with
  | GoAdopt id => adopt_prog id
  | GoPoll clk job => let* _ := pollOne_prog clk job in act Free_slot
  end.

(** ** A program alone *)

Definition on_gateway {T} (f : gateway A → T * gateway A) (st : world_state A W) : T * world_state A W :=
  let '(g, evs, w) := st in let (r, g) := f g in (r, (g, evs, w)).

Definition on_jobs {T} (f : job_table → T * job_table) : world_state A W → T * world_state A W :=
  on_gateway (λ g, let (r, j) := f (gw_jobs g) in (r, with_table j g)).

Definition on_registry {T} (f : Registry A → T * Registry A) : world_state A W → T * world_state A W :=
  on_gateway (λ g, let (x, r) := f (gw_reg g) in (x, with_reg r g)).

Definition on_world {T} (f : W → T * W) (st : world_state A W) : T * world_state A W :=
  let '(g, evs, w) := st in let (r, w) := f w in (r, (g, evs, w)).

(** What one action answers and does: the functions of Registry.v, Jobs.v and Gateway.v.  A goroutine
    is not run here, and waiting for one does nothing. *)
Definition perform (a : action) : world_state A W → res a * world_state A W :=
  match a return world_state A W → res a * world_state A W with
  | AdmitAdd n => on_gateway (λ g,
      match admitAdd n (gw_bodyInFlight g) with
      | None => (None, g)
      | Some (m, f) => (Some m, with_inflight f g)
      end)
  | ReleaseBody m => on_gateway (λ g, (tt, with_inflight (admitRelease m (gw_bodyInFlight g)) g))
  | LeaseClient id => on_registry (λ r, match Lease id r with Ok (c, r) => (Ok c, r) | Err e => (Err e, r) end)
  | ReleaseClient id => on_registry (λ r, (tt, release id r))
  | GetClient id => on_registry (λ r, (Get id r, r))
  | ActiveClients => on_registry (λ r, (Active r, r))
  | ConfigClients => on_registry (λ r, (Registry.Config r, r))
  | ApplyPush rev specs => on_gateway (λ g,
      let (r, x) := Apply rev specs (hasJobs (gw_jobs g)) (gw_reg g) in (x, with_reg r g))
  | ReapClients => on_gateway (λ g, let (r, ids) := Reap (hasJobs (gw_jobs g)) (gw_reg g) in (ids, with_reg r g))
  | Track t => on_jobs (λ j, (tt, track t j))
  | TrackIfAbsent t => on_jobs (λ j, trackIfAbsent t j)
  | Untrack a i => on_jobs (λ j, (tt, untrack a i j))
  | Tracked a i => on_jobs (λ j, (j !! key a i, j))
  | Snapshot => on_jobs (λ j, (snapshot j, j))
  | MarkMissing now job => on_jobs (λ j, markMissing now job j)
  | ClearMissing job => on_jobs (λ j, (tt, clearMissing job j))
  | PrevSample job => on_jobs (λ j, (prevSample job j, j))
  | Observe now job v => on_jobs (λ j, (tt, observe now job v j))
  | CallAdd ad j => on_world (Add ad j)
  | CallDescribe ad id => on_world (Describe ad id)
  | CallRemove ad id => on_world (Remove ad id)
  | CallControl f id => on_world (f id)
  | CallStatus f => on_world f
  | CallAdopt f => on_world f
  | Emit ev => λ st, (tt, (st.1.1, st.1.2 ++ [ev], st.2))
  | Go _ => λ st, (O, st)
  | Wait _ | Acquire | Free_slot => λ st, (tt, st)
  end.

(** A program alone, each goroutine it starts run to its end at once. *)
Definition perform_go (a : action) : world_state A W → res a * world_state A W :=
  match a return world_state A W → res a * world_state A W with
  | Go t => λ st, (O, (interp perform (task_prog t) st).2)
  | a => perform a
  end.

Definition run {T} (p : prog res T) : world_state A W → T * world_state A W := interp perform_go p.
End programs.

(** ** Programs run alone are the handlers *)

Section sequential.
Context {A W : Type} `{ClientFactory A} `{AdapterOps A W} `{Quote} `{FloatConv}.

Lemma run_bind {S T} (p : prog (res (A := A) (W := W)) S) (f : S → prog res T) st :
  run (bind p f) st = let (x, st) := run p st in run (f x) st.
Proof. apply interp_bind. Qed.

Lemma run_ret {T} (x : T) (st : world_state A W) : run (Ret x) st = (x, st).
Proof. done. Qed.

Lemma run_act (a : action (A := A) (W := W)) st : run (act a) st = perform_go a st.
Proof. unfold run, act. cbn [interp]. by destruct (perform_go a st). Qed.

(** A program that starts no goroutine. *)
Fixpoint no_go {T} (p : prog (res (A := A) (W := W)) T) : Prop :=
  match p with
  | Ret _ => True
  | Act a k => match a with Go _ => False | _ => True end ∧ ∀ r, no_go (k r)
  end.

Lemma no_go_bind {S T} (p : prog (res (A := A) (W := W)) S) (f : S → prog res T) :
  no_go p → (∀ x, no_go (f x)) → no_go (bind p f).
Proof. intros Hp Hf. induction p as [x|a k IH]; cbn in *; [done|]. destruct Hp as [Ha Hk]. split; [done|]. intros r. by apply IH. Qed.

(** Nothing to start: both interpreters agree. *)
Lemma interp_perform {T} (p : prog (res (A := A) (W := W)) T) st : no_go p → interp perform p st = run p st.
Proof.
  revert st. unfold run. induction p as [x|a k IH]; intros st; [done|]. intros [Ha Hk]. cbn [interp].
  assert (E : perform_go a st = perform a st) by (by destruct a). rewrite E. destruct (perform a st) as [r st']. by apply IH.
Qed.

Ltac no_go_tac :=
  repeat first
    [ apply no_go_bind; [|intros ?]
    | progress cbn [no_go act bind]
    | match goal with
      | |- no_go (match ?x with _ => _ end) => destruct x
      | |- no_go (if ?x then _ else _) => destruct x
      | |- _ ∧ _ => split
      end
    | done | intros ? ].

Lemma no_go_adopt_jobs id typ jobs : no_go (adopt_jobs_prog id typ jobs).
Proof. induction jobs; cbn [adopt_jobs_prog]; [done|]. apply no_go_bind; [done|]. done. Qed.

Lemma no_go_adopt id : no_go (adopt_prog id).
Proof.
  unfold adopt_prog, adopt_leased_prog. apply no_go_bind; [done|]. intros [c|e]; [|done]. apply no_go_bind; [|done].
  destruct (as_Rehydrator _); [|done]. apply no_go_bind; [done|]. intros [jobs|e]; [apply no_go_adopt_jobs|done].
Qed.

Lemma no_go_poll clk job : no_go (pollOne_prog clk job).
Proof.
  unfold pollOne_prog, poll_view_prog, poll_progress_prog. no_go_tac.
Qed.

#[local] Ltac step_run := rewrite run_bind, ?run_act; cbn [perform_go perform on_gateway on_jobs on_registry on_world].

(** A reply, and the state a handler of Gateway.v leaves, with its events after those published before. *)
Definition after {T} (evs : list Event) (out : gateway A * T * list Event * W) : T * world_state A W :=
  let '(g, x, evs', w) := out in (x, (g, evs ++ evs', w)).

Lemma add_leased_run id c req g evs w :
  run (add_leased_prog id c req) (g, evs, w) = after evs (add_leased id c req g w).
Proof.
  unfold add_leased_prog, add_leased. destruct (match LookupType _ with Some _ => _ | None => _ end).
  { cbn. by rewrite app_nil_r. }
  step_run. destruct (Add (c_Adapter c) (add_job c req) w) as [[jobID|e] w'].
  - step_run. step_run. done.
  - destruct e; cbn; by rewrite app_nil_r.
Qed.

Lemma add_admitted_run decoded g evs w :
  run (add_admitted_prog decoded) (g, evs, w) = after evs (add_admitted decoded g w).
Proof.
  unfold add_admitted_prog, add_admitted. destruct decoded as [req|e]; [|cbn; by rewrite app_nil_r].
  destruct (_ && _); [cbn; by rewrite app_nil_r|]. destruct (_ || _); [cbn; by rewrite app_nil_r|].
  step_run. destruct (Lease (add_id req) (gw_reg g)) as [[c r]|[]] eqn:Hl.
  - step_run. rewrite add_leased_run. destruct (add_leased (add_id req) c req (with_reg r g) w) as [[[g' rep] evs'] w'].
    cbn [after]. by step_run.
  - cbn. rewrite app_nil_r. by destruct g.
  - cbn. rewrite app_nil_r. by destruct g.
Qed.

Lemma handleAdd_run n decoded g evs w :
  run (handleAdd_prog n decoded) (g, evs, w) = after evs (handleAdd n decoded g w).
Proof.
  unfold handleAdd_prog, handleAdd. step_run. destruct (admitAdd n (gw_bodyInFlight g)) as [[m f]|].
  - step_run. rewrite add_admitted_run. destruct (add_admitted decoded (with_inflight f g) w) as [[[g' rep] evs'] w'].
    cbn [after]. by step_run.
  - cbn. by rewrite app_nil_r.
Qed.

Lemma with_reg_id (g : gateway A) : with_reg (gw_reg g) g = g.
Proof. by destruct g. Qed.

Lemma handleRemove_run name id g evs w :
  run (handleRemove_prog name id) (g, evs, w) = after evs (handleRemove name id g w).
Proof.
  unfold handleRemove_prog, handleRemove, after. step_run. rewrite with_reg_id.
  destruct (Get name (gw_reg g)) as [ad|]; [|by rewrite app_nil_r].
  step_run. destruct (Remove ad id w) as [[u|e] w']; [|by rewrite app_nil_r].
  step_run. by rewrite app_nil_r.
Qed.

(** A handler that leaves the gateway alone. *)
Definition reads {T} (g : gateway A) (evs : list Event) (out : T * W) : T * world_state A W :=
  (out.1, (g, evs, out.2)).

Lemma handleList_run g evs w :
  run handleList_prog (g, evs, w) = (handleList (snapshot (gw_jobs g)), (g, evs, w)).
Proof. unfold handleList_prog. step_run. by rewrite with_table_id. Qed.

Lemma handleDescribe_run name id g evs w :
  run (handleDescribe_prog name id) (g, evs, w) = reads g evs (handleDescribe name id g w).
Proof.
  unfold handleDescribe_prog, handleDescribe, reads. step_run. rewrite with_reg_id.
  destruct (Get name (gw_reg g)) as [ad|]; [|done].
  step_run. destruct (Describe ad id w) as [[v|e] w']; [|done].
  case_bool_decide; [done|]. step_run. rewrite with_table_id. by destruct (gw_jobs g !! key name id).
Qed.

Lemma handleControl_run pause name id g evs w :
  run (handleControl_prog pause name id) (g, evs, w) = reads g evs (handleControl pause name id g w).
Proof.
  unfold handleControl_prog, handleControl, reads. step_run. rewrite with_reg_id.
  destruct (Get name (gw_reg g)) as [ad|]; [|done].
  destruct (as_Controller ad) as [ctrl|]; [|done].
  step_run. destruct pause; [destruct (Pause ctrl id w) as [[u|e] w']|destruct (Resume ctrl id w) as [[u|e] w']]; done.
Qed.

Lemma client_statuses_run clients g evs w :
  run (client_statuses_prog clients) (g, evs, w) = reads g evs (client_statuses clients w).
Proof.
  revert w. induction clients as [|c clients IH]; intros w; [done|]. cbn [client_statuses_prog client_statuses].
  rewrite run_bind. destruct (as_Reporter (c_Adapter c)) as [rep|]; cbn iota.
  - rewrite (run_act (CallStatus rep)). cbn [perform_go perform on_world]. destruct (rep w) as [cs w']. rewrite run_bind, IH.
    unfold reads. by destruct (client_statuses clients w') as [rest w''].
  - rewrite run_ret, run_bind, IH. unfold reads.
    by destruct (client_statuses clients w) as [rest w''].
Qed.

Lemma handleClientStatus_run g evs w :
  run handleClientStatus_prog (g, evs, w) = reads g evs (handleClientStatus g w).
Proof.
  unfold handleClientStatus_prog, handleClientStatus, reads. step_run. rewrite with_reg_id, run_bind, client_statuses_run.
  unfold reads. by destruct (client_statuses (Active (gw_reg g)) w).
Qed.

Lemma handleNames_run g evs w :
  run handleNames_prog (g, evs, w) = (MkReply 200 (BNames (Names (gw_reg g))), (g, evs, w)).
Proof. unfold handleNames_prog. step_run. by rewrite with_reg_id. Qed.

Lemma handleConfigClients_run g evs w :
  run handleConfigClients_prog (g, evs, w) = (handleConfigClients g, (g, evs, w)).
Proof. unfold handleConfigClients_prog, handleConfigClients. step_run. by rewrite with_reg_id. Qed.

(** Adoption publishes nothing. *)
Definition silently (evs : list Event) (out : gateway A * W) : unit * world_state A W :=
  (tt, (out.1, evs, out.2)).

Lemma adopt_jobs_run id typ jobs g evs w :
  run (adopt_jobs_prog id typ jobs) (g, evs, w) =
  (tt, (with_table (adopt_jobs id typ jobs (gw_jobs g)) g, evs, w)).
Proof.
  revert g. induction jobs as [|j jobs IH]; intros g; [unfold adopt_jobs; cbn; by rewrite with_table_id|].
  cbn [adopt_jobs_prog]. step_run. unfold adopt_jobs. cbn [foldl].
  destruct (trackIfAbsent _ (gw_jobs g)) as [b table]. by rewrite IH.
Qed.

Lemma adopt_run id g evs w : run (adopt_prog id) (g, evs, w) = silently evs (adopt id g w).
Proof.
  unfold adopt_prog, adopt, silently. step_run.
  destruct (Lease id (gw_reg g)) as [[c r]|e]; [|by rewrite with_reg_id].
  rewrite run_bind. unfold adopt_leased_prog. destruct (as_Rehydrator (c_Adapter c)) as [f|]; cbn iota; [|by rewrite run_ret].
  step_run. destruct (f w) as [[jobs|e] w']; cbn iota; [|by rewrite run_ret].
  rewrite adopt_jobs_run. done.
Qed.

Lemma adopt_all_run ids g evs w : run (adopt_all_prog ids) (g, evs, w) = silently evs (adopt_all ids g w).
Proof.
  revert g w. induction ids as [|id ids IH]; intros g w; [done|]. cbn [adopt_all_prog]. rewrite run_bind, adopt_run.
  unfold silently, adopt_all in *. cbn [foldl fst snd]. destruct (adopt id g w) as [g' w']. by rewrite IH.
Qed.

Lemma adoptExisting_run g evs w : run adoptExisting_prog (g, evs, w) = silently evs (adoptExisting g w).
Proof. unfold adoptExisting_prog, adoptExisting. step_run. rewrite with_reg_id. apply adopt_all_run. Qed.

(** A push, and then the adoptions it started. *)
Definition applied (evs : list Event) (w : W) (out : gateway A * reply * list string) : reply * world_state A W :=
  let '(g, rep, ids) := out in (rep, (silently evs (adopt_all ids g w)).2).

Lemma go_adopts_run ids g evs w :
  run (go_adopts ids) (g, evs, w) = silently evs (adopt_all ids g w).
Proof.
  revert g w. induction ids as [|id ids IH]; intros g w; [done|]. cbn [go_adopts].
  rewrite run_bind, run_act. unfold silently, adopt_all in *. cbn [foldl fst snd].
  assert (Ha : (interp perform (adopt_prog id) (g, evs, w)).2 = ((adopt id g w).1, evs, (adopt id g w).2)).
  { pose proof (adopt_run id g evs w) as E. unfold silently in E. rewrite <- (interp_perform (adopt_prog id)) in E by apply no_go_adopt.
    by rewrite E. }
  cbn [perform_go task_prog]. rewrite Ha. destruct (adopt id g w) as [g' w']. by rewrite IH.
Qed.

Lemma handleConfigApply_run decoded g evs w :
  run (handleConfigApply_prog decoded) (g, evs, w) =
  applied evs w (handleConfigApply (λ specs, sweep_ids specs (gw_reg g)) decoded g).
Proof.
  unfold handleConfigApply_prog, handleConfigApply, applied. destruct decoded as [[revision clients]|e]; [|done].
  destruct revision as [revision|]; [|done]. destruct (revision <? 0)%Z; [done|]. destruct clients as [specs|]; [|done].
  step_run. unfold Apply. destruct (Apply_in _ revision specs _ (gw_reg g)) as [r x].
  rewrite run_bind, go_adopts_run. done.
Qed.

(** What a poll leaves: its table and its events. *)
Definition polled (g : gateway A) (evs : list Event) (out : job_table * list Event * W) : unit * world_state A W :=
  let '(j, evs', w) := out in (tt, (with_table j g, evs ++ evs', w)).

Lemma with_table_twice j j' (g : gateway A) : with_table j (with_table j' g) = with_table j g.
Proof. done. Qed.

Lemma poll_progress_run clk job v g evs w :
  run (poll_progress_prog clk job v) (g, evs, w) =
  polled g evs (let (pb, pt) := prevSample job (gw_jobs g) in
                let v := fillDerived (clk_rate clk) v pb pt in
                (observe (clk_observe clk) job v (gw_jobs g), [progress_event job v], w)).
Proof.
  unfold poll_progress_prog. step_run. destruct (prevSample job (gw_jobs g)) as [pb pt]. step_run.
  rewrite with_table_id. done.
Qed.

Lemma poll_view_run clk job v g evs w :
  run (poll_view_prog clk job v) (g, evs, w) = polled g evs (poll_view clk job v (gw_jobs g), w).
Proof.
  unfold poll_view_prog, poll_view.
  assert (Hend : ∀ ev (g : gateway A),
    run (let* _ := act (Emit ev) in act (Untrack (t_adapter job) (t_clientJobID job))) (g, evs, w) =
    polled g evs (untrack (t_adapter job) (t_clientJobID job) (gw_jobs g), [ev], w)) by (intros; by step_run).
  assert (Hgo : ∀ (g : gateway A), run (poll_progress_prog clk job v) (g, evs, w) =
    polled g evs (let (pb, pt) := prevSample job (gw_jobs g) in
                  let v := fillDerived (clk_rate clk) v pb pt in
                  (observe (clk_observe clk) job v (gw_jobs g), [progress_event job v]), w)).
  { intros g'. rewrite poll_progress_run. by destruct (prevSample job (gw_jobs g')). }
  destruct (v_State v); try (by rewrite Hend); case_bool_decide; step_run; try (by rewrite Hgo);
    destruct (markMissing (clk_missing clk) job (gw_jobs g)) as [[] j]; rewrite ?Hend, ?Hgo; done.
Qed.

Lemma pollOne_run clk job g evs w :
  run (pollOne_prog clk job) (g, evs, w) = polled g evs (pollOne (gw_reg g) clk job (gw_jobs g) w).
Proof.
  unfold pollOne_prog, pollOne. step_run. rewrite with_reg_id.
  destruct (Get (t_adapter job) (gw_reg g)) as [ad|]; [|cbn; by rewrite app_nil_r].
  step_run. destruct (Describe ad (t_clientJobID job) w) as [[v|e] w']; [|cbn; by rewrite app_nil_r, with_table_id].
  apply poll_view_run.
Qed.

Lemma go_polls_run clk jobs g evs w :
  (run (go_polls clk jobs) (g, evs, w)).2 =
  (polled g evs (poll_jobs (gw_reg g) ((λ t, (t, clk t)) <$> jobs) (gw_jobs g) w)).2.
Proof.
  revert g evs w. induction jobs as [|job jobs IH]; intros g evs w; [cbn; by rewrite app_nil_r, with_table_id|].
  cbn [go_polls fmap list_fmap poll_jobs]. step_run. rewrite run_bind, run_act. cbn [perform_go task_prog].
  rewrite interp_bind, (interp_perform (pollOne_prog (clk job) job)) by apply no_go_poll. rewrite pollOne_run.
  destruct (pollOne (gw_reg g) (clk job) job (gw_jobs g) w) as [[j evs1] w1]. unfold polled at 1. cbn [interp act perform snd].
  rewrite run_bind. pose proof (IH (with_table j g) (evs ++ evs1) w1) as E.
  destruct (run (go_polls clk jobs) (with_table j g, evs ++ evs1, w1)) as [tids st]. cbn [snd] in E. rewrite run_ret. cbn [snd].
  rewrite E. cbn [gw_reg gw_jobs with_table].
  destruct (poll_jobs (gw_reg g) _ j w1) as [[j2 evs2] w2]. cbn. by rewrite app_assoc.
Qed.

Lemma wait_all_run tids (st : world_state A W) : run (wait_all tids) st = (tt, st).
Proof. induction tids as [|tid tids IH]; [done|]. cbn [wait_all]. by step_run. Qed.

Lemma pollAll_run clk g evs w :
  run (pollAll_prog clk) (g, evs, w) =
  let '(r, j, evs', w') := pollAll (gw_reg g) ((λ t, (t, clk t)) <$> snapshot (gw_jobs g)) (gw_jobs g) w in
  (tt, (with_reg r (with_table j g), evs ++ evs', w')).
Proof.
  unfold pollAll_prog, pollAll. step_run. rewrite with_table_id, run_bind.
  pose proof (go_polls_run clk (snapshot (gw_jobs g)) g evs w) as E.
  destruct (run (go_polls clk (snapshot (gw_jobs g))) (g, evs, w)) as [tids st]. cbn [snd] in E. rewrite E.
  destruct (poll_jobs (gw_reg g) _ (gw_jobs g) w) as [[j evs'] w']. unfold polled. cbn [snd].
  rewrite run_bind, wait_all_run. step_run. cbn [gw_jobs gw_reg with_table].
  by destruct (Reap (hasJobs j) (gw_reg g)) as [r ids].
Qed.
End sequential.
