(* ===== verification/Threads.v ===== *)
(** * cmd/server: requests, polls and pushes running at the same time

    The whole server: a pool of goroutines, each a program of Programs.v, over one gateway.  A step
    runs one action of one goroutine; a push and a reaping hold the registry's lock for many steps
    (System.v has the walk), and the other goroutines that need the registry wait meanwhile.
    Requests arrive at any moment, the poll loop ticks when its last tick is over, and the clients
    change on their own.

    A goroutine owns what it must give back: the room it reserved in the budget, its lease, its slot
    of the semaphore.  [owns] follows them through a program; every handler is shown to give back what it took
    on every path ([request_owns]), and the pool simulates System.v with the leases its goroutines
    hold. *)

From S2P Require Import Prelude GoStrings Adapters Responses Clients Registry RegistrySpec Events Interfaces GoFloat Jobs System Gateway Programs.

#[local] Notation "'let*' x := p 'in' q" := (bind p (λ x, q)) (at level 10, x pattern, p at level 100, q at level 200).

Section threads.
Context {A W : Type} `{ClientFactory A} `{AdapterOps A W} `{Quote} `{FloatConv}.

Abbreviation goroutine := (prog (res (A := A) (W := W)) (option reply)).

(** ** What a goroutine is started for *)

Definition answering (p : prog (res (A := A) (W := W)) reply) : goroutine := let* rep := p in Ret (Some rep).
Definition background (p : prog (res (A := A) (W := W)) unit) : goroutine := let* _ := p in Ret None.

(** The requests that reach the gateway's state, and the adoption at boot. *)
Inductive request :=
  | RqAdd (contentLength : Z) (decoded : result decode_error addRequest)
  | RqRemove (name id : string)
  | RqList
  | RqDescribe (name id : string)
  | RqControl (pause : bool) (name id : string)
  | RqStatus
  | RqNames
  | RqConfigClients
  | RqConfigApply (decoded : result decode_error configPush)
  | RqBoot.

Definition request_prog (rq : request) : goroutine :=
  match rq with
  | RqAdd n d => answering (handleAdd_prog n d)
  | RqRemove name id => answering (handleRemove_prog name id)
  | RqList => answering handleList_prog
  | RqDescribe name id => answering (handleDescribe_prog name id)
  | RqControl pause name id => answering (handleControl_prog pause name id)
  | RqStatus => answering handleClientStatus_prog
  | RqNames => answering handleNames_prog
  | RqConfigClients => answering handleConfigClients_prog
  | RqConfigApply d => answering (handleConfigApply_prog d)
  | RqBoot => background adoptExisting_prog
  end.

(** ** The pool *)

(** [p_owner] holds the registry's lock for a push or a reaping; [p_slots] are the slots of [pollAll]'s
    semaphore in use; [p_poll] is the last tick of the poll loop. *)
Record pool := MkPool {
  p_gw : gateway A;
  p_events : list Event;
  p_world : W;
  p_lock : lock (A := A);
  p_owner : option nat;
  p_slots : Z;
  p_poll : option nat;
  p_threads : gmap nat goroutine
}.

Definition boot_pool (r : Registry A) (w : W) : pool := MkPool (newGateway r) [] w Free None 0 None ∅.

Definition set_thread (tid : nat) (pr : goroutine) (p : pool) : pool :=
  MkPool (p_gw p) (p_events p) (p_world p) (p_lock p) (p_owner p) (p_slots p) (p_poll p) (<[tid := pr]> (p_threads p)).

Definition set_world (st : world_state A W) (p : pool) : pool :=
  MkPool st.1.1 st.1.2 st.2 (p_lock p) (p_owner p) (p_slots p) (p_poll p) (p_threads p).

Definition set_lock (l : lock (A := A)) (owner : option nat) (p : pool) : pool :=
  MkPool (p_gw p) (p_events p) (p_world p) l owner (p_slots p) (p_poll p) (p_threads p).

Definition set_slots (n : Z) (p : pool) : pool :=
  MkPool (p_gw p) (p_events p) (p_world p) (p_lock p) (p_owner p) n (p_poll p) (p_threads p).

Definition set_poll (tid : nat) (p : pool) : pool :=
  MkPool (p_gw p) (p_events p) (p_world p) (p_lock p) (p_owner p) (p_slots p) (Some tid) (p_threads p).

Definition finished_thread (tid : nat) (p : pool) : Prop := ∃ x, p_threads p !! tid = Some (Ret x).

(** Actions that are one critical section, one call or one event. *)
Definition plain (a : action (A := A) (W := W)) : bool :=
  match a with
  | ApplyPush _ _ | ReapClients | Snapshot | Go _ | Wait _ | Acquire | Free_slot => false
  | _ => true
  end.

(** Actions under the registry's lock. *)
Definition registry_action (a : action (A := A) (W := W)) : bool :=
  match a with
  | LeaseClient _ | ReleaseClient _ | GetClient _ | ActiveClients | ConfigClients => true
  | _ => false
  end.

(** One client of a push's or a reaping's walk: asked about, or acted on. *)
Inductive walk (r : Registry A) (jobs : job_table) : lock (A := A) → lock (A := A) → Prop :=
  | walk_sweep_ask rev specs order id todo sw ans :
      walk r jobs (Sweeping rev specs order (id :: todo) sw ans None)
                  (Sweeping rev specs order (id :: todo) sw ans (Some (hasJobs jobs id)))
  | walk_sweep_act rev specs order id todo sw ans b :
      walk r jobs (Sweeping rev specs order (id :: todo) sw ans (Some b))
                  (Sweeping rev specs order todo (sweep_one (r_leases r) (λ _, b) (sweep_keep specs r) sw id) (<[id := b]> ans) None)
  | walk_reap_ask order id todo m ans :
      walk r jobs (Reaping order (id :: todo) m ans None) (Reaping order (id :: todo) m ans (Some (hasJobs jobs id)))
  | walk_reap_act order id todo m ans b :
      walk r jobs (Reaping order (id :: todo) m ans (Some b))
                  (Reaping order todo (reap_one (r_leases r) (λ _, b) m id) (<[id := b]> ans) None).

(** What a push whose walk ended in [sw] answers. *)
Definition apply_result (rev : Z) (specs : list ClientSpec) (sw : sweep_state (A := A)) (r : Registry A) : ApplyResult A :=
  let st := apply_specs specs r in
  MkApplyResult (match as_Errors st with [] => rev | _ => r_revision r end) (as_Applied st) (as_Errors st)
    (as_Started st) (sort_strings (sw_Draining sw)) (sort_strings (sw_Removed sw)).

(** ** Steps *)

(** One step of a goroutine that is running, or of the walk it started. *)
Inductive gstep : pool → pool → Prop :=
  | gs_act p tid a k r st :
      p_threads p !! tid = Some (Act a k) → plain a = true → (registry_action a = true → p_lock p = Free) →
      perform a (p_gw p, p_events p, p_world p) = (r, st) →
      gstep p (set_thread tid (k r) (set_world st p))
  | gs_snapshot p tid k l :
      p_threads p !! tid = Some (Act Snapshot k) → l ≡ₚ snapshot (gw_jobs (p_gw p)) →
      gstep p (set_thread tid (k l) p)
  | gs_go p tid t k child :
      p_threads p !! tid = Some (Act (Go t) k) → p_threads p !! child = None →
      gstep p (set_thread child (background (task_prog t)) (set_thread tid (k child) p))
  | gs_wait p tid child k :
      p_threads p !! tid = Some (Act (Wait child) k) → finished_thread child p → gstep p (set_thread tid (k tt) p)
  | gs_acquire p tid k :
      p_threads p !! tid = Some (Act Acquire k) → (p_slots p < pollConcurrency)%Z →
      gstep p (set_thread tid (k tt) (set_slots (p_slots p + 1) p))
  | gs_free p tid k :
      p_threads p !! tid = Some (Act Free_slot k) → gstep p (set_thread tid (k tt) (set_slots (p_slots p - 1) p))
  | gs_apply p tid rev specs k order :
      p_threads p !! tid = Some (Act (ApplyPush rev specs) k) → p_lock p = Free →
      sweep_order specs (gw_reg (p_gw p)) order →
      gstep p (set_lock (Sweeping rev specs order order
        (MkSweepState (as_clients (apply_specs specs (gw_reg (p_gw p)))) [] []) ∅ None) (Some tid) p)
  | gs_apply_end p tid rev specs k order sw ans :
      p_threads p !! tid = Some (Act (ApplyPush rev specs) k) → p_owner p = Some tid →
      p_lock p = Sweeping rev specs order [] sw ans None →
      gstep p (set_thread tid (k (apply_result rev specs sw (gw_reg (p_gw p))))
        (set_world (with_reg (apply_done rev specs sw (gw_reg (p_gw p))) (p_gw p), p_events p, p_world p) (set_lock Free None p)))
  | gs_reap p tid k order :
      p_threads p !! tid = Some (Act ReapClients k) → p_lock p = Free →
      order ≡ₚ map_ids (r_clients (gw_reg (p_gw p))) →
      gstep p (set_lock (Reaping order order (r_clients (gw_reg (p_gw p)), []) ∅ None) (Some tid) p)
  | gs_reap_end p tid k order m ans :
      p_threads p !! tid = Some (Act ReapClients k) → p_owner p = Some tid → p_lock p = Reaping order [] m ans None →
      gstep p (set_thread tid (k (sort_strings m.2))
        (set_world (with_reg (with_clients m.1 (gw_reg (p_gw p))) (p_gw p), p_events p, p_world p) (set_lock Free None p)))
  | gs_walk p l :
      walk (gw_reg (p_gw p)) (gw_jobs (p_gw p)) (p_lock p) l → gstep p (set_lock l (p_owner p) p).

(** A step of the server: a request arrives, the poll loop ticks, a client changes on its own, the server is told to stop,
    or a goroutine takes a step. *)
Inductive pstep : pool → pool → Prop :=
  | ps_request p tid rq :
      p_threads p !! tid = None → pstep p (set_thread tid (request_prog rq) p)
  | ps_tick p tid clk :
      p_threads p !! tid = None → (∀ last, p_poll p = Some last → finished_thread last p) →
      pstep p (set_poll tid (set_thread tid (background (pollAll_prog clk)) p))
  | ps_world p w : pstep p (set_world (p_gw p, p_events p, w) p)
  | ps_stop p : pstep p (set_world (shutdown (p_gw p), p_events p, p_world p) p)
  | ps_run p p' : gstep p p' → pstep p p'.

(** ** Ownership *)

(** What a goroutine has to give back, the goroutines it waits for, and whether it is itself one that
    starts and waits for none. *)
Record own := MkOwn {
  o_lease : option string;
  o_room : option Z;
  o_slot : bool;
  o_kids : gset nat;
  o_leaf : bool
}.

Definition nothing (o : own) : Prop := o_lease o = None ∧ o_room o = None ∧ o_slot o = false.

Definition with_lease (l : option string) (o : own) : own := MkOwn l (o_room o) (o_slot o) (o_kids o) (o_leaf o).
Definition with_room (m : option Z) (o : own) : own := MkOwn (o_lease o) m (o_slot o) (o_kids o) (o_leaf o).
Definition with_slot (b : bool) (o : own) : own := MkOwn (o_lease o) (o_room o) b (o_kids o) (o_leaf o).
Definition with_kid (tid : nat) (o : own) : own :=
  MkOwn (o_lease o) (o_room o) (o_slot o) ({[tid]} ∪ o_kids o) (o_leaf o).

(** A new goroutine; a poll is started with the slot its parent took for it. *)
Definition fresh_own (slot leaf : bool) : own := MkOwn None None slot ∅ leaf.
Definition task_slot (t : task) : bool := match t with GoPoll _ _ => true | GoAdopt _ => false end.

(** When an action is allowed. *)
Definition pre (o : own) (a : action (A := A) (W := W)) : Prop :=
  match a with
  | AdmitAdd _ => o_room o = None
  | ReleaseBody m => o_room o = Some m
  | LeaseClient _ => o_lease o = None
  | ReleaseClient id => o_lease o = Some id
  | Track t | TrackIfAbsent t => o_lease o = Some (t_adapter t)
  | Go t => o_leaf o = false ∧ o_slot o = task_slot t
  | Wait tid => o_leaf o = false ∧ o_slot o = false ∧ tid ∈ o_kids o
  | Acquire => o_leaf o = false ∧ o_slot o = false
  | Free_slot => o_slot o = true
  | _ => True
  end.

(** What is owned after its answer. *)
Definition post (o : own) (a : action (A := A) (W := W)) : res a → own :=
  match a return res a → own with
  | AdmitAdd _ => λ r, match r with Some m => with_room (Some m) o | None => o end
  | ReleaseBody _ => λ _, with_room None o
  | LeaseClient id => λ r, match r with Ok _ => with_lease (Some id) o | Err _ => o end
  | ReleaseClient _ => λ _, with_lease None o
  | Go _ => λ tid, with_kid tid (with_slot false o)
  | Acquire => λ _, with_slot true o
  | Free_slot => λ _, with_slot false o
  | _ => λ _, o
  end.

(** [owns o p Q]: started with [o], the program [p] only takes actions it is allowed, and [Q] holds of
    its result and of what it owns then. *)
Fixpoint owns {T} (o : own) (p : prog (res (A := A) (W := W)) T) (Q : T → own → Prop) : Prop :=
  match p with
  | Ret x => Q x o
  | Act a k => pre o a ∧ ∀ r, owns (post o a r) (k r) Q
  end.

Lemma owns_weaken {T} o (p : prog (res (A := A) (W := W)) T) (Q Q' : T → own → Prop) :
  owns o p Q → (∀ x o', Q x o' → Q' x o') → owns o p Q'.
Proof.
  intros Hp HQ. revert o Hp. induction p as [x|a k IH]; intros o; cbn; [by apply HQ|].
  intros [Hpre Hk]. split; [done|]. intros r. by apply IH.
Qed.

Lemma owns_bind {S T} o (p : prog (res (A := A) (W := W)) S) (f : S → prog res T) (Q : T → own → Prop) :
  owns o p (λ x o', owns o' (f x) Q) → owns o (bind p f) Q.
Proof.
  revert o. induction p as [x|a k IH]; intros o; cbn; [done|]. intros [Hpre Hk]. split; [done|]. intros r. by apply IH.
Qed.

(** Sequencing with what the first part is known to leave. *)
Lemma owns_seq {S T} o (p : prog (res (A := A) (W := W)) S) (f : S → prog res T) (R : S → own → Prop) (Q : T → own → Prop) :
  owns o p R → (∀ x o', R x o' → owns o' (f x) Q) → owns o (bind p f) Q.
Proof. intros Hp Hf. apply owns_bind. by eapply owns_weaken. Qed.

Lemma owns_act {T} o (a : action (A := A) (W := W)) (f : res a → prog res T) (Q : T → own → Prop) :
  pre o a → (∀ r, owns (post o a r) (f r) Q) → owns o (bind (act a) f) Q.
Proof. intros Hpre Hf. by split. Qed.

Lemma owns_one o (a : action (A := A) (W := W)) (Q : res a → own → Prop) :
  pre o a → (∀ r, Q r (post o a r)) → owns o (act a) Q.
Proof. by split. Qed.

(** A program that leaves what it found. *)
Abbreviation keeps o p := (owns o p (λ _ o', o' = o)).

Ltac owns_tac :=
  repeat (cbn [owns bind act pre post];
    match goal with
    | |- _ ∧ _ => split
    | |- True => exact I
    | |- ∀ _, _ => intros ?
    | |- owns _ (match ?x with _ => _ end) _ => destruct x
    | |- owns _ (if ?x then _ else _) _ => destruct x
    end); try done.

Lemma add_leased_owns o id c req : o_lease o = Some id → keeps o (add_leased_prog id c req).
Proof. intros Hl. unfold add_leased_prog. owns_tac. Qed.

Lemma add_admitted_owns o decoded : o_lease o = None → keeps o (add_admitted_prog decoded).
Proof.
  intros Hl. unfold add_admitted_prog. destruct decoded as [req|e]; [|done]. destruct (_ && _); [done|]. destruct (_ || _); [done|].
  apply owns_act; [done|]. intros [c|[]]; [|done|done]. cbn [post].
  eapply owns_seq; [by apply add_leased_owns|]. intros rep o' ->. split; [done|]. intros []. cbn. destruct o; cbn in *. by rewrite Hl.
Qed.

Lemma handleAdd_owns o n decoded : o_lease o = None → o_room o = None → keeps o (handleAdd_prog n decoded).
Proof.
  intros Hl Hr. unfold handleAdd_prog. apply owns_act; [done|]. intros [m|]; [|done]. cbn [post].
  eapply owns_seq; [by apply add_admitted_owns|]. intros rep o' ->. split; [done|]. intros []. cbn. destruct o; cbn in *. by rewrite Hr.
Qed.

Lemma adopt_jobs_owns o id typ jobs : o_lease o = Some id → keeps o (adopt_jobs_prog id typ jobs).
Proof. intros Hl. induction jobs as [|j jobs IH]; [done|]. cbn [adopt_jobs_prog]. by apply owns_act. Qed.

Lemma adopt_owns o id : o_lease o = None → keeps o (adopt_prog id).
Proof.
  intros Hl. unfold adopt_prog. apply owns_act; [done|]. intros [c|e]; [|done]. cbn [post].
  eapply (owns_seq _ _ _ (λ _ o', o' = with_lease (Some id) o)).
  - unfold adopt_leased_prog. destruct (as_Rehydrator _) as [f|]; [|done]. apply owns_act; [done|].
    intros [jobs|e]; [|done]. by apply adopt_jobs_owns.
  - intros _ o' ->. split; [done|]. intros []. cbn. destruct o; cbn in *. by rewrite Hl.
Qed.

Lemma adopt_all_owns o ids : o_lease o = None → keeps o (adopt_all_prog ids).
Proof.
  intros Hl. induction ids as [|id ids IH]; [done|]. cbn [adopt_all_prog].
  eapply owns_seq; [by apply adopt_owns|]. by intros _ o' ->.
Qed.

Lemma client_statuses_owns o clients : keeps o (client_statuses_prog clients).
Proof.
  induction clients as [|c clients IH]; [done|]. cbn [client_statuses_prog].
  eapply (owns_seq _ _ _ (λ _ o', o' = o)); [destruct (as_Reporter _); [split; [exact I|intros ?; reflexivity]|reflexivity]|]. intros cs o' ->.
  eapply owns_seq; [apply IH|]. by intros rest o' ->.
Qed.

Lemma go_adopts_owns o ids :
  o_leaf o = false → nothing o → owns o (go_adopts ids) (λ _ o', nothing o').
Proof.
  revert o. induction ids as [|id ids IH]; intros o Hl Hn; [done|]. cbn [go_adopts].
  destruct Hn as (Hn1 & Hn2 & Hn3). apply owns_act; [done|]. intros tid. apply IH; [done|]. by repeat split.
Qed.

Lemma poll_owns o clk job : keeps o (pollOne_prog clk job).
Proof. unfold pollOne_prog, poll_view_prog, poll_progress_prog. owns_tac. Qed.

Lemma go_polls_owns clk jobs : ∀ o,
  o_leaf o = false → nothing o →
  owns o (go_polls clk jobs) (λ tids o', o_leaf o' = false ∧ nothing o' ∧ o_kids o ⊆ o_kids o' ∧ ∀ t, t ∈ tids → t ∈ o_kids o').
Proof.
  induction jobs as [|job jobs IH]; intros o Hl Hn.
  { split_and!; try done. intros t Ht. by apply not_elem_of_nil in Ht. }
  cbn [go_polls]. destruct Hn as (Hn1 & Hn2 & Hn3). apply owns_act; [done|]. intros ?. apply owns_act; [done|]. intros tid. cbn [post].
  eapply owns_seq; [by apply IH|]. intros tids o' (Hl' & Hn' & Hsub & Hin). cbn in Hsub.
  split_and!; try done; [set_solver|]. intros t Ht. apply elem_of_cons in Ht as [->|Ht]; [set_solver|by apply Hin].
Qed.

Lemma wait_all_owns tids : ∀ o,
  o_leaf o = false → nothing o → (∀ t, t ∈ tids → t ∈ o_kids o) → keeps o (wait_all tids).
Proof.
  induction tids as [|tid tids IH]; intros o Hl Hn Hin; [done|]. cbn [wait_all].
  apply owns_act; [split_and!; [done|apply Hn|apply Hin; by left]|]. intros ?. apply IH; [done|done|]. intros t Ht. apply Hin. by right.
Qed.

Lemma pollAll_owns o clk : o_leaf o = false → nothing o → owns o (pollAll_prog clk) (λ _ o', nothing o').
Proof.
  intros Hl Hn. unfold pollAll_prog. apply owns_act; [done|]. intros jobs.
  eapply owns_seq; [by apply go_polls_owns|]. intros tids o' (Hl' & Hn' & _ & Hin).
  eapply owns_seq; [by apply wait_all_owns|]. intros _ o2 ->. by repeat split; apply Hn'.
Qed.

Lemma task_owns t : owns (fresh_own (task_slot t) true) (background (task_prog t)) (λ _ o', nothing o').
Proof.
  unfold background. destruct t as [id|clk job]; cbn [task_prog].
  - eapply owns_seq; [by apply adopt_owns|]. by intros _ o' ->.
  - eapply (owns_seq _ _ _ (λ _ o', nothing o')); [|done]. eapply owns_seq; [apply poll_owns|]. intros _ o' ->. by repeat split.
Qed.

(** Every request gives back what it took, on every path. *)
Lemma request_owns rq : owns (fresh_own false false) (request_prog rq) (λ _ o', nothing o').
Proof.
  set (o := fresh_own false false).
  assert (Hk : ∀ p, keeps o p → owns o (answering p) (λ _ o', nothing o')).
  { intros p Hp. eapply owns_seq; [exact Hp|]. by intros rep o' ->. }
  destruct rq; cbn [request_prog].
  - by apply Hk, handleAdd_owns.
  - apply Hk. unfold handleRemove_prog. owns_tac.
  - apply Hk. unfold handleList_prog, handleNames_prog, handleConfigClients_prog. owns_tac.
  - apply Hk. unfold handleDescribe_prog. owns_tac.
  - apply Hk. unfold handleControl_prog. owns_tac.
  - apply Hk. unfold handleClientStatus_prog. apply owns_act; [done|]. intros clients. cbn [post].
    eapply owns_seq; [apply client_statuses_owns|]. by intros l o' ->.
  - apply Hk. unfold handleList_prog, handleNames_prog, handleConfigClients_prog. owns_tac.
  - apply Hk. unfold handleList_prog, handleNames_prog, handleConfigClients_prog. owns_tac.
  - unfold handleConfigApply_prog, answering. destruct decoded as [[rev clients]|e]; [|done].
    destruct rev as [rev|]; [|done]. destruct (rev <? 0)%Z; [done|]. destruct clients as [specs|]; [|done].
    apply owns_bind, owns_act; [done|]. intros r. eapply owns_seq; [by apply go_adopts_owns|]. intros ? o' Hn; exact Hn.
  - unfold background, adoptExisting_prog. apply owns_bind, owns_act; [done|]. intros clients. cbn [post].
    eapply owns_weaken; [by apply adopt_all_owns|]. by intros _ o' ->.
Qed.

(** ** A request alone *)

(** What Gateway.v answers a request and leaves, with its events after those published before. *)
Definition respond (rq : request) (g : gateway A) (evs : list Event) (w : W) : option reply * world_state A W :=
  let answers (out : reply * world_state A W) := (Some out.1, out.2) in
  match rq with
  | RqAdd n d => answers (after evs (handleAdd n d g w))
  | RqRemove name id => answers (after evs (handleRemove name id g w))
  | RqList => (Some (handleList (snapshot (gw_jobs g))), (g, evs, w))
  | RqDescribe name id => answers (reads g evs (handleDescribe name id g w))
  | RqControl pause name id => answers (reads g evs (handleControl pause name id g w))
  | RqStatus => answers (reads g evs (handleClientStatus g w))
  | RqNames => (Some (MkReply 200 (BNames (Names (gw_reg g)))), (g, evs, w))
  | RqConfigClients => (Some (handleConfigClients g), (g, evs, w))
  | RqConfigApply d => answers (applied evs w (handleConfigApply (λ specs, sweep_ids specs (gw_reg g)) d g))
  | RqBoot => (None, (silently evs (adoptExisting g w)).2)
  end.

Lemma answering_run (p : prog (res (A := A) (W := W)) reply) st :
  run (answering p) st = (Some (run p st).1, (run p st).2).
Proof. unfold answering. rewrite run_bind. by destruct (run p st). Qed.

(** Cutting the handlers into atomic actions changes nothing by itself: a request, the
    adoption at boot or a tick of the poll loop that runs alone, taking the actions one by one in the
    order of the source, answers, publishes and leaves exactly what Gateway.v's and Jobs.v's functions
    say; so every property of those functions is one of the goroutines. *)
Lemma requests_sequential rq clk g evs w :
  run (request_prog rq) (g, evs, w) = respond rq g evs w ∧
  run (background (pollAll_prog clk)) (g, evs, w) =
    let '(r, j, evs', w') := pollAll (gw_reg g) ((λ t, (t, clk t)) <$> snapshot (gw_jobs g)) (gw_jobs g) w in
    (None, (with_reg r (with_table j g), evs ++ evs', w')).
Proof.
  split.
  - destruct rq; cbn [request_prog respond]; rewrite ?answering_run, ?handleAdd_run, ?handleRemove_run, ?handleList_run,
      ?handleDescribe_run, ?handleControl_run, ?handleClientStatus_run, ?handleNames_run, ?handleConfigClients_run,
      ?handleConfigApply_run; try done.
    unfold background. by rewrite run_bind, adoptExisting_run.
  - unfold background. rewrite run_bind, pollAll_run. by destruct (pollAll _ _ _ _) as [[[r j] evs'] w'].
Qed.
End threads.
