(* ===== verification/ThreadsSpec.v ===== *)
(** * What the server promises under every interleaving

    The invariant of the pool of Threads.v: each goroutine's remaining program matches what it owns,
    the registry, the job table and the leases held form a reachable state of System.v, and the budget
    and the semaphore count exactly what the goroutines hold.  From it: tracked jobs keep their
    client, nothing is left behind when every goroutine is done, and some goroutine can always move.
    [recorded] remembers which goroutines were started for a poll, to count those that run. *)

From S2P Require Import Prelude GoStrings Adapters Responses Clients Registry RegistrySpec Events Interfaces GoFloat Jobs System Gateway Programs Threads.

(** ** Sums over the goroutines *)

Section total.
Context {B : Type} (f : B → Z).

Definition total (O : gmap nat B) : Z := map_fold (λ _ o n, (f o + n)%Z) 0%Z O.

Lemma total_empty : total ∅ = 0%Z.
Proof. done. Qed.

Lemma total_insert O i o : O !! i = None → total (<[i := o]> O) = (f o + total O)%Z.
Proof. intros Hi. unfold total. rewrite map_fold_insert_L; [done|intros; lia|done]. Qed.

Lemma total_delete O i o : O !! i = Some o → total O = (f o + total (delete i O))%Z.
Proof. intros Hi. rewrite <- (total_insert _ i) by apply lookup_delete_eq. by rewrite insert_delete_id. Qed.

Lemma total_update O i o o' : O !! i = Some o → total (<[i := o']> O) = (total O - f o + f o')%Z.
Proof.
  intros Hi. rewrite (total_delete O i o Hi), <- insert_delete_eq, total_insert by apply lookup_delete_eq. lia.
Qed.

Lemma total_pos O : (∀ i o, O !! i = Some o → 0 ≤ f o)%Z → (0 ≤ total O)%Z.
Proof.
  induction O as [|i o O Hi IH] using map_ind; intros Hp; [done|]. rewrite total_insert by done.
  pose proof (Hp i o (lookup_insert_eq _ _ _)). enough (0 ≤ total O)%Z by lia.
  apply IH. intros j o' Hj. apply (Hp j). rewrite lookup_insert_ne; [done|]. intros ->. congruence.
Qed.

(** A positive sum has a positive term. *)
Lemma total_witness O : (0 < total O)%Z → ∃ i o, O !! i = Some o ∧ (0 < f o)%Z.
Proof.
  induction O as [|i o O Hi IH] using map_ind; [intros Ht; rewrite total_empty in Ht; lia|]. rewrite total_insert by done.
  intros Ht. destruct (decide (0 < f o)%Z) as [Hf|Hf]; [exists i, o; by rewrite lookup_insert_eq|].
  destruct IH as (j & o' & Hj & Ho'); [lia|]. exists j, o'. split; [|done]. rewrite lookup_insert_ne; [done|]. intros ->. congruence.
Qed.

Lemma total_zero O : (∀ i o, O !! i = Some o → f o = 0%Z) → total O = 0%Z.
Proof.
  induction O as [|i o O Hi IH] using map_ind; intros Hz; [done|]. rewrite total_insert by done.
  rewrite (Hz i o) by apply lookup_insert_eq. rewrite IH; [done|]. intros j o' Hj. apply (Hz j).
  rewrite lookup_insert_ne; [done|]. intros ->. congruence.
Qed.

(** Distinct goroutines that count for one each are no more than the sum. *)
Lemma total_list O l :
  NoDup l → (∀ i o, O !! i = Some o → 0 ≤ f o)%Z → (∀ i, i ∈ l → ∃ o, O !! i = Some o ∧ f o = 1%Z) →
  (Z.of_nat (length l) ≤ total O)%Z.
Proof.
  intros Hnd. revert O. induction Hnd as [|i l Hi Hnd IH]; intros O Hp Hl; [by apply total_pos|].
  destruct (Hl i) as (o & Ho & Hf); [by left|]. rewrite (total_delete O i o Ho). cbn [length].
  enough (Z.of_nat (length l) ≤ total (delete i O))%Z by lia. apply IH.
  - intros j o'. rewrite lookup_delete_Some. intros [_ Hj]. by apply (Hp j).
  - intros j Hj. destruct (Hl j) as (o' & Ho' & Hf'); [by right|]. exists o'. split; [|done].
    rewrite lookup_delete_ne; [done|]. by intros ->.
Qed.
End total.

Section spec.
Context {A W : Type} `{ClientFactory A} `{AdapterOps A W} `{Quote} `{FloatConv}.
Implicit Types p : pool (A := A) (W := W).

(** The states the server reaches from boot. *)
Inductive preachable : pool → Prop :=
  | preach_boot r w : boot_registry r → preachable (boot_pool r w)
  | preach_step p p' : preachable p → pstep p p' → preachable p'.

(** ** The invariant *)

Definition room_of (o : own) : Z := default 0%Z (o_room o).
Definition slot_of (o : own) : Z := if o_slot o then 1%Z else 0%Z.

(** The leases the goroutines hold, as System.v counts them. *)
Definition leases (O : gmap nat own) : gmap nat string := omap o_lease O.

Definition sys_of p (O : gmap nat own) : sys (A := A) :=
  MkSys (gw_reg (p_gw p)) (gw_jobs (p_gw p)) (leases O) (p_lock p).

(** The holder of the registry's lock is the goroutine that waits for its push or reaping to end. *)
Definition lock_ok p : Prop :=
  match p_lock p with
  | Free => p_owner p = None
  | Sweeping rev specs _ _ _ _ _ =>
      ∃ tid k, p_owner p = Some tid ∧ p_threads p !! tid = Some (Act (ApplyPush rev specs) k)
  | Reaping _ _ _ _ _ => ∃ tid k, p_owner p = Some tid ∧ p_threads p !! tid = Some (Act ReapClients k)
  end.

Record pinv p (O : gmap nat own) : Prop := {
  pi_dom tid : is_Some (O !! tid) ↔ is_Some (p_threads p !! tid);
  pi_owns tid pr o : p_threads p !! tid = Some pr → O !! tid = Some o → owns o pr (λ _ o', nothing o');
  pi_sys : reachable (sys_of p O);
  pi_room : gw_bodyInFlight (p_gw p) = total room_of O;
  pi_budget : (gw_bodyInFlight (p_gw p) ≤ addBodyBudget)%Z;
  pi_rooms tid o : O !! tid = Some o → (0 ≤ room_of o ≤ maxAddBody)%Z;
  pi_slot : p_slots p = total slot_of O;
  pi_limit : (p_slots p ≤ pollConcurrency)%Z;
  pi_lock : lock_ok p;
  pi_kids tid o kid : O !! tid = Some o → kid ∈ o_kids o → ∃ o', O !! kid = Some o' ∧ o_leaf o' = true
}.

Lemma leases_lookup O tid : leases O !! tid = O !! tid ≫= o_lease.
Proof. unfold leases. by rewrite lookup_omap. Qed.

Lemma leases_same O tid o o' : O !! tid = Some o → o_lease o' = o_lease o → leases (<[tid := o']> O) = leases O.
Proof.
  intros Ho Hl. apply map_eq. intros i. rewrite !leases_lookup. destruct (decide (i = tid)) as [->|Hne].
  - by rewrite lookup_insert_eq, Ho.
  - by rewrite lookup_insert_ne.
Qed.

Lemma leases_new O tid o : O !! tid = None → o_lease o = None → leases (<[tid := o]> O) = leases O.
Proof.
  intros Ho Hl. apply map_eq. intros i. rewrite !leases_lookup. destruct (decide (i = tid)) as [->|Hne].
  - by rewrite lookup_insert_eq, Ho.
  - by rewrite lookup_insert_ne.
Qed.

Lemma leases_take O tid o id : o_lease o = Some id → leases (<[tid := o]> O) = <[tid := id]> (leases O).
Proof.
  intros Hl. apply map_eq. intros i. rewrite leases_lookup. destruct (decide (i = tid)) as [->|Hne].
  - by rewrite !lookup_insert_eq.
  - by rewrite !lookup_insert_ne, leases_lookup.
Qed.

Lemma leases_drop O tid o : o_lease o = None → leases (<[tid := o]> O) = delete tid (leases O).
Proof.
  intros Hl. apply map_eq. intros i. rewrite leases_lookup. destruct (decide (i = tid)) as [->|Hne].
  - by rewrite lookup_insert_eq, lookup_delete_eq.
  - by rewrite lookup_insert_ne, lookup_delete_ne, leases_lookup.
Qed.

(** A goroutine that moves does not hold the registry's lock, unless it ends its push or reaping. *)
Lemma lock_ok_move p tid a k pr :
  lock_ok p → p_threads p !! tid = Some (Act a k) →
  match a with ApplyPush _ _ | ReapClients => False | _ => True end → lock_ok (set_thread tid pr p).
Proof.
  unfold lock_ok. intros Hl Ht Ha. cbn [p_lock p_owner p_threads set_thread].
  destruct (p_lock p); [done|..]; destruct Hl as (tid' & k' & Ho & Hk); exists tid', k'; (split; [done|]);
    rewrite lookup_insert_ne; try done; intros ->; rewrite Ht in Hk; injection Hk as -> _; done.
Qed.

Lemma lock_ok_new p tid pr : lock_ok p → p_threads p !! tid = None → lock_ok (set_thread tid pr p).
Proof.
  unfold lock_ok. intros Hl Ht. cbn [p_lock p_owner p_threads set_thread].
  destruct (p_lock p); [done|..]; destruct Hl as (tid' & k' & Ho & Hk); exists tid', k'; (split; [done|]);
    rewrite lookup_insert_ne; try done; intros ->; congruence.
Qed.

(** ** Every step keeps it *)

(** A new goroutine that owns nothing. *)
Lemma pinv_new p O tid pr leaf :
  pinv p O → p_threads p !! tid = None → owns (fresh_own false leaf) pr (λ _ o', nothing o') →
  pinv (set_thread tid pr p) (<[tid := fresh_own false leaf]> O).
Proof.
  intros [Hd Ho Hs Hr Hb Hrs Hsl Hlm Hlk Hk] Ht Hw.
  assert (HO : O !! tid = None).
  { destruct (O !! tid) as [o|] eqn:E; [|done]. destruct (proj1 (Hd tid)) as [x Hx]; [by eexists|congruence]. }
  constructor; cbn [p_gw p_threads p_lock p_slots set_thread]; try done.
  - intros i. rewrite !lookup_insert_is_Some. rewrite Hd. tauto.
  - intros i pr' o. destruct (decide (i = tid)) as [->|Hne].
    + rewrite !lookup_insert_eq. by intros [= <-] [= <-].
    + rewrite !lookup_insert_ne by done. apply Ho.
  - unfold sys_of. cbn [p_gw p_lock set_thread]. by rewrite leases_new.
  - by rewrite total_insert, Hr.
  - intros i o. rewrite lookup_insert_Some. intros [[_ <-]|[_ Hi]]; [by vm_compute|by eapply Hrs].
  - by rewrite total_insert, Hsl.
  - by apply lock_ok_new.
  - intros i o kid. rewrite lookup_insert_Some. intros [[_ <-]|[_ Hi]] Hin; [cbn in Hin; set_solver|].
    destruct (Hk i o kid Hi Hin) as (o' & Hkid & Hleaf). exists o'. rewrite lookup_insert_ne; [done|]. intros ->. congruence.
Qed.

(** A goroutine that took one action: what must hold of the pool it leaves. *)
Lemma pinv_move p p' O tid a k r o :
  pinv p O → p_threads p !! tid = Some (Act a k) → O !! tid = Some o →
  p_threads p' = <[tid := k r]> (p_threads p) → lock_ok p' →
  reachable (sys_of p' (<[tid := post o a r]> O)) →
  gw_bodyInFlight (p_gw p') = (gw_bodyInFlight (p_gw p) - room_of o + room_of (post o a r))%Z →
  (gw_bodyInFlight (p_gw p') ≤ addBodyBudget)%Z → (0 ≤ room_of (post o a r) ≤ maxAddBody)%Z →
  p_slots p' = (p_slots p - slot_of o + slot_of (post o a r))%Z → (p_slots p' ≤ pollConcurrency)%Z →
  o_kids (post o a r) = o_kids o → o_leaf (post o a r) = o_leaf o →
  pinv p' (<[tid := post o a r]> O).
Proof.
  intros [Hd Ho Hs Hr Hb Hrs Hsl Hlm Hlk Hk] Ht HO Hth Hlk' Hs' Hr' Hb' Hrs' Hsl' Hlm' Hkids Hleaf.
  destruct (Ho tid _ _ Ht HO) as [_ Hnext].
  constructor; try done.
  - intros i. rewrite Hth, !lookup_insert_is_Some, Hd. tauto.
  - rewrite Hth. intros i pr o2. destruct (decide (i = tid)) as [->|Hne].
    + rewrite !lookup_insert_eq. intros [= <-] [= <-]. apply Hnext.
    + rewrite !lookup_insert_ne by done. apply Ho.
  - rewrite Hr', (total_update _ _ _ o), <- Hr by done. lia.
  - intros i o2. rewrite lookup_insert_Some. intros [[_ <-]|[_ Hi]]; [done|by eapply Hrs].
  - rewrite Hsl', (total_update _ _ _ o), <- Hsl by done. lia.
  - assert (Hkid : ∀ kid, (∃ o', O !! kid = Some o' ∧ o_leaf o' = true) →
      ∃ o', <[tid := post o a r]> O !! kid = Some o' ∧ o_leaf o' = true).
    { intros kid (o' & Hkid & Hl). destruct (decide (kid = tid)) as [->|Hne].
      - exists (post o a r). rewrite lookup_insert_eq. split; [done|]. congruence.
      - exists o'. by rewrite lookup_insert_ne. }
    intros i o2 kid. rewrite lookup_insert_Some. intros [[_ <-]|[_ Hi]] Hin; apply Hkid.
    + rewrite Hkids in Hin. by eapply Hk.
    + by eapply Hk.
Qed.

(** The System.v step behind a plain action. *)
Lemma plain_sys p O tid a o r st :
  plain a = true → (registry_action a = true → p_lock p = Free) →
  perform a (p_gw p, p_events p, p_world p) = (r, st) → pre o a → O !! tid = Some o →
  reachable (sys_of p O) → reachable (sys_of (set_world st p) (<[tid := post o a r]> O)).
Proof.
  intros Hp Hf Hperf Hpre HO Hr. unfold sys_of. cbn [p_lock set_world p_gw].
  assert (Hno : ∀ o', o_lease o' = o_lease o → ∀ g, gw_reg g = gw_reg (p_gw p) → gw_jobs g = gw_jobs (p_gw p) →
    reachable (MkSys (gw_reg g) (gw_jobs g) (leases (<[tid := o']> O)) (p_lock p))).
  { intros o' Hl g -> ->. by rewrite (leases_same O tid o o'). }
  assert (Hjob : ∀ j', step (sys_of p O) (with_jobs j' (sys_of p O)) →
    reachable (MkSys (gw_reg (p_gw p)) j' (leases (<[tid := o]> O)) (p_lock p))).
  { intros j' Hst. rewrite (leases_same O tid o o) by done. exact (reach_step _ _ Hr Hst). }
  assert (Hh : s_hold (sys_of p O) !! tid = o_lease o) by (cbn; by rewrite leases_lookup, HO).
  destruct a; try discriminate Hp; cbn in Hperf, Hpre; simplify_eq.
  - destruct (admitAdd n _) as [[m f]|]; simplify_eq; by apply Hno.
  - by apply Hno.
  - specialize (Hf eq_refl). destruct (Lease id (gw_reg (p_gw p))) as [[c rg]|e] eqn:Hls; simplify_eq; cbn [post].
    + cbn. rewrite (leases_take _ _ _ id) by done. apply (reach_step _ _ Hr). rewrite Hf.
      refine (step_lease (sys_of p O) tid id c rg Hf _ Hls). by rewrite Hh.
    + by apply Hno.
  - specialize (Hf eq_refl). cbn. rewrite leases_drop by done. apply (reach_step _ _ Hr). rewrite Hf.
    refine (step_release (sys_of p O) tid id Hf _). by rewrite Hh.
  - by apply Hno.
  - by apply Hno.
  - by apply Hno.
  - apply Hjob. refine (step_track (sys_of p O) tid t _). by rewrite Hh.
  - cbn. destruct (trackIfAbsent t (gw_jobs (p_gw p))) as [b j] eqn:E. simplify_eq. cbn. apply Hjob.
    assert (j = (trackIfAbsent t (gw_jobs (p_gw p))).2) as -> by (by rewrite E). refine (step_adopt (sys_of p O) tid t _). by rewrite Hh.
  - apply Hjob, (step_untrack (sys_of p O)).
  - by apply Hno.
  - cbn. destruct (markMissing now job (gw_jobs (p_gw p))) as [b j] eqn:E. simplify_eq. cbn. apply Hjob.
    assert (j = (markMissing now job (gw_jobs (p_gw p))).2) as -> by (by rewrite E). apply (step_mark (sys_of p O)).
  - apply Hjob, (step_clear (sys_of p O)).
  - by apply Hno.
  - apply Hjob, (step_observe (sys_of p O)).
  - destruct (Add ad j _) as [x w]. simplify_eq. by apply Hno.
  - destruct (Describe ad id _) as [x w]. simplify_eq. by apply Hno.
  - destruct (Remove ad id _) as [x w]. simplify_eq. by apply Hno.
  - destruct (f id _) as [x w]. simplify_eq. by apply Hno.
  - destruct (f _) as [x w]. simplify_eq. by apply Hno.
  - destruct (f _) as [x w]. simplify_eq. by apply Hno.
  - by apply Hno.
Qed.

(** The budget and the semaphore after a plain action. *)
Lemma plain_room p O tid a o r st :
  pinv p O → plain a = true → perform a (p_gw p, p_events p, p_world p) = (r, st) → pre o a → O !! tid = Some o →
  gw_bodyInFlight st.1.1 = (gw_bodyInFlight (p_gw p) - room_of o + room_of (post o a r))%Z ∧
  (gw_bodyInFlight st.1.1 ≤ addBodyBudget)%Z ∧ (0 ≤ room_of (post o a r) ≤ maxAddBody)%Z.
Proof.
  intros Hinv Hp Hperf Hpre HO. pose proof (pi_budget _ _ Hinv) as Hb. pose proof (pi_rooms _ _ Hinv tid o HO) as Hrs.
  assert (Hno : ∀ g : gateway A, gw_bodyInFlight g = gw_bodyInFlight (p_gw p) → ∀ o', room_of o' = room_of o →
    gw_bodyInFlight g = (gw_bodyInFlight (p_gw p) - room_of o + room_of o')%Z ∧
    (gw_bodyInFlight g ≤ addBodyBudget)%Z ∧ (0 ≤ room_of o' ≤ maxAddBody)%Z) by (intros g -> o' ->; lia).
  destruct a; try discriminate Hp; cbn in Hperf, Hpre.
  - rewrite admitAdd_spec in Hperf by done. destruct (_ <? _)%Z eqn:E; simplify_eq; [by apply Hno|].
    apply Z.ltb_ge in E. destruct (declared_bounds n) as [Hn _]. unfold room_of in *. rewrite Hpre in *. cbn in *. lia.
  - simplify_eq. unfold room_of in *. rewrite Hpre in *. cbn in *. unfold admitRelease. lia.
  - destruct (Lease id (gw_reg (p_gw p))) as [[c rg]|e]; simplify_eq; by apply Hno.
  - simplify_eq; by apply Hno.
  - simplify_eq; by apply Hno.
  - simplify_eq; by apply Hno.
  - simplify_eq; by apply Hno.
  - simplify_eq; by apply Hno.
  - cbn in Hperf. destruct (trackIfAbsent _ _); simplify_eq; by apply Hno.
  - simplify_eq; by apply Hno.
  - simplify_eq; by apply Hno.
  - cbn in Hperf. destruct (markMissing _ _ _); simplify_eq; by apply Hno.
  - simplify_eq; by apply Hno.
  - simplify_eq; by apply Hno.
  - simplify_eq; by apply Hno.
  - destruct (Add ad j _); simplify_eq; by apply Hno.
  - destruct (Describe ad id _); simplify_eq; by apply Hno.
  - destruct (Remove ad id _); simplify_eq; by apply Hno.
  - destruct (f id _); simplify_eq; by apply Hno.
  - destruct (f _); simplify_eq; by apply Hno.
  - destruct (f _); simplify_eq; by apply Hno.
  - simplify_eq; by apply Hno.
Qed.

Lemma plain_post (a : action (A := A) (W := W)) o r :
  plain a = true →
  slot_of (post o a r) = slot_of o ∧ o_kids (post o a r) = o_kids o ∧ o_leaf (post o a r) = o_leaf o.
Proof. destruct a; try done; intros _; cbn; try done; by destruct r. Qed.

(** A push, a reaping and their walks are System.v's. *)
Lemma walk_sys p O l :
  walk (gw_reg (p_gw p)) (gw_jobs (p_gw p)) (p_lock p) l → step (sys_of p O) (sys_of (set_lock l (p_owner p) p) O).
Proof.
  intros Hw. change (step (sys_of p O) (with_lock l (sys_of p O))). inversion Hw as [? ? ? ? ? ? ? Hl|? ? ? ? ? ? ? ? Hl|? ? ? ? ? Hl|? ? ? ? ? ? Hl]; subst.
  - by apply (step_sweep_ask (sys_of p O)).
  - by apply (step_sweep_act (sys_of p O)).
  - by apply (step_reap_ask (sys_of p O)).
  - by apply (step_reap_act (sys_of p O)).
Qed.

Lemma pinv_lock p O l owner :
  pinv p O → step (sys_of p O) (sys_of (set_lock l owner p) O) → lock_ok (set_lock l owner p) →
  pinv (set_lock l owner p) O.
Proof. intros [Hd Ho Hs Hr Hb Hrs Hsl Hlm Hlk Hk] Hst Hl. constructor; try done. by eapply reach_step. Qed.

Lemma lock_ok_walk p l :
  lock_ok p → walk (gw_reg (p_gw p)) (gw_jobs (p_gw p)) (p_lock p) l → lock_ok (set_lock l (p_owner p) p).
Proof. unfold lock_ok. intros Hl Hw. by inversion Hw as [? ? ? ? ? ? ? E|? ? ? ? ? ? ? ? E|? ? ? ? ? E|? ? ? ? ? ? E]; subst; cbn; rewrite <- E in Hl. Qed.

(** A goroutine starts another. *)
Lemma pinv_go p O tid t k child o :
  pinv p O → p_threads p !! tid = Some (Act (Go t) k) → O !! tid = Some o → p_threads p !! child = None →
  pinv (set_thread child (background (task_prog t)) (set_thread tid (k child) p))
       (<[child := fresh_own (task_slot t) true]> (<[tid := with_kid child (with_slot false o)]> O)).
Proof.
  intros Hinv Ht HO Hc. destruct Hinv as [Hd Ho Hs Hr Hb Hrs Hsl Hlm Hlk Hk].
  destruct (Ho tid _ _ Ht HO) as [[Hleaf Hslot] Hnext].
  assert (HOc : O !! child = None).
  { destruct (O !! child) as [oc|] eqn:E; [|done]. destruct (proj1 (Hd child)) as [x Hx]; [by eexists|congruence]. }
  assert (Hne : child ≠ tid) by (intros ->; congruence).
  assert (Hnew : (<[tid := with_kid child (with_slot false o)]> O) !! child = None) by by rewrite lookup_insert_ne.
  constructor; cbn [p_gw p_threads p_lock p_slots set_thread]; try done.
  - intros i. rewrite !lookup_insert_is_Some, Hd. tauto.
  - intros i pr o2. destruct (decide (i = child)) as [->|Hi]; [|destruct (decide (i = tid)) as [->|Hi']].
    + rewrite !lookup_insert_eq. intros [= <-] [= <-]. apply task_owns.
    + rewrite !(lookup_insert_ne _ child tid) by done. rewrite !lookup_insert_eq. intros [= <-] [= <-]. apply Hnext.
    + rewrite !lookup_insert_ne by done. apply Ho.
  - unfold sys_of. cbn [p_gw p_lock set_thread]. by rewrite leases_new, (leases_same O tid o) by done.
  - rewrite total_insert, (total_update _ _ _ o) by done.
    change (room_of (fresh_own _ _)) with 0%Z. change (room_of (with_kid _ _)) with (room_of o). lia.
  - intros i o2. rewrite !lookup_insert_Some. intros [[_ <-]|[_ [[_ <-]|[_ Hi]]]]; [by vm_compute|by eapply (Hrs tid o)|by eapply Hrs].
  - rewrite total_insert, (total_update _ _ _ o) by done.
    change (slot_of (with_kid _ _)) with 0%Z. change (slot_of (fresh_own ?b _)) with (if b then 1%Z else 0%Z).
    rewrite <- Hslot. change (if o_slot o then 1%Z else 0%Z) with (slot_of o). lia.
  - apply lock_ok_new; [by eapply lock_ok_move|]. cbn. by rewrite lookup_insert_ne.
  - assert (Hkid : ∀ kid, (∃ o', O !! kid = Some o' ∧ o_leaf o' = true) →
      ∃ o', <[child := fresh_own (task_slot t) true]> (<[tid := with_kid child (with_slot false o)]> O) !! kid = Some o' ∧
        o_leaf o' = true).
    { intros kid (o' & Hkid & Hl). exists o'. rewrite lookup_insert_ne by congruence.
      rewrite lookup_insert_ne by congruence. done. }
    intros i o2 kid. rewrite !lookup_insert_Some. intros [[_ <-]|[_ [[_ <-]|[_ Hi]]]] Hin; [cbn in Hin; set_solver| |by eapply Hkid, Hk].
    cbn in Hin. apply elem_of_union in Hin as [->%elem_of_singleton|Hin]; [|by eapply Hkid, Hk].
    eexists. by rewrite lookup_insert_eq.
Qed.

Lemma pinv_owner p O tid pr : pinv p O → p_threads p !! tid = Some pr → ∃ o, O !! tid = Some o.
Proof. intros Hinv Ht. apply (pi_dom _ _ Hinv). by eexists. Qed.

(** An action that only changes what its goroutine does next, and the job of the registry's lock. *)
Lemma pinv_quiet p p' O tid a k r o :
  pinv p O → p_threads p !! tid = Some (Act a k) → O !! tid = Some o → post o a r = o →
  p_threads p' = <[tid := k r]> (p_threads p) → lock_ok p' → reachable (sys_of p' O) →
  gw_bodyInFlight (p_gw p') = gw_bodyInFlight (p_gw p) → p_slots p' = p_slots p →
  pinv p' (<[tid := o]> O).
Proof.
  intros Hinv Ht HO Hpost Hth Hlk Hr Hb Hs. rewrite <- Hpost.
  eapply (pinv_move p p' O tid a k r o); rewrite ?Hpost; try done.
  - unfold sys_of in *. by rewrite (leases_same O tid o).
  - lia.
  - rewrite Hb. apply Hinv.
  - by eapply (pi_rooms _ _ Hinv).
  - lia.
  - rewrite Hs. apply Hinv.
Qed.

Lemma pinv_act p O tid a k r st :
  pinv p O → p_threads p !! tid = Some (Act a k) → plain a = true → (registry_action a = true → p_lock p = Free) →
  perform a (p_gw p, p_events p, p_world p) = (r, st) →
  ∃ O', pinv (set_thread tid (k r) (set_world st p)) O'.
Proof.
  intros Hinv Ht Hp Hf Hperf. destruct (pinv_owner p O tid _ Hinv Ht) as [o HO].
  destruct (pi_owns _ _ Hinv tid _ _ Ht HO) as [Hpre _].
  destruct (plain_post a o r Hp) as (Hs & Hkid & Hleaf).
  destruct (plain_room p O tid a o r st Hinv Hp Hperf Hpre HO) as (Hr1 & Hr2 & Hr3).
  exists (<[tid := post o a r]> O). eapply pinv_move; try done.
  - apply (lock_ok_move (set_world st p) tid a k); [apply Hinv|done|]. by destruct a.
  - change (reachable (sys_of (set_world st p) (<[tid := post o a r]> O))). eapply plain_sys; try done. apply Hinv.
  - cbn. lia.
  - cbn. apply Hinv.
Qed.

Lemma pinv_gstep p p' O : pinv p O → gstep p p' → ∃ O', pinv p' O'.
Proof.
  intros Hinv Hst. inversion Hst as [? tid a k r st Ht Hp Hf Hperf|? tid k l Ht Hl
    |? tid t k child Ht Hc|? tid child k Ht Hc|? tid k Ht Hlt|? tid k Ht|? tid rev specs k order Ht Hf Ho
    |? tid rev specs k order sw ans Ht How Hl|? tid k order Ht Hf Ho|? tid k order m ans Ht How Hl|? l Hw]; subst.
  - by eapply pinv_act.
  - destruct (pinv_owner p O tid _ Hinv Ht) as [o HO]. eexists.
    eapply (pinv_quiet p _ O tid Snapshot k l o Hinv Ht HO); try done; [|apply Hinv]. eapply lock_ok_move; [apply Hinv|done|done].
  - destruct (pinv_owner p O tid _ Hinv Ht) as [o HO]. eexists. by eapply pinv_go.
  - destruct (pinv_owner p O tid _ Hinv Ht) as [o HO]. eexists.
    eapply (pinv_quiet p _ O tid (Wait child) k tt o Hinv Ht HO); try done; [|apply Hinv]. eapply lock_ok_move; [apply Hinv|done|done].
  - destruct (pinv_owner p O tid _ Hinv Ht) as [o HO]. destruct (pi_owns _ _ Hinv tid _ _ Ht HO) as [[Hleaf Hslot] _]. eexists.
    eapply (pinv_move p _ O tid Acquire k tt o Hinv Ht HO); try done.
    + apply (lock_ok_move (set_slots (p_slots p + 1) p) tid Acquire k); [apply Hinv|done|done].
    + unfold sys_of. cbn. rewrite (leases_same O tid o) by done. apply Hinv.
    + change (room_of (post o Acquire tt)) with (room_of o). cbn. lia.
    + apply Hinv.
    + exact (pi_rooms _ _ Hinv tid o HO).
    + unfold slot_of. cbn. rewrite Hslot. lia.
    + cbn. lia.
  - destruct (pinv_owner p O tid _ Hinv Ht) as [o HO]. destruct (pi_owns _ _ Hinv tid _ _ Ht HO) as [Hslot _]. eexists.
    eapply (pinv_move p _ O tid Free_slot k tt o Hinv Ht HO); try done.
    + apply (lock_ok_move (set_slots (p_slots p - 1) p) tid Free_slot k); [apply Hinv|done|done].
    + unfold sys_of. cbn. rewrite (leases_same O tid o) by done. apply Hinv.
    + change (room_of (post o Free_slot tt)) with (room_of o). cbn. lia.
    + apply Hinv.
    + exact (pi_rooms _ _ Hinv tid o HO).
    + unfold slot_of. cbn. cbn in Hslot. rewrite Hslot. lia.
    + pose proof (pi_limit _ _ Hinv). cbn. lia.
  - exists O. apply pinv_lock; [done| |by exists tid, k].
    apply (step_apply (sys_of p O)); [exact Hf|exact Ho].
  - destruct (pinv_owner p O tid _ Hinv Ht) as [o HO]. eexists.
    eapply (pinv_quiet p _ O tid (ApplyPush rev specs) k _ o Hinv Ht HO); try done.
    eapply reach_step; [apply Hinv|]. exact (step_apply_end (sys_of p O) _ _ _ _ _ Hl).
  - exists O. apply pinv_lock; [done| |by exists tid, k]. apply (step_reap (sys_of p O)); [exact Hf|exact Ho].
  - destruct (pinv_owner p O tid _ Hinv Ht) as [o HO]. eexists.
    eapply (pinv_quiet p _ O tid ReapClients k _ o Hinv Ht HO); try done.
    eapply reach_step; [apply Hinv|]. exact (step_reap_end (sys_of p O) _ _ _ Hl).
  - exists O. apply pinv_lock; [done|by apply walk_sys|by apply lock_ok_walk; [apply Hinv|]].
Qed.

Lemma pinv_step p p' O : pinv p O → pstep p p' → ∃ O', pinv p' O'.
Proof.
  intros Hinv Hst. inversion Hst as [? tid rq Hn|? tid clk Hn Hlast|? w|?|? ? Hg]; subst.
  - eexists. eapply pinv_new; [done|done|apply request_owns].
  - eexists. destruct (pinv_new p O tid (background (pollAll_prog clk)) false Hinv Hn) as [Hd Ho Hs Hr Hb Hrs Hsl Hlm Hlk Hk].
    + unfold background. eapply owns_seq; [by apply pollAll_owns|]. by intros ? o' Ho'.
    + by constructor.
  - exists O. by destruct Hinv.
  - exists O. by destruct Hinv.
  - by eapply pinv_gstep.
Qed.

Lemma preachable_pinv p : preachable p → ∃ O, pinv p O.
Proof.
  induction 1 as [r w Hb|p p' _ [O IH] Hst]; [|by eapply pinv_step]. exists ∅. constructor; try done.
  - intros tid. rewrite lookup_empty. split; intros [x Hx]; done.
  - by apply reach_boot.
Qed.

(** ** The polls that run *)

(** A step that starts the goroutine [tid] for a poll. *)
Definition poll_started p p' (tid : nat) : Prop :=
  ∃ parent clk job k, p_threads p !! parent = Some (Act (Go (GoPoll clk job)) k) ∧ p_threads p !! tid = None ∧
    p' = set_thread tid (background (task_prog (GoPoll clk job))) (set_thread parent (k tid) p).

(** The states reached from boot, with the goroutines that were started for a poll on the way. *)
Inductive recorded : pool → (nat → Prop) → Prop :=
  | rec_boot r w : boot_registry r → recorded (boot_pool r w) (λ _, False)
  | rec_step p p' polls :
      recorded p polls → pstep p p' → recorded p' (λ tid, polls tid ∨ poll_started p p' tid).

Lemma recorded_preachable p polls : recorded p polls → preachable p.
Proof. induction 1; [by apply preach_boot|by eapply preach_step]. Qed.

Lemma preachable_recorded p : preachable p → ∃ polls, recorded p polls.
Proof.
  induction 1 as [r w Hb|p p' _ [polls IH] Hst]; [eexists; by apply (rec_boot r w)|].
  eexists. by apply (rec_step p p' polls).
Qed.

(** A goroutine that still has something to do. *)
Definition running (tid : nat) p : Prop := ∃ a k, p_threads p !! tid = Some (Act a k).

(** Programs that start nothing, wait for nothing and leave the semaphore alone. *)
Fixpoint all_plain {T} (pr : prog (res (A := A) (W := W)) T) : Prop :=
  match pr with
  | Ret _ => True
  | Act a k => plain a = true ∧ ∀ r, all_plain (k r)
  end.

(** Programs whose last action, and no other, frees a slot. *)
Fixpoint frees_last {T} (pr : prog (res (A := A) (W := W)) T) : Prop :=
  match pr with
  | Ret _ => False
  | Act a k => (a = Free_slot ∧ ∀ r, ∃ x, k r = Ret x) ∨ (plain a = true ∧ ∀ r, frees_last (k r))
  end.

Lemma all_plain_then {S T U} (p : prog (res (A := A) (W := W)) S) (f : S → prog res T) (g : T → prog res U) :
  all_plain p → (∀ x, frees_last (bind (f x) g)) → frees_last (bind (bind p f) g).
Proof. intros Hp Hf. induction p as [x|a k IH]; cbn; [apply Hf|]. right. destruct Hp as [Ha Hk]. split; [done|]. intros r. by apply IH. Qed.

Lemma pollOne_plain clk job : all_plain (pollOne_prog (A := A) (W := W) clk job).
Proof.
  unfold pollOne_prog, poll_view_prog, poll_progress_prog.
  repeat (cbn [all_plain bind act plain];
    match goal with
    | |- _ ∧ _ => split
    | |- ∀ _, _ => intros ?
    | |- all_plain (match ?x with _ => _ end) => destruct x
    | |- all_plain (if ?x then _ else _) => destruct x
    end); done.
Qed.

(** A poll frees its slot when everything else is done. *)
Lemma poll_frees_last clk job : frees_last (background (A := A) (W := W) (task_prog (GoPoll clk job))).
Proof.
  apply all_plain_then; [apply pollOne_plain|]. intros []. left. split; [done|]. intros []. by eexists.
Qed.

Lemma plain_result (a : action (A := A) (W := W)) : plain a = true → ∃ r : res a, True.
Proof.
  destruct a; try done; intros _; cbn [res];
    first [by exists tt|by exists true|by exists None|by exists []|by exists (0%Z, None)|by exists (0%Z, [])
          |by exists (Err (ErrorString EmptyString))|by exists (Err ErrUnknownClient)|by exists (empty_ClientStatus EmptyString)].
Qed.

(** Whoever is going to free a slot has one. *)
Lemma frees_last_slot {T} o (pr : prog (res (A := A) (W := W)) T) (Q : T → own → Prop) :
  owns o pr Q → frees_last pr → o_slot o = true.
Proof.
  revert o. induction pr as [x|a k IH]; intros o; [done|]. intros [Hpre Hk] [[-> _]|[Ha Hf]]; [exact Hpre|].
  destruct (plain_result a Ha) as [r _]. pose proof (IH r _ (Hk r) (Hf r)) as E.
  destruct (plain_post a o r Ha) as (Hs & _). unfold slot_of in Hs. rewrite E in Hs. by destruct (o_slot o).
Qed.

(** A poll that was started is over, or has its slot still to free. *)
Definition poll_state p (tid : nat) : Prop :=
  ∃ pr, p_threads p !! tid = Some pr ∧ (frees_last pr ∨ ∃ x, pr = Ret x).

Lemma poll_state_move p tid a k r c :
  p_threads p !! tid = Some (Act a k) → plain a = true ∨ a = Free_slot ∨ c ≠ tid → poll_state p c →
  ∃ pr, <[tid := k r]> (p_threads p) !! c = Some pr ∧ (frees_last pr ∨ ∃ x, pr = Ret x).
Proof.
  intros Ht Ha (pr & Hpr & Hst). destruct (decide (c = tid)) as [->|Hne].
  - rewrite lookup_insert_eq. exists (k r). split; [done|]. rewrite Hpr in Ht. injection Ht as ->.
    destruct Hst as [[[-> Hk]|[_ Hk]]|[x Hx]]; [right; apply Hk|left; apply Hk|discriminate Hx].
  - rewrite lookup_insert_ne by done. by exists pr.
Qed.

(** A poll takes plain actions and frees its slot: it is not at any other action. *)
Lemma poll_state_other p tid a k c :
  poll_state p c → p_threads p !! tid = Some (Act a k) → plain a = false → a ≠ Free_slot → c ≠ tid.
Proof.
  intros (pr & Hpr & [Hf|[x Hx]]) Ht Ha Hne ->; rewrite Hpr in Ht; injection Ht as ->; [|discriminate Hx].
  destruct Hf as [[E _]|[E _]]; congruence.
Qed.

Lemma poll_state_gstep p p' c : gstep p p' → poll_state p c → poll_state p' c.
Proof.
  intros Hst Hc. inversion Hst as [? tid a k r st Ht Hp Hf Hperf|? tid k l Ht Hl
    |? tid t k child Ht Hch|? tid child k Ht Hch|? tid k Ht Hlt|? tid k Ht|? tid rev specs k order Ht Hf Ho
    |? tid rev specs k order sw ans Ht How Hl|? tid k order Ht Hf Ho|? tid k order m ans Ht How Hl|? l Hw]; subst;
    try exact Hc;
    try (refine (poll_state_move p tid _ k _ c Ht _ Hc); first [by left|by right; left|by right; right; eapply poll_state_other]).
  unfold poll_state. cbn [p_threads set_thread]. rewrite lookup_insert_ne.
  - refine (poll_state_move p tid _ k _ c Ht _ Hc). right. right. by eapply poll_state_other.
  - intros ->. destruct Hc as (pr & Hpr & _). congruence.
Qed.

Lemma recorded_polls p polls tid : recorded p polls → polls tid → poll_state p tid.
Proof.
  induction 1 as [|p p' polls Hr IH Hst]; [done|].
  intros [Hp|(parent & clk & job & k & Ht & Hn & ->)].
  - specialize (IH Hp). assert (Hnew : ∀ i pr, p_threads p !! i = None → poll_state (set_thread i pr p) tid).
    { intros i pr Hi. destruct IH as (q & Hq & Hs). exists q. split; [|done]. cbn.
      rewrite lookup_insert_ne; [done|]. intros ->. congruence. }
    inversion Hst as [? i rq Hn|? i clk Hn Hlast|? w|?|? ? Hg]; subst; try exact IH; try (by apply Hnew).
    by eapply poll_state_gstep.
  - exists (background (task_prog (GoPoll clk job))). cbn [p_threads set_thread]. rewrite lookup_insert_eq.
    split; [done|]. left. apply poll_frees_last.
Qed.

(** The running polls hold a slot each. *)
Lemma running_polls_slots p polls O l :
  recorded p polls → pinv p O → NoDup l → (∀ tid, tid ∈ l → polls tid ∧ running tid p) →
  (Z.of_nat (length l) ≤ p_slots p)%Z.
Proof.
  intros Hr Hinv Hnd Hl. rewrite (pi_slot _ _ Hinv). apply total_list; [done| |].
  - intros i o _. unfold slot_of. by destruct (o_slot o).
  - intros tid Hin. destruct (Hl tid Hin) as [Hp (a & k & Ha)].
    destruct (recorded_polls p polls tid Hr Hp) as (pr & Hpr & Hst). rewrite Ha in Hpr. injection Hpr as <-.
    destruct (pinv_owner p O tid _ Hinv Ha) as [o HO]. exists o. split; [done|].
    destruct Hst as [Hf|[x Hx]]; [|discriminate Hx].
    unfold slot_of. by rewrite (frees_last_slot o _ _ (pi_owns _ _ Hinv tid _ _ Ha HO) Hf).
Qed.

(** ** Properties *)

(** C2: the server refines System.v: under every interleaving of requests, ticks, polls, adoptions,
    pushes and reapings, and whatever the clients do, its registry and job table with the leases its
    goroutines hold are a reachable state of System.v; only goroutines still running hold leases; the
    registry and the job table keep their invariants; and whenever the registry's lock is free
    every tracked job has its client and each client's lease count is the number of goroutines
    working on it. *)
Theorem pool_refines p :
  preachable p →
  ∃ hold, reachable (MkSys (gw_reg (p_gw p)) (gw_jobs (p_gw p)) hold (p_lock p)) ∧
    (∀ tid id, hold !! tid = Some id → ∃ a k, p_threads p !! tid = Some (Act a k)) ∧
    wf_registry (gw_reg (p_gw p)) ∧ wf_jobs (gw_jobs (p_gw p)) ∧
    (p_lock p = Free →
      (∀ k t, gw_jobs (p_gw p) !! k = Some t → ∃ ad, Get (t_adapter t) (gw_reg (p_gw p)) = Some ad) ∧
      ∀ id, leases_of id (gw_reg (p_gw p)) = Z.of_nat (holders hold id)).
Proof.
  intros [O Hinv]%preachable_pinv. exists (leases O). pose proof (pi_sys _ _ Hinv) as Hr.
  destruct (reachable_inv _ Hr) as [Hw Hj Hh Hl _ _]. split_and!; [exact Hr| |exact (reachable_registry _ Hr)|exact Hw|].
  - intros tid id Hid. rewrite leases_lookup in Hid. destruct (O !! tid) as [o|] eqn:HO; [|done].
    destruct (proj1 (pi_dom _ _ Hinv tid) (ex_intro _ o HO)) as [[x|a k] Hpr]; [|by exists a, k].
    destruct (pi_owns _ _ Hinv tid _ _ Hpr HO) as (Hno & _). cbn in Hid. congruence.
  - intros Hf. split; [|exact Hl]. intros k t Hk. destruct (Hj k t Hk) as [e He].
    unfold cur_clients in He. cbn in He. rewrite Hf in He. exists (e_adapter e). unfold Get. by rewrite He.
Qed.

(** C16: the limits hold under every interleaving.  The bytes accounted to the adds in flight stay
    between zero and the budget, far from overflowing 64 bits, so an add is refused exactly when its
    declared room does not fit beside them and a small one never is.  And of the goroutines that were
    started for a poll at most eight are still running, each of them holding a slot of the
    semaphore: a poll gives its slot back as the last thing it does. *)
Theorem pool_limits p polls n :
  recorded p polls →
  let f := gw_bodyInFlight (p_gw p) in
  (0 ≤ f ≤ addBodyBudget)%Z ∧ fits64 (f + declared n) ∧
  (admitAdd n f = None ↔ (addBodyBudget < f + declared n)%Z) ∧
  ((0 ≤ n ≤ smallAddBody)%Z → admitAdd n f = Some (0%Z, f)) ∧
  (0 ≤ p_slots p ≤ 8)%Z ∧
  ∀ l, NoDup l → (∀ tid, tid ∈ l → polls tid ∧ running tid p) → (length l ≤ 8)%nat ∧ (Z.of_nat (length l) ≤ p_slots p)%Z.
Proof.
  intros Hrec f. destruct (preachable_pinv p (recorded_preachable p polls Hrec)) as [O Hinv].
  pose proof (pi_budget _ _ Hinv) as Hb.
  assert (Hnn : (0 ≤ f)%Z).
  { unfold f. rewrite (pi_room _ _ Hinv). apply total_pos. intros i o HO. apply (pi_rooms _ _ Hinv i o HO). }
  assert (Hsl : (0 ≤ p_slots p)%Z).
  { rewrite (pi_slot _ _ Hinv). apply total_pos. intros i o _. unfold slot_of. by destruct (o_slot o). }
  pose proof (pi_limit _ _ Hinv) as Hlim. unfold pollConcurrency in Hlim.
  assert (Hpolls : ∀ l, NoDup l → (∀ tid, tid ∈ l → polls tid ∧ running tid p) →
    (length l ≤ 8)%nat ∧ (Z.of_nat (length l) ≤ p_slots p)%Z).
  { intros l Hnd Hl. pose proof (running_polls_slots p polls O l Hrec Hinv Hnd Hl). lia. }
  destruct (declared_bounds n) as [Hd Hs]. rewrite (admitAdd_spec n f Hb).
  assert (Hmax : (addBodyBudget + maxAddBody < 2 ^ 40)%Z) by (vm_compute; done). change (gw_bodyInFlight (p_gw p)) with f in Hb.
  split; [lia|]. split; [unfold fits; lia|].
  destruct (Z.ltb_spec addBodyBudget (f + declared n)) as [Hlt|Hge].
  - split; [done|]. split; [intros Hn%Hs; lia|]. split; [lia|exact Hpolls].
  - split; [by split; [|lia]|]. split; [intros Hn%Hs; by rewrite Hn, Z.add_0_r|]. split; [lia|exact Hpolls].
Qed.
End spec.

(** ** Witnesses *)

Section witnesses.
#[local] Existing Instance Gateway.demo_gw_quote.
#[local] Existing Instance Gateway.demo_gw_factory.
#[local] Existing Instance Gateway.demo_gw_ops.
#[local] Instance demo_pool_conv : FloatConv := λ _, 0%Z.

(** Two large adds of unknown length have been admitted, and the first has leased its client. *)
Definition demo_rq : request := RqAdd (-1) (Ok (demo_req "nzbget")).

Definition after_act (tid : nat) (p : pool (A := string) (W := nat)) : pool :=
  match p_threads p !! tid with
  | Some (Act a k) =>
      let (r, st) := perform a (p_gw p, p_events p, p_world p) in set_thread tid (k r) (set_world st p)
  | _ => p
  end.

Definition pool0 : pool (A := string) (W := nat) := boot_pool demo_gw_reg 0%nat.
Definition pool2 : pool := set_thread 2 (request_prog demo_rq) (set_thread 1 (request_prog demo_rq) pool0).
Definition pool5 : pool := after_act 1 (after_act 2 (after_act 1 pool2)).

Lemma after_act_reach tid (p : pool (A := string) (W := nat)) :
  preachable p → p_lock p = Free → match p_threads p !! tid with Some (Act a _) => plain a = true | _ => True end →
  preachable (after_act tid p).
Proof.
  intros Hr Hf. unfold after_act. destruct (p_threads p !! tid) as [[x|a k]|] eqn:E; try done. intros Hp.
  destruct (perform a _) as [r st] eqn:Hperf. eapply preach_step, ps_run; [done|]. by eapply gs_act.
Qed.

Lemma pool0_reachable : preachable pool0.
Proof.
  apply preach_boot. apply (boot_env demo_gw_spec "nzbget"); [apply boot_empty|].
  apply (bool_decide_eq_true_1 (colon_free _)). vm_compute. reflexivity.
Qed.

Lemma pool5_reachable : preachable pool5.
Proof.
  apply after_act_reach; [|vm_compute; reflexivity|vm_compute; reflexivity].
  apply after_act_reach; [|vm_compute; reflexivity|vm_compute; reflexivity].
  apply after_act_reach; [|vm_compute; reflexivity|vm_compute; reflexivity].
  apply (preach_step (set_thread 1 (request_prog demo_rq) pool0)); [|by apply ps_request].
  apply (preach_step pool0); [apply pool0_reachable|by apply ps_request].
Qed.

(** The lease of the first add is accounted to one running goroutine. *)
Lemma pool_refines_witness :
  ∃ hold, holders hold "nzbget" = 1%nat ∧ ∀ tid id, hold !! tid = Some id → ∃ a k, p_threads pool5 !! tid = Some (Act a k).
Proof.
  destruct (pool_refines pool5 pool5_reachable) as (hold & _ & Hrun & _ & _ & Hfree). exists hold. split; [|exact Hrun].
  destruct Hfree as [_ Hl]; [vm_compute; reflexivity|]. specialize (Hl "nzbget").
  assert (E : leases_of "nzbget" (gw_reg (p_gw pool5)) = 1%Z) by (vm_compute; reflexivity). rewrite E in Hl. lia.
Defined.

(** One add has been served, and the poll loop has started the poll of its job, which is running. *)
Definition after_sched (child tid : nat) (p : pool (A := string) (W := nat)) : pool :=
  match p_threads p !! tid with
  | Some (Act a k) =>
      match a as a return (res a → prog res (option reply)) → pool with
      | Snapshot => λ k, set_thread tid (k (snapshot (gw_jobs (p_gw p)))) p
      | Acquire => λ k, set_thread tid (k tt) (set_slots (p_slots p + 1) p)
      | Go t => λ k, set_thread child (background (task_prog t)) (set_thread tid (k child) p)
      | _ => λ _, p
      end k
  | _ => p
  end.

Definition served_pool : pool := Nat.iter 7 (after_act 1) (set_thread 1 (request_prog demo_rq) pool0).
Definition ticked_pool : pool :=
  set_poll 2 (set_thread 2 (background (pollAll_prog (λ _, MkClock 0 0 0))) served_pool).
Definition waiting_pool : pool := after_sched 3 2 (after_sched 3 2 ticked_pool).
Definition polling_pool : pool := after_act 3 (after_sched 3 2 waiting_pool).

Lemma after_act_recorded tid (p : pool (A := string) (W := nat)) polls :
  recorded p polls → p_lock p = Free → match p_threads p !! tid with Some (Act a _) => plain a = true | _ => True end →
  ∃ polls', recorded (after_act tid p) polls' ∧ ∀ c, polls c → polls' c.
Proof.
  intros Hr Hf. unfold after_act. destruct (p_threads p !! tid) as [[x|a k]|] eqn:E; try (intros _; by exists polls). intros Hp.
  destruct (perform a _) as [r st] eqn:Hperf. eexists. split; [eapply rec_step; [exact Hr|]|by left].
  apply ps_run. by eapply gs_act.
Qed.

Lemma after_sched_recorded child tid (p : pool (A := string) (W := nat)) polls :
  recorded p polls → (p_slots p < pollConcurrency)%Z → p_threads p !! child = None →
  ∃ polls', recorded (after_sched child tid p) polls' ∧
    match p_threads p !! tid with Some (Act (Go (GoPoll _ _)) _) => polls' child | _ => True end.
Proof.
  intros Hr Hs Hc. unfold after_sched. destruct (p_threads p !! tid) as [[x|a k]|] eqn:E; try (by exists polls).
  destruct a; try (by exists polls).
  - eexists. split; [eapply rec_step; [exact Hr|]|done]. apply ps_run. by eapply gs_snapshot.
  - eexists. split; [eapply rec_step; [exact Hr|]; apply ps_run; by eapply gs_go|].
    destruct t as [id|clk job]; [done|]. right. by exists tid, clk, job, k.
  - eexists. split; [eapply rec_step; [exact Hr|]|done]. apply ps_run. by eapply gs_acquire.
Qed.

Lemma iter_recorded n (p : pool (A := string) (W := nat)) polls :
  recorded p polls →
  (∀ m, (m < n)%nat → let q := Nat.iter m (after_act 1) p in
    p_lock q = Free ∧ match p_threads q !! 1%nat with Some (Act a _) => plain a = true | _ => True end) →
  ∃ polls', recorded (Nat.iter n (after_act 1) p) polls'.
Proof.
  intros Hr. induction n as [|n IH]; intros Hq; [by exists polls|].
  destruct IH as [polls1 H1]; [intros m Hm; apply Hq; lia|]. destruct (Hq n) as [Hl Hp]; [lia|].
  destruct (after_act_recorded 1 _ polls1 H1 Hl Hp) as (polls2 & H2 & _). by exists polls2.
Qed.

Lemma served_pool_recorded : ∃ polls, recorded served_pool polls.
Proof.
  destruct (preachable_recorded pool0 pool0_reachable) as [polls Hr].
  eapply (iter_recorded 7); [eapply rec_step; [exact Hr|by apply ps_request]|].
  intros m Hm. do 7 (destruct m as [|m]; [vm_compute; by split|]). lia.
Qed.

Lemma polling_pool_recorded : ∃ polls, recorded polling_pool polls ∧ polls 3%nat.
Proof.
  destruct served_pool_recorded as [polls0 H0].
  assert (H1 : ∃ polls, recorded ticked_pool polls).
  { eexists. eapply rec_step; [exact H0|]. apply ps_tick; [vm_compute; reflexivity|]. intros last Hl. vm_compute in Hl. discriminate Hl. }
  destruct H1 as [polls1 H1].
  destruct (after_sched_recorded 3 2 _ polls1 H1) as (polls2 & H2 & _); [vm_compute; reflexivity..|].
  destruct (after_sched_recorded 3 2 _ polls2 H2) as (polls3 & H3 & _); [vm_compute; reflexivity..|].
  destruct (after_sched_recorded 3 2 _ polls3 H3) as (polls4 & H4 & Hp); [vm_compute; reflexivity..|].
  destruct (after_act_recorded 3 _ polls4 H4) as (polls5 & H5 & Hp'); [vm_compute; reflexivity..|].
  exists polls5. split; [exact H5|]. apply Hp'. vm_compute in Hp. exact Hp.
Qed.

Lemma polling_pool_running : running 3 polling_pool.
Proof.
  assert (Hb : match p_threads polling_pool !! 3%nat with Some (Act _ _) => true | _ => false end = true) by (vm_compute; reflexivity).
  unfold running. destruct (p_threads polling_pool !! 3%nat) as [[x|a k]|]; [discriminate Hb|by exists a, k|discriminate Hb].
Qed.

(** A third large add is refused, a small one is not; a running poll holds a slot. *)
Lemma pool_limits_witness :
  admitAdd (-1) (gw_bodyInFlight (p_gw pool5)) = None ∧ is_Some (admitAdd 100 (gw_bodyInFlight (p_gw pool5))) ∧
  (1 ≤ p_slots polling_pool)%Z.
Proof.
  destruct (preachable_recorded pool5 pool5_reachable) as [polls Hr].
  destruct (pool_limits pool5 polls (-1) Hr) as (_ & _ & Hno & _).
  destruct (pool_limits pool5 polls 100 Hr) as (_ & _ & _ & Hyes & _).
  destruct polling_pool_recorded as (polls3 & Hr3 & H3).
  destruct (pool_limits polling_pool polls3 0 Hr3) as (_ & _ & _ & _ & _ & Hp). split_and!.
  - apply Hno. vm_compute. reflexivity.
  - rewrite Hyes; [by eexists|]. vm_compute. split; discriminate.
  - apply (Hp [3%nat] (NoDup_singleton _)). intros tid ->%list_elem_of_singleton. split; [exact H3|apply polling_pool_running].
Defined.
End witnesses.
