(* ===== verification/Traces.v ===== *)
(** * cmd/server: in which order a goroutine does what it does, whatever the others do meanwhile

    A history of a goroutine is the list of actions it takes with the answer to each; every answer is
    possible, so the histories of a program include all it can have among the other goroutines of
    Threads.v.  [writes_in_order] says what must have happened before a goroutine writes the job table or
    publishes an event, and that the answer of the handler tells it. *)

From S2P Require Import Prelude GoStrings Adapters Responses Clients Registry RegistrySpec Events Interfaces GoFloat Jobs System Gateway Programs Threads ThreadsSpec.

#[local] Notation "'let*' x := p 'in' q" := (bind p (λ x, q)) (at level 10, x pattern, p at level 100, q at level 200).

Section traces.
Context {A W : Type} `{ClientFactory A} `{AdapterOps A W} `{Quote} `{FloatConv}.

Abbreviation act_of := (action (A := A) (W := W)).
Abbreviation program T := (prog (res (A := A) (W := W)) T).

(** An action taken, and its answer. *)
Record taken := Taken { t_act : act_of; t_res : res t_act }.

(** [trace p l x]: [l] is a history of [p], which returns [x]. *)
Fixpoint trace {T} (p : program T) (l : list taken) (x : T) : Prop :=
  match p with
  | Ret y => l = [] ∧ x = y
  | Act a k => ∃ r l', l = Taken a r :: l' ∧ trace (k r) l' x
  end.

Lemma trace_bind {S T} (p : program S) (f : S → program T) l x :
  trace (bind p f) l x ↔ ∃ l1 l2 y, l = l1 ++ l2 ∧ trace p l1 y ∧ trace (f y) l2 x.
Proof.
  revert l. induction p as [y|a k IH]; intros l; cbn.
  - split; [intros Ht; by exists [], l, y|]. by intros (l1 & l2 & z & -> & [-> ->] & Ht).
  - split.
    + intros (r & l' & -> & Ht). apply IH in Ht as (l1 & l2 & y & -> & Ht1 & Ht2).
      exists (Taken a r :: l1), l2, y. split_and!; [done|by exists r, l1|done].
    + intros (l1 & l2 & y & -> & (r & l' & -> & Ht1) & Ht2). exists r, (l' ++ l2). split; [done|]. apply IH. by exists l', l2, y.
Qed.

Lemma trace_act (a : act_of) l x : trace (act a) l x ↔ l = [Taken a x].
Proof. cbn. split; [by intros (r & l' & -> & -> & ->)|]. intros ->. by exists x, []. Qed.

(** Actions that write the job table or publish. *)
Definition writes (a : act_of) : bool :=
  match a with
  | Track _ | TrackIfAbsent _ | Untrack _ _ | MarkMissing _ _ | ClearMissing _ | Observe _ _ _ | Emit _ => true
  | _ => false
  end.

(** Programs that do neither. *)
Fixpoint silent {T} (p : program T) : Prop :=
  match p with
  | Ret _ => True
  | Act a k => writes a = false ∧ ∀ r, silent (k r)
  end.

Lemma silent_trace {T} (p : program T) l x : silent p → trace p l x → ∀ e, e ∈ l → writes (t_act e) = false.
Proof.
  revert l. induction p as [y|a k IH]; intros l Hs; cbn; [by intros [-> _] e He%not_elem_of_nil|].
  intros (r & l' & -> & Ht) e. destruct Hs as [Ha Hk]. intros [->|He]%elem_of_cons; [exact Ha|]. by eapply IH.
Qed.

Lemma silent_bind {S T} (p : program S) (f : S → program T) : silent p → (∀ x, silent (f x)) → silent (bind p f).
Proof. intros Hp Hf. induction p as [y|a k IH]; cbn; [apply Hf|]. destruct Hp as [Ha Hk]. split; [done|]. intros r. by apply IH. Qed.

Ltac silent_tac :=
  repeat (cbn [silent bind act writes];
    match goal with
    | |- _ ∧ _ => split
    | |- True => exact I
    | |- ∀ _, _ => intros ?
    | |- silent (match ?x with _ => _ end) => destruct x
    | |- silent (if ?x then _ else _) => destruct x
    end); try done.

Lemma go_adopts_silent ids : silent (go_adopts ids).
Proof. induction ids as [|id ids IH]; [done|]. cbn. by split. Qed.

Lemma client_statuses_silent clients : silent (client_statuses_prog clients).
Proof.
  induction clients as [|c clients IH]; [done|]. cbn [client_statuses_prog].
  apply silent_bind; [by destruct (as_Reporter _)|]. intros cs. by apply silent_bind.
Qed.

Lemma config_apply_silent d : silent (handleConfigApply_prog d).
Proof.
  unfold handleConfigApply_prog. destruct d as [[rev clients]|e]; [|done]. destruct rev as [rev|]; [|done].
  destruct (rev <? 0)%Z; [done|]. destruct clients as [specs|]; [|done]. cbn. split; [done|]. intros r.
  apply silent_bind; [apply go_adopts_silent|done].
Qed.

(** The requests that only read, and the pushes, which start the adoptions. *)
Lemma request_silent rq :
  match rq with RqAdd _ _ | RqRemove _ _ | RqBoot => True | _ => silent (request_prog rq) end.
Proof.
  assert (Ha : ∀ p, silent p → silent (answering p)) by (intros p Hp; by apply silent_bind).
  destruct rq; try done; cbn [request_prog]; apply Ha; try (unfold handleList_prog, handleDescribe_prog, handleControl_prog,
    handleNames_prog, handleConfigClients_prog; by silent_tac); [|apply config_apply_silent].
  unfold handleClientStatus_prog. cbn. split; [done|]. intros clients. apply silent_bind; [apply client_statuses_silent|done].
Qed.

(** *** Adds and removals *)

Definition quiet (l : list taken) : Prop := ∀ e, e ∈ l → writes (t_act e) = false.

Lemma quiet_app l1 l2 : quiet (l1 ++ l2) ↔ quiet l1 ∧ quiet l2.
Proof. unfold quiet. set_solver. Qed.

Lemma quiet_one (e : taken) l : writes (t_act e) = false → quiet l → quiet (e :: l).
Proof. intros He Hl e' [->|Hin]%elem_of_cons; [done|by apply Hl]. Qed.

Lemma quiet_nil : quiet [].
Proof. intros e He. by apply not_elem_of_nil in He. Qed.

(** A served add, while the lease is held. *)
Definition added id (c : Client A) req jobID : list taken :=
  let t := new_tracked id (c_Type c) jobID (ar_Title req) (ar_WantedItemID req) in
  [Taken (CallAdd (c_Adapter c) (add_job c req)) (Ok jobID); Taken (Track t) tt;
   Taken (Emit (started_event c id jobID req)) tt].

Definition accepted (id jobID : string) : reply :=
  MkReply 202 (BMap [("adapter", id); ("client", id); ("client_job_id", jobID)]).

Lemma add_leased_trace id c req l rep :
  trace (add_leased_prog id c req) l rep →
  (quiet l ∧ re_code rep ≠ 202%Z) ∨ ∃ jobID, l = added id c req jobID ∧ rep = accepted id jobID.
Proof.
  unfold add_leased_prog. cbv zeta. intros Ht.
  lazymatch type of Ht with trace (if ?b then _ else _) _ _ => destruct b end.
  { destruct Ht as [-> ->]. left. by split; [apply quiet_nil|]. }
  cbn in Ht. destruct Ht as (r & l' & -> & Ht). destruct r as [jobID|e].
  - right. exists jobID. cbn in Ht. destruct Ht as ([] & l2 & -> & [] & l3 & -> & -> & ->). done.
  - left. assert (Hl : l' = [] ∧ re_code rep ≠ 202%Z) by (destruct e; cbn in Ht; destruct Ht as [-> ->]; by split).
    destruct Hl as [-> Hc]. split; [|done]. by apply quiet_one; [|apply quiet_nil].
Qed.

Lemma add_admitted_trace d l rep :
  trace (add_admitted_prog d) l rep →
  (quiet l ∧ re_code rep ≠ 202%Z) ∨
  ∃ req c jobID, d = Ok req ∧ rep = accepted (add_id req) jobID ∧
    l = Taken (LeaseClient (add_id req)) (Ok c) :: added (add_id req) c req jobID ++ [Taken (ReleaseClient (add_id req)) tt].
Proof.
  unfold add_admitted_prog. destruct d as [req|e].
  2:{ intros [-> ->]. left. split; [apply quiet_nil|]. by destruct e. }
  cbv zeta. intros Ht. do 2 (lazymatch type of Ht with trace (if ?b then _ else _) _ _ => destruct b end;
    [destruct Ht as [-> ->]; left; by split; [apply quiet_nil|]|]).
  destruct Ht as (r & l1 & -> & Ht). cbn [bind] in Ht. destruct r as [c|[]].
  2,3: destruct Ht as [-> ->]; left; split; [by apply quiet_one; [|apply quiet_nil]|done].
  apply trace_bind in Ht as (l2 & l3 & rep' & -> & Hl & Hr). cbn in Hr. destruct Hr as ([] & l4 & -> & -> & ->).
  destruct (add_leased_trace _ _ _ _ _ Hl) as [[Hq Hc]|(jobID & -> & ->)].
  - left. split; [|done]. apply quiet_one; [done|]. apply quiet_app. split; [done|]. by apply quiet_one; [|apply quiet_nil].
  - right. by exists req, c, jobID.
Qed.

Lemma handleAdd_trace n d l rep :
  trace (handleAdd_prog n d) l rep →
  (quiet l ∧ re_code rep ≠ 202%Z) ∨
  ∃ req m c jobID, d = Ok req ∧ rep = accepted (add_id req) jobID ∧
    l = [Taken (AdmitAdd n) (Some m); Taken (LeaseClient (add_id req)) (Ok c)] ++ added (add_id req) c req jobID ++
        [Taken (ReleaseClient (add_id req)) tt; Taken (ReleaseBody m) tt].
Proof.
  unfold handleAdd_prog. intros (r & l1 & -> & Ht). cbn [bind] in Ht. destruct r as [m|].
  2:{ destruct Ht as [-> ->]. left. split; [by apply quiet_one; [|apply quiet_nil]|done]. }
  apply trace_bind in Ht as (l2 & l3 & rep' & -> & Hl & Hr). cbn in Hr. destruct Hr as ([] & l4 & -> & -> & ->).
  destruct (add_admitted_trace _ _ _ Hl) as [[Hq Hc]|(req & c & jobID & -> & -> & ->)].
  - left. split; [|done]. apply quiet_one; [done|]. apply quiet_app. split; [done|]. by apply quiet_one; [|apply quiet_nil].
  - right. exists req, m, c, jobID. split_and!; [done|done|]. cbn. done.
Qed.

Lemma handleRemove_trace name id l rep :
  trace (handleRemove_prog name id) l rep →
  (quiet l ∧ re_code rep ≠ 204%Z) ∨
  ∃ ad, rep = MkReply 204 BEmpty ∧
    l = [Taken (GetClient name) (Some ad); Taken (CallRemove ad id) (Ok tt); Taken (Untrack name id) tt].
Proof.
  unfold handleRemove_prog. intros (r & l1 & -> & Ht). cbn [bind] in Ht. destruct r as [ad|].
  2:{ destruct Ht as [-> ->]. left. split; [by apply quiet_one; [|apply quiet_nil]|done]. }
  cbn in Ht. destruct Ht as (r & l2 & -> & Ht). destruct r as [[]|e].
  - cbn in Ht. destruct Ht as ([] & l3 & -> & -> & ->). right. by exists ad.
  - cbn in Ht. destruct Ht as [-> ->]. left. split; [|done]. do 2 (apply quiet_one; [done|]). apply quiet_nil.
Qed.

(** *** Adoptions and polls *)

(** The jobs a client listed, tracked one after the other under its lease. *)
Definition tracked_of id (c : Client A) (j : AdoptedJob) : tracked :=
  new_tracked id (c_Type c) (aj_ClientJobID j) (aj_Title j) EmptyString.

Lemma adopt_jobs_trace id (c : Client A) jobs l x :
  trace (adopt_jobs_prog id (c_Type c) jobs) l x → t_act <$> l = (TrackIfAbsent ∘ tracked_of id c) <$> jobs.
Proof.
  revert l. induction jobs as [|j jobs IH]; intros l; [by intros [-> _]|].
  cbn [adopt_jobs_prog]. intros (r & l' & -> & Ht). cbn [bind] in Ht. cbn. f_equal. by apply IH.
Qed.

Lemma adopt_trace id l x :
  trace (adopt_prog id) l x →
  quiet l ∨
  ∃ c f jobs l', as_Rehydrator (c_Adapter c) = Some f ∧ t_act <$> l' = (TrackIfAbsent ∘ tracked_of id c) <$> jobs ∧
    l = [Taken (LeaseClient id) (Ok c); Taken (CallAdopt f) (Ok jobs)] ++ l' ++ [Taken (ReleaseClient id) tt].
Proof.
  unfold adopt_prog. intros (r & l1 & -> & Ht). cbn [bind] in Ht. destruct r as [c|e].
  2:{ destruct Ht as [-> _]. left. by apply quiet_one; [|apply quiet_nil]. }
  apply trace_bind in Ht as (l2 & l3 & [] & -> & Hl & Hr). cbn in Hr. destruct Hr as ([] & l4 & -> & -> & _).
  unfold adopt_leased_prog in Hl. destruct (as_Rehydrator (c_Adapter c)) as [f|] eqn:Hf.
  2:{ destruct Hl as [-> _]. left. cbn. do 2 (apply quiet_one; [done|]). apply quiet_nil. }
  destruct Hl as (r & l5 & -> & Ht). cbn [bind] in Ht. destruct r as [jobs|e].
  - right. exists c, f, jobs, l5. split_and!; [done|by apply (adopt_jobs_trace _ _ _ _ tt)|done].
  - destruct Ht as [-> _]. left. cbn. do 3 (apply quiet_one; [done|]). apply quiet_nil.
Qed.

Lemma adopt_all_trace ids l x :
  trace (adopt_all_prog ids) l x → ∃ ls, l = concat ls ∧ Forall2 (λ id l', trace (adopt_prog id) l' tt) ids ls.
Proof.
  revert l. induction ids as [|id ids IH]; intros l; [intros [-> _]; by exists []|].
  cbn [adopt_all_prog]. intros (l1 & l2 & [] & -> & Hl & Hr)%trace_bind. destruct (IH _ Hr) as (ls & -> & Hls).
  exists (l1 :: ls). split; [done|by constructor].
Qed.

(** How a poll ends once its client answered [v]: its job is given up, or it goes on. *)
Definition poll_ends (clk : Clock) (job : tracked) (v : JobView) (l : list taken) : Prop :=
  ∃ mid ev, l = mid ++ [Taken (Emit ev) tt; Taken (Untrack (t_adapter job) (t_clientJobID job)) tt] ∧
    terminal ev = true ∧ event_key ev = job_key job ∧
    ((v_State v = StatusCompleted ∨ v_State v = StatusFailed) ∧ mid = [] ∨
     v_NativeState v = NotFoundState ∧ mid = [Taken (MarkMissing (clk_missing clk) job) true]).

Definition poll_goes_on (clk : Clock) (job : tracked) (v : JobView) (l : list taken) : Prop :=
  ∃ mid p, let v' := fillDerived (clk_rate clk) v p.1 p.2 in
    l = mid :: [Taken (PrevSample job) p; Taken (Emit (progress_event job v')) tt; Taken (Observe (clk_observe clk) job v') tt] ∧
    v_State v ≠ StatusCompleted ∧ v_State v ≠ StatusFailed ∧
    (v_NativeState v = NotFoundState ∧ mid = Taken (MarkMissing (clk_missing clk) job) false ∨
     v_NativeState v ≠ NotFoundState ∧ mid = Taken (ClearMissing job) tt).

Lemma poll_view_trace clk job v l x :
  trace (poll_view_prog clk job v) l x → poll_ends clk job v l ∨ poll_goes_on clk job v l.
Proof.
  assert (Hprog : ∀ mid l', trace (poll_progress_prog clk job v) l' x → v_State v ≠ StatusCompleted → v_State v ≠ StatusFailed →
    (v_NativeState v = NotFoundState ∧ mid = Taken (MarkMissing (clk_missing clk) job) false ∨
     v_NativeState v ≠ NotFoundState ∧ mid = Taken (ClearMissing job) tt) → poll_goes_on clk job v (mid :: l')).
  { intros mid l' Ht H1' H2' Hm. unfold poll_progress_prog in Ht. cbn in Ht.
    destruct Ht as (p & l1 & -> & [] & l2 & -> & [] & l3 & -> & -> & _). by exists mid, p. }
  assert (Hmiss : v_State v ≠ StatusCompleted → v_State v ≠ StatusFailed →
    trace (if bool_decide (v_NativeState v = NotFoundState) then
        let* lost := act (MarkMissing (clk_missing clk) job) in
        if lost then
          let* _ := act (Emit (failed_event job (t_title job) ("job is no longer known to " +:+ t_adapter job))) in
          act (Untrack (t_adapter job) (t_clientJobID job))
        else poll_progress_prog clk job v
      else let* _ := act (ClearMissing job) in poll_progress_prog clk job v) l x → poll_ends clk job v l ∨ poll_goes_on clk job v l).
  { intros H1' H2'. case_bool_decide as E.
    - intros (lost & l1 & -> & Ht). cbn [bind] in Ht. destruct lost; [left|right; apply Hprog; auto].
      cbn in Ht. destruct Ht as ([] & l2 & -> & [] & l3 & -> & -> & _). exists [Taken (MarkMissing (clk_missing clk) job) true].
      eexists. split_and!; [done|done|done|by right].
    - intros ([] & l1 & -> & Ht). right. apply Hprog; auto. }
  unfold poll_view_prog. destruct (v_State v) eqn:Hs; try (apply Hmiss; congruence).
  all: intros Ht; cbn in Ht; destruct Ht as ([] & l1 & -> & [] & l2 & -> & -> & _); left; exists []; eexists; rewrite Hs; split_and!; [done|done|done|left; auto].
Qed.

Lemma pollOne_trace clk job l x :
  trace (pollOne_prog clk job) l x →
  l = [Taken (GetClient (t_adapter job)) None; Taken (Untrack (t_adapter job) (t_clientJobID job)) tt] ∨
  ∃ ad answer l', l = Taken (GetClient (t_adapter job)) (Some ad) :: Taken (CallDescribe ad (t_clientJobID job)) answer :: l' ∧
    match answer with
    | Err _ => l' = []
    | Ok v => poll_ends clk job v l' ∨ poll_goes_on clk job v l'
    end.
Proof.
  unfold pollOne_prog. intros Ht. destruct Ht as (r & l1 & -> & Ht). cbn [bind] in Ht. destruct r as [ad|].
  - right. destruct Ht as (answer & l2 & -> & Ht). cbn [bind] in Ht. exists ad, answer, l2. split; [done|].
    destruct answer as [v|e]; [by eapply poll_view_trace|by destruct Ht].
  - left. cbn in Ht. by destruct Ht as ([] & l2 & -> & -> & _).
Qed.

(** *** Histories in a run of the server *)

(** [took tid p p' l]: in a run from [p] to [p'] the goroutine [tid] took the actions [l], with the answers
    it got; the other steps leave its program as it is. *)
Inductive took (tid : nat) : pool (A := A) (W := W) → pool → list taken → Prop :=
  | took_nil p : took tid p p []
  | took_own p p1 p' a k r l :
      p_threads p !! tid = Some (Act a k) → pstep p p1 → p_threads p1 !! tid = Some (k r) → took tid p1 p' l →
      took tid p p' (Taken a r :: l)
  | took_other p p1 p' l :
      pstep p p1 → p_threads p1 !! tid = p_threads p !! tid → took tid p1 p' l → took tid p p' l.

Lemma took_trace tid (p p' : pool (A := A) (W := W)) l pr x :
  took tid p p' l → p_threads p !! tid = Some pr → p_threads p' !! tid = Some (Ret x) → trace pr l x.
Proof.
  intros Ht. revert pr. induction Ht as [p|p p1 p' a k r l Ha _ Hk _ IH|p p1 p' l _ Hs _ IH]; intros pr Hp Hx.
  - rewrite Hp in Hx. by injection Hx as ->.
  - rewrite Ha in Hp. injection Hp as <-. exists r, l. split; [done|]. by apply IH.
  - apply IH; [by rewrite Hs|done].
Qed.

(** A step is one action of a goroutine, or leaves its program as it is. *)
Lemma pstep_thread tid (p p' : pool (A := A) (W := W)) pr :
  pstep p p' → p_threads p !! tid = Some pr →
  p_threads p' !! tid = Some pr ∨ ∃ a k r, pr = Act a k ∧ p_threads p' !! tid = Some (k r).
Proof.
  intros Hst Hp.
  assert (Hnew : ∀ i q (T : gmap nat (program (option reply))), p_threads p !! i = None → T !! tid = Some pr → <[i := q]> T !! tid = Some pr).
  { intros i q T Hi HT. rewrite lookup_insert_ne; [done|]. intros ->. congruence. }
  assert (Hown : ∀ i a (k : res a → program (option reply)) r, p_threads p !! i = Some (Act a k) →
    <[i := k r]> (p_threads p) !! tid = Some pr ∨ ∃ a' k' r', pr = Act a' k' ∧ <[i := k r]> (p_threads p) !! tid = Some (k' r')).
  { intros i a k r Hi. destruct (decide (i = tid)) as [->|Hne].
    - right. rewrite Hi in Hp. injection Hp as <-. exists a, k, r. by rewrite lookup_insert_eq.
    - left. by rewrite lookup_insert_ne. }
  inversion Hst as [? i rq Hn|? i clk Hn Hlast|? w|?|? ? Hg]; subst; cbn; try (left; (by apply Hnew) || done).
  inversion Hg as [? i a k r st Ht Hpl Hf Hperf|? i k l Ht Hl|? i t k child Ht Hc|? i child k Ht Hc|? i k Ht Hlt|? i k Ht
    |? i rev specs k order Ht Hf Ho|? i rev specs k order sw ans Ht How Hl|? i k order Ht Hf Ho|? i k order m ans Ht How Hl|? l Hw];
    subst; cbn; try (by left); try (by eapply Hown).
  destruct (Hown i (Go t) k child Ht) as [E|(a & k' & r & -> & E)]; [left; by apply Hnew|]. right. exists a, k', r. split; [done|].
  rewrite lookup_insert_ne; [done|]. intros ->. congruence.
Qed.

Lemma run_took tid (p p' : pool (A := A) (W := W)) :
  rtc pstep p p' → is_Some (p_threads p !! tid) → ∃ l, took tid p p' l.
Proof.
  induction 1 as [p|p p1 p' Hst _ IH]; intros [pr Hp]; [exists []; constructor|].
  destruct (pstep_thread tid p p1 pr Hst Hp) as [E|(a & k & r & -> & E)].
  - destruct IH as [l Hl]; [by eexists|]. exists l. eapply took_other; [done|congruence|done].
  - destruct IH as [l Hl]; [by eexists|]. exists (Taken a r :: l). by eapply took_own.
Qed.

(** ** Property *)

(** A request that was answered [rep]. *)
Definition request_history (rq : request) (l : list taken) (rep : option reply) : Prop :=
  match rq with
  | RqAdd n d =>
      (quiet l ∧ re_code <$> rep ≠ Some 202%Z) ∨
      ∃ req m c jobID, d = Ok req ∧ rep = Some (accepted (add_id req) jobID) ∧
        let id := add_id req in
        let t := new_tracked id (c_Type c) jobID (ar_Title req) (ar_WantedItemID req) in
        l = [Taken (AdmitAdd n) (Some m); Taken (LeaseClient id) (Ok c);
             Taken (CallAdd (c_Adapter c) (add_job c req)) (Ok jobID); Taken (Track t) tt;
             Taken (Emit (started_event c id jobID req)) tt; Taken (ReleaseClient id) tt; Taken (ReleaseBody m) tt]
  | RqRemove name id =>
      (quiet l ∧ re_code <$> rep ≠ Some 204%Z) ∨
      ∃ ad, rep = Some (MkReply 204 BEmpty) ∧
        l = [Taken (GetClient name) (Some ad); Taken (CallRemove ad id) (Ok tt); Taken (Untrack name id) tt]
  | RqBoot =>
      ∃ clients ls, l = Taken ActiveClients clients :: concat ls ∧
        Forall2 (λ c l', trace (adopt_prog (c_ID c)) l' tt) clients ls
  | _ => quiet l
  end.

Definition adoption_history (id : string) (l : list taken) : Prop :=
  quiet l ∨
  ∃ c f jobs l', as_Rehydrator (c_Adapter c) = Some f ∧
    t_act <$> l' = (λ j, TrackIfAbsent (new_tracked id (c_Type c) (aj_ClientJobID j) (aj_Title j) EmptyString)) <$> jobs ∧
    l = [Taken (LeaseClient id) (Ok c); Taken (CallAdopt f) (Ok jobs)] ++ l' ++ [Taken (ReleaseClient id) tt].

Definition poll_history (clk : Clock) (job : tracked) (l : list taken) : Prop :=
  l = [Taken (GetClient (t_adapter job)) None; Taken (Untrack (t_adapter job) (t_clientJobID job)) tt] ∨
  ∃ ad answer l', l = Taken (GetClient (t_adapter job)) (Some ad) :: Taken (CallDescribe ad (t_clientJobID job)) answer :: l' ∧
    match answer with
    | Err _ => l' = []
    | Ok v => poll_ends clk job v l' ∨ poll_goes_on clk job v l'
    end.

Lemma request_trace rq l rep : trace (request_prog rq) l rep → request_history rq l rep.
Proof.
  intros Ht. unfold request_history.
  assert (Ha : ∀ p, trace (answering p) l rep → ∃ rep', trace p l rep' ∧ rep = Some rep').
  { intros p (l1 & l2 & rep' & -> & Hl & [-> ->])%trace_bind. rewrite app_nil_r. by exists rep'. }
  pose proof (request_silent rq) as Hs. destruct rq; try (intros e He; by eapply (silent_trace (request_prog _) l rep)); clear Hs.
  - apply Ha in Ht as (rep' & Ht & ->). destruct (handleAdd_trace _ _ _ _ Ht) as [[Hq Hc]|(req & m & c & jobID & -> & -> & ->)].
    + left. split; [done|]. cbn. by intros [= ?].
    + right. by exists req, m, c, jobID.
  - apply Ha in Ht as (rep' & Ht & ->). destruct (handleRemove_trace _ _ _ _ Ht) as [[Hq Hc]|(ad & -> & ->)].
    + left. split; [done|]. cbn. by intros [= ?].
    + right. by exists ad.
  - apply trace_bind in Ht as (l1 & l2 & [] & -> & Hl & [-> _]). unfold adoptExisting_prog in Hl.
    destruct Hl as (clients & l3 & -> & Hl). cbn [bind] in Hl. destruct (adopt_all_trace _ _ _ Hl) as (ls & -> & Hls).
    exists clients, ls. rewrite app_nil_r. split; [done|]. by apply Forall2_fmap_l in Hls.
Qed.

(** C19: what a goroutine has done before it writes the job table or publishes, in every run of the
    server: between any two of its actions the others may have taken any steps.
    An add tracks a job only after it was admitted, leased its client and got the job's id from it;
    it then announces it, gives the lease and its room back, and is answered 202; an add with any other
    answer has written and published nothing.  A removal drops the job only after its client
    removed it, and is then answered 204; with any other answer it has dropped nothing.  The
    adoption at boot is one adoption after the other; no other request writes or publishes.  An
    adoption tracks exactly the jobs the client listed, under its lease, which it gives back after.
    A poll drops its job without a word only when the client is gone; else it publishes nothing, or
    one event, after its client's answer: a terminal one right before it drops its job, or its progress
    right before it notes it; the slot of the semaphore it gives back last. *)
Theorem writes_in_order (p p' : pool (A := A) (W := W)) tid :
  rtc pstep p p' →
  (∀ rq rep, p_threads p !! tid = Some (request_prog rq) → p_threads p' !! tid = Some (Ret rep) →
     ∃ l, took tid p p' l ∧ request_history rq l rep) ∧
  (∀ id x, p_threads p !! tid = Some (background (task_prog (GoAdopt id))) → p_threads p' !! tid = Some (Ret x) →
     ∃ l, took tid p p' l ∧ adoption_history id l) ∧
  (∀ clk job x, p_threads p !! tid = Some (background (task_prog (GoPoll clk job))) → p_threads p' !! tid = Some (Ret x) →
     ∃ l, took tid p p' (l ++ [Taken Free_slot tt]) ∧ poll_history clk job l).
Proof.
  intros Hrun.
  assert (Hh : ∀ pr x, p_threads p !! tid = Some pr → p_threads p' !! tid = Some (Ret x) → ∃ l, took tid p p' l ∧ trace pr l x).
  { intros pr x Hp Hx. destruct (run_took tid p p' Hrun) as [l Hl]; [by eexists|]. exists l. split; [done|]. by eapply took_trace. }
  split_and!.
  - intros rq rep Hp Hx. destruct (Hh _ _ Hp Hx) as (l & Hl & Ht). exists l. split; [done|by apply request_trace].
  - intros id x Hp Hx. destruct (Hh _ _ Hp Hx) as (l & Hl & Ht). exists l. split; [done|].
    apply trace_bind in Ht as (l1 & l2 & [] & -> & Ht & [-> _]). rewrite app_nil_r. by eapply adopt_trace.
  - intros clk job x Hp Hx. destruct (Hh _ _ Hp Hx) as (l & Hl & Ht).
    apply trace_bind in Ht as (l1 & l2 & [] & -> & Ht & [-> _]). rewrite app_nil_r in Hl.
    apply trace_bind in Ht as (l3 & l4 & [] & -> & Ht & ->%trace_act). exists l3. split; [exact Hl|by eapply pollOne_trace].
Qed.
End traces.

Section witnesses.
#[local] Existing Instance Gateway.demo_gw_quote.
#[local] Existing Instance Gateway.demo_gw_factory.
#[local] Existing Instance Gateway.demo_gw_ops.
#[local] Existing Instance ThreadsSpec.demo_pool_conv.

Definition removing_pool : pool (A := string) (W := nat) := set_thread 1 (request_prog (RqRemove "nzbget" "7")) pool0.
Definition removed_pool : pool (A := string) (W := nat) := after_act 1 (after_act 1 (after_act 1 removing_pool)).

Lemma after_act_run tid (p : pool (A := string) (W := nat)) :
  p_lock p = Free → match p_threads p !! tid with Some (Act a _) => plain a = true | _ => True end → rtc pstep p (after_act tid p).
Proof.
  intros Hf. unfold after_act. destruct (p_threads p !! tid) as [[x|a k]|] eqn:E; try done. intros Hp.
  destruct (perform a _) as [r st] eqn:Hperf. apply rtc_once, ps_run. by eapply gs_act.
Qed.

(** A removal its client agreed to: it took three actions, the last of which dropped the job. *)
Lemma writes_in_order_witness :
  ∃ l, took 1 removing_pool removed_pool l ∧ Untrack "nzbget" "7" ∈ t_act <$> l ∧ length l = 3%nat.
Proof.
  assert (Hrun : rtc pstep removing_pool removed_pool).
  { etrans; [apply (after_act_run 1); vm_compute; reflexivity|].
    etrans; [apply (after_act_run 1); vm_compute; reflexivity|]. apply (after_act_run 1); vm_compute; reflexivity. }
  destruct (writes_in_order removing_pool removed_pool 1 Hrun) as (Hw & _).
  destruct (Hw (RqRemove "nzbget" "7") (Some (MkReply 204 BEmpty))) as (l & Hl & Hh); [apply lookup_insert_eq|vm_compute; reflexivity|].
  exists l. split; [exact Hl|]. destruct Hh as [[_ Hc]|(ad & _ & ->)]; [exfalso; by apply Hc|].
  split; [|reflexivity]. apply list_elem_of_further, list_elem_of_further, list_elem_of_here.
Defined.
End witnesses.
