(* ===== verification/Liveness.v ===== *)
(** * The server comes to rest

    When no request arrives and no tick starts, the goroutines that run finish: every sequence of
    their steps is finite, whatever the clients answer and however they change meanwhile
    ([runs_end]), and it can only end with every goroutine finished, the registry's lock free, and
    nothing leased, reserved or taken ([rest_clean]); in particular the server never deadlocks. *)

From S2P Require Import Prelude GoStrings Adapters Responses Clients Registry RegistrySpec Events Interfaces GoFloat Jobs System Gateway Programs Threads ThreadsSpec.

(** ** Every run is finite *)

Section ends.
Context {A W : Type} `{ClientFactory A} `{AdapterOps A W} `{Quote} `{FloatConv}.

Abbreviation routine := (prog (res (A := A) (W := W)) (option reply)).

(** What a goroutine is after its next action, when that starts no other; and when it does. *)
Definition continues (pr pr' : routine) : Prop :=
  match pr with Act a k => ∃ r, pr' = k r | Ret _ => False end.

Definition starts (pr : routine) (t : task) (c : nat) (pr' : routine) : Prop :=
  match pr with Act (Go t') k => t' = t ∧ pr' = k c | _ => False end.

(** The goroutines alone, with every answer possible. *)
Inductive tstep : gmap nat routine → gmap nat routine → Prop :=
  | ts_act T i pr pr' : T !! i = Some pr → continues pr pr' → (∀ t c, ¬ starts pr t c pr') → tstep T (<[i := pr']> T)
  | ts_go T i pr t c pr' :
      T !! i = Some pr → T !! c = None → starts pr t c pr' →
      tstep T (<[c := background (task_prog t)]> (<[i := pr']> T)).

Abbreviation ending := (Acc (flip tstep)).

(** Two groups of goroutines that both end, end together. *)
Lemma ending_union T1 : ending T1 → ∀ T2, ending T2 → T1 ##ₘ T2 → ending (T1 ∪ T2).
Proof.
  induction 1 as [T1 HT1 IH1]. induction 1 as [T2 HT2 IH2]. intros Hd. constructor. intros T' Hst. unfold flip in *.
  inversion Hst as [? i pr pr' Hi Hc Hn|? i pr t c pr' Hi Hc Hs]; subst; apply (lookup_union_Some _ _ _ _ Hd) in Hi as [Hi|Hi].
  - rewrite insert_union_l. apply IH1; [econstructor; eassumption|constructor; exact HT2|].
    by apply map_disjoint_insert_l_2; [eapply map_disjoint_Some_l|].
  - rewrite insert_union_r by by eapply map_disjoint_Some_r. apply IH2; [econstructor; eassumption|].
    by apply map_disjoint_insert_r_2; [eapply map_disjoint_Some_r|].
  - apply lookup_union_None in Hc as [Hc1 Hc2]. rewrite !insert_union_l. apply IH1; [econstructor; eassumption|constructor; exact HT2|].
    apply map_disjoint_insert_l_2; [done|]. apply map_disjoint_insert_l_2; [by eapply map_disjoint_Some_l|done].
  - apply lookup_union_None in Hc as [Hc1 Hc2]. rewrite insert_union_r by by eapply map_disjoint_Some_r.
    rewrite insert_union_r by done. apply IH2; [econstructor; eassumption|].
    apply map_disjoint_insert_r_2; [done|]. apply map_disjoint_insert_r_2; [by eapply map_disjoint_Some_r|done].
Qed.

(** One goroutine ends when what it continues with does, and what it starts. *)
Lemma ending_one i pr :
  (∀ pr', continues pr pr' → (∀ t c, ¬ starts pr t c pr') → ending {[i := pr']}) →
  (∀ t c pr', c ≠ i → starts pr t c pr' → ending {[i := pr']} ∧ ending {[c := background (task_prog t)]}) →
  ending {[i := pr]}.
Proof.
  intros Hc Hs. constructor. intros T Hst. unfold flip in Hst.
  inversion Hst as [? j pr1 pr' Hj Hco Hn|? j pr1 t c pr' Hj Hf Hst']; subst; apply lookup_singleton_Some in Hj as [-> ->].
  - rewrite insert_singleton_eq. by apply Hc.
  - apply lookup_singleton_None in Hf. destruct (Hs t c pr') as [H1' H2']; [congruence|done|].
    rewrite insert_singleton_eq, insert_union_singleton_l. apply ending_union; [done|done|].
    apply map_disjoint_singleton_l_2. by apply lookup_singleton_None.
Qed.

(** A goroutine that starts no other. *)
Lemma ending_leaf i (pr : routine) o Q : owns o pr Q → o_leaf o = true → ending {[i := pr]}.
Proof.
  revert o. induction pr as [x|a k IH]; intros o Ho Hl; [apply ending_one; [intros ? []|intros ? ? ? ? []]|]. destruct Ho as [Hpre Hk]. apply ending_one.
  - intros pr' [r ->] _. apply (IH r (post o a r)); [apply Hk|]. destruct a; cbn; try done; by destruct r.
  - intros t c pr' _ Hst. cbn in Hst. destruct a; try destruct Hst. destruct Hpre as [Hf _]. congruence.
Qed.

Lemma ending_goroutine i (pr : routine) : ending {[i := pr]}.
Proof.
  induction pr as [x|a k IH]; [apply ending_one; [intros ? []|intros ? ? ? ? []]|]. apply ending_one.
  - intros pr' [r ->] _. apply IH.
  - intros t c pr' _ Hst. cbn in Hst. destruct a; try destruct Hst. subst. split; [apply IH|by eapply ending_leaf; [apply task_owns|]].
Qed.

Lemma ending_all T : ending T.
Proof.
  induction T as [|i pr T Hi IH] using map_ind.
  - constructor. intros T Hst. unfold flip in Hst. by inversion Hst; subst.
  - rewrite insert_union_singleton_l. apply ending_union; [apply ending_goroutine|done|by apply map_disjoint_singleton_l_2].
Qed.

(** The steps a push or a reaping has left. *)
Definition walk_left (l : lock (A := A)) : nat :=
  match l with
  | Free => 0
  | Sweeping _ _ _ todo _ _ p | Reaping _ todo _ _ p => 2 * length todo + match p with Some _ => 0 | None => 1 end
  end.

(** A step of the pool is a step of its goroutines, or of a walk. *)
Lemma gstep_threads (p p' : pool (A := A) (W := W)) :
  gstep p p' →
  tstep (p_threads p) (p_threads p') ∨
  (p_threads p' = p_threads p ∧ (p_lock p = Free ∧ p_lock p' ≠ Free ∨ p_lock p' ≠ Free ∧ walk_left (p_lock p') < walk_left (p_lock p))).
Proof.
  intros Hst. inversion Hst as [? tid a k r st Ht Hp Hf Hperf|? tid k l Ht Hl
    |? tid t k child Ht Hc|? tid child k Ht Hc|? tid k Ht Hlt|? tid k Ht|? tid rev specs k order Ht Hf Ho
    |? tid rev specs k order sw ans Ht How Hl|? tid k order Ht Hf Ho|? tid k order m ans Ht How Hl|? l Hw]; subst; cbn.
  - left. apply (ts_act _ _ (Act a k)); [done|by eexists|]. intros t c Hs. destruct a; try destruct Hs. discriminate Hp.
  - left. apply (ts_act _ _ (Act Snapshot k)); [done|by eexists|by intros ? ? []].
  - left. by apply (ts_go _ _ (Act (Go t) k)).
  - left. apply (ts_act _ _ (Act (Wait child) k)); [done|by eexists|by intros ? ? []].
  - left. apply (ts_act _ _ (Act Acquire k)); [done|by eexists|by intros ? ? []].
  - left. apply (ts_act _ _ (Act Free_slot k)); [done|by eexists|by intros ? ? []].
  - right. split; [done|]. left. by split.
  - left. apply (ts_act _ _ (Act (ApplyPush rev specs) k)); [done|by eexists|by intros ? ? []].
  - right. split; [done|]. left. by split.
  - left. apply (ts_act _ _ (Act ReapClients k)); [done|by eexists|by intros ? ? []].
  - right. split; [done|]. right. inversion Hw; subst; cbn; split; try done; lia.
Qed.

(** A step of a goroutine, after the clients changed in any way. *)
Definition served (p p' : pool (A := A) (W := W)) : Prop := ∃ w, gstep (set_world (p_gw p, p_events p, w) p) p'.

Lemma served_threads p p' :
  served p p' →
  tstep (p_threads p) (p_threads p') ∨
  (p_threads p' = p_threads p ∧ (p_lock p = Free ∧ p_lock p' ≠ Free ∨ p_lock p' ≠ Free ∧ walk_left (p_lock p') < walk_left (p_lock p))).
Proof. intros [w Hst]. by apply gstep_threads in Hst. Qed.

Lemma served_acc p : Acc (flip served) p.
Proof.
  remember (p_threads p) as T eqn:ET. revert p ET. induction (ending_all T) as [T _ IHT]. intros p ->.
  assert (Hwalk : ∀ n q, walk_left (p_lock q) < n → p_lock q ≠ Free → p_threads q = p_threads p → Acc (flip served) q).
  { induction n as [|n IHn]; intros q Hn Hf Hq; [lia|]. constructor. intros q' Hst.
    destruct (served_threads q q' Hst) as [Ht|(Ht & [[Hfree _]|[Hf' Hlt]])]; [|done|].
    - rewrite Hq in Ht. by eapply IHT.
    - apply IHn; [lia|done|congruence]. }
  constructor. intros q Hst. destruct (served_threads p q Hst) as [Ht|(Ht & [[_ Hf]|[Hf _]])]; [by eapply IHT|..];
    (eapply Hwalk; [apply Nat.lt_succ_diag_r|done|done]).
Qed.

(** ** Some goroutine can always move *)

Implicit Types p : pool (A := A) (W := W).

(** Every action but waiting for another goroutine or for a slot is possible while the lock is free. *)
Lemma can_move p tid a k :
  p_threads p !! tid = Some (Act a k) → p_lock p = Free →
  match a with Wait _ | Acquire => False | _ => True end → ∃ p', gstep p p'.
Proof.
  intros Ht Hf Ha.
  assert (Hplain : plain a = true → ∃ p', gstep p p').
  { intros Hp. destruct (perform a (p_gw p, p_events p, p_world p)) as [r st] eqn:E. eexists. by eapply gs_act. }
  destruct a; try (by apply Hplain); try destruct Ha.
  - eexists. eapply gs_apply; [done..|]. unfold sweep_order. reflexivity.
  - eexists. eapply gs_reap; [done..|]. reflexivity.
  - eexists. eapply gs_snapshot; [done|]. reflexivity.
  - eexists. eapply (gs_go p tid t k (fresh (dom (p_threads p)))); [done|]. apply not_elem_of_dom, is_fresh.
  - eexists. by eapply gs_free.
Qed.

Lemma leaf_moves p O tid a k o :
  pinv p O → p_lock p = Free → p_threads p !! tid = Some (Act a k) → O !! tid = Some o →
  o_leaf o = true ∨ o_slot o = true → ∃ p', gstep p p'.
Proof.
  intros Hinv Hf Ht HO Ho. destruct (pi_owns _ _ Hinv tid _ _ Ht HO) as [Hpre _].
  eapply can_move; [done|done|]. destruct a; try exact I; cbn in Hpre; destruct Hpre as [H1' H2'], Ho; try congruence.
  destruct H2'. congruence.
Qed.

Lemma unfinished_moves p O tid a k : pinv p O → p_threads p !! tid = Some (Act a k) → ∃ p', gstep p p'.
Proof.
  intros Hinv Ht. pose proof (pi_lock _ _ Hinv) as Hlk. pose proof (reachable_pending _ (pi_sys _ _ Hinv)) as Hpend.
  unfold lock_ok in Hlk. unfold pending_inv in Hpend. cbn [s_lock sys_of] in Hpend.
  destruct (p_lock p) as [|rev specs order todo sw ans b|order todo m ans b] eqn:Hl.
  - assert (Hdec : (∃ child, a = Wait child) ∨ a = Acquire ∨ match a with Wait _ | Acquire => False | _ => True end).
    { destruct a; eauto. }
    destruct (pinv_owner p O tid _ Hinv Ht) as [o HO]. destruct (pi_owns _ _ Hinv tid _ _ Ht HO) as [Hpre _].
    destruct Hdec as [[child ->]|[->|Ha]]; [..|by eapply can_move].
    + destruct Hpre as (_ & _ & Hkid). destruct (pi_kids _ _ Hinv tid o child HO Hkid) as (oc & HOc & Hleaf).
      destruct (proj1 (pi_dom _ _ Hinv child) (ex_intro _ oc HOc)) as [pr Hpr]. destruct pr as [x|a' k'].
      * eexists. eapply gs_wait; [done|]. by exists x.
      * eapply leaf_moves; [done..|by left].
    + destruct (decide (p_slots p < pollConcurrency)%Z) as [Hlt|Hge]; [eexists; by eapply gs_acquire|].
      destruct (total_witness slot_of O) as (j & oj & HOj & Hpos).
      { rewrite <- (pi_slot _ _ Hinv). unfold pollConcurrency in Hge. lia. }
      assert (Hsl : o_slot oj = true) by (unfold slot_of in Hpos; destruct (o_slot oj); [done|lia]).
      destruct (proj1 (pi_dom _ _ Hinv j) (ex_intro _ oj HOj)) as [pr Hpr]. destruct pr as [x|a' k'].
      * destruct (pi_owns _ _ Hinv j _ _ Hpr HOj) as (_ & _ & Hno). congruence.
      * eapply leaf_moves; [done..|by right].
  - destruct Hlk as (t' & k' & Ho & Hk). destruct b as [b|]; [destruct todo; [by specialize (Hpend eq_refl)|]|destruct todo].
    + eexists. apply gs_walk. rewrite Hl. apply walk_sweep_act.
    + eexists. by eapply gs_apply_end.
    + eexists. apply gs_walk. rewrite Hl. apply walk_sweep_ask.
  - destruct Hlk as (t' & k' & Ho & Hk). destruct b as [b|]; [destruct todo; [by specialize (Hpend eq_refl)|]|destruct todo].
    + eexists. apply gs_walk. rewrite Hl. apply walk_reap_act.
    + eexists. by eapply gs_reap_end.
    + eexists. apply gs_walk. rewrite Hl. apply walk_reap_ask.
Qed.

Lemma pinv_world p O w : pinv p O → pinv (set_world (p_gw p, p_events p, w) p) O.
Proof. by intros []. Qed.

(** With every goroutine finished, nothing is held. *)
Lemma pinv_rest p O :
  pinv p O → (∀ tid pr, p_threads p !! tid = Some pr → finished_thread tid p) →
  p_lock p = Free ∧ p_slots p = 0%Z ∧ gw_bodyInFlight (p_gw p) = 0%Z ∧ ∀ id, leases_of id (gw_reg (p_gw p)) = 0%Z.
Proof.
  intros Hinv Hfin.
  assert (Hnone : ∀ i o, O !! i = Some o → nothing o).
  { intros i o HO. destruct (proj1 (pi_dom _ _ Hinv i) (ex_intro _ o HO)) as [pr Hpr].
    destruct (Hfin i pr Hpr) as [x Hx]. exact (pi_owns _ _ Hinv i _ _ Hx HO). }
  assert (Hlk : p_lock p = Free).
  { pose proof (pi_lock _ _ Hinv) as Hlk. unfold lock_ok in Hlk.
    destruct (p_lock p); [done|..]; destruct Hlk as (t' & k' & _ & Hk); destruct (Hfin _ _ Hk) as [x Hx]; congruence. }
  split_and!; [done|..].
  - rewrite (pi_slot _ _ Hinv). apply total_zero. intros i o HO. unfold slot_of. by destruct (Hnone i o HO) as (_ & _ & ->).
  - rewrite (pi_room _ _ Hinv). apply total_zero. intros i o HO. unfold room_of. by destruct (Hnone i o HO) as (_ & -> & _).
  - intros id. pose proof (inv_leases _ (reachable_inv _ (pi_sys _ _ Hinv)) id) as Hle. cbn in Hle. rewrite Hle.
    assert (Hem : leases O = ∅).
    { apply map_eq. intros i. rewrite leases_lookup, lookup_empty. destruct (O !! i) as [o|] eqn:E; [|done]. cbn. by destruct (Hnone i o E) as (-> & _). }
    by rewrite Hem.
Qed.

Lemma served_reachable p p' : preachable p → served p p' → preachable p'.
Proof. intros Hp [w Hst]. eapply preach_step; [by eapply preach_step; [|apply ps_world]|by apply ps_run]. Qed.

Lemma served_star p p' : rtc served p p' → preachable p → preachable p'.
Proof. induction 1 as [|p q p' Hst _ IH]; [done|]. intros Hp. by eapply IH, served_reachable. Qed.

(** The server at rest: every goroutine is done, and nothing is held. *)
Definition at_rest p : Prop :=
  (∀ tid pr, p_threads p !! tid = Some pr → finished_thread tid p) ∧
  p_lock p = Free ∧ p_slots p = 0%Z ∧ gw_bodyInFlight (p_gw p) = 0%Z ∧ ∀ id, leases_of id (gw_reg (p_gw p)) = 0%Z.

Definition done_routine (pr : routine) : bool := match pr with Ret _ => true | Act _ _ => false end.

Lemma rest_or_moves p : preachable p → at_rest p ∨ ∃ p', gstep p p'.
Proof.
  intros Hp. destruct (preachable_pinv p Hp) as [O Hinv].
  destruct (decide (map_Forall (λ _ pr, done_routine pr = true) (p_threads p))) as [Hall|Hno].
  - left. assert (Hfin : ∀ tid pr, p_threads p !! tid = Some pr → finished_thread tid p).
    { intros tid pr Hpr. specialize (Hall tid pr Hpr). destruct pr as [x|]; [by exists x|discriminate Hall]. }
    split; [exact Hfin|by eapply pinv_rest].
  - right. apply map_not_Forall in Hno as (tid & [x|a k] & Hpr & Hf); [by destruct Hf|by eapply unfinished_moves|apply _].
Qed.

(** ** Properties *)

(** C3: the server comes to rest: from every state it reaches, if no request arrives and no tick
    starts, every sequence of steps of its goroutines ends, however the clients answer and change
    meanwhile; it can only end at rest, so no goroutine ever waits for good, and a rest is reached:
    then every goroutine is done, the registry's lock is free, no slot of the semaphore is taken,
    no byte is accounted to an add, and no client is leased. *)
Theorem pool_rests p :
  preachable p →
  Acc (flip served) p ∧
  (∀ p', rtc served p p' → (∀ p'', ¬ gstep p' p'') → at_rest p') ∧
  (∃ p', rtc served p p' ∧ at_rest p').
Proof.
  intros Hp. split; [apply served_acc|]. split.
  - intros p' Hr Hno. destruct (rest_or_moves p') as [Hrest|[p'' Hst]]; [by eapply served_star|done|by destruct (Hno p'')].
  - induction (served_acc p) as [p _ IH]. destruct (rest_or_moves p Hp) as [Hrest|[q Hst]]; [by exists p|].
    assert (Hs : served p q) by (exists (p_world p); by destruct p).
    destruct (IH q Hs) as (p' & Hr & Hrest); [by eapply served_reachable|]. exists p'. split; [by eapply rtc_l|done].
Qed.
End ends.

(** ** Witness *)

Section witnesses.
#[local] Existing Instance Gateway.demo_gw_quote.
#[local] Existing Instance Gateway.demo_gw_factory.
#[local] Existing Instance Gateway.demo_gw_ops.
#[local] Existing Instance ThreadsSpec.demo_pool_conv.

(** The two adds of [pool5] end, and leave nothing behind. *)
Lemma pool_rests_witness : ∃ p', rtc served pool5 p' ∧ at_rest p'.
Proof. apply (pool_rests pool5 pool5_reachable). Defined.
End witnesses.
