(* ===== verification/Lifecycle.v ===== *)
(** * cmd/server/main.go: the life of the process

    [main], step by step, around the pool of goroutines of Threads.v: the publisher is connected, the
    jobs that run already are adopted, the poll loop and the listener are started, a signal is waited
    for, /readyz is turned off, the listener is closed, the handlers are waited for, the publisher is
    closed.  [process_order] says what that order guarantees and what it leaves out, [shutdown_ends] that
    a shutdown is over without its deadline. *)

From S2P Require Import Prelude GoStrings Adapters Responses Clients Registry RegistrySpec Events Interfaces GoFloat Jobs System Backends Gateway Programs Threads ThreadsSpec Liveness.

(** What [main] does next. *)
Inductive phase :=
  | Connecting             (* events.NewPublisher *)
  | Adopting (boot : nat)  (* gw.adoptExisting, by this goroutine *)
  | Serving                (* <-ctx.Done() *)
  | Draining               (* stopping is set; srv.Shutdown closes the listener *)
  | Closing                (* the listener is closed; srv.Shutdown waits *)
  | Closed                 (* srv.Shutdown has returned; the deferred calls *)
  | Leaving                (* the publisher is closed *)
  | Exited (code : Z).

Section lifecycle.
Context {A W P Cert Pool : Type} `{ClientFactory A} `{AdapterOps A W} `{Quote} `{FloatConv} `{KafkaEnv P Cert Pool W}.

(** [pc_signal]: [ctx] is done; [pc_loop]: the poll loop runs; [pc_handlers] answer requests; [pc_deadline]:
    [shutdownCtx] is over. *)
Record process := MkProcess {
  pc_pool : pool (A := A) (W := W);
  pc_phase : phase;
  pc_signal : bool;
  pc_loop : bool;
  pc_handlers : gset nat;
  pc_deadline : bool;
  pc_pub : option (Publisher P)
}.

Definition start (r : Registry A) (w : W) : process := MkProcess (boot_pool r w) Connecting false false ∅ false None.

Definition with_pool (p : pool) (s : process) : process :=
  MkProcess p (pc_phase s) (pc_signal s) (pc_loop s) (pc_handlers s) (pc_deadline s) (pc_pub s).
Definition at_phase (ph : phase) (s : process) : process :=
  MkProcess (pc_pool s) ph (pc_signal s) (pc_loop s) (pc_handlers s) (pc_deadline s) (pc_pub s).
Definition with_loop (b : bool) (s : process) : process :=
  MkProcess (pc_pool s) (pc_phase s) (pc_signal s) b (pc_handlers s) (pc_deadline s) (pc_pub s).
Definition with_signal (s : process) : process :=
  MkProcess (pc_pool s) (pc_phase s) true (pc_loop s) (pc_handlers s) (pc_deadline s) (pc_pub s).
Definition with_handler (tid : nat) (s : process) : process :=
  MkProcess (pc_pool s) (pc_phase s) (pc_signal s) (pc_loop s) ({[tid]} ∪ pc_handlers s) (pc_deadline s) (pc_pub s).
Definition with_deadline (s : process) : process :=
  MkProcess (pc_pool s) (pc_phase s) (pc_signal s) (pc_loop s) (pc_handlers s) true (pc_pub s).
Definition with_pub (pub : option (Publisher P)) (s : process) : process :=
  MkProcess (pc_pool s) (pc_phase s) (pc_signal s) (pc_loop s) (pc_handlers s) (pc_deadline s) pub.

Definition with_world (w : W) (p : pool (A := A) (W := W)) : pool := set_world (p_gw p, p_events p, w) p.

Definition exited (ph : phase) : bool := match ph with Exited _ => true | _ => false end.
(** The listener accepts. *)
Definition listening (ph : phase) : bool := match ph with Serving | Draining => true | _ => false end.
(** The signals are caught, since [signal.NotifyContext]. *)
Definition notified (ph : phase) : bool := match ph with Connecting | Exited _ => false | _ => true end.

Definition handlers_done (s : process) : Prop := ∀ tid, tid ∈ pc_handlers s → finished_thread tid (pc_pool s).
Definition tick_done (p : pool (A := A) (W := W)) : Prop := ∀ last, p_poll p = Some last → finished_thread last p.

(** Who takes a step: [main], one of the other goroutines, or what is outside the process. *)
Inductive actor := Main | Loop | Routine | Outside.

Inductive pcstep (cfg : Config) : actor → process → process → Prop :=
  | pc_connected s tid pub w :
      pc_phase s = Connecting → NewPublisher cfg (p_world (pc_pool s)) = (Ok pub, w) → p_threads (pc_pool s) !! tid = None →
      pcstep cfg Main s
        (with_pub (Some pub) (at_phase (Adopting tid) (with_pool (set_thread tid (request_prog RqBoot) (with_world w (pc_pool s))) s)))
  | pc_refused s e w :
      pc_phase s = Connecting → NewPublisher cfg (p_world (pc_pool s)) = (Err e, w) →
      pcstep cfg Main s (at_phase (Exited 1) (with_pool (with_world w (pc_pool s)) s))
  | pc_adopted s boot :
      pc_phase s = Adopting boot → finished_thread boot (pc_pool s) → pcstep cfg Main s (with_loop true (at_phase Serving s))
  | pc_stop s :
      pc_phase s = Serving → pc_signal s = true →
      pcstep cfg Main s (at_phase Draining
        (with_pool (set_world (shutdown (p_gw (pc_pool s)), p_events (pc_pool s), p_world (pc_pool s)) (pc_pool s)) s))
  | pc_unlisten s : pc_phase s = Draining → pcstep cfg Main s (at_phase Closing s)
  | pc_waited s :
      pc_phase s = Closing → handlers_done s ∨ pc_deadline s = true → pcstep cfg Main s (at_phase Closed s)
  | pc_close s pub r w :
      pc_phase s = Closed → Close (pc_pub s) (p_world (pc_pool s)) = (pub, (r, w)) →
      pcstep cfg Main s (with_pub pub (at_phase Leaving (with_pool (with_world w (pc_pool s)) s)))
  | pc_exit s : pc_phase s = Leaving → pcstep cfg Main s (at_phase (Exited 0) s)
  | pc_tick s tid clk :
      exited (pc_phase s) = false → pc_loop s = true → p_threads (pc_pool s) !! tid = None → tick_done (pc_pool s) →
      pcstep cfg Loop s (with_pool (set_poll tid (set_thread tid (background (pollAll_prog clk)) (pc_pool s))) s)
  | pc_loop_ends s :
      exited (pc_phase s) = false → pc_loop s = true → pc_signal s = true → tick_done (pc_pool s) →
      pcstep cfg Routine s (with_loop false s)
  | pc_run s p' : exited (pc_phase s) = false → gstep (pc_pool s) p' → pcstep cfg Routine s (with_pool p' s)
  | pc_request s tid rq :
      listening (pc_phase s) = true → p_threads (pc_pool s) !! tid = None →
      pcstep cfg Outside s (with_handler tid (with_pool (set_thread tid (request_prog rq) (pc_pool s)) s))
  | pc_listen_fails s : listening (pc_phase s) = true → pcstep cfg Outside s (at_phase (Exited 1) s)
  | pc_interrupt s : notified (pc_phase s) = true → pcstep cfg Outside s (with_signal s)
  | pc_time_over s : pc_phase s = Closing → pcstep cfg Outside s (with_deadline s)
  | pc_world s w : exited (pc_phase s) = false → pcstep cfg Outside s (with_pool (with_world w (pc_pool s)) s).

Definition anystep (cfg : Config) (s s' : process) : Prop := ∃ a, pcstep cfg a s s'.

Inductive preached (cfg : Config) : process → Prop :=
  | pr_start r w : boot_registry r → preached cfg (start r w)
  | pr_step s s' : preached cfg s → anystep cfg s s' → preached cfg s'.

(** ** What the pool keeps *)

Lemma finished_set tid tid' x a k pr (p : pool (A := A) (W := W)) :
  p_threads p !! tid' = Some (Act a k) → p_threads p !! tid = Some (Ret x) → p_threads (set_thread tid' pr p) !! tid = Some (Ret x).
Proof. intros Ha Hr. cbn. rewrite lookup_insert_ne; [done|]. congruence. Qed.

Lemma finished_gstep tid (p p' : pool (A := A) (W := W)) : gstep p p' → finished_thread tid p → finished_thread tid p'.
Proof.
  intros Hst [x Hx]. exists x.
  inversion Hst as [? ? ? ? ? ? Ht|? ? ? ? Ht|? ? ? ? ? Ht Hn|? ? ? ? Ht|? ? ? Ht|? ? ? Ht|? ? ? ? ? ? Ht
    |? ? ? ? ? ? ? ? Ht|? ? ? ? Ht|? ? ? ? ? ? Ht|]; subst; try done; try (by eapply (finished_set _ _ _ _ _ _ p)).
  cbn. rewrite lookup_insert_ne by congruence. by eapply (finished_set _ _ _ _ _ _ p).
Qed.

Lemma finished_new tid tid' pr (p : pool (A := A) (W := W)) :
  p_threads p !! tid' = None → finished_thread tid p → finished_thread tid (set_thread tid' pr p).
Proof. intros Hn [x Hx]. exists x. cbn. rewrite lookup_insert_ne; [done|]. congruence. Qed.

Lemma perform_stopping (a : action (A := A) (W := W)) st : gw_stopping (perform a st).2.1.1 = gw_stopping st.1.1.
Proof.
  destruct st as [[g evs] w]. destruct a; cbn; unfold on_gateway, on_registry, on_jobs, on_world; cbn; repeat (case_match; simplify_eq; cbn); try done.
Qed.

Lemma gstep_stopping (p p' : pool (A := A) (W := W)) : gstep p p' → gw_stopping (p_gw p') = gw_stopping (p_gw p).
Proof.
  intros Hst. inversion Hst; subst; try done. cbn.
  match goal with Hp : perform ?a ?st = _ |- _ => pose proof (perform_stopping a st) as Hs; rewrite Hp in Hs end. exact Hs.
Qed.

(** ** What the process keeps *)

(** After the signal was seen, and before [main] returned. *)
Definition stopped (ph : phase) : bool := match ph with Draining | Closing | Closed | Leaving => true | _ => false end.
Definition booted (ph : phase) : bool := match ph with Connecting | Adopting _ => false | _ => true end.
Definition waited (ph : phase) : bool := match ph with Closed | Leaving | Exited 0 => true | _ => false end.
Definition closed (ph : phase) : bool := match ph with Leaving | Exited 0 => true | _ => false end.

Record linv (s : process) : Prop := {
  li_pool : preachable (pc_pool s);
  li_stop : exited (pc_phase s) = false → gw_stopping (p_gw (pc_pool s)) = stopped (pc_phase s);
  li_signal : stopped (pc_phase s) = true ∨ waited (pc_phase s) = true → pc_signal s = true;
  li_boot : booted (pc_phase s) = false → pc_handlers s = ∅ ∧ pc_loop s = false ∧ p_poll (pc_pool s) = None;
  li_handlers : ∀ tid, tid ∈ pc_handlers s → is_Some (p_threads (pc_pool s) !! tid);
  li_waited : waited (pc_phase s) = true → handlers_done s ∨ pc_deadline s = true;
  li_pub : match pc_pub s with
           | Some pub => pc_phase s ≠ Connecting ∧ pub_closed pub = closed (pc_phase s)
           | None => pc_phase s = Connecting ∨ pc_phase s = Exited 1
           end
}.

Lemma NewPublisher_open cfg (w w' : W) pub : NewPublisher cfg w = (Ok pub, w') → pub_closed (P := P) pub = false.
Proof. unfold NewPublisher. repeat case_match; by intros [= <- _]. Qed.

(** The pool's own steps. *)
Lemma linv_run s p' :
  linv s → exited (pc_phase s) = false → pstep (pc_pool s) p' → gw_stopping (p_gw p') = gw_stopping (p_gw (pc_pool s)) →
  (∀ tid, is_Some (p_threads (pc_pool s) !! tid) → is_Some (p_threads p' !! tid)) →
  (∀ tid, finished_thread tid (pc_pool s) → finished_thread tid p') →
  (booted (pc_phase s) = false → p_poll p' = p_poll (pc_pool s)) →
  linv (with_pool p' s).
Proof.
  intros [Hp Hs Hsi Hb Hh Hw Hpub] He Hst Hgw Hdom Hfin Hpoll. constructor; cbn; auto.
  - by eapply preach_step.
  - intros _. rewrite Hgw. auto.
  - intros Hbo. destruct (Hb Hbo) as (? & ? & Hn). rewrite Hpoll by done. auto.
  - intros Hwa. destruct (Hw Hwa) as [Hd|Hd]; [left|by right]. intros tid Ht. apply Hfin. by apply Hd.
Qed.

Lemma set_thread_dom tid tid' pr (p : pool (A := A) (W := W)) :
  is_Some (p_threads p !! tid) → is_Some (p_threads (set_thread tid' pr p) !! tid).
Proof. intros Hs. cbn. destruct (decide (tid' = tid)) as [->|]; [rewrite lookup_insert_eq; by eexists|by rewrite lookup_insert_ne]. Qed.

Lemma gstep_dom tid (p p' : pool (A := A) (W := W)) : gstep p p' → is_Some (p_threads p !! tid) → is_Some (p_threads p' !! tid).
Proof. intros Hst Hs. inversion Hst; subst; try done; repeat apply set_thread_dom; done. Qed.

Lemma gstep_poll (p p' : pool (A := A) (W := W)) : gstep p p' → p_poll p' = p_poll p.
Proof. intros Hst. by inversion Hst. Qed.

(** The fields a step leaves as they were, or whose condition it falsifies. *)
Ltac linv_easy := constructor; cbn; try done; try (by intros []); auto.

Lemma linv_step cfg a s s' : linv s → pcstep cfg a s s' → linv s'.
Proof.
  intros Hinv Hst. pose proof Hinv as [Hp Hs Hsi Hb Hh Hw Hpub]. destruct s as [p ph sig lp hs dl pub].
  inversion Hst as [? tid pub' w Hph Hnew Hn|? e w Hph Hnew|? boot Hph Hfin|? Hph Hsig|? Hph|? Hph Hor|? pub' r w Hph Hcl|? Hph
    |? tid clk He Hlp Hn Hlast|? He Hlp Hsig Hlast|? p' He Hg|? tid rq Hl Hn|? Hl|? Hno|? Hph|? w He]; subst; cbn in *; subst; cbn in *.
  - destruct (Hb eq_refl) as (-> & -> & Hpo). linv_easy.
    + apply (preach_step (with_world w p)); [by eapply preach_step; [|apply ps_world]|]. by apply (ps_request (with_world w p) tid RqBoot).
    + split; [done|]. by eapply NewPublisher_open.
  - linv_easy.
    + eapply preach_step; [done|apply ps_world].
    + destruct pub as [pub'|]; [by destruct Hpub|by right].
  - linv_easy. destruct pub as [pub'|]; by destruct Hpub.
  - linv_easy; [eapply preach_step; [done|apply ps_stop]|]. destruct pub as [pub'|]; by destruct Hpub.
  - linv_easy. destruct pub as [pub'|]; by destruct Hpub.
  - linv_easy. destruct pub as [pub'|]; by destruct Hpub.
  - linv_easy; [eapply preach_step; [done|apply ps_world]|].
    destruct pub as [[pr pre cl]|]; [|by destruct Hpub]. cbn in Hcl. by injection Hcl as <- _.
  - linv_easy. destruct pub as [pub'|]; by destruct Hpub.
  - apply (linv_run _ _ Hinv); cbn; try done; [by apply ps_tick|intros t; apply set_thread_dom|intros t; by apply finished_new|].
    intros Hbo. destruct (Hb Hbo) as (_ & Hl & _). congruence.
  - linv_easy. intros Hbo. destruct (Hb Hbo) as (? & ? & ?). auto.
  - apply (linv_run _ _ Hinv); cbn; try done; [by apply ps_run|by apply gstep_stopping|intros t; by apply gstep_dom|intros t; by apply finished_gstep|].
    intros _. by apply gstep_poll.
  - assert (Hi : linv (with_pool (set_thread tid (request_prog rq) p) (MkProcess p ph sig lp hs dl pub))).
    { apply (linv_run _ _ Hinv); cbn; try done; [by destruct ph|by apply ps_request|intros t; apply set_thread_dom|intros t; by apply finished_new]. }
    destruct Hi as [Hp' Hs' Hsi' Hb' Hh' Hw' Hpub']. cbn in *. linv_easy; [by destruct ph| |by destruct ph, pub].
    intros t [->%elem_of_singleton|Ht]%elem_of_union; [rewrite lookup_insert_eq; by eexists|by apply Hh'].
  - linv_easy. destruct pub as [pub'|]; [|by right]. destruct Hpub as [_ ->]. by destruct ph.
  - linv_easy.
  - linv_easy.
  - apply (linv_run _ _ Hinv); cbn; try done. apply ps_world.
Qed.

Lemma preached_linv cfg s : preached cfg s → linv s.
Proof.
  induction 1 as [r w Hb|s s' _ IH [a Hst]]; [|by eapply linv_step].
  linv_easy. by apply preach_boot.
Qed.

(** ** The shutdown *)

(** A step of [main] or of a goroutine, after the clients changed in any way: no signal, no deadline, and
    the poll loop, whose context is done, does not tick again. *)
Definition quiet (cfg : Config) (s s' : process) : Prop :=
  ∃ w a, (a = Main ∨ a = Routine) ∧ pcstep cfg a (with_pool (with_world w (pc_pool s)) s) s'.

(** The phases left, and the end of the poll loop. *)
Definition steps_left (s : process) : nat :=
  match pc_phase s with Closing => 6 | Closed => 4 | Leaving => 2 | _ => 0 end + if pc_loop s then 1 else 0.

Definition shutting_down (ph : phase) : bool := match ph with Closing | Closed | Leaving => true | _ => false end.
Definition ending_phase (ph : phase) : bool := shutting_down ph || match ph with Exited 0 => true | _ => false end.

Lemma quiet_step cfg s s' :
  quiet cfg s s' → ending_phase (pc_phase s) = true →
  ending_phase (pc_phase s') = true ∧ pc_deadline s' = pc_deadline s ∧ pc_handlers s' = pc_handlers s ∧
  (steps_left s' < steps_left s ∨ steps_left s' = steps_left s ∧ served (pc_pool s) (pc_pool s')).
Proof.
  intros (w & a & Ha & Hst) He. destruct s as [p ph sig lp hs dl pub]. cbn in *.
  inversion Hst as [? tid pub' w' Hph Hnew Hn|? e w' Hph Hnew|? boot Hph Hfin|? Hph Hsig|? Hph|? Hph Hor|? pub' r w' Hph Hcl|? Hph
    |? tid clk Hx Hlp Hn Hlast|? Hx Hlp Hsig Hlast|? p' Hx Hg|? tid rq Hl Hn|? Hl|? Hno|? Hph|? w' Hx]; subst; cbn in *; subst; try done;
    try (by destruct Ha).
  - split_and!; try done. left. cbn. destruct lp; cbn; lia.
  - split_and!; try done. left. cbn. destruct lp; cbn; lia.
  - split_and!; try done. left. cbn. destruct lp; cbn; lia.
  - split_and!; try done. left. unfold steps_left. cbn. lia.
  - split_and!; try done. right. split; [done|]. by exists w.
Qed.

Lemma quiet_acc cfg n s : steps_left s < n → ending_phase (pc_phase s) = true → Acc (flip (quiet cfg)) s.
Proof.
  revert s. induction n as [|n IHn]; intros s Hn He; [lia|].
  remember (pc_pool s) as p eqn:Ep. revert s Ep Hn He. induction (served_acc p) as [p _ IHp]. intros s -> Hn He.
  constructor. intros s' Hq. destruct (quiet_step cfg s s' Hq He) as (He' & _ & _ & [Hlt|[Heq Hs]]).
  - apply IHn; [lia|done].
  - by eapply IHp; [exact Hs|reflexivity|lia|].
Qed.

Lemma quiet_preached cfg s s' : preached cfg s → exited (pc_phase s) = false → quiet cfg s s' → preached cfg s'.
Proof.
  intros Hp He (w & a & _ & Hst). eapply pr_step; [|by exists a].
  eapply pr_step; [exact Hp|]. exists Outside. by apply pc_world.
Qed.

Lemma with_world_same (s : process) : with_pool (with_world (p_world (pc_pool s)) (pc_pool s)) s = s.
Proof. by destruct s as [[]]. Qed.

Lemma quiet_main cfg s s' : pcstep cfg Main s s' → quiet cfg s s'.
Proof. intros Hst. exists (p_world (pc_pool s)), Main. rewrite with_world_same. auto. Qed.

Lemma quiet_run cfg s p' : exited (pc_phase s) = false → gstep (pc_pool s) p' → quiet cfg s (with_pool p' s).
Proof. intros He Hg. exists (p_world (pc_pool s)), Routine. rewrite with_world_same. split; [by right|]. by apply pc_run. Qed.

(** While a shutdown is not over, it can go on. *)
Lemma shutdown_moves cfg s : linv s → shutting_down (pc_phase s) = true → ∃ s', quiet cfg s s'.
Proof.
  intros Hinv Hs. destruct (pc_phase s) eqn:Hph; try done.
  - destruct (rest_or_moves (pc_pool s) (li_pool _ Hinv)) as [[Hfin _]|[p' Hg]].
    + eexists. apply quiet_main, pc_waited; [done|]. left. intros tid Ht. destruct (li_handlers _ Hinv tid Ht) as [pr Hpr]. by eapply Hfin.
    + eexists. apply quiet_run; [by rewrite Hph|exact Hg].
  - destruct (Close (pc_pub s) (p_world (pc_pool s))) as [pub [r w]] eqn:Hc. eexists. apply quiet_main. by eapply pc_close.
  - eexists. by apply quiet_main, pc_exit.
Qed.

Lemma quiet_star cfg s s' :
  rtc (quiet cfg) s s' → preached cfg s → ending_phase (pc_phase s) = true →
  preached cfg s' ∧ ending_phase (pc_phase s') = true ∧ pc_deadline s' = pc_deadline s ∧ pc_handlers s' = pc_handlers s.
Proof.
  induction 1 as [|s1 s2 s3 Hq _ IH]; [done|]. intros Hp He. destruct (quiet_step cfg s1 s2 Hq He) as (He' & Hd & Hh & _).
  assert (Hx : exited (pc_phase s1) = false).
  { destruct Hq as (w & a & Ha & Hst). destruct s1 as [p ph sig lp hs dl pub]. cbn in *. destruct ph; try done. exfalso.
    inversion Hst; subst; cbn in *; try done; by destruct Ha. }
  destruct IH as (? & ? & Hd' & Hh'); [by eapply quiet_preached|done|]. rewrite Hd', Hh'. done.
Qed.

(** ** Properties *)

(** C17: what the order of [main] guarantees, whatever happens beside it.  The gateway is a reachable state of the
    pool of goroutines from its first moment to the last.  /readyz is answered 200 exactly while the signal has not
    been seen and the publisher is connected.  No request is answered and no job polled before the jobs that
    ran already are adopted.  The publisher is closed only after a signal, when every handler has answered or the deadline
    of the shutdown is over, and the exit code is 0 only then.  But [main] waits for nothing else: from every
    state that serves with its handlers done, a shutdown can close the publisher, without its deadline, while
    every poll and every adoption is where it was, about to publish. *)
Theorem process_order cfg s :
  preached cfg s →
  preachable (pc_pool s) ∧
  (exited (pc_phase s) = false →
     re_code (handleReady (Ready (pc_pub s)) (p_gw (pc_pool s))) =
     match pc_phase s with Adopting _ | Serving => 200%Z | _ => 503%Z end) ∧
  (booted (pc_phase s) = false → pc_handlers s = ∅ ∧ p_poll (pc_pool s) = None) ∧
  (∀ pub, pc_pub s = Some pub → pub_closed pub = true → pc_signal s = true ∧ (handlers_done s ∨ pc_deadline s = true)) ∧
  (pc_phase s = Exited 0 → ∃ pub, pc_pub s = Some pub ∧ pub_closed pub = true) ∧
  (pc_phase s = Serving → handlers_done s →
     ∃ s', rtc (anystep cfg) s s' ∧ pc_phase s' = Leaving ∧ pc_deadline s' = pc_deadline s ∧
           p_threads (pc_pool s') = p_threads (pc_pool s)).
Proof.
  intros Hs. pose proof (preached_linv cfg s Hs) as Hinv. destruct Hinv as [Hp Hst Hsi Hb Hh Hw Hpub]. split_and!.
  - exact Hp.
  - intros He. unfold handleReady. rewrite (Hst He). destruct (pc_pub s) as [[pr pre cl]|]; cbn in *.
    + destruct Hpub as [Hne ->]. by destruct (pc_phase s).
    + destruct Hpub as [E|E]; rewrite E in *; done.
  - intros Hbo. destruct (Hb Hbo) as (? & ? & ?). done.
  - intros pub E Hc. rewrite E, Hc in Hpub. destruct Hpub as [_ Hpub]. destruct (pc_phase s) as [|boot| | | | | |[]]; try done; (split; [apply Hsi; by right|by apply Hw]).
  - intros E. rewrite E in Hpub. destruct (pc_pub s) as [pub|]; [exists pub; by destruct Hpub|by destruct Hpub].
  - intros E Hd. destruct (Close (pc_pub s) (p_world (pc_pool s))) as [pub [r w]] eqn:Hc. destruct s as [p ph sig lp hs dl pb]. cbn in *. subst ph.
    eexists. split.
    + eapply rtc_l; [exists Outside; by apply pc_interrupt|]. eapply rtc_l; [exists Main; by apply pc_stop|].
      eapply rtc_l; [exists Main; by apply pc_unlisten|]. eapply rtc_l; [exists Main; by apply pc_waited; [|left]|].
      eapply rtc_l; [exists Main; by eapply pc_close|]. apply rtc_refl.
    + done.
Qed.

(** C18: a shutdown ends: once the listener is closed, if the poll loop does not tick again, every sequence of steps is
    finite, however the clients answer and change meanwhile; it can only end with the process gone, exit code 0, and
    the publisher closed; without the deadline, every request that was being answered is answered; and the end is reached. *)
Theorem shutdown_ends cfg s :
  preached cfg s → pc_phase s = Closing →
  Acc (flip (quiet cfg)) s ∧
  (∀ s', rtc (quiet cfg) s s' → (∀ s'', ¬ quiet cfg s' s'') →
     pc_phase s' = Exited 0 ∧ (∃ pub, pc_pub s' = Some pub ∧ pub_closed pub = true) ∧ pc_handlers s' = pc_handlers s ∧
     (pc_deadline s = false → handlers_done s')) ∧
  (∃ s', rtc (quiet cfg) s s' ∧ pc_phase s' = Exited 0).
Proof.
  intros Hs Hph. assert (He : ending_phase (pc_phase s) = true) by (by rewrite Hph).
  pose proof (quiet_acc cfg _ s (Nat.lt_succ_diag_r _) He) as Hacc. split; [exact Hacc|]. split.
  - intros s' Hr Hno. destruct (quiet_star cfg s s' Hr Hs He) as (Hs' & He' & Hd & Hh).
    pose proof (preached_linv cfg s' Hs') as Hinv.
    assert (Hx : pc_phase s' = Exited 0).
    { destruct (shutting_down (pc_phase s')) eqn:Hsd; [destruct (shutdown_moves cfg s' Hinv Hsd) as [s'' Hq]; by destruct (Hno s'')|].
      unfold ending_phase in He'. rewrite Hsd in He'. by destruct (pc_phase s') as [| | | | | | |[]]. }
    pose proof (li_pub _ Hinv) as Hpub. pose proof (li_waited _ Hinv) as Hw. rewrite Hx in Hpub, Hw. split_and!; [done| |done|].
    + destruct (pc_pub s') as [pub|]; [exists pub; by destruct Hpub|by destruct Hpub].
    + intros Hdl. destruct (Hw eq_refl) as [|]; [done|congruence].
  - clear Hph. induction Hacc as [s _ IH]. destruct (shutting_down (pc_phase s)) eqn:Hsd.
    + destruct (shutdown_moves cfg s (preached_linv cfg s Hs) Hsd) as [s1 Hq].
      destruct (IH s1 Hq) as (s' & Hr & Hx); [eapply quiet_preached; [done| |done]; by destruct (pc_phase s)|by apply (quiet_step cfg s s1 Hq He)|].
      exists s'. split; [by eapply rtc_l|done].
    + exists s. split; [apply rtc_refl|]. unfold ending_phase in He. rewrite Hsd in He. by destruct (pc_phase s) as [| | | | | | |[]].
Qed.
End lifecycle.

(** What [main] registers before it connects is such a registry. *)
Lemma registerEnvClients_boot `{Quote} (Getenv : string → string) : boot_registry (registerEnvClients Getenv (NewRegistry [])).
Proof.
  unfold registerEnvClients. assert (Hc : ∀ b : backend, colon_free (backend_Name b) ∨ ∃ j, b = BJdownloader j).
  { intros [n|o|q|j]; [left|left|left|right; by exists j]; apply (bool_decide_eq_true_1 (colon_free _)); vm_compute; reflexivity. }
  repeat case_bool_decide; repeat first [apply boot_empty|apply boot_env; [|by edestruct Hc as [Hf|[j [=]]]; [exact Hf|]]].
Qed.

(** ** Witnesses *)

Section witnesses.
#[local] Existing Instance Gateway.demo_gw_quote.
#[local] Existing Instance Gateway.demo_gw_factory.
#[local] Existing Instance Gateway.demo_gw_ops.
#[local] Existing Instance ThreadsSpec.demo_pool_conv.

(** A Kafka that takes everything. *)
#[local] Instance demo_brokers : KafkaEnv unit unit unit nat := {|
  newSyncProducer := λ _ _ w, (Ok tt, w);
  SendMessage := λ _ _ _ _ w, (Ok tt, w);
  Producer_Close := λ _ w, (Ok tt, S w);
  LoadX509KeyPair := λ _ _, Err (ErrorString "open");
  NewCertPool := tt;
  ReadFile := λ f, Err (ErrorString "open");
  AppendCertsFromPEM := λ _ _, None
|}.

Definition demo_cfg : Config := MkConfig "kafka:9092" EmptyString EmptyString EmptyString "stube.".

(** [n] actions of a goroutine, and whether the lock was free and each action plain. *)
Fixpoint run_thread (n tid : nat) (p : pool (A := string) (W := nat)) : pool :=
  match n with O => p | S n => run_thread n tid (after_act tid p) end.

Definition act_plain (tid : nat) (p : pool (A := string) (W := nat)) : bool :=
  match p_lock p, p_threads p !! tid with Free, Some (Act a _) => plain a | _, _ => false end.

Fixpoint run_plain (n tid : nat) (p : pool (A := string) (W := nat)) : bool :=
  match n with O => true | S n => act_plain tid p && run_plain n tid (after_act tid p) end.

Lemma gstep_after_act tid p : act_plain tid p = true → gstep p (after_act tid p).
Proof.
  unfold act_plain, after_act. destruct (p_lock p) eqn:Hl; try done. destruct (p_threads p !! tid) as [[x|a k]|] eqn:E; try done.
  intros Hp. destruct (perform a _) as [r st] eqn:Hperf. by eapply gs_act.
Qed.

Lemma run_thread_preached n tid (s : process (A := string) (W := nat) (P := unit)) :
  exited (pc_phase s) = false → run_plain n tid (pc_pool s) = true → preached demo_cfg s →
  preached demo_cfg (with_pool (run_thread n tid (pc_pool s)) s).
Proof.
  revert s. induction n as [|n IH]; intros s He Hr Hs; [by destruct s|].
  cbn [run_plain] in Hr. apply andb_true_iff in Hr as [Ha Hr]. cbn [run_thread].
  change (preached demo_cfg (with_pool (run_thread n tid (pc_pool (with_pool (after_act tid (pc_pool s)) s))) (with_pool (after_act tid (pc_pool s)) s))).
  apply IH; [done|exact Hr|]. eapply pr_step; [exact Hs|]. exists Routine. apply pc_run; [done|]. by apply gstep_after_act.
Qed.

Definition life0 : process (A := string) (W := nat) (P := unit) := start demo_gw_reg 0%nat.
Definition life1 : process :=
  with_pub (Some (MkPublisher (Some tt) "stube." false))
    (at_phase (Adopting 0) (with_pool (set_thread 0 (request_prog RqBoot) (with_world 0%nat (pc_pool life0))) life0)).
(** The adoption at boot is over; an add has been admitted; the signal has come; the listener is closed. *)
Definition life2 : process := with_loop true (at_phase Serving (with_pool (run_thread 6 0 (pc_pool life1)) life1)).
Definition life3 : process := with_handler 1 (with_pool (set_thread 1 (request_prog demo_rq) (pc_pool life2)) life2).
Definition told (s : process (A := string) (W := nat) (P := unit)) : process :=
  at_phase Closing (at_phase Draining
    (with_pool (set_world (shutdown (p_gw (pc_pool s)), p_events (pc_pool s), p_world (pc_pool s)) (pc_pool s)) (with_signal s))).

Lemma told_preached s : preached demo_cfg s → pc_phase s = Serving → preached demo_cfg (told s).
Proof.
  intros Hs Hph. eapply pr_step; [|exists Main; apply pc_unlisten; reflexivity].
  eapply pr_step; [|exists Main; apply (pc_stop _ (with_signal s)); done].
  eapply pr_step; [exact Hs|]. exists Outside. apply pc_interrupt. by rewrite Hph.
Qed.

Definition life4 : process := told (with_pool (run_thread 1 1 (pc_pool life3)) life3).

Lemma life1_preached : preached demo_cfg life1.
Proof.
  assert (Hc : pcstep demo_cfg Main life0 life1).
  { apply (pc_connected demo_cfg life0 0 (MkPublisher (Some tt) "stube." false) 0%nat); [reflexivity|vm_compute; reflexivity|reflexivity]. }
  apply (pr_step _ life0); [apply pr_start|by exists Main].
  apply (boot_env demo_gw_spec "nzbget"); [apply boot_empty|]. apply (bool_decide_eq_true_1 (colon_free _)). vm_compute. reflexivity.
Qed.

Lemma life2_preached : preached demo_cfg life2.
Proof.
  assert (Hrun : preached demo_cfg (with_pool (run_thread 6 0 (pc_pool life1)) life1)).
  { apply run_thread_preached; [reflexivity|vm_compute; reflexivity|apply life1_preached]. }
  assert (Hfin : finished_thread 0 (run_thread 6 0 (pc_pool life1))) by (exists None; vm_compute; reflexivity).
  unfold life2. set (p := run_thread 6 0 (pc_pool life1)) in *. clearbody p.
  eapply pr_step; [exact Hrun|]. exists Main. by apply (pc_adopted _ (with_pool p life1) 0).
Qed.

Lemma life4_preached : preached demo_cfg life4.
Proof.
  assert (Hn : p_threads (pc_pool life2) !! 1%nat = None) by (vm_compute; reflexivity).
  assert (Hph : pc_phase life2 = Serving) by reflexivity.
  assert (H3 : preached demo_cfg life3).
  { eapply pr_step; [apply life2_preached|]. exists Outside. apply (pc_request _ life2 1 demo_rq); [by rewrite Hph|exact Hn]. }
  assert (H4 : preached demo_cfg (with_pool (run_thread 1 1 (pc_pool life3)) life3)).
  { apply run_thread_preached; [reflexivity|vm_compute; reflexivity|exact H3]. }
  by apply told_preached.
Qed.

Lemma process_order_witness :
  re_code (handleReady (Ready (pc_pub life2)) (p_gw (pc_pool life2))) = 200%Z ∧
  re_code (handleReady (Ready (pc_pub life4)) (p_gw (pc_pool life4))) = 503%Z ∧
  ∃ s', rtc (anystep demo_cfg) life2 s' ∧ pc_phase s' = Leaving.
Proof.
  destruct (process_order demo_cfg life2 life2_preached) as (_ & H2 & _ & _ & _ & Hleave).
  destruct (process_order demo_cfg life4 life4_preached) as (_ & H6 & _). split_and!.
  - rewrite H2; vm_compute; reflexivity.
  - rewrite H6; vm_compute; reflexivity.
  - assert (Hh : pc_handlers life2 = ∅) by (vm_compute; reflexivity).
    destruct Hleave as (s' & Hr & Hp & _); [vm_compute; reflexivity|intros tid Ht; exfalso; rewrite Hh in Ht; exact (not_elem_of_empty tid Ht)|].
    exists s'. split; [exact Hr|exact Hp].
Defined.

(** The add that was being answered when the signal came is answered. *)
Lemma shutdown_ends_witness :
  ∃ s', rtc (quiet demo_cfg) life4 s' ∧ pc_phase s' = Exited 0.
Proof. apply (shutdown_ends demo_cfg life4 life4_preached). reflexivity. Defined.
End witnesses.
